(* ===== verification/_CoqProject ===== *)
-Q . S2P
Prelude.v
Doubles.v
ByteOrder.v
Protocol.v
Prices.v
Serialization.v
Parser.v
SequenceTracker.v
FeedHandler.v
OrderedMap.v
OrderBook.v
BookSpec.v
BookRep.v
BookProofs.v
BookQueries.v
BookTheorems.v
BookBuilder.v
EndToEnd.v
Replay.v
WireTheorems.v
FeedTheorems.v
Queue.v
QueueThreads.v
QueueCalls.v
Pipeline.v
PipelineProofs.v
PipelineProgress.v
PipelineTheorems.v
PipelineThreads.v
ThreadsProofs.v
ThreadsProgress.v
ThreadsRun.v
ThreadsTheorems.v
Capture.v
UnitTests.v
Simulator.v
SimulatorDepth.v
SimulatorProofs.v
SimulatorTheorems.v
Kernel.v
Net.v
Args.v
Apps.v
AppProofs.v
AppTheorems.v
Stats.v
Bench.v
