(* ===== verification/Prelude.v ===== *)
(** * A market-data feed handler and order-book engine, verified

    This library models the C++20 program under src/: the wire protocol and its
    serialization, the streaming parser, sequence tracking, the feed handler
    that reassembles a byte stream, the price-time priority order book, the
    builder that drives one book per symbol, the replay driver, capture files,
    the lock-free queue, the three-thread pipeline, the feed simulator, the
    network transport, the three command-line programs and the benchmark.

    ** How the program fits together

    Bytes come from a capture file, a TCP stream or UDP datagrams.  A
    [FeedHandler] puts the pieces together, a [BinaryParser] cuts them into
    framed messages and decodes each, a [SequenceTracker] decides which are
    new, and a [BookBuilder] applies the new ones to the [OrderBook] of their
    symbol.  The pipeline does the same on three threads joined by two rings.
    [mdfh_feedsim] sends or saves what a [MarketSimulator] generates,
    [mdfh_feedhandler] and [mdfh_replay] rebuild the books from it.

    ** Files and the code they model

    - Prelude: the monad [outcome] of C++ computations, machine integers.
    - Doubles: binary64 operations as the Standard Library specifies them, with
      bounds on rounding.  Prices (types.hpp): prices as doubles and back.
    - ByteOrder (include/mdfh/byte_order.hpp): [store_le] and [load_le].
    - Protocol (protocol.hpp, types.hpp, event_handler.hpp): message types,
      sizes, records, and the callbacks as the class [HandlerLike].
    - Serialization (serialization.hpp): encoders, decoders and the class
      [WireBody] over which [encode_message] is generic; [WireBodyLaws] is what
      the framing relies on of a body type.
    - Parser (parser.hpp): [parse], a fuelled loop; the scanner [scan_at] is
      its reference reading as a list of events, [deliver_all] what a sink sees.
    - SequenceTracker (sequence_tracker.hpp): [observe], and its specification
      by the history of numbers seen.
    - FeedHandler (feed_handler.hpp): [consume] for streams, [consume_datagram].
    - OrderedMap: std::map as an association list sorted by its comparator.
    - OrderBook (order_book.hpp, src/order_book.cpp): levels as std::list over a
      heap of nodes, iterators as node addresses that may dangle, the index by
      order id; every operation and query.  BookSpec is the specification: one
      list of live orders in time order; BookRep relates the two; BookProofs,
      BookQueries and BookTheorems prove the refinement.
    - BookBuilder (book_builder.hpp, src/book_builder.cpp): [BookManager] and
      the callbacks, with the assertions of a debug build; [spec_events] is its
      specification on events.  EndToEnd composes it with the feed handler.
    - Replay (replay.hpp, src/replay.cpp): the fast and the timed path, and
      [book_fingerprint].  WireTheorems and FeedTheorems state the properties
      of parser and feed handler.
    - Queue and QueueThreads (spsc_queue.hpp): the ring's operations as
      functions, and its atomic actions as a step relation in which an acquire
      load may return any value of the other thread's index that coherence
      allows.  QueueCalls has the same actions as functions of the index an
      acquire load returns, and the relation [holds] between a ring and the
      bounded list it stands for.
    - Pipeline (pipeline.hpp): the three threads as state machines run by an
      arbitrary schedule, one call on shared state per step, whose steps may
      see stale indices and flags; PipelineProofs has the invariant,
      PipelineProgress termination under fair schedules by leads-to reasoning,
      PipelineTheorems the statements at this level.  PipelineThreads is the
      same loops one atomic action at a time, over the rings of QueueCalls and
      the two flags; ThreadsProofs simulates it by schedules of Pipeline,
      ThreadsProgress and ThreadsRun bound its fair runs by a measure, and
      ThreadsTheorems has the statements.
    - Capture (capture.hpp, src/capture.cpp): writer and reader over a model of
      the C library's buffered files, on a device of limited room.
    - UnitTests (tests/*.cpp): 36 of the repository's unit tests as programs
      over the model, which evaluates them to success.
    - Simulator (simulator.hpp, src/simulator.cpp): the feed generator, with the
      random engine as the parameter [draw]; SimulatorDepth and SimulatorProofs
      relate its symbol states to lists of live orders, SimulatorTheorems has
      the statements.
    - Kernel: the operating system.  A program that calls it is an interaction
      tree over the events [SysE]; [kernel] is the documented behaviour of each
      call as a relation between worlds (open descriptors, bytes and datagrams
      on their way, files, lines printed), which leaves open how transfers are
      cut, when signals interrupt and, with [faulty], what fails; [must] is total
      correctness against every such kernel, with one rule per call; [run] is an
      executable kernel, related to [must] by [must_run].
    - Net (net/*.hpp, src/net/*.cpp): the owning [Socket], [send_all],
      [recv_some], the TCP and UDP endpoints, each with its specification.
    - Args (apps/app_common.hpp): [Args], with [std::from_chars] and
      [std::stoul], and [parse_host_port].
    - Apps (apps/*.cpp): the three mains.  AppProofs has the rules for their
      loops, AppTheorems the statements.
    - Stats (stats.hpp): the latency histogram, with the rounding of its
      percentile positions.  Bench (benchmarks/bench_feed.cpp): the benchmark's
      [main], which composes simulator, feed handler, pipeline and statistics.

    ** How C++ is modelled

    A computation has type [outcome A].  Out-of-bounds accesses, dangling
    iterators, signed overflow, null files and division by zero are [Undef], a
    failed assert or an exception nobody catches is [Abort], so that every
    theorem that a run equals [Ok _] excludes them.  Integers are [Z] at their width: unsigned arithmetic wraps
    explicitly, signed overflow is [Undef].  Bytes are [list byte].  The
    traversal order of a hash table is a parameter constrained to be a
    permutation of its entries.  Loops without a structural measure take fuel
    and return [Diverge] without it; the fuel is computed in the definition
    from the input ([length buf + 1] for loops that advance by at least a
    header, 66 for the doubling of a 64-bit power), and the theorems show that
    it is never exhausted, except by [round_up_pow2] above 2^63, where the
    code's loop does not end.

    ** What the theorems show

    - Wire: encoding and decoding invert each other; decoders are total on
      arbitrary bytes; [parse] terminates and delivers exactly the scanner's
      events; malformed and incomplete messages are handled as documented.
    - Feed: arbitrary segments of arbitrary bytes never lead to undefined
      behaviour, and what they make of the books and counters is a function of
      the events the scanner finds; the result does not depend on how a stream
      is cut; exactly the accepted messages are forwarded, in strictly
      increasing order.
    - Books: every sequence of operations refines the price-time priority
      specification; queries, snapshots, time priority, conservation of volume
      and [check_invariants] are stated over the list of live orders.
    - Builder and end to end: a stream of encoded messages builds exactly the
      books its messages describe; the debug build aborts exactly on a crossed
      book.
    - Replay: the timed path, defined on timestamps that stay within 73 scaled
      years after the first, agrees with the fast one and sleeps until each
      message is due, exactly so in real time and at integer speeds; the fingerprint is a function of
      live orders.
    - Queue: under every interleaving it is free of data races and wait-free,
      and its calls are linearizable as those of a bounded list, but that a
      call may report full or empty from an old index; sequentially it is that
      list.
    - Pipeline: under every interleaving of its atomic actions, with every
      value the memory model lets a load return, it never fails and computes
      what one thread computes; the analytics thread sees, in order, the ticks
      the ring had room for, each sampled from the books of the events before
      it; every fair run ends, so the threads cannot deadlock.
    - Capture: what fits of the messages written is read back, whole messages
      only, however files are buffered and also when the device fills up;
      opening arbitrary files is safe.
    - Simulator: every run of a sound configuration is free of undefined
      behaviour, produces accepted, gap-free, encodable messages and never
      crosses a book, so that the checked builder never aborts on it; every
      snapshot message in it is the snapshot of the book a receiver has built
      from the messages before.
    - Programs: against every kernel, failing ones included, and on the command
      lines and input that the theorems name, the programs end with an exit code
      and leave no descriptor open, closed twice or misused, and what they report
      is what the messages that arrived describe;
      a simulated feed sent over TCP in any pieces or through a capture file is
      reported complete, with sound books and the fingerprint of the books it
      describes; over UDP with losses, repetitions and reordering no message is
      forwarded twice.  The loops over system calls are [ITree.iter]: their
      termination is part of [must], by the bytes or datagrams still to come
      and the signals still pending ([w_patience]).
    - Prices: display as a double loses nothing below 2^48 units.
    - Benchmark: for every clock, and every run of the pipeline's threads under
      the memory model that ends (every fair one does), it reports all messages,
      none malformed, the order statistics of the latencies, and the two paths
      as equal.
    - Limits of the code found on the way, each proved as a theorem where the
      model can express it: the 32-bit wrap of sequence numbers and of level
      totals, framing after an unknown type byte, the undefined conversions
      in timed replay, what the fingerprint does not see.

    ** What is not modelled

    The build files, and the tests that need the random engine of the standard
    library, the clock, sockets or threads.  How [printf] renders a line: an
    output is its format with its values.  Parameters of the model are
    [inet_pton], [std::stod], [std::nth_element], the seeding of the random
    engine, the readings of the clock, how the threads interleave and the order
    in which hash tables are traversed.
    A kernel serves one process with one connection; what the network does to
    datagrams is stated where the receiver's input is chosen.
    [config_ok] of SimulatorProofs says which simulator configurations are
    covered: among others the default one, and those of the command line up to
    8,589,933 messages ([sim_args_ok]).  Memory allocation does not fail.  When
    the C library writes out the buffer of a file, what it does with bytes it
    cannot write, and where creating, seeking and reading fail are parameters
    ([Stdio] of Capture).  The queue's step relation covers the orderings the
    code asks for (relaxed loads of a thread's own index, acquire loads and
    release stores of the other's); it is not a general memory model. *)
From stdpp Require Export base tactics option list numbers gmap fin_maps.
From Stdlib Require Export ZArith Lia.

(** ** Outcomes of a C++ computation

    [Ok a] is a normal return.  [Undef] is undefined behaviour (an out of
    bounds access, a dangling iterator, signed overflow), [Abort] a failed
    [assert] or an uncaught exception, [Diverge] a loop that ran out of the fuel
    its definition gives it.  A theorem that a computation equals [Ok _]
    therefore excludes undefined behaviour, aborts and non-termination at
    once. *)
Inductive outcome (A : Type) : Type :=
  | Ok (a : A)
  | Undef
  | Abort
  | Diverge.
Arguments Ok {A} a.
Arguments Undef {A}.
Arguments Abort {A}.
Arguments Diverge {A}.

#[export] Instance outcome_ret : MRet outcome := fun A a => Ok a.
#[export] Instance outcome_bind : MBind outcome := fun A B f o =>
  match o with
  | Ok a => f a
  | Undef => Undef
  | Abort => Abort
  | Diverge => Diverge
  end.
#[export] Instance outcome_fmap : FMap outcome := fun A B f o =>
  match o with
  | Ok a => Ok (f a)
  | Undef => Undef
  | Abort => Abort
  | Diverge => Diverge
  end.

(** [of_option o] is undefined when [o] has no value: the dereference of a
    pointer or iterator that may not be valid. *)
Definition of_option {A} (o : option A) : outcome A :=
  match o with Some a => Ok a | None => Undef end.

(** The guard of an access: undefined unless [b] holds. *)
Definition require (b : bool) : outcome unit := if b then Ok tt else Undef.

(** The [assert] of the C++ library, compiled in unless [NDEBUG]. *)
Definition cassert (ndebug b : bool) : outcome unit :=
  if ndebug || b then Ok tt else Abort.

Section OutcomeLaws.
Context {A B C : Type}.
Implicit Types (o : outcome A).

Lemma bind_ok (a : A) (f : A -> outcome B) : (Ok a ≫= f) = f a.
Proof. reflexivity. Qed.

Lemma bind_assoc o (f : A -> outcome B) (g : B -> outcome C) :
((o ≫= f) ≫= g) = (o ≫= (fun a => f a ≫= g)).
Proof. by destruct o. Qed.

Lemma bind_ret_r o : (o ≫= (fun a => Ok a)) = o.
Proof. by destruct o. Qed.

Lemma bind_ext o (f g : A -> outcome B) :
(forall a, f a = g a) -> (o ≫= f) = (o ≫= g).
Proof. intros H. destruct o; [apply H | done..]. Qed.

Lemma bind_Ok_inv o (f : A -> outcome B) b :
(o ≫= f) = Ok b -> exists a, o = Ok a /\ f a = Ok b.
Proof. destruct o; simpl; intros H; [eauto | discriminate..]. Qed.

Lemma fmap_as_bind o (f : A -> B) : f <$> o = (o ≫= (fun a => Ok (f a))).
Proof. by destruct o. Qed.
End OutcomeLaws.

(** Rewriting under the binder of a [x ← e; k]. *)
#[export] Instance outcome_bind_proper A B :
  Proper (pointwise_relation A (@eq (outcome B)) ==> eq ==> eq) (mbind (M := outcome)).
Proof. intros f g Hfg o ? <-. by apply bind_ext. Qed.

(** ** Machine integers

    A [w]-bit unsigned integer is a [Z] in [0, 2^w); [wrap w] reduces modulo
    [2^w].  A signed one is a [Z] in [-2^(w-1), 2^(w-1)); [to_signed w] is the
    two's complement reading of a bit pattern. *)
Local Open Scope Z_scope.

Definition wrap (w z : Z) : Z := z mod 2 ^ w.
Definition to_signed (w z : Z) : Z :=
  let u := wrap w z in if u <? 2 ^ (w - 1) then u else u - 2 ^ w.
Definition in_unsigned (w z : Z) : Prop := 0 <= z < 2 ^ w.
Definition in_signed (w z : Z) : Prop := - 2 ^ (w - 1) <= z < 2 ^ (w - 1).
Definition in_signedb (w z : Z) : bool := (- 2 ^ (w - 1) <=? z) && (z <? 2 ^ (w - 1)).

(** [++c] on an unsigned 64-bit counter, and [c += d]. *)
Definition incr64 (c : Z) : Z := wrap 64 (c + 1).
Definition add64 (c d : Z) : Z := wrap 64 (c + d).

Lemma wrap_small w z : in_unsigned w z -> wrap w z = z.
Proof. unfold in_unsigned, wrap. apply Z.mod_small. Qed.

Lemma wrap_range w z : 0 <= w -> in_unsigned w (wrap w z).
Proof. intros. apply Z.mod_pos_bound, Z.pow_pos_nonneg; lia. Qed.

Lemma wrap_wrap w z : wrap w (wrap w z) = wrap w z.
Proof. apply Zmod_mod. Qed.

Lemma wrap_add_l w a b : wrap w (wrap w a + b) = wrap w (a + b).
Proof. apply Zplus_mod_idemp_l. Qed.

Lemma wrap_add_r w a b : wrap w (a + wrap w b) = wrap w (a + b).
Proof. apply Zplus_mod_idemp_r. Qed.

Lemma wrap_sub_l w a b : wrap w (wrap w a - b) = wrap w (a - b).
Proof. apply Zminus_mod_idemp_l. Qed.

Lemma wrap_sub_r w a b : wrap w (a - wrap w b) = wrap w (a - b).
Proof. apply Zminus_mod_idemp_r. Qed.

Lemma in_signedb_spec w z : in_signedb w z = true <-> in_signed w z.
Proof. unfold in_signedb, in_signed. lia. Qed.

Lemma to_signed_wrap w z : 0 < w -> in_signed w z -> to_signed w (wrap w z) = z.
Proof.
  unfold in_signed, to_signed. intros Hw Hz. rewrite wrap_wrap. unfold wrap.
  assert (2 ^ w = 2 * 2 ^ (w - 1)) as Hp.
  { rewrite <- Z.pow_succ_r by lia. f_equal; lia. }
  destruct (decide (0 <= z)).
  - rewrite Z.mod_small by lia. destruct (Z.ltb_spec z (2 ^ (w - 1))); lia.
  - rewrite <- (Z.mod_unique z (2 ^ w) (-1) (z + 2 ^ w)) by lia.
    destruct (Z.ltb_spec (z + 2 ^ w) (2 ^ (w - 1))); lia.
Qed.

Lemma to_signed_range w z : 0 < w -> in_signed w (to_signed w z).
Proof.
  unfold in_signed, to_signed, wrap. intros Hw.
  assert (2 ^ w = 2 * 2 ^ (w - 1)) as Hp.
  { rewrite <- Z.pow_succ_r by lia. f_equal; lia. }
  assert (0 < 2 ^ (w - 1)) by (apply Z.pow_pos_nonneg; lia).
  pose proof (Z.mod_pos_bound z (2 ^ w)).
  destruct (Z.ltb_spec (z mod 2 ^ w) (2 ^ (w - 1))); lia.
Qed.

Create HintDb mdfh.
Create HintDb word.
#[export] Hint Rewrite wrap_wrap wrap_add_l wrap_add_r wrap_sub_l wrap_sub_r : word.
#[export] Hint Rewrite @bind_ok @bind_assoc : mdfh.

(** Closes the range conditions of concrete values. *)
Ltac solve_ranges :=
  repeat first [apply List.Forall_nil | apply List.Forall_cons | split];
  vm_compute; try done; congruence.
