(* ===== verification/Doubles.v ===== *)
(** Binary64 arithmetic as the program uses it: the conversions and operations
    of the Standard Library's specification of IEEE 754, and bounds on what
    rounding can do to a result. *)
From Stdlib Require Import SpecFloat.
From S2P Require Import Prelude.

Local Open Scope Z_scope.

(** ** Operations *)

(** IEEE 754 binary64, as the Standard Library specifies it. *)
Notation double := spec_float (only parsing).

(** [static_cast<double>(z)], to nearest, ties to even. *)
Definition double_of_Z (z : Z) : double := binary_normalize 53 1024 z 0 false.
Definition double_div (a b : double) : double := SFdiv 53 1024 a b.

(** [static_cast<std::int64_t>(d)]: truncation, undefined out of range. *)
Definition int64_of_double (d : double) : outcome Z :=
  match d with
  | S754_zero _ => Ok 0
  | S754_finite s m e =>
      let v := if 0 <=? e then Zpos m * 2 ^ e else Zpos m / 2 ^ (- e) in
      let v := if s then - v else v in
      require (in_signedb 64 v);; Ok v
  | S754_infinity _ | S754_nan => Undef
  end.
Definition double_mul (a b : double) : double := SFmul 53 1024 a b.
Definition double_add (a b : double) : double := SFadd 53 1024 a b.

(** [static_cast<std::size_t>(d)]: truncation, undefined out of range. *)
Definition size_of_double (d : spec_float) : outcome nat :=
  match d with
  | S754_zero _ => Ok 0%nat
  | S754_finite s m e =>
      let v := if 0 <=? e then Zpos m * 2 ^ e else Zpos m / 2 ^ (- e) in
      let v := if s then - v else v in
      require ((0 <=? v) && (v <? 2 ^ 64));; Ok (Z.to_nat v)
  | S754_infinity _ | S754_nan => Undef
  end.


(** ** Rounding *)

Lemma digits_bounds p : 2 ^ (Zpos (digits2_pos p) - 1) <= Zpos p < 2 ^ Zpos (digits2_pos p).
Proof.
  induction p as [p IH|p IH|]; cbn [digits2_pos]; [| |by cbn].
  all: rewrite Pos2Z.inj_succ; replace (Z.succ (Zpos (digits2_pos p)) - 1) with (Z.succ (Zpos (digits2_pos p) - 1)) by lia;
    rewrite !Z.pow_succ_r by lia; lia.
Qed.

Lemma digits_le p n : 0 <= n -> Zpos p < 2 ^ n -> Zpos (digits2_pos p) <= n.
Proof.
  intros Hn Hp. pose proof (digits_bounds p) as [Hlo _].
  assert (2 ^ (Zpos (digits2_pos p) - 1) < 2 ^ n) as H by lia.
  apply Z.pow_lt_mono_r_iff in H; lia.
Qed.

(** One right shift, and several. *)
Lemma shr_1_eq m r s :
  0 <= m -> shr_1 (Build_shr_record m r s) = Build_shr_record (Z.div2 m) (Z.odd m) (r || s).
Proof. intros Hm. destruct m as [|[]|]; [done..|lia]. Qed.

Lemma iter_pos_nat {A} (f : A -> A) n x : SpecFloat.iter_pos f n x = Nat.iter (Pos.to_nat n) f x.
Proof.
  revert x; induction n as [n IH|n IH|]; intros x; cbn [SpecFloat.iter_pos]; [| |done]; rewrite !IH.
  - replace (Pos.to_nat n~1) with (Pos.to_nat n + Pos.to_nat n + 1)%nat by lia. by rewrite !Nat.iter_add.
  - replace (Pos.to_nat n~0) with (Pos.to_nat n + Pos.to_nat n)%nat by lia. by rewrite Nat.iter_add.
Qed.

Lemma shr_iter k m r s :
  0 <= m -> shr_m (Nat.iter k shr_1 (Build_shr_record m r s)) = m / 2 ^ Z.of_nat k.
Proof.
  intros Hm. induction k as [|k IH]; [by rewrite Z.div_1_r|].
  change (Nat.iter (S k) shr_1 (Build_shr_record m r s)) with (shr_1 (Nat.iter k shr_1 (Build_shr_record m r s))).
  assert (0 < 2 ^ Z.of_nat k) as Hp by (apply Z.pow_pos_nonneg; lia).
  destruct (Nat.iter k shr_1 _) as [m' r' s']. cbn [shr_m] in IH. subst m'.
  rewrite shr_1_eq by (apply Z.div_pos; lia). cbn [shr_m].
  replace (2 ^ Z.of_nat (S k)) with (2 ^ Z.of_nat k * 2) by (rewrite Nat2Z.inj_succ, Z.pow_succ_r; lia).
  by rewrite Z.div2_div, Z.div_div by lia.
Qed.

(** [shr_fexp] keeps the floor of a significand. *)
Lemma shr_fexp_floor m e l :
  0 <= m ->
  let n := Z.max 0 (fexp 53 1024 (Zdigits2 m + e) - e) in
  exists mrs, shr_fexp 53 1024 m e l = (mrs, e + n) /\ shr_m mrs = m / 2 ^ n.
Proof.
  intros Hm. unfold shr_fexp. set (n0 := fexp _ _ _ - e). cbv zeta.
  assert (exists r s, shr_record_of_loc m l = Build_shr_record m r s) as (r & s & ->)
    by (destruct l as [|[]]; by eexists _, _).
  destruct n0 as [|n|n]; cbn [shr].
  - eexists. split; [f_equal; lia|]. cbn. by rewrite Z.div_1_r.
  - rewrite iter_pos_nat. eexists. split; [f_equal; lia|]. rewrite shr_iter by lia. f_equal. f_equal. lia.
  - eexists. split; [f_equal; lia|]. cbn. by rewrite Z.div_1_r.
Qed.

Lemma round_even_bounds m l : m <= round_nearest_even m l <= m + 1.
Proof. destruct l as [|[]]; cbn; [lia|destruct (Z.even m)|..]; lia. Qed.

(** The format has no gap between the normal and the subnormal range that
    these exponents could reach. *)
Lemma fexp_normal e : -1021 <= e -> fexp 53 1024 e = e - 53.
Proof. intros He. unfold fexp, emin. lia. Qed.

Lemma digits_eq m n : 0 < n -> 2 ^ (n - 1) <= m < 2 ^ n -> Zdigits2 m = n.
Proof.
  intros Hn [Hlo Hhi]. destruct m as [|p|p]; [|cbn [Zdigits2]|]; pose proof (Z.pow_pos_nonneg 2 (n - 1)); try lia.
  pose proof (digits_bounds p) as [Lo Hi].
  assert (2 ^ (Zpos (digits2_pos p) - 1) < 2 ^ n) as H1 by lia.
  assert (2 ^ (n - 1) < 2 ^ Zpos (digits2_pos p)) as H2 by lia.
  apply Z.pow_lt_mono_r_iff in H1, H2; lia.
Qed.

(** A significand of 53 bits is kept. *)
Lemma round_canonical s m e :
  2 ^ 52 <= Zpos m < 2 ^ 53 -> -1000 <= e <= 0 ->
  binary_round_aux 53 1024 s (Zpos m) e loc_Exact = S754_finite s m e.
Proof.
  intros Hm He. unfold binary_round_aux, shr_fexp.
  assert (Zdigits2 (Zpos m) = 53) as D by (apply digits_eq; lia).
  rewrite D, fexp_normal by lia. replace (53 + e - 53 - e) with 0 by lia. cbn [shr shr_record_of_loc shr_m loc_of_shr_record round_nearest_even].
  rewrite D, fexp_normal by lia. replace (53 + e - 53 - e) with 0 by lia. cbn [shr shr_record_of_loc shr_m].
  by destruct (Z.leb_spec e (1024 - 53)); [|lia].
Qed.

(** A longer one loses its [k] lowest bits and may go up by one unit. *)
Lemma round_longer s m e k l :
  0 <= k -> 2 ^ 52 <= m / 2 ^ k < 2 ^ 53 -> -1000 <= e -> e + k < 900 ->
  exists r e', binary_round_aux 53 1024 s m e l = S754_finite s r e' /\
    e + k <= e' <= e + k + 1 /\ 2 ^ 52 <= Zpos r < 2 ^ 53 /\
    m / 2 ^ k <= Zpos r * 2 ^ (e' - (e + k)) <= m / 2 ^ k + 1.
Proof.
  intros Hk Hm He Hek. assert (0 < 2 ^ k) as Hp by (apply Z.pow_pos_nonneg; lia).
  pose proof (Z.div_mod m (2 ^ k) ltac:(lia)). pose proof (Z.mod_pos_bound m (2 ^ k) Hp).
  assert (Zdigits2 m = 53 + k) as D.
  { apply digits_eq; [lia|]. replace (53 + k - 1) with (52 + k) by lia. rewrite !Z.pow_add_r by lia. nia. }
  unfold binary_round_aux.
  destruct (shr_fexp_floor m e l) as (mrs & -> & Hr); [nia|]. revert Hr.
  rewrite D, fexp_normal by lia. replace (Z.max 0 _) with k by lia. intros Hr. rewrite Hr.
  pose proof (round_even_bounds (m / 2 ^ k) (loc_of_shr_record mrs)) as Hb.
  set (r1 := round_nearest_even _ _) in *. clearbody r1.
  destruct (shr_fexp_floor r1 (e + k) loc_Exact) as (mrs' & -> & Hr'); [lia|]. revert Hr'.
  destruct (decide (r1 < 2 ^ 53)) as [Hlt|Hge].
  - rewrite (digits_eq r1 53), fexp_normal by lia. replace (Z.max 0 _) with 0 by lia. rewrite Z.div_1_r. intros ->.
    destruct r1 as [|r|]; [lia| |lia]. destruct (Z.leb_spec (e + k + 0) (1024 - 53)); [|lia].
    exists r, (e + k + 0). split; [done|]. replace (e + k + 0 - (e + k)) with 0 by lia. lia.
  - replace r1 with (2 ^ 53) in * by lia. rewrite (digits_eq (2 ^ 53) 54), fexp_normal by lia.
    replace (Z.max 0 _) with 1 by lia. intros ->. change (2 ^ 53 / 2 ^ 1) with (Zpos 4503599627370496).
    destruct (Z.leb_spec (e + k + 1) (1024 - 53)); [|lia].
    eexists _, _. split; [done|]. replace (e + k + 1 - (e + k)) with 1 by lia. lia.
Qed.

(** The relative error of a rounding. *)
Lemma round_near s m e n l :
  2 ^ 52 <= m < 2 ^ n -> -1000 <= e -> e + n < 900 ->
  exists r e', binary_round_aux 53 1024 s m e l = S754_finite s r e' /\
    e <= e' <= e + n - 52 /\ 2 ^ 52 <= Zpos r < 2 ^ 53 /\ Z.abs (Zpos r * 2 ^ (e' - e) - m) * 2 ^ 52 <= m.
Proof.
  intros Hm He Hn. destruct m as [|m|m]; [lia| |lia].
  pose proof (digits_bounds m) as Hd. pose proof (Z.pow_neg_r 2 n).
  assert (0 < n) as Hn0 by (destruct (Z.lt_total n 0) as [|[->|]]; lia).
  pose proof (digits_le m n ltac:(lia) ltac:(lia)) as Hle. set (d := Zpos (digits2_pos m)) in *.
  assert (52 < d) as Hd52.
  { assert (2 ^ 52 < 2 ^ d) as H1 by lia. apply Z.pow_lt_mono_r_iff in H1; lia. }
  assert (0 < 2 ^ (d - 53)) as Hp by (apply Z.pow_pos_nonneg; lia).
  replace (d - 1) with (52 + (d - 53)) in Hd by lia. replace (2 ^ d) with (2 ^ 53 * 2 ^ (d - 53)) in Hd
    by (rewrite <- Z.pow_add_r by lia; f_equal; lia). rewrite Z.pow_add_r in Hd by lia.
  destruct (round_longer s (Zpos m) e (d - 53) l) as (r & e' & E & He' & Hr & Hb); [lia| |lia|lia|].
  { split; [apply Z.div_le_lower_bound|apply Z.div_lt_upper_bound]; lia. }
  exists r, e'. split; [done|]. split; [lia|]. split; [done|].
  replace (e' - e) with (e' - (e + (d - 53)) + (d - 53)) by lia. rewrite Z.pow_add_r, Z.mul_assoc by lia.
  pose proof (Z.mul_div_le (Zpos m) (2 ^ (d - 53)) Hp). pose proof (Z.mul_succ_div_gt (Zpos m) (2 ^ (d - 53)) Hp). nia.
Qed.

Lemma iter_xO p k : Zpos (Pos.iter xO p k) = Zpos p * 2 ^ Zpos k.
Proof.
  induction k as [|k IH] using Pos.peano_ind; [cbn; lia|].
  rewrite Pos.iter_succ, (Pos2Z.inj_xO (Pos.iter xO p k)), IH, Pos2Z.inj_succ, Z.pow_succ_r; lia.
Qed.

(** Small integers are represented exactly. *)
Lemma double_of_small s m :
  0 < m < 2 ^ 52 ->
  exists p e, double_of_Z (cond_Zopp s m) = S754_finite s p e /\ -53 < e < 0 /\
    2 ^ 52 <= Zpos p < 2 ^ 53 /\ Zpos p = m * 2 ^ (- e).
Proof.
  intros Hm. destruct m as [|m|m]; [lia| |lia].
  pose proof (digits_bounds m) as [Lo Hi]. pose proof (digits_le m 52 ltac:(lia) ltac:(lia)) as Hd.
  set (d := digits2_pos m) in *.
  assert (exists k, 53 - Zpos d = Zpos k) as [k Hk] by (exists (Z.to_pos (53 - Zpos d)); lia).
  assert (2 ^ 52 <= Zpos m * 2 ^ Zpos k < 2 ^ 53) as Hp.
  { replace 52 with (Zpos d - 1 + Zpos k) by lia. replace 53 with (Zpos d + Zpos k) by lia.
    rewrite !Z.pow_add_r by lia. assert (0 < 2 ^ Zpos k) by (apply Z.pow_pos_nonneg; lia). nia. }
  exists (Pos.iter xO m k), (Zneg k). rewrite iter_xO. split; [|split; [lia|split; [done|by rewrite Pos2Z.opp_neg]]].
  assert (double_of_Z (cond_Zopp s (Zpos m)) = binary_round 53 1024 s m 0) as -> by (by destruct s).
  unfold binary_round. fold d. rewrite fexp_normal by lia.
  replace (Zpos d + 0 - 53) with (Zneg k) by lia. cbn [shl_align Z.sub Z.add Z.opp].
  apply round_canonical; [by rewrite iter_xO|lia].
Qed.

(** Normalizing a significand that is long enough already. *)
Lemma normalize_long s m e z :
  2 ^ 52 <= m -> -1000 <= e ->
  binary_normalize 53 1024 (cond_Zopp s m) e z = binary_round_aux 53 1024 s m e loc_Exact.
Proof.
  intros Hm He. destruct m as [|m|m]; [lia| |lia].
  assert (binary_normalize 53 1024 (cond_Zopp s (Zpos m)) e z = binary_round 53 1024 s m e) as -> by (by destruct s).
  unfold binary_round. pose proof (digits_bounds m) as Hd.
  assert (52 < Zpos (digits2_pos m)) as Hd52.
  { assert (2 ^ 52 < 2 ^ Zpos (digits2_pos m)) as H by lia. apply Z.pow_lt_mono_r_iff in H; lia. }
  rewrite fexp_normal by lia. unfold shl_align.
  destruct (Zpos (digits2_pos m) + e - 53 - e) eqn:E; [done|done|lia].
Qed.

Lemma shl_align_value m e e' : e' <= e -> Zpos (fst (shl_align m e e')) = Zpos m * 2 ^ (e - e').
Proof.
  intros He. unfold shl_align. destruct (e' - e) as [|d|d] eqn:E; cbn [fst]; [|lia|].
  - replace (e - e') with 0 by lia. lia.
  - rewrite iter_xO. do 2 f_equal. lia.
Qed.

(** Truncation, over any denominator. *)
Lemma trunc_scaled r e t :
  0 <= t -> 0 <= e + t ->
  (if 0 <=? e then Zpos r * 2 ^ e else Zpos r / 2 ^ (- e)) = Zpos r * 2 ^ (e + t) / 2 ^ t.
Proof.
  intros Ht Het. destruct (Z.leb_spec 0 e).
  - by rewrite Z.pow_add_r, Z.mul_assoc, Z.div_mul by (lia || apply Z.pow_nonzero; lia).
  - rewrite <- (Z.div_mul_cancel_r (Zpos r) (2 ^ (- e)) (2 ^ (e + t))) by (apply Z.pow_nonzero; lia).
    rewrite <- Z.pow_add_r by lia. by replace (- e + (e + t)) with t by lia.
Qed.

Lemma size_of_scaled r e t :
  0 <= t -> 0 <= e + t -> Zpos r * 2 ^ (e + t) / 2 ^ t < 2 ^ 64 ->
  size_of_double (S754_finite false r e) = Ok (Z.to_nat (Zpos r * 2 ^ (e + t) / 2 ^ t)).
Proof.
  intros Ht Het Hlt. unfold size_of_double. cbv zeta. rewrite (trunc_scaled r e t) by done.
  assert (0 <= Zpos r * 2 ^ (e + t) / 2 ^ t) by (apply Z.div_pos; [|apply Z.pow_pos_nonneg]; lia).
  by rewrite (proj2 (Z.leb_le _ _)), (proj2 (Z.ltb_lt _ _)) by done.
Qed.

(** A quotient by [2 ^ k * t], taken in two steps with the first rounded up
    by at most one. *)
Lemma div_two_steps x d k t r :
  0 < d -> 0 < k -> 0 < t -> k * t = 2 ^ 53 * d -> 2 <= t -> 0 <= x ->
  x * d / k <= r <= x * d / k + 1 ->
  x / 2 ^ 53 <= r / t /\ r / t * 2 ^ 53 <= x + 2 ^ 52.
Proof.
  intros Hd Hk Ht Hkt Ht2 Hx [Hlo Hhi]. split.
  - rewrite <- (Z.div_mul_cancel_r x (2 ^ 53) d), <- Hkt, <- Z.div_div by lia. by apply Z.div_le_mono.
  - pose proof (Z.mul_div_le r t Ht). pose proof (Z.mul_div_le (x * d) k Hk).
    apply Z.mul_le_mono_pos_r with d; [done|].
    assert (r / t * (t * k) <= x * d + k) by nia. replace (t * k) with (2 ^ 53 * d) in * by lia.
    assert (k <= 2 ^ 52 * d) by nia. lia.
Qed.

(** ** Bounds on results *)

Lemma digits_log m : 0 < m -> 2 ^ (Zdigits2 m - 1) <= m.
Proof. destruct m as [|p|p]; intros; [lia| |lia]. by apply digits_bounds. Qed.

(** A significand shifted to its format keeps its bound. *)
Lemma div_pow_bound m b n :
  0 <= n <= b -> m <= 2 ^ b + 1 -> m / 2 ^ n <= 2 ^ (b - n) + 1.
Proof.
  intros Hn Hm. assert (0 < 2 ^ n) as Hp by (apply Z.pow_pos_nonneg; lia).
  replace b with (b - n + n) in Hm at 1 by lia. rewrite Z.pow_add_r in Hm by lia.
  apply Z.lt_succ_r, Z.div_lt_upper_bound; nia.
Qed.

(** Where rounding leaves the exponent of a value below [2 ^ 63]. *)
Lemma fexp_bounded m e :
  0 <= m -> e <= 11 -> m <= 2 ^ (62 - e) + 1 ->
  let n := Z.max 0 (fexp 53 1024 (Zdigits2 m + e) - e) in 0 <= n /\ e + n <= 11.
Proof.
  intros Hm He Hb n. split; [lia|]. unfold n, fexp, emin.
  destruct (decide (m = 0)) as [->|Hm0]; [cbn [Zdigits2]; lia|].
  pose proof (digits_log m ltac:(lia)) as Hd.
  assert (2 ^ (62 - e) + 1 < 2 ^ (64 - e)) as Hlt.
  { replace (64 - e) with (62 - e + 2) by lia. rewrite Z.pow_add_r by lia.
    assert (0 < 2 ^ (62 - e)) by (apply Z.pow_pos_nonneg; lia). lia. }
  assert (Zdigits2 m - 1 < 64 - e); [|lia].
  destruct (decide (Zdigits2 m - 1 < 0)); [lia|]. apply (Z.pow_lt_mono_r_iff 2); lia.
Qed.

Lemma int64_bounded r e :
  e <= 11 -> Zpos r <= 2 ^ (62 - e) + 1 ->
  exists v, int64_of_double (S754_finite false r e) = Ok v /\ 0 <= v <= 2 ^ 62 + 2 ^ 11.
Proof.
  intros He Hr. unfold int64_of_double. cbv zeta.
  set (v := if 0 <=? e then _ else _). assert (0 <= v <= 2 ^ 62 + 2 ^ 11) as Hv.
  { unfold v. destruct (Z.leb_spec 0 e).
    - assert (0 < 2 ^ e <= 2 ^ 11) by (split; [apply Z.pow_pos_nonneg|apply Z.pow_le_mono_r]; lia).
      replace (2 ^ 62) with (2 ^ (62 - e) * 2 ^ e) by (rewrite <- Z.pow_add_r by lia; f_equal; lia). nia.
    - pose proof (div_pow_bound (Zpos r) (62 - e) (- e) ltac:(lia) Hr) as Hd.
      replace (62 - e - - e) with 62 in Hd by lia.
      pose proof (Z.div_pos (Zpos r) (2 ^ (- e)) ltac:(lia) ltac:(apply Z.pow_pos_nonneg; lia)). lia. }
  exists v. by rewrite (proj2 (in_signedb_spec 64 v)) by (unfold in_signed; lia).
Qed.

(** What rounds to a double of at most [2 ^ 62] converts to an integer. *)
Lemma round_int64 m e l :
  0 <= m -> e <= 11 -> m <= 2 ^ (62 - e) ->
  exists v, int64_of_double (binary_round_aux 53 1024 false m e l) = Ok v /\ 0 <= v <= 2 ^ 62 + 2 ^ 11.
Proof.
  intros Hm He Hb. unfold binary_round_aux.
  destruct (shr_fexp_floor m e l) as (mrs & -> & Hr); [done|].
  destruct (fexp_bounded m e) as [Hn Hn11]; [lia..|]. revert Hr Hn Hn11. cbv zeta.
  set (n := Z.max 0 _). clearbody n. intros Hr Hn Hn11. rewrite Hr.
  assert (0 < 2 ^ n) as Hp by (apply Z.pow_pos_nonneg; lia).
  assert (m / 2 ^ n <= 2 ^ (62 - (e + n))) as Hdiv.
  { apply Z.div_le_upper_bound; [done|]. rewrite <- Z.pow_add_r by lia. by replace (n + _) with (62 - e) by lia. }
  pose proof (Z.div_pos m (2 ^ n) Hm Hp).
  pose proof (round_even_bounds (m / 2 ^ n) (loc_of_shr_record mrs)) as Hr1.
  set (r1 := round_nearest_even _ _) in *. clearbody r1. assert (0 <= r1 <= 2 ^ (62 - (e + n)) + 1) as Hr2 by lia.
  destruct (shr_fexp_floor r1 (e + n) loc_Exact) as (mrs' & -> & Hr'); [lia|]. revert Hr'. cbv zeta.
  destruct (fexp_bounded r1 (e + n)) as [Hn' Hn11']; [lia..|]. revert Hn' Hn11'. cbv zeta.
  set (n' := Z.max 0 _). clearbody n'. intros Hn' Hn11' ->.
  pose proof (div_pow_bound r1 (62 - (e + n)) n' ltac:(lia) ltac:(lia)) as Hr3.
  pose proof (Z.div_pos r1 (2 ^ n') ltac:(lia) ltac:(apply Z.pow_pos_nonneg; lia)).
  replace (62 - (e + n) - n') with (62 - (e + n + n')) in Hr3 by lia.
  destruct (r1 / 2 ^ n') as [|r|r]; [by exists 0| |lia].
  destruct (Z.leb_spec (e + n + n') (1024 - 53)); [|lia]. apply int64_bounded; lia.
Qed.

(** [d] divided by the scale is at most [2 ^ 61]. *)
Definition within_2_61 (d : Z) (scale : double) : Prop :=
  match scale with
  | S754_infinity false => True
  | S754_finite false m e => d * 2 ^ Z.max 0 (- e) <= 2 ^ 61 * Zpos m * 2 ^ Z.max 0 e
  | _ => False
  end.

(** A 64-bit integer as a double is less than twice as large. *)
Lemma double_of_bounds d :
  0 < d < 2 ^ 64 ->
  exists r e, double_of_Z d = S754_finite false r e /\ -53 < e <= 12 /\ Zpos r * 2 ^ (e + 53) <= 2 * d * 2 ^ 53.
Proof.
  intros Hd. destruct (Z.lt_ge_cases d (2 ^ 52)) as [Hs|Hl].
  - destruct (double_of_small false d) as (p & e & E & He & Hp & Hpd); [lia|]. exists p, e.
    split; [exact E|]. split; [lia|]. rewrite Hpd, <- Z.mul_assoc, <- Z.pow_add_r by lia.
    replace (- e + (e + 53)) with 53 by lia. lia.
  - destruct (round_near false d 0 64 loc_Exact) as (r & e & E & He & Hr & Hn); [lia|lia|lia|]. exists r, e.
    split; [|split; [lia|]].
    { rewrite <- E. unfold double_of_Z. by rewrite <- (normalize_long false d 0 false). }
    rewrite Z.sub_0_r in Hn. rewrite Z.pow_add_r by lia. lia.
Qed.

(** The quotient and the exponent that division rounds. *)
Lemma div_core_bound r e m e2 :
  -53 < e -> Zpos r * 2 ^ (e + 53 + Z.max 0 (- e2)) <= 2 ^ (115 + Z.max 0 e2) * Zpos m ->
  exists q e' l, SFdiv_core_binary 53 1024 (Zpos r) e (Zpos m) e2 = (q, e', l) /\
    0 <= q /\ e' <= 11 /\ q <= 2 ^ (62 - e').
Proof.
  intros He Hq. unfold SFdiv_core_binary. cbv zeta.
  set (d1 := Zdigits2 (Zpos r)). set (d2 := Zdigits2 (Zpos m)).
  set (e' := Z.min (fexp 53 1024 (d1 + e - (d2 + e2))) (e - e2)).
  pose proof (digits_bounds r) as [Hr _]. pose proof (digits_bounds m) as [_ Hm].
  change (Zpos (digits2_pos r)) with d1 in Hr. change (Zpos (digits2_pos m)) with d2 in Hm.
  assert (0 < d1 /\ 0 < d2) as [Hd1 Hd2] by done.
  assert (e' <= 11) as He'.
  { assert (d1 - 1 + (e + 53 + Z.max 0 (- e2)) < 115 + Z.max 0 e2 + d2); [|unfold e', fexp, emin; lia].
    apply (Z.pow_lt_mono_r_iff 2); [lia..|]. rewrite !(Z.pow_add_r 2 (_ - _)), (Z.pow_add_r 2 (115 + _)) by lia.
    assert (0 < 2 ^ (e + 53 + Z.max 0 (- e2))) by (apply Z.pow_pos_nonneg; lia).
    assert (0 < 2 ^ (115 + Z.max 0 e2)) by (apply Z.pow_pos_nonneg; lia). nia. }
  set (s := e - e2 - e'). assert (0 <= s) as Hs by lia.
  assert (match s with Zpos _ => Z.shiftl (Zpos r) s | Z0 => Zpos r | Zneg _ => 0 end = Zpos r * 2 ^ s) as ->.
  { clearbody s; destruct s as [|k|k]; [lia| |lia]. by rewrite Z.shiftl_mul_pow2. }
  pose proof (Z_div_mod (Zpos r * 2 ^ s) (Zpos m) eq_refl) as Hdiv.
  destruct (Z.div_eucl _ _) as [q rem]. destruct Hdiv as [Hdiv Hrem].
  assert (0 < 2 ^ s) by (apply Z.pow_pos_nonneg; lia).
  eexists q, e', _. split; [reflexivity|]. split; [nia|]. split; [done|].
  set (K := Z.max 0 (- (53 + Z.max 0 e2 + e'))). set (X := 53 + Z.max 0 e2 + e' + K).
  assert (0 < 2 ^ X) by (apply Z.pow_pos_nonneg; lia). assert (0 < 2 ^ K) by (apply Z.pow_pos_nonneg; lia).
  apply (Z.mul_le_mono_pos_r _ _ (Zpos m * 2 ^ X)); [nia|].
  assert (2 ^ s * 2 ^ X = 2 ^ (e + 53 + Z.max 0 (- e2)) * 2 ^ K) as Hsx
    by (rewrite <- !Z.pow_add_r by lia; f_equal; unfold s, X; lia).
  assert (2 ^ (62 - e') * 2 ^ X = 2 ^ (115 + Z.max 0 e2) * 2 ^ K) as Hex
    by (rewrite <- !Z.pow_add_r by lia; f_equal; unfold X; lia).
  assert (q * Zpos m <= Zpos r * 2 ^ s) by lia. nia.
Qed.

(** A quotient of at most [2 ^ 61], of a double that may be twice too large. *)
Lemma div_int64 d scale :
  0 <= d < 2 ^ 64 -> within_2_61 d scale ->
  exists v, int64_of_double (double_div (double_of_Z d) scale) = Ok v /\ 0 <= v <= 2 ^ 62 + 2 ^ 11.
Proof.
  intros Hd Hw. destruct (decide (d = 0)) as [->|Hd0].
  { exists 0. destruct scale as [| [] | | [] ]; done. }
  destruct (double_of_bounds d) as (r & e & -> & He & Hr); [lia|].
  destruct scale as [|[]| |[] m e2]; try done; [by exists 0|]. cbn [within_2_61] in Hw.
  assert (Zpos r * 2 ^ (e + 53 + Z.max 0 (- e2)) <= 2 ^ (115 + Z.max 0 e2) * Zpos m) as Hq.
  { rewrite !(Z.pow_add_r 2 _ (Z.max 0 _)) by lia. change (2 ^ 115) with (2 * 2 ^ 53 * 2 ^ 61).
    assert (0 < 2 ^ Z.max 0 (- e2)) by (apply Z.pow_pos_nonneg; lia). nia. }
  unfold double_div. cbn [SFdiv xorb]. destruct (div_core_bound r e m e2) as (q & e' & l & -> & Hq0 & He' & Hb); [lia|lia|].
  by apply round_int64.
Qed.

(** The quotient of two significands of 53 bits, with 53 more bits. *)
Lemma div_core_normal p e m e2 :
  2 ^ 52 <= Zpos p < 2 ^ 53 -> 2 ^ 52 <= Zpos m < 2 ^ 53 -> -53 < e < 0 -> -53 < e2 < 0 ->
  exists l, SFdiv_core_binary 53 1024 (Zpos p) e (Zpos m) e2 = (Zpos p * 2 ^ 53 / Zpos m, e - e2 - 53, l).
Proof.
  intros Hp Hm He He2. unfold SFdiv_core_binary.
  assert (Zdigits2 (Zpos p) = 53) as -> by (apply digits_eq; lia).
  assert (Zdigits2 (Zpos m) = 53) as -> by (apply digits_eq; lia).
  cbv zeta. rewrite fexp_normal by lia.
  replace (Z.min _ _) with (e - e2 - 53) by lia. replace (e - e2 - (e - e2 - 53)) with 53 by lia.
  rewrite Z.shiftl_mul_pow2 by lia. unfold Z.div. destruct (Z.div_eucl _ _) as [q rem]. by eexists.
Qed.

(** Rounding a scaled quotient up by one unit does not reach the next integer. *)
Lemma round_up_keeps_floor d n t y :
  0 < n -> 0 <= t -> d < 2 ^ 52 -> 2 ^ 52 <= d * 2 ^ t / n -> d * 2 ^ t / n <= y <= d * 2 ^ t / n + 1 ->
  y / 2 ^ t = d / n.
Proof.
  intros Hn Ht Hd Hq Hy. assert (0 < 2 ^ t) as Hp by (apply Z.pow_pos_nonneg; lia).
  set (q := d * 2 ^ t / n) in *.
  assert (q / 2 ^ t = d / n) as Hfloor by (unfold q; by rewrite Z.div_div, Z.div_mul_cancel_r by lia).
  destruct (decide (y = q)) as [->|Hne]; [done|]. assert (y = q + 1) as -> by lia.
  pose proof (Z.mul_div_le (d * 2 ^ t) n Hn) as Hle. fold q in Hle.
  pose proof (Z.mul_succ_div_gt d n Hn) as Hgt. pose proof (Z.mod_pos_bound q (2 ^ t) Hp).
  pose proof (Z.div_mod q (2 ^ t) ltac:(lia)) as Hmod. rewrite Hfloor in Hmod.
  symmetry. apply (Z.div_unique_pos _ _ _ (q mod 2 ^ t + 1)); [|lia]. split; [lia|].
  destruct (decide (q mod 2 ^ t + 1 = 2 ^ t)) as [Hlast|]; [|lia]. exfalso.
  assert (n < 2 ^ t) by nia. nia.
Qed.

(** Dividing integers below [2 ^ 52] as doubles and truncating divides them. *)
Lemma div_by_int d n :
  0 <= d < 2 ^ 52 -> 0 < n < 2 ^ 52 ->
  int64_of_double (double_div (double_of_Z d) (double_of_Z n)) = Ok (d / n).
Proof.
  intros Hd Hn. destruct (double_of_small false n) as (m & e2 & E2 & He2 & Hm & Hmn); [lia|].
  cbn [cond_Zopp] in E2. rewrite E2. destruct (decide (d = 0)) as [->|Hd0]; [by rewrite Z.div_0_l by lia|].
  destruct (double_of_small false d) as (p & e & E & He & Hp & Hpd); [lia|]. cbn [cond_Zopp] in E. rewrite E.
  unfold double_div. cbn [SFdiv xorb]. destruct (div_core_normal p e m e2) as (l & ->); [done..|].
  set (q := Zpos p * 2 ^ 53 / Zpos m).
  assert (2 ^ 52 <= q < 2 ^ 54) as Hq
    by (split; [apply Z.div_le_lower_bound|apply Z.div_lt_upper_bound]; lia).
  set (k := if decide (q < 2 ^ 53) then 0 else 1).
  assert (0 <= k <= 1) as Hk by (unfold k; case_decide; lia).
  assert (2 ^ 52 <= q / 2 ^ k < 2 ^ 53) as Hqk.
  { unfold k. case_decide; [rewrite Z.div_1_r; lia|]. change (2 ^ 1) with 2.
    split; [apply Z.div_le_lower_bound|apply Z.div_lt_upper_bound]; lia. }
  destruct (round_longer false q (e - e2 - 53) k l) as (r & e' & -> & He' & _ & Hr); [lia|done|lia|lia|].
  set (t := - (e - e2 - 53 + k)) in *.
  assert (q / 2 ^ k = d * 2 ^ t / n) as Hqt.
  { unfold q. rewrite Z.div_div by (try apply Z.pow_pos_nonneg; lia). rewrite Hpd, Hmn.
    rewrite <- (Z.div_mul_cancel_r (d * 2 ^ t) n (2 ^ (k - e2))) by (try apply Z.pow_nonzero; lia).
    f_equal; rewrite <- !Z.mul_assoc, <- !Z.pow_add_r by lia; do 2 f_equal; lia. }
  assert (0 < t) as Ht by (unfold t; lia). rewrite Hqt in Hr, Hqk.
  unfold int64_of_double. cbv zeta. rewrite (trunc_scaled r e' t), (round_up_keeps_floor d n t) by (unfold t in *; lia || done).
  pose proof (Z.div_pos d n ltac:(lia) ltac:(lia)). pose proof (Z.div_le_upper_bound d n d ltac:(lia) ltac:(nia)).
  by rewrite (proj2 (in_signedb_spec 64 (d / n))) by (unfold in_signed; lia).
Qed.
