(* ===== verification/ByteOrder.v ===== *)
(** Little-endian scalars (include/mdfh/byte_order.hpp): [store_le] and
    [load_le] with the byte loops of the code, every access bounds-checked by
    the [outcome] monad, and the reference encoding [le_bytes]/[le_val] they
    are proved equal to. *)
From S2P Require Import Prelude.
From Stdlib Require Export Init.Byte NArith.

Local Open Scope Z_scope.

(** ** Bytes *)

(** [std::to_integer<std::uint8_t>(b)] and [static_cast<std::byte>(v)]. *)
Definition Z_of_byte (b : byte) : Z := Z.of_N (Byte.to_N b).
Definition byte_of_Z (z : Z) : byte :=
  default Byte.x00 (Byte.of_N (Z.to_N (wrap 8 z))).

#[export] Instance byte_eq_dec : EqDecision byte := Byte.byte_eq_dec.

Lemma Z_of_byte_range b : 0 <= Z_of_byte b < 256.
Proof. unfold Z_of_byte. pose proof (Byte.to_N_bounded b). lia. Qed.

Lemma byte_of_Z_of_byte b : byte_of_Z (Z_of_byte b) = b.
Proof.
  unfold byte_of_Z. rewrite wrap_small by (unfold in_unsigned; pose proof (Z_of_byte_range b); lia).
  unfold Z_of_byte. by rewrite N2Z.id, Byte.of_to_N.
Qed.

Lemma Z_of_byte_of_Z z : Z_of_byte (byte_of_Z z) = wrap 8 z.
Proof.
  unfold byte_of_Z. pose proof (wrap_range 8 z ltac:(lia)) as Hr. unfold in_unsigned in Hr.
  destruct (Byte.of_N (Z.to_N (wrap 8 z))) as [b|] eqn:E; simpl.
  - unfold Z_of_byte. apply Byte.to_of_N in E. lia.
  - apply Byte.of_N_None_iff in E. lia.
Qed.

Lemma Z_of_byte_inj b1 b2 : Z_of_byte b1 = Z_of_byte b2 -> b1 = b2.
Proof. intros H. by rewrite <- (byte_of_Z_of_byte b1), <- (byte_of_Z_of_byte b2), H. Qed.

(** ** The code *)

(** A write position: the buffer and the offset the pointer [p] stands at. *)
Definition cursor : Type := list byte * nat.

Definition write_byte (dst : list byte) (i : nat) (b : byte) : outcome (list byte) :=
  require (bool_decide (i < length dst)%nat);;
  Ok (<[i := b]> dst).

(** [for (i = 0; i < sizeof(U); ++i) { dst[i] = u & 0xFF; u >>= 8; }] *)
Fixpoint store_le_loop (n : nat) (u : Z) (dst : list byte) (p : nat) : outcome (list byte) :=
  match n with
  | O => Ok dst
  | S n' =>
      dst' ← write_byte dst p (byte_of_Z (Z.land u 255));
      store_le_loop n' (Z.shiftr u 8) dst' (S p)
  end.

(** [store_le<T>(p, value)] for a [T] of [n] bytes. *)
Definition store_le (n : nat) (value : Z) (c : cursor) : outcome cursor :=
  let '(dst, p) := c in
  dst' ← store_le_loop n (wrap (8 * Z.of_nat n) value) dst p;
  Ok (dst', (p + n)%nat).

(** [for (i = 0; i < sizeof(U); ++i) u = static_cast<U>(u | (src[i] << 8*i));]
    with [k] iterations left. *)
Fixpoint load_le_loop (n k i : nat) (u : Z) (src : list byte) (off : nat) : outcome Z :=
  match k with
  | O => Ok u
  | S k' =>
      b ← of_option (src !! (off + i)%nat);
      load_le_loop n k' (S i)
        (wrap (8 * Z.of_nat n) (Z.lor u (Z.shiftl (Z_of_byte b) (8 * Z.of_nat i)))) src off
  end.

(** [load_le<T>(src + off)] for an unsigned [T] of [n] bytes. *)
Definition load_le (n : nat) (src : list byte) (off : nat) : outcome Z :=
  load_le_loop n n 0 0 src off.

(** [load_le<std::int64_t>(src + off)]. *)
Definition load_le_i64 (src : list byte) (off : nat) : outcome Z :=
  u ← load_le 8 src off; Ok (to_signed 64 u).

(** ** The reference encoding *)

Fixpoint le_bytes (n : nat) (z : Z) : list byte :=
  match n with
  | O => []
  | S n' => byte_of_Z z :: le_bytes n' (z / 256)
  end.

Fixpoint le_val (bs : list byte) : Z :=
  match bs with
  | [] => 0
  | b :: bs' => Z_of_byte b + 256 * le_val bs'
  end.

Lemma length_le_bytes n z : length (le_bytes n z) = n.
Proof. revert z; induction n; intros; simpl; auto. Qed.

Lemma pow256_succ n : 2 ^ (8 * Z.of_nat (S n)) = 256 * 2 ^ (8 * Z.of_nat n).
Proof.
  replace (8 * Z.of_nat (S n)) with (8 + 8 * Z.of_nat n) by lia.
  rewrite Z.pow_add_r by lia. reflexivity.
Qed.

Lemma le_val_range bs : in_unsigned (8 * Z.of_nat (length bs)) (le_val bs).
Proof.
  induction bs as [|b bs IH]; unfold in_unsigned in *; simpl length; [simpl; lia|].
  rewrite pow256_succ. simpl. pose proof (Z_of_byte_range b). lia.
Qed.

Lemma le_val_le_bytes n z : le_val (le_bytes n z) = wrap (8 * Z.of_nat n) z.
Proof.
  revert z; induction n as [|n IH]; intros z; simpl le_bytes.
  - unfold wrap. by rewrite Z.mod_1_r.
  - cbn [le_val]. rewrite IH, Z_of_byte_of_Z. unfold wrap. rewrite pow256_succ.
    assert (0 < 2 ^ (8 * Z.of_nat n)) by (apply Z.pow_pos_nonneg; lia).
    rewrite (Z.rem_mul_r z 256 (2 ^ (8 * Z.of_nat n))) by lia. reflexivity.
Qed.

Lemma le_bytes_le_val bs : le_bytes (length bs) (le_val bs) = bs.
Proof.
  induction bs as [|b bs IH]; [done|]. simpl.
  pose proof (Z_of_byte_range b). f_equal.
  - apply Z_of_byte_inj. rewrite Z_of_byte_of_Z. unfold wrap.
    change (2 ^ 8) with 256. rewrite (Z.mul_comm 256), Z_mod_plus_full. apply Z.mod_small; lia.
  - rewrite (Z.mul_comm 256), Z_div_plus_full, Z.div_small by lia. exact IH.
Qed.

Lemma le_bytes_wrap n z : le_bytes n (wrap (8 * Z.of_nat n) z) = le_bytes n z.
Proof.
  rewrite <- le_val_le_bytes. rewrite <- (length_le_bytes n z) at 1. apply le_bytes_le_val.
Qed.

(** ** The loops compute the reference encoding *)

Lemma lor_shiftl_add u b k :
  0 <= k -> 0 <= u < 2 ^ k -> 0 <= b -> Z.lor u (Z.shiftl b k) = u + b * 2 ^ k.
Proof.
  intros Hk Hu Hb. rewrite <- Z.shiftl_mul_pow2 by lia.
  assert (Z.land u (Z.shiftl b k) = 0) as Hl.
  { apply Z.bits_inj'. intros i Hi. rewrite Z.land_spec, Z.bits_0.
    destruct (decide (i < k)).
    - rewrite (Z.shiftl_spec_low b k i) by lia. apply andb_false_r.
    - rewrite <- (Z.mod_small u (2 ^ k)) by lia.
      rewrite Z.mod_pow2_bits_high by lia. reflexivity. }
  rewrite (Z.add_nocarry_lxor _ _ Hl), <- (Z.lxor_lor _ _ Hl). reflexivity.
Qed.

Lemma store_le_loop_spec n u dst p :
  (p + n <= length dst)%nat ->
  store_le_loop n u dst p = Ok (take p dst ++ le_bytes n u ++ drop (p + n) dst).
Proof.
  revert u dst p; induction n as [|n IH]; intros u dst p Hlen; cbn [store_le_loop].
  - rewrite Nat.add_0_r. cbn. by rewrite take_drop.
  - unfold write_byte. rewrite bool_decide_eq_true_2 by lia. cbn.
    rewrite IH by (rewrite length_insert; lia). f_equal.
    assert (take (S p) (<[p:=byte_of_Z (Z.land u 255)]> dst) = take p dst ++ [byte_of_Z u]) as ->.
    { rewrite (take_S_r _ _ (byte_of_Z (Z.land u 255))) by (apply list_lookup_insert_eq; lia).
      rewrite take_insert_ge by lia. f_equal. f_equal. unfold byte_of_Z. do 3 f_equal.
      change 255 with (Z.ones 8). rewrite Z.land_ones by lia. apply Zmod_mod. }
    rewrite drop_insert_lt by lia.
    rewrite Z.shiftr_div_pow2 by lia. rewrite <- app_assoc.
    do 4 f_equal. lia.
Qed.

Lemma store_le_spec n v dst p :
  (p + n <= length dst)%nat ->
  store_le n v (dst, p) = Ok (take p dst ++ le_bytes n v ++ drop (p + n) dst, (p + n)%nat).
Proof.
  intros H. unfold store_le. rewrite store_le_loop_spec by done. cbn. by rewrite le_bytes_wrap.
Qed.

Lemma le_val_snoc bs b :
  le_val (bs ++ [b]) = le_val bs + Z_of_byte b * 2 ^ (8 * Z.of_nat (length bs)).
Proof.
  induction bs as [|c bs IH].
  - change (2 ^ (8 * Z.of_nat (length (@nil byte)))) with 1. simpl. lia.
  - change (length (c :: bs)) with (S (length bs)). rewrite pow256_succ.
    cbn [app le_val]. rewrite IH. ring.
Qed.

Lemma load_le_loop_spec n k i src off :
  (i + k = n)%nat -> (off + n <= length src)%nat ->
  load_le_loop n k i (le_val (take i (drop off src))) src off
  = Ok (le_val (take n (drop off src))).
Proof.
  revert i; induction k as [|k IH]; intros i Hik Hlen; cbn [load_le_loop].
  - by replace i with n by lia.
  - destruct (lookup_lt_is_Some_2 src (off + i)) as [b Hb]; [lia|]. rewrite Hb. cbn.
    rewrite <- (IH (S i)) by lia. f_equal.
    rewrite (take_S_r _ _ b) by (by rewrite lookup_drop).
    pose proof (le_val_range (take i (drop off src))) as Hu. unfold in_unsigned in Hu.
    pose proof (Z_of_byte_range b) as Hbr.
    pose proof (le_val_range (take i (drop off src) ++ [b])) as Hr.
    rewrite length_app in Hr. rewrite !length_take, !length_drop in *.
    rewrite !Nat.min_l in * by lia.
    rewrite lor_shiftl_add by lia.
    rewrite le_val_snoc in *. rewrite length_take, length_drop, Nat.min_l in * by lia.
    apply wrap_small. unfold in_unsigned in *. split; [lia|].
    eapply Z.lt_le_trans; [apply Hr|]. apply Z.pow_le_mono_r; simpl; lia.
Qed.

Lemma load_le_spec n src off :
  (off + n <= length src)%nat -> load_le n src off = Ok (le_val (take n (drop off src))).
Proof. intros H. unfold load_le. rewrite <- (load_le_loop_spec n n 0) by lia. reflexivity. Qed.

Lemma load_le_i64_spec src off :
  (off + 8 <= length src)%nat ->
  load_le_i64 src off = Ok (to_signed 64 (le_val (take 8 (drop off src)))).
Proof. intros H. unfold load_le_i64. by rewrite load_le_spec. Qed.

Lemma load_le_loop_range n k i u src off v :
  in_unsigned (8 * Z.of_nat n) u -> load_le_loop n k i u src off = Ok v ->
  in_unsigned (8 * Z.of_nat n) v.
Proof.
  revert i u; induction k as [|k IH]; intros i u Hu; cbn [load_le_loop]; [by intros [= <-]|].
  destruct (src !! (off + i)%nat); [|discriminate]. cbn. apply IH, wrap_range. lia.
Qed.

Lemma load_le_range n src off v : load_le n src off = Ok v -> in_unsigned (8 * Z.of_nat n) v.
Proof.
  apply load_le_loop_range. unfold in_unsigned.
  pose proof (Z.pow_pos_nonneg 2 (8 * Z.of_nat n)). lia.
Qed.

(** ** Records of scalars

    A wire structure is a sequence of fields, each a width in bytes and a
    value: the encoders store them one after the other, the decoders load each
    at its own constant offset. *)
Definition field : Type := nat * Z.

Fixpoint fields_size (fs : list field) : nat :=
  match fs with
  | [] => 0
  | f :: fs' => f.1 + fields_size fs'
  end.

Fixpoint fields_bytes (fs : list field) : list byte :=
  match fs with
  | [] => []
  | f :: fs' => le_bytes f.1 f.2 ++ fields_bytes fs'
  end.

(** [p = store_le(p, v1); p = store_le(p, v2); ...] *)
Fixpoint stores (fs : list field) (c : cursor) : outcome cursor :=
  match fs with
  | [] => Ok c
  | f :: fs' => c' ← store_le f.1 f.2 c; stores fs' c'
  end.

Lemma length_fields_bytes fs : length (fields_bytes fs) = fields_size fs.
Proof.
  induction fs as [|[n v] fs IH]; [done|]. cbn. by rewrite length_app, length_le_bytes, IH.
Qed.

Lemma stores_app fs1 fs2 c : stores (fs1 ++ fs2) c = (c' ← stores fs1 c; stores fs2 c').
Proof.
  revert c; induction fs1 as [|f fs1 IH]; intros c; [done|]. cbn.
  destruct (store_le f.1 f.2 c); cbn; auto.
Qed.

Lemma stores_spec fs dst p :
  (p + fields_size fs <= length dst)%nat ->
  stores fs (dst, p) =
    Ok (take p dst ++ fields_bytes fs ++ drop (p + fields_size fs) dst, (p + fields_size fs)%nat).
Proof.
  revert dst p; induction fs as [|[n v] fs IH]; intros dst p H; cbn [stores fst snd].
  - cbn. by rewrite Nat.add_0_r, take_drop.
  - cbn [fields_size fields_bytes fst snd] in *. rewrite store_le_spec by lia. cbn [mbind outcome_bind].
    assert (length (take p dst ++ le_bytes n v) = p + n)%nat as Hl.
    { rewrite length_app, length_take, length_le_bytes. lia. }
    rewrite (app_assoc (take p dst) (le_bytes n v) (drop (p + n) dst)).
    rewrite IH by (rewrite length_app, Hl, length_drop; lia).
    rewrite take_app_length' by done.
    rewrite (drop_app_add' _ _ _ _ (eq_sym Hl)), drop_drop.
    rewrite <- !app_assoc. by rewrite !Nat.add_assoc.
Qed.

Lemma take_drop_fields fs i n v rest :
  fs !! i = Some (n, v) ->
  take n (drop (fields_size (take i fs)) (fields_bytes fs ++ rest)) = le_bytes n v.
Proof.
  revert i; induction fs as [|[m w] fs IH]; intros i H; [done|].
  cbn [fields_bytes fst snd]. rewrite <- app_assoc. destruct i as [|i]; simplify_eq/=.
  - cbn [take fields_size]. by rewrite drop_0, take_app_length' by (by rewrite length_le_bytes).
  - rewrite drop_app_add' by (by rewrite length_le_bytes). by apply IH.
Qed.

Lemma fields_size_take fs i n v :
  fs !! i = Some (n, v) -> (fields_size (take i fs) + n <= fields_size fs)%nat.
Proof.
  revert i; induction fs as [|[m w] fs IH]; intros i H; [done|].
  destruct i as [|i]; simplify_eq/=; [lia|].
  specialize (IH _ H). lia.
Qed.

(** Loading field [i] of an encoded record returns the value stored there. *)
Lemma load_field fs i off n v rest :
  fs !! i = Some (n, v) -> off = fields_size (take i fs) ->
  load_le n (fields_bytes fs ++ rest) off = Ok (wrap (8 * Z.of_nat n) v).
Proof.
  intros Hi ->. rewrite load_le_spec.
  - by rewrite (take_drop_fields _ _ _ _ _ Hi), le_val_le_bytes.
  - rewrite length_app, length_fields_bytes. pose proof (fields_size_take _ _ _ _ Hi). lia.
Qed.

Lemma load_field_i64 fs i off v rest :
  fs !! i = Some (8%nat, v) -> off = fields_size (take i fs) -> in_signed 64 v ->
  load_le_i64 (fields_bytes fs ++ rest) off = Ok v.
Proof.
  intros Hi Hoff Hv. unfold load_le_i64. rewrite (load_field _ _ _ _ _ _ Hi Hoff). cbn.
  by rewrite to_signed_wrap.
Qed.

Lemma load_field_ok fs i off n v rest :
  fs !! i = Some (n, v) -> off = fields_size (take i fs) -> in_unsigned (8 * Z.of_nat n) v ->
  load_le n (fields_bytes fs ++ rest) off = Ok v.
Proof. intros Hi Hoff Hv. rewrite (load_field _ _ _ _ _ _ Hi Hoff). by rewrite wrap_small. Qed.

(** Both loaders succeed exactly within the buffer. *)
Lemma load_le_ok n src off :
  (off + n <= length src)%nat ->
  exists v, load_le n src off = Ok v /\ in_unsigned (8 * Z.of_nat n) v.
Proof.
  intros H. rewrite load_le_spec by done. eexists; split; [done|].
  pose proof (le_val_range (take n (drop off src))) as Hr.
  by rewrite length_take, length_drop, Nat.min_l in Hr by lia.
Qed.

Lemma load_le_i64_ok src off :
  (off + 8 <= length src)%nat ->
  exists v, load_le_i64 src off = Ok v /\ in_signed 64 v.
Proof.
  intros H. rewrite load_le_i64_spec by done. eexists; split; [done|]. by apply to_signed_range.
Qed.
