(* ===== verification/Protocol.v ===== *)
(** The wire protocol's data (include/mdfh/types.hpp, include/mdfh/protocol.hpp):
    scalar types, message header and bodies as records with the code's fields,
    the sizes of the wire layout, and the range of values each record's C++
    type admits. *)
From S2P Require Import Prelude.

Local Open Scope Z_scope.

(** ** types.hpp

    The integer aliases.  A value of each is a [Z] in the range of its type. *)
Notation Price := Z (only parsing).       (* int64 *)
Notation Quantity := Z (only parsing).    (* uint32 *)
Notation OrderId := Z (only parsing).     (* uint64 *)
Notation SymbolId := Z (only parsing).    (* uint32 *)
Notation Sequence := Z (only parsing).    (* uint32 *)
Notation TimestampNs := Z (only parsing). (* uint64 *)

Definition kPriceScale : Z := 10000.

(** [enum class Side : std::uint8_t]: the underlying type is fixed, so every
    byte is a value of the type and the parser stores any byte it receives. *)
Notation Side := Z (only parsing).
Definition Side_Buy : Side := 0.
Definition Side_Sell : Side := 1.

(** The test [s == Side::Buy] the code makes everywhere. *)
Definition is_buy (s : Side) : bool := s =? Side_Buy.

Definition opposite (s : Side) : Side := if is_buy s then Side_Sell else Side_Buy.

(** ** protocol.hpp *)

Definition kProtocolVersion : Z := 1.

Inductive MsgType : Set :=
  | MsgHeartbeat
  | MsgAddOrder
  | MsgCancelOrder
  | MsgModifyOrder
  | MsgTrade
  | MsgBookSnapshot.
#[export] Instance MsgType_eq_dec : EqDecision MsgType.
Proof. solve_decision. Defined.

(** [static_cast<std::uint8_t>(t)]. *)
Definition MsgType_to_u8 (t : MsgType) : Z :=
  match t with
  | MsgHeartbeat => 0
  | MsgAddOrder => 1
  | MsgCancelOrder => 2
  | MsgModifyOrder => 3
  | MsgTrade => 4
  | MsgBookSnapshot => 5
  end.

(** [static_cast<MsgType>(v)]; [None] is a byte that names no enumerator. *)
Definition MsgType_of_u8 (v : Z) : option MsgType :=
  match v with
  | 0 => Some MsgHeartbeat
  | 1 => Some MsgAddOrder
  | 2 => Some MsgCancelOrder
  | 3 => Some MsgModifyOrder
  | 4 => Some MsgTrade
  | 5 => Some MsgBookSnapshot
  | _ => None
  end.

Definition is_valid_msg_type (v : Z) : bool := v <=? MsgType_to_u8 MsgBookSnapshot.

Record MessageHeader := mkMessageHeader {
  hdr_type : MsgType;
  hdr_version : Z;       (* u8 *)
  hdr_body_size : Z;     (* u16 *)
  hdr_sequence : Sequence;
  hdr_timestamp : TimestampNs
}.

Definition kHeaderWireSize : nat := 16.

Record AddOrder := mkAddOrder {
  add_symbol : SymbolId;
  add_order_id : OrderId;
  add_side : Side;
  add_price : Price;
  add_quantity : Quantity
}.

Record CancelOrder := mkCancelOrder {
  cancel_symbol : SymbolId;
  cancel_order_id : OrderId
}.

Record ModifyOrder := mkModifyOrder {
  mod_symbol : SymbolId;
  mod_order_id : OrderId;
  mod_new_price : Price;
  mod_new_quantity : Quantity
}.

Record Trade := mkTrade {
  trade_symbol : SymbolId;
  trade_resting_order_id : OrderId;
  trade_price : Price;
  trade_quantity : Quantity;
  trade_aggressor_side : Side
}.

Definition kMaxSnapshotLevels : nat := 5.

Record SnapshotLevel := mkSnapshotLevel {
  sl_price : Price;
  sl_quantity : Quantity
}.

(** [std::array<SnapshotLevel, kMaxSnapshotLevels>] is a list of that length
    ([BookSnapshot_ok]). *)
Record BookSnapshot := mkBookSnapshot {
  snap_symbol : SymbolId;
  snap_num_bid_levels : Z;   (* u8 *)
  snap_num_ask_levels : Z;   (* u8 *)
  snap_bids : list SnapshotLevel;
  snap_asks : list SnapshotLevel
}.

Record Heartbeat := mkHeartbeat {}.

#[export] Instance MessageHeader_eq_dec : EqDecision MessageHeader.
Proof. solve_decision. Defined.
#[export] Instance AddOrder_eq_dec : EqDecision AddOrder.
Proof. solve_decision. Defined.
#[export] Instance CancelOrder_eq_dec : EqDecision CancelOrder.
Proof. solve_decision. Defined.
#[export] Instance ModifyOrder_eq_dec : EqDecision ModifyOrder.
Proof. solve_decision. Defined.
#[export] Instance Trade_eq_dec : EqDecision Trade.
Proof. solve_decision. Defined.
#[export] Instance SnapshotLevel_eq_dec : EqDecision SnapshotLevel.
Proof. solve_decision. Defined.
#[export] Instance BookSnapshot_eq_dec : EqDecision BookSnapshot.
Proof. solve_decision. Defined.
#[export] Instance Heartbeat_eq_dec : EqDecision Heartbeat.
Proof. solve_decision. Defined.

Definition kAddOrderBodySize : nat := 25.
Definition kCancelOrderBodySize : nat := 12.
Definition kModifyOrderBodySize : nat := 24.
Definition kTradeBodySize : nat := 25.
Definition kSnapshotBodySize : nat := 8 + 2 * kMaxSnapshotLevels * 12.
Definition kHeartbeatBodySize : nat := 0.

Definition kMaxMessageSize : nat := kHeaderWireSize + kSnapshotBodySize.

Definition body_size_for (t : MsgType) : nat :=
  match t with
  | MsgHeartbeat => kHeartbeatBodySize
  | MsgAddOrder => kAddOrderBodySize
  | MsgCancelOrder => kCancelOrderBodySize
  | MsgModifyOrder => kModifyOrderBodySize
  | MsgTrade => kTradeBodySize
  | MsgBookSnapshot => kSnapshotBodySize
  end.

(** ** The ranges of the fields' C++ types *)

Definition MessageHeader_ok (h : MessageHeader) : Prop :=
  in_unsigned 8 (hdr_version h) /\ in_unsigned 16 (hdr_body_size h) /\
  in_unsigned 32 (hdr_sequence h) /\ in_unsigned 64 (hdr_timestamp h).

Definition AddOrder_ok (m : AddOrder) : Prop :=
  in_unsigned 32 (add_symbol m) /\ in_unsigned 64 (add_order_id m) /\
  in_unsigned 8 (add_side m) /\ in_signed 64 (add_price m) /\ in_unsigned 32 (add_quantity m).

Definition CancelOrder_ok (m : CancelOrder) : Prop :=
  in_unsigned 32 (cancel_symbol m) /\ in_unsigned 64 (cancel_order_id m).

Definition ModifyOrder_ok (m : ModifyOrder) : Prop :=
  in_unsigned 32 (mod_symbol m) /\ in_unsigned 64 (mod_order_id m) /\
  in_signed 64 (mod_new_price m) /\ in_unsigned 32 (mod_new_quantity m).

Definition Trade_ok (m : Trade) : Prop :=
  in_unsigned 32 (trade_symbol m) /\ in_unsigned 64 (trade_resting_order_id m) /\
  in_signed 64 (trade_price m) /\ in_unsigned 32 (trade_quantity m) /\
  in_unsigned 8 (trade_aggressor_side m).

Definition SnapshotLevel_ok (l : SnapshotLevel) : Prop :=
  in_signed 64 (sl_price l) /\ in_unsigned 32 (sl_quantity l).

Definition BookSnapshot_ok (m : BookSnapshot) : Prop :=
  in_unsigned 32 (snap_symbol m) /\
  in_unsigned 8 (snap_num_bid_levels m) /\ in_unsigned 8 (snap_num_ask_levels m) /\
  length (snap_bids m) = kMaxSnapshotLevels /\ length (snap_asks m) = kMaxSnapshotLevels /\
  Forall SnapshotLevel_ok (snap_bids m) /\ Forall SnapshotLevel_ok (snap_asks m).

(** ** Facts *)

Lemma is_valid_msg_type_spec v :
  0 <= v -> is_valid_msg_type v = bool_decide (is_Some (MsgType_of_u8 v)).
Proof.
  intros Hv. unfold is_valid_msg_type. cbn [MsgType_to_u8].
  assert (v = 0 \/ v = 1 \/ v = 2 \/ v = 3 \/ v = 4 \/ v = 5 \/ 5 < v) as Hc by lia.
  destruct Hc as [-> | [-> | [-> | [-> | [-> | [-> | Hgt]]]]]]; [reflexivity..|].
  rewrite bool_decide_eq_false_2; [lia|].
  intros [t Ht]. destruct v as [|p|p]; [lia| |lia].
  repeat (destruct p as [p|p|]; try discriminate; try lia).
Qed.

Lemma MsgType_of_to_u8 t : MsgType_of_u8 (MsgType_to_u8 t) = Some t.
Proof. by destruct t. Qed.

Lemma MsgType_to_of_u8 v t : MsgType_of_u8 v = Some t -> MsgType_to_u8 t = v.
Proof.
  destruct v as [|p|p]; cbn; [by intros [= <-]| |discriminate].
  repeat (destruct p as [p|p|]; try discriminate; try (by intros [= <-])).
Qed.

Lemma body_size_for_max t : (body_size_for t <= kSnapshotBodySize)%nat.
Proof. destruct t; vm_compute; lia. Qed.

(** Replaces the size constants by their values, for [lia]. *)
Ltac unfold_sizes :=
  cbv [kAddOrderBodySize kCancelOrderBodySize kModifyOrderBodySize kTradeBodySize
       kSnapshotBodySize kHeartbeatBodySize kMaxMessageSize kMaxSnapshotLevels
       kHeaderWireSize] in *; cbn [Nat.mul Nat.add] in *.
