(* ===== verification/Prices.v ===== *)
(** The conversions between prices and doubles (include/mdfh/types.hpp), and the
    other helpers of its vocabulary.  The header says that conversion to a
    double is for display only; here is why it loses nothing there. *)
From Stdlib Require Import SpecFloat.
From stdpp Require Import strings.
From S2P Require Import Prelude Doubles ByteOrder Protocol.

Local Open Scope Z_scope.

(** ** The code *)

(** [to_string(s)], for any value of the underlying byte. *)
Definition side_to_string (s : Side) : string := if is_buy s then "BUY" else "SELL".

Definition price_to_double (p : Price) : double := double_div (double_of_Z p) (double_of_Z kPriceScale).

(** The literals 0.5 and -0.5. *)
Definition half : double := double_div (double_of_Z 1) (double_of_Z 2).
Definition double_to_price (d : double) : outcome Price :=
  int64_of_double (double_add (double_mul d (double_of_Z kPriceScale))
                     (if SFleb (double_of_Z 0) d then half else SFopp half)).

(** ** Rounding errors *)

Definition scale_significand : Z := 10000 * 2 ^ 39.
Lemma scale_double : double_of_Z kPriceScale = S754_finite false (Z.to_pos scale_significand) (-39).
Proof. by vm_compute. Qed.

(** The value of a double over the denominator [2 ^ 200]. *)
Definition scaled (r : positive) (e : Z) : Z := Zpos r * 2 ^ (e + 200).

Lemma scaled_shift r e e' : -200 <= e' <= e -> scaled r e = Zpos r * 2 ^ (e - e') * 2 ^ (e' + 200).
Proof. intros He. unfold scaled. rewrite <- Z.mul_assoc, <- Z.pow_add_r by lia. do 2 f_equal. lia. Qed.

(** [price_to_double]: the quotient with two relative errors of [2 ^ -52], its
    truncation and its rounding. *)
Lemma price_quotient s p :
  0 < p < 2 ^ 48 ->
  exists r e, price_to_double (cond_Zopp s p) = S754_finite s r e /\ -70 < e < -15 /\ 2 ^ 52 <= Zpos r < 2 ^ 53 /\
    exists q, q * 10000 <= p * 2 ^ 200 /\ (p * 2 ^ 200 - q * 10000) * 2 ^ 52 <= q * 10000 /\
      Z.abs (scaled r e - q) * 2 ^ 52 <= q.
Proof.
  intros Hp. destruct (double_of_small s p) as (P & eP & EP & HeP & HP & Eq); [lia|].
  assert (eP <= -5) as HeP5.
  { assert (2 ^ 4 < 2 ^ (- eP)) as H by nia. apply Z.pow_lt_mono_r_iff in H; lia. }
  unfold price_to_double, double_div. rewrite EP, scale_double. cbn [SFdiv]. unfold SFdiv_core_binary.
  assert (Zdigits2 (Zpos P) = 53) as -> by (apply digits_eq; lia).
  change (Zdigits2 (Zpos (Z.to_pos scale_significand))) with 53. cbv zeta. rewrite fexp_normal by lia.
  replace (Z.min _ _) with (eP - 14) by lia. replace (eP - -39 - (eP - 14)) with 53 by lia.
  rewrite Z.shiftl_mul_pow2 by lia. change (Zpos (Z.to_pos scale_significand)) with scale_significand.
  pose proof (Z_div_mod (Zpos P * 2 ^ 53) scale_significand eq_refl) as Hdiv.
  destruct (Z.div_eucl _ _) as [q rem]. destruct Hdiv as [Hdiv Hrem]. unfold scale_significand in Hdiv, Hrem.
  destruct (round_near (xorb s false) q (eP - 14) 54 (new_location scale_significand rem))
    as (r & e & E & He & Hr & Hnear); [lia|lia|lia|].
  rewrite E. exists r, e. rewrite xorb_false_r. split; [done|]. split; [lia|]. split; [done|].
  exists (q * 2 ^ (eP - 14 + 200)). rewrite (scaled_shift r e (eP - 14)) by lia.
  set (u := 2 ^ (eP - 14 + 200)) in *. assert (0 < u) by (apply Z.pow_pos_nonneg; lia).
  assert (p * 2 ^ 200 * 2 ^ 39 = Zpos P * 2 ^ 53 * u) as Hpu.
  { rewrite Eq, <- !Z.mul_assoc. unfold u. rewrite <- !Z.pow_add_r by lia. do 2 f_equal. lia. }
  split; [nia|]. split; [nia|]. rewrite <- Z.mul_sub_distr_r, Z.abs_mul, (Z.abs_eq u) by lia. nia.
Qed.

Lemma half_double : half = S754_finite false (Z.to_pos (2 ^ 52)) (-53).
Proof. by vm_compute. Qed.

Lemma scale_product s r e :
  -70 < e < -15 -> 2 ^ 52 <= Zpos r < 2 ^ 53 ->
  exists r' e', double_mul (S754_finite s r e) (double_of_Z kPriceScale) = S754_finite s r' e' /\
    -109 <= e' < 0 /\ 2 ^ 52 <= Zpos r' < 2 ^ 53 /\
    Z.abs (scaled r' e' - 10000 * scaled r e) * 2 ^ 52 <= 10000 * scaled r e.
Proof.
  intros He Hr. rewrite scale_double. unfold double_mul. cbn [SFmul]. rewrite Pos2Z.inj_mul, xorb_false_r.
  change (Zpos (Z.to_pos scale_significand)) with scale_significand.
  destruct (round_near s (Zpos r * scale_significand) (e + -39) 106 loc_Exact) as (r' & e' & -> & He' & Hr' & Hn);
    [unfold scale_significand; lia|lia|lia|].
  exists r', e'. split; [done|]. split; [lia|]. split; [done|]. rewrite (scaled_shift r' e' (e + -39)) by lia.
  unfold scaled, scale_significand in *. set (u := 2 ^ (e + -39 + 200)) in *.
  assert (0 < u) by (apply Z.pow_pos_nonneg; lia).
  replace (2 ^ (e + 200)) with (2 ^ 39 * u) by (unfold u; rewrite <- Z.pow_add_r by lia; f_equal; lia).
  replace (10000 * (Zpos r * (2 ^ 39 * u))) with (Zpos r * (10000 * 2 ^ 39) * u) by lia.
  rewrite <- Z.mul_sub_distr_r, Z.abs_mul, (Z.abs_eq u) by lia. nia.
Qed.

Lemma half_sum s r e :
  -109 <= e < 0 -> 2 ^ 52 <= Zpos r < 2 ^ 53 ->
  exists r' e', double_add (S754_finite s r e) (if s then SFopp half else half) = S754_finite s r' e' /\
    -200 <= e' /\ Z.abs (scaled r' e' - (scaled r e + 2 ^ 199)) * 2 ^ 52 <= scaled r e + 2 ^ 199.
Proof.
  intros He Hr. rewrite half_double.
  assert ((if s then SFopp (S754_finite false (Z.to_pos (2 ^ 52)) (-53)) else S754_finite false (Z.to_pos (2 ^ 52)) (-53)) =
    S754_finite s (Z.to_pos (2 ^ 52)) (-53)) as -> by (by destruct s).
  unfold double_add. cbn [SFadd]. set (z := Z.min e (-53)). rewrite !shl_align_value by lia.
  change (Zpos (Z.to_pos (2 ^ 52))) with (2 ^ 52). set (S := Zpos r * 2 ^ (e - z) + 2 ^ 52 * 2 ^ (-53 - z)).
  replace (cond_Zopp s _ + cond_Zopp s _) with (cond_Zopp s S) by (destruct s; cbn; lia).
  assert (0 < 2 ^ (e - z)) by (apply Z.pow_pos_nonneg; lia). assert (0 < 2 ^ (-53 - z)) by (apply Z.pow_pos_nonneg; lia).
  assert (0 < 2 ^ - z) by (apply Z.pow_pos_nonneg; lia).
  assert (2 ^ (e - z) <= 2 ^ - z) by (apply Z.pow_le_mono_r; lia).
  assert (2 ^ (-53 - z) <= 2 ^ - z) by (apply Z.pow_le_mono_r; lia).
  assert (2 ^ 52 <= S < 2 ^ (54 - z)) as HS.
  { replace (54 - z) with (54 + - z) by lia. rewrite Z.pow_add_r by lia. unfold S. nia. }
  rewrite normalize_long by lia.
  destruct (round_near s S z (54 - z) loc_Exact HS) as (r' & e' & -> & He' & Hr' & Hn); [lia|lia|].
  exists r', e'. split; [done|]. split; [lia|]. rewrite (scaled_shift r' e' z), (scaled_shift r e z) by lia.
  set (u := 2 ^ (z + 200)). assert (0 < u) by (apply Z.pow_pos_nonneg; lia).
  assert (2 ^ 199 = 2 ^ 52 * 2 ^ (-53 - z) * u) as ->.
  { unfold u. rewrite <- !Z.pow_add_r by lia. f_equal. lia. }
  rewrite <- Z.mul_add_distr_r. fold S. rewrite <- Z.mul_sub_distr_r, Z.abs_mul, (Z.abs_eq u) by lia. nia.
Qed.

(** ** The theorem *)

(** C30: displaying a price and reading it back loses nothing: for every price of
    less than 2^48 units (28 billion whole ones) [double_to_price] inverts
    [price_to_double], though the quotient by the scale, the product with it
    and the sum with a half are each rounded to a double. *)
Theorem price_double_roundtrip p :
  Z.abs p < 2 ^ 48 -> double_to_price (price_to_double p) = Ok p.
Proof.
  intros Hp. destruct (decide (p = 0)) as [->|Hp0]; [by vm_compute|].
  assert (exists s m, p = cond_Zopp s m /\ 0 < m < 2 ^ 48) as (s & m & -> & Hm).
  { exists (p <? 0), (Z.abs p). destruct (Z.ltb_spec p 0); cbn; lia. }
  destruct (price_quotient s m Hm) as (r & e & -> & He & Hr & q & Hq1 & Hq2 & Hq3). unfold double_to_price.
  assert (SFleb (double_of_Z 0) (S754_finite s r e) = negb s) as -> by (by destruct s).
  destruct (scale_product s r e He Hr) as (r2 & e2 & -> & He2 & Hr2 & Hx).
  replace (if negb s then half else SFopp half) with (if s then SFopp half else half) by (by destruct s).
  destruct (half_sum s r2 e2 He2 Hr2) as (r3 & e3 & -> & He3 & Hy). unfold int64_of_double.
  rewrite (trunc_scaled r3 e3 200) by lia. fold (scaled r3 e3).
  assert (m * 2 ^ 200 <= scaled r3 e3 < (m + 1) * 2 ^ 200) as Hv by lia.
  assert (scaled r3 e3 / 2 ^ 200 = m) as -> by (symmetry; apply Z.div_unique with (scaled r3 e3 - m * 2 ^ 200); lia).
  change (if s then - m else m) with (cond_Zopp s m).
  rewrite (proj2 (in_signedb_spec 64 _)); [done|]. unfold in_signed. destruct s; cbn; lia.
Qed.

Lemma price_double_roundtrip_witness :
  double_to_price (price_to_double (-1234567)) = Ok (-1234567) /\
  double_to_price (price_to_double 281474976710655) = Ok 281474976710655.
Proof. split; apply price_double_roundtrip; by vm_compute. Defined.
