(* ===== verification/Serialization.v ===== *)
(** Framing of headers and bodies (include/mdfh/serialization.hpp): the header
    and body encoders and decoders, [encode_message], and the interface
    [WireBody] (the overload set a body type has in the code) with the laws
    [WireBodyLaws] its clients rely on, discharged for the six body types. *)
From S2P Require Import Prelude ByteOrder Protocol.

Local Open Scope Z_scope.

(** ** Header *)

Definition encode_header (type : MsgType) (seq : Sequence) (ts : TimestampNs) (p : cursor)
  : outcome cursor :=
  p ← store_le 1 (MsgType_to_u8 type) p;
  p ← store_le 1 kProtocolVersion p;
  p ← store_le 2 (wrap 16 (Z.of_nat (body_size_for type))) p;
  p ← store_le 4 seq p;
  store_le 8 ts p.

(** [Ok None] is the return value [false], with the output left untouched. *)
Definition decode_header (buf : list byte) : outcome (option MessageHeader) :=
  if bool_decide (length buf < kHeaderWireSize)%nat then Ok None else
  raw_type ← load_le 1 buf 0;
  if negb (is_valid_msg_type raw_type) then Ok None else
  type ← of_option (MsgType_of_u8 raw_type);
  version ← load_le 1 buf 1;
  body_size ← load_le 2 buf 2;
  sequence ← load_le 4 buf 4;
  timestamp ← load_le 8 buf 8;
  Ok (Some (mkMessageHeader type version body_size sequence timestamp)).

(** ** Body encoders *)

Definition encode_AddOrder (m : AddOrder) (p : cursor) : outcome cursor :=
  p ← store_le 4 (add_symbol m) p;
  p ← store_le 8 (add_order_id m) p;
  p ← store_le 1 (add_side m) p;
  p ← store_le 8 (add_price m) p;
  store_le 4 (add_quantity m) p.

Definition encode_CancelOrder (m : CancelOrder) (p : cursor) : outcome cursor :=
  p ← store_le 4 (cancel_symbol m) p;
  store_le 8 (cancel_order_id m) p.

Definition encode_ModifyOrder (m : ModifyOrder) (p : cursor) : outcome cursor :=
  p ← store_le 4 (mod_symbol m) p;
  p ← store_le 8 (mod_order_id m) p;
  p ← store_le 8 (mod_new_price m) p;
  store_le 4 (mod_new_quantity m) p.

Definition encode_Trade (m : Trade) (p : cursor) : outcome cursor :=
  p ← store_le 4 (trade_symbol m) p;
  p ← store_le 8 (trade_resting_order_id m) p;
  p ← store_le 8 (trade_price m) p;
  p ← store_le 4 (trade_quantity m) p;
  store_le 1 (trade_aggressor_side m) p.

(** [for (const auto& lvl : levels) { p = store_le(price); p = store_le(qty); }] *)
Fixpoint encode_levels (levels : list SnapshotLevel) (p : cursor) : outcome cursor :=
  match levels with
  | [] => Ok p
  | lvl :: levels' =>
      p ← store_le 8 (sl_price lvl) p;
      p ← store_le 4 (sl_quantity lvl) p;
      encode_levels levels' p
  end.

Definition encode_BookSnapshot (m : BookSnapshot) (p : cursor) : outcome cursor :=
  p ← store_le 4 (snap_symbol m) p;
  p ← store_le 1 (snap_num_bid_levels m) p;
  p ← store_le 1 (snap_num_ask_levels m) p;
  p ← store_le 2 0 p;
  p ← encode_levels (snap_bids m) p;
  encode_levels (snap_asks m) p.

Definition encode_Heartbeat (m : Heartbeat) (p : cursor) : outcome cursor := Ok p.

(** ** Body decoders *)

Definition decode_AddOrder (b : list byte) : outcome (option AddOrder) :=
  if bool_decide (length b < kAddOrderBodySize)%nat then Ok None else
  symbol ← load_le 4 b 0;
  order_id ← load_le 8 b 4;
  side ← load_le 1 b 12;
  price ← load_le_i64 b 13;
  quantity ← load_le 4 b 21;
  Ok (Some (mkAddOrder symbol order_id side price quantity)).

Definition decode_CancelOrder (b : list byte) : outcome (option CancelOrder) :=
  if bool_decide (length b < kCancelOrderBodySize)%nat then Ok None else
  symbol ← load_le 4 b 0;
  order_id ← load_le 8 b 4;
  Ok (Some (mkCancelOrder symbol order_id)).

Definition decode_ModifyOrder (b : list byte) : outcome (option ModifyOrder) :=
  if bool_decide (length b < kModifyOrderBodySize)%nat then Ok None else
  symbol ← load_le 4 b 0;
  order_id ← load_le 8 b 4;
  new_price ← load_le_i64 b 12;
  new_quantity ← load_le 4 b 20;
  Ok (Some (mkModifyOrder symbol order_id new_price new_quantity)).

Definition decode_Trade (b : list byte) : outcome (option Trade) :=
  if bool_decide (length b < kTradeBodySize)%nat then Ok None else
  symbol ← load_le 4 b 0;
  resting_order_id ← load_le 8 b 4;
  price ← load_le_i64 b 12;
  quantity ← load_le 4 b 20;
  aggressor_side ← load_le 1 b 24;
  Ok (Some (mkTrade symbol resting_order_id price quantity aggressor_side)).

(** The loop over one side's array of [n] levels, from offset [off]; returns
    the levels and the offset after the loop. *)
Fixpoint decode_levels (n : nat) (b : list byte) (off : nat)
  : outcome (list SnapshotLevel * nat) :=
  match n with
  | O => Ok ([], off)
  | S n' =>
      price ← load_le_i64 b off;
      quantity ← load_le 4 b (off + 8);
      r ← decode_levels n' b (off + 12);
      Ok (mkSnapshotLevel price quantity :: r.1, r.2)
  end.

Definition decode_BookSnapshot (b : list byte) : outcome (option BookSnapshot) :=
  if bool_decide (length b < kSnapshotBodySize)%nat then Ok None else
  symbol ← load_le 4 b 0;
  num_bid_levels ← load_le 1 b 4;
  num_ask_levels ← load_le 1 b 5;
  bids ← decode_levels kMaxSnapshotLevels b 8;
  asks ← decode_levels kMaxSnapshotLevels b bids.2;
  Ok (Some (mkBookSnapshot symbol num_bid_levels num_ask_levels bids.1 asks.1)).

Definition decode_Heartbeat (b : list byte) : outcome (option Heartbeat) :=
  Ok (Some mkHeartbeat).

(** ** The body interface *)

(** What the templates over [Body] use of a body type: its [msg_type_of] and
    its overloads of [encode_body] and [decode_body]. *)
Class WireBody (B : Type) : Type := {
  msg_type_of : MsgType;
  encode_body : B -> cursor -> outcome cursor;
  decode_body : list byte -> outcome (option B)
}.
Arguments msg_type_of B {_}.

#[export] Instance AddOrder_body : WireBody AddOrder :=
  {| msg_type_of := MsgAddOrder; encode_body := encode_AddOrder; decode_body := decode_AddOrder |}.
#[export] Instance CancelOrder_body : WireBody CancelOrder :=
  {| msg_type_of := MsgCancelOrder; encode_body := encode_CancelOrder;
     decode_body := decode_CancelOrder |}.
#[export] Instance ModifyOrder_body : WireBody ModifyOrder :=
  {| msg_type_of := MsgModifyOrder; encode_body := encode_ModifyOrder;
     decode_body := decode_ModifyOrder |}.
#[export] Instance Trade_body : WireBody Trade :=
  {| msg_type_of := MsgTrade; encode_body := encode_Trade; decode_body := decode_Trade |}.
#[export] Instance BookSnapshot_body : WireBody BookSnapshot :=
  {| msg_type_of := MsgBookSnapshot; encode_body := encode_BookSnapshot;
     decode_body := decode_BookSnapshot |}.
#[export] Instance Heartbeat_body : WireBody Heartbeat :=
  {| msg_type_of := MsgHeartbeat; encode_body := encode_Heartbeat;
     decode_body := decode_Heartbeat |}.

(** [encode_message(out, seq, ts, body)]: the bytes written and the buffer. *)
Definition encode_message {B} `{WireBody B} (out : list byte) (seq : Sequence)
    (ts : TimestampNs) (body : B) : outcome (nat * list byte) :=
  let total := (kHeaderWireSize + body_size_for (msg_type_of B))%nat in
  if bool_decide (length out < total)%nat then Ok (0%nat, out) else
  p ← encode_header (msg_type_of B) seq ts (out, 0%nat);
  p ← encode_body body p;
  Ok (total, p.1).

(** What the framing relies on of a body type: its values in range encode as
    the fields [wire_fields], which fill exactly the size of its type; the
    decoder inverts the encoder, never reads outside its span, rejects exactly
    the short spans and produces values in range. *)
Class WireBodyLaws (B : Type) `{WireBody B} : Type := {
  wire_ok : B -> Prop;
  wire_fields : B -> list field;
  wire_fields_size m :
    wire_ok m -> fields_size (wire_fields m) = body_size_for (msg_type_of B);
  encode_body_stores m c : encode_body m c = stores (wire_fields m) c;
  decode_encode_body m rest :
    wire_ok m -> decode_body (fields_bytes (wire_fields m) ++ rest) = Ok (Some m);
  decode_body_short b :
    (length b < body_size_for (msg_type_of B))%nat -> decode_body b = Ok None;
  decode_body_long b :
    (body_size_for (msg_type_of B) <= length b)%nat ->
    exists m, decode_body b = Ok (Some m) /\ wire_ok m
}.

(** ** Tactics of this file *)

(** Rewrites the load at the head of a decoder, of field [i], to the value the
    encoder stored there. *)
Ltac load_field i :=
  lazymatch goal with
  | |- (load_le ?n (fields_bytes ?fs ++ ?rest) ?off ≫= _) = _ =>
      rewrite (load_field_ok fs i off n _ rest eq_refl eq_refl)
        by (let w := eval cbv in (8 * Z.of_nat n) in
            change (8 * Z.of_nat n) with w; assumption); rewrite bind_ok
  end.
Ltac load_field_i64 i :=
  lazymatch goal with
  | |- (load_le_i64 (fields_bytes ?fs ++ ?rest) ?off ≫= _) = _ =>
      rewrite (load_field_i64 fs i off _ rest eq_refl eq_refl)
        by assumption; rewrite bind_ok
  end.

(** Steps over the loads of a decoder run on a long enough span. *)
Ltac load_any :=
  match goal with
  | |- context [load_le ?n ?b ?off] =>
      let v := fresh "v" in let Hv := fresh "Hv" in let E := fresh "E" in
      destruct (load_le_ok n b off) as (v & E & Hv); [lia|];
      let w := eval cbv in (8 * Z.of_nat n) in change (8 * Z.of_nat n) with w in Hv;
      rewrite E; clear E; rewrite bind_ok
  | |- context [load_le_i64 ?b ?off] =>
      let v := fresh "v" in let Hv := fresh "Hv" in let E := fresh "E" in
      destruct (load_le_i64_ok b off) as (v & E & Hv); [lia|];
      rewrite E; clear E; rewrite bind_ok
  end.
Ltac not_short :=
  rewrite bool_decide_eq_false_2
    by (rewrite ?length_app, ?length_fields_bytes; unfold_sizes; cbn; lia).

(** ** The laws, per body type *)

Definition AddOrder_fields (m : AddOrder) : list field :=
  [(4%nat, add_symbol m); (8%nat, add_order_id m); (1%nat, add_side m);
   (8%nat, add_price m); (4%nat, add_quantity m)].
Definition CancelOrder_fields (m : CancelOrder) : list field :=
  [(4%nat, cancel_symbol m); (8%nat, cancel_order_id m)].
Definition ModifyOrder_fields (m : ModifyOrder) : list field :=
  [(4%nat, mod_symbol m); (8%nat, mod_order_id m); (8%nat, mod_new_price m);
   (4%nat, mod_new_quantity m)].
Definition Trade_fields (m : Trade) : list field :=
  [(4%nat, trade_symbol m); (8%nat, trade_resting_order_id m); (8%nat, trade_price m);
   (4%nat, trade_quantity m); (1%nat, trade_aggressor_side m)].
Definition level_fields (l : SnapshotLevel) : list field :=
  [(8%nat, sl_price l); (4%nat, sl_quantity l)].
Definition levels_fields (ls : list SnapshotLevel) : list field := mjoin (level_fields <$> ls).
Definition BookSnapshot_fields (m : BookSnapshot) : list field :=
  [(4%nat, snap_symbol m); (1%nat, snap_num_bid_levels m); (1%nat, snap_num_ask_levels m);
   (2%nat, 0)] ++ levels_fields (snap_bids m) ++ levels_fields (snap_asks m).

Lemma encode_levels_stores ls c : encode_levels ls c = stores (levels_fields ls) c.
Proof.
  revert c; induction ls as [|l ls IH]; intros c; [done|].
  change (levels_fields (l :: ls)) with (level_fields l ++ levels_fields ls).
  rewrite stores_app. cbn. destruct (store_le 8 _ c); [|done..]. cbn.
  destruct (store_le 4 _ _); [|done..]. cbn. apply IH.
Qed.

Lemma encode_BookSnapshot_stores m c :
  encode_BookSnapshot m c = stores (BookSnapshot_fields m) c.
Proof.
  unfold encode_BookSnapshot, BookSnapshot_fields. rewrite stores_app. cbn [stores fst snd].
  rewrite !bind_assoc. apply bind_ext; intros c1.
  rewrite !bind_assoc. apply bind_ext; intros c2.
  rewrite !bind_assoc. apply bind_ext; intros c3.
  rewrite !bind_assoc. apply bind_ext; intros c4. rewrite bind_ok.
  rewrite stores_app, encode_levels_stores. apply bind_ext; intros c5.
  apply encode_levels_stores.
Qed.

Lemma levels_fields_size ls : fields_size (levels_fields ls) = (12 * length ls)%nat.
Proof.
  induction ls as [|l ls IH]; [done|].
  change (levels_fields (l :: ls)) with (level_fields l ++ levels_fields ls).
  cbn in *. rewrite IH. lia.
Qed.

Lemma fields_bytes_app fs1 fs2 : fields_bytes (fs1 ++ fs2) = fields_bytes fs1 ++ fields_bytes fs2.
Proof.
  induction fs1 as [|f fs1 IH]; [done|]. cbn. by rewrite IH, app_assoc.
Qed.

Lemma fields_size_app fs1 fs2 : fields_size (fs1 ++ fs2) = (fields_size fs1 + fields_size fs2)%nat.
Proof. induction fs1 as [|f fs1 IH]; [done|]. cbn. rewrite IH. lia. Qed.

(** The loops read back what [encode_levels] stored, wherever it stands. *)
Lemma decode_levels_fields ls pre rest :
  Forall SnapshotLevel_ok ls ->
  decode_levels (length ls) (pre ++ fields_bytes (levels_fields ls) ++ rest) (length pre)
  = Ok (ls, length pre + 12 * length ls)%nat.
Proof.
  intros Hls. revert pre; induction Hls as [|l ls [Hp Hq] Hls IH]; intros pre.
  - cbn. do 2 f_equal. lia.
  - change (levels_fields (l :: ls)) with (level_fields l ++ levels_fields ls).
    rewrite fields_bytes_app, <- app_assoc. cbn [decode_levels length].
    rewrite load_le_i64_spec by (rewrite !length_app, !length_fields_bytes; cbn; lia).
    pose proof (take_drop_fields (level_fields l) 0 8 (sl_price l)
                  (fields_bytes (levels_fields ls) ++ rest) eq_refl) as Hp'.
    cbn [take fields_size] in Hp'. rewrite drop_0 in Hp'. rewrite drop_app_length, Hp'.
    rewrite le_val_le_bytes. change (8 * Z.of_nat 8) with 64. rewrite to_signed_wrap by done.
    rewrite bind_ok.
    rewrite load_le_spec by (rewrite !length_app, !length_fields_bytes; cbn; lia).
    rewrite drop_app_add.
    pose proof (take_drop_fields (level_fields l) 1 4 (sl_quantity l)
                  (fields_bytes (levels_fields ls) ++ rest) eq_refl) as Hq'.
    cbn [take fields_size fst level_fields Nat.add] in Hq'. rewrite Hq'.
    rewrite le_val_le_bytes, wrap_small by done. rewrite bind_ok.
    rewrite app_assoc.
    replace (length pre + 12)%nat with (length (pre ++ fields_bytes (level_fields l)))
      by (rewrite length_app, length_fields_bytes; done).
    rewrite IH, length_app, length_fields_bytes. cbn. destruct l. do 2 f_equal. lia.
Qed.

Lemma decode_levels_ok n b off :
  (off + 12 * n <= length b)%nat ->
  exists ls, decode_levels n b off = Ok (ls, (off + 12 * n)%nat) /\
             length ls = n /\ Forall SnapshotLevel_ok ls.
Proof.
  revert off; induction n as [|n IH]; intros off H; cbn [decode_levels].
  - exists []. split; [|by auto]. do 2 f_equal. lia.
  - load_any. load_any. destruct (IH (off + 12)%nat) as (ls & -> & <- & Hls); [lia|].
    rewrite bind_ok; cbn [fst snd]. replace (off + 12 + 12 * length ls)%nat
      with (off + 12 * S (length ls))%nat by lia.
    eexists. split; [done|]. split; [by cbn|]. constructor; [by split|done].
Qed.

(** The laws of a fixed-layout body, by stepping over its stores and loads. *)
Ltac encode_law f :=
  intros m c; cbn; unfold f;
  repeat (apply bind_ext; intros ?); rewrite ?bind_ret_r; reflexivity.
Ltac decode_short_law f :=
  intros b Hb; cbn in Hb |- *; unfold f; rewrite bool_decide_eq_true_2 by (unfold_sizes; lia); reflexivity.
Ltac decode_long_law f ok :=
  intros b Hb; cbn in Hb |- *; unfold f; unfold_sizes; rewrite bool_decide_eq_false_2 by lia;
  repeat load_any; eexists; split; [reflexivity|]; unfold ok; cbn; split_and!; assumption.

#[export] Instance AddOrder_laws : WireBodyLaws AddOrder.
Proof.
  refine {| wire_ok := AddOrder_ok; wire_fields := AddOrder_fields |}.
  - done.
  - encode_law encode_AddOrder.
  - intros m rest (? & ? & ? & ? & ?). cbn [decode_body AddOrder_body].
    unfold decode_AddOrder. not_short.
    load_field 0%nat. load_field 1%nat. load_field 2%nat. load_field_i64 3%nat. load_field 4%nat.
    by destruct m.
  - decode_short_law decode_AddOrder.
  - decode_long_law decode_AddOrder AddOrder_ok.
Defined.

#[export] Instance CancelOrder_laws : WireBodyLaws CancelOrder.
Proof.
  refine {| wire_ok := CancelOrder_ok; wire_fields := CancelOrder_fields |}.
  - done.
  - encode_law encode_CancelOrder.
  - intros m rest (? & ?). cbn [decode_body CancelOrder_body].
    unfold decode_CancelOrder. not_short. load_field 0%nat. load_field 1%nat. by destruct m.
  - decode_short_law decode_CancelOrder.
  - decode_long_law decode_CancelOrder CancelOrder_ok.
Defined.

#[export] Instance ModifyOrder_laws : WireBodyLaws ModifyOrder.
Proof.
  refine {| wire_ok := ModifyOrder_ok; wire_fields := ModifyOrder_fields |}.
  - done.
  - encode_law encode_ModifyOrder.
  - intros m rest (? & ? & ? & ?). cbn [decode_body ModifyOrder_body].
    unfold decode_ModifyOrder. not_short.
    load_field 0%nat. load_field 1%nat. load_field_i64 2%nat. load_field 3%nat. by destruct m.
  - decode_short_law decode_ModifyOrder.
  - decode_long_law decode_ModifyOrder ModifyOrder_ok.
Defined.

#[export] Instance Trade_laws : WireBodyLaws Trade.
Proof.
  refine {| wire_ok := Trade_ok; wire_fields := Trade_fields |}.
  - done.
  - encode_law encode_Trade.
  - intros m rest (? & ? & ? & ? & ?). cbn [decode_body Trade_body].
    unfold decode_Trade. not_short.
    load_field 0%nat. load_field 1%nat. load_field_i64 2%nat. load_field 3%nat. load_field 4%nat.
    by destruct m.
  - decode_short_law decode_Trade.
  - decode_long_law decode_Trade Trade_ok.
Defined.

#[export] Instance Heartbeat_laws : WireBodyLaws Heartbeat.
Proof.
  refine {| wire_ok := fun _ => True; wire_fields := fun _ => [] |}.
  - done.
  - done.
  - by intros [] rest _.
  - intros b Hb. cbn in Hb. unfold_sizes. lia.
  - intros b _. by exists mkHeartbeat.
Defined.

#[export] Instance BookSnapshot_laws : WireBodyLaws BookSnapshot.
Proof.
  refine {| wire_ok := BookSnapshot_ok; wire_fields := BookSnapshot_fields |}.
  - intros m (_ & _ & _ & Hb & Ha & _). unfold BookSnapshot_fields.
    rewrite !fields_size_app, !levels_fields_size, Hb, Ha. done.
  - apply encode_BookSnapshot_stores.
  - intros m rest (? & ? & ? & Hb & Ha & Hbs & Has).
    cbn [decode_body BookSnapshot_body]. unfold decode_BookSnapshot.
    rewrite bool_decide_eq_false_2.
    2:{ rewrite length_app, length_fields_bytes. unfold BookSnapshot_fields.
        rewrite !fields_size_app, !levels_fields_size, Hb, Ha. cbn. lia. }
    load_field 0%nat. load_field 1%nat. load_field 2%nat.
    unfold BookSnapshot_fields. rewrite !fields_bytes_app, <- !app_assoc.
    set (pre := fields_bytes [(4%nat, snap_symbol m); (1%nat, snap_num_bid_levels m);
                              (1%nat, snap_num_ask_levels m); (2%nat, 0)]).
    assert (length pre = 8%nat) as Hpre by done.
    rewrite <- Hpre, <- Hb at 1. rewrite decode_levels_fields by done. rewrite bind_ok. cbn [fst snd].
    replace (length pre + 12 * length (snap_bids m))%nat
      with (length (pre ++ fields_bytes (levels_fields (snap_bids m))))
      by (rewrite length_app, length_fields_bytes, levels_fields_size; lia).
    rewrite <- Ha at 1. rewrite (app_assoc pre), decode_levels_fields by done. cbn. by destruct m.
  - decode_short_law decode_BookSnapshot.
  - intros b Hb. cbn [msg_type_of BookSnapshot_body body_size_for] in Hb.
    cbn [decode_body BookSnapshot_body]. unfold decode_BookSnapshot.
    assert (136 <= 8 + length b)%nat as Hlen by (unfold kSnapshotBodySize, kMaxSnapshotLevels in Hb; lia).
    rewrite bool_decide_eq_false_2 by (unfold kSnapshotBodySize, kMaxSnapshotLevels; lia).
    do 3 load_any. unfold kMaxSnapshotLevels.
    destruct (decode_levels_ok 5 b 8) as (bs & -> & ? & ?); [lia|]. rewrite bind_ok. cbn [fst snd].
    destruct (decode_levels_ok 5 b (8 + 12 * 5)) as (ls & -> & ? & ?); [lia|].
    rewrite bind_ok; cbn [fst snd].
    eexists. split; [reflexivity|]. unfold BookSnapshot_ok. cbn. split_and!; assumption.
Defined.

(** ** Headers *)

Definition header_fields (type : MsgType) (seq : Sequence) (ts : TimestampNs) : list field :=
  [(1%nat, MsgType_to_u8 type); (1%nat, kProtocolVersion);
   (2%nat, Z.of_nat (body_size_for type)); (4%nat, seq); (8%nat, ts)].

Lemma MsgType_to_u8_range t : in_unsigned 8 (MsgType_to_u8 t).
Proof. destruct t; vm_compute; by split. Qed.

Lemma body_size_for_range t : in_unsigned 16 (Z.of_nat (body_size_for t)).
Proof. destruct t; vm_compute; by split. Qed.

Lemma encode_header_stores t seq ts c : encode_header t seq ts c = stores (header_fields t seq ts) c.
Proof.
  unfold encode_header. rewrite (wrap_small 16) by apply body_size_for_range. cbn.
  repeat (apply bind_ext; intros ?). by rewrite bind_ret_r.
Qed.

(** The header the encoder writes reads back as itself. *)
Lemma decode_encode_header t seq ts rest :
  in_unsigned 32 seq -> in_unsigned 64 ts ->
  decode_header (fields_bytes (header_fields t seq ts) ++ rest) =
  Ok (Some (mkMessageHeader t kProtocolVersion (Z.of_nat (body_size_for t)) seq ts)).
Proof.
  intros Hseq Hts. pose proof (MsgType_to_u8_range t). pose proof (body_size_for_range t).
  assert (in_unsigned 8 kProtocolVersion) by (vm_compute; by split).
  unfold decode_header. rewrite bool_decide_eq_false_2.
  2:{ rewrite length_app, length_fields_bytes. unfold_sizes. cbn. lia. }
  load_field 0%nat. rewrite is_valid_msg_type_spec by apply MsgType_to_u8_range.
  rewrite MsgType_of_to_u8, bool_decide_eq_true_2 by eauto. cbn [negb of_option]. rewrite bind_ok.
  load_field 1%nat. load_field 2%nat. load_field 3%nat. load_field 4%nat. reflexivity.
Qed.

(** On any buffer the decoder stays inside it and returns: it rejects exactly
    the short buffers and the unknown type bytes. *)
Lemma decode_header_cases buf :
  (exists h, decode_header buf = Ok (Some h) /\ MessageHeader_ok h /\
             (kHeaderWireSize <= length buf)%nat /\
             exists b, buf !! 0%nat = Some b /\ MsgType_of_u8 (Z_of_byte b) = Some (hdr_type h)) \/
  decode_header buf = Ok None /\
    ((length buf < kHeaderWireSize)%nat \/
     exists b, buf !! 0%nat = Some b /\ MsgType_of_u8 (Z_of_byte b) = None).
Proof.
  unfold decode_header. case_bool_decide as Hlen; [by right; auto|].
  unfold_sizes. assert (buf !! 0%nat = head buf) as Hhd by (by destruct buf).
  destruct buf as [|b0 buf']; [cbn in Hlen; lia|]. set (buf := b0 :: buf') in *.
  destruct (load_le_ok 1 buf 0) as (raw & E & Hraw); [lia|]. rewrite E, bind_ok.
  assert (raw = Z_of_byte b0) as ->.
  { rewrite load_le_spec in E by lia. injection E as <-. cbn. lia. }
  rewrite is_valid_msg_type_spec by (apply Z_of_byte_range). case_bool_decide as Hv; cbn [negb].
  - destruct Hv as [t Ht]. rewrite Ht. cbn [of_option]. rewrite bind_ok. do 4 load_any.
    left. eexists. split; [reflexivity|]. split; [|split; [lia|by exists b0]].
    unfold MessageHeader_ok. cbn. by split_and!.
  - right. split; [done|]. right. exists b0. split; [done|]. by apply eq_None_not_Some.
Qed.

Corollary decode_header_ok buf : exists r, decode_header buf = Ok r.
Proof. destruct (decode_header_cases buf) as [(h & -> & _)|[-> _]]; eauto. Qed.

(** ** Whole messages *)

Section Message.
Context {B : Type} `{WireBodyLaws B}.

(** The bytes of a framed message. *)
Definition message_bytes (seq : Sequence) (ts : TimestampNs) (m : B) : list byte :=
  fields_bytes (header_fields (msg_type_of B) seq ts) ++ fields_bytes (wire_fields m).

Definition message_size : nat := kHeaderWireSize + body_size_for (msg_type_of B).

Lemma message_size_max : (message_size <= kMaxMessageSize)%nat.
Proof. unfold message_size, kMaxMessageSize. pose proof (body_size_for_max (msg_type_of B)). lia. Qed.

Lemma length_message_bytes seq ts m :
  wire_ok m -> length (message_bytes seq ts m) = message_size.
Proof.
  intros Hm. unfold message_bytes. rewrite length_app, !length_fields_bytes.
  by rewrite wire_fields_size.
Qed.

(** [encode_message] writes the message at the front of a large enough
    buffer, and otherwise writes nothing and returns 0. *)
Lemma encode_message_fits out seq ts m :
  wire_ok m -> (message_size <= length out)%nat ->
  encode_message out seq ts m = Ok (message_size, message_bytes seq ts m ++ drop message_size out).
Proof.
  intros Hm Hlen. unfold encode_message. fold message_size.
  rewrite bool_decide_eq_false_2 by lia.
  rewrite encode_header_stores. setoid_rewrite encode_body_stores.
  rewrite <- bind_assoc, <- stores_app, stores_spec.
  - rewrite bind_ok. cbn [fst Nat.add]. rewrite fields_size_app, wire_fields_size by done.
    unfold message_bytes. rewrite fields_bytes_app, <- app_assoc. reflexivity.
  - rewrite fields_size_app, wire_fields_size by done. exact Hlen.
Qed.

Lemma encode_message_small out seq ts m :
  (length out < message_size)%nat -> encode_message out seq ts m = Ok (0%nat, out).
Proof.
  intros Hlen. unfold encode_message. fold message_size. by rewrite bool_decide_eq_true_2 by lia.
Qed.
End Message.
Arguments message_size B {_}.

(** ** Canonical layouts

    The decoded message determines the bytes, all but the reserved bytes of a
    snapshot, which the decoder skips and the encoder writes as zero. *)
Definition zero_reserved (t : MsgType) (body : list byte) : list byte :=
  match t with
  | MsgBookSnapshot => take 6 body ++ [Byte.x00; Byte.x00] ++ drop 8 body
  | _ => body
  end.

Class WireCanonical (B : Type) `{WireBodyLaws B} : Prop :=
  wire_canonical b m :
    length b = body_size_for (msg_type_of B) -> decode_body b = Ok (Some m) ->
    fields_bytes (wire_fields m) = zero_reserved (msg_type_of B) b.

Lemma le_bytes_slice n b off :
  (off + n <= length b)%nat -> le_bytes n (le_val (take n (drop off b))) = take n (drop off b).
Proof.
  intros H. assert (length (take n (drop off b)) = n) as Hl by (rewrite length_take, length_drop; lia).
  rewrite <- Hl at 1. apply le_bytes_le_val.
Qed.

Lemma wrap_to_signed w v : 0 < w -> wrap w (to_signed w v) = wrap w v.
Proof.
  intros Hw. unfold to_signed. destruct (wrap w v <? 2 ^ (w - 1)); [apply wrap_wrap|].
  unfold wrap. rewrite Zminus_mod_idemp_l.
  replace (v - 2 ^ w) with (v + (-1) * 2 ^ w) by lia. apply Z_mod_plus_full.
Qed.

Lemma le_bytes_slice_i64 b off :
  (off + 8 <= length b)%nat ->
  le_bytes 8 (to_signed 64 (le_val (take 8 (drop off b)))) = take 8 (drop off b).
Proof.
  intros H. rewrite <- le_bytes_wrap. change (8 * Z.of_nat 8) with 64.
  rewrite wrap_to_signed by lia. change 64 with (8 * Z.of_nat 8).
  rewrite le_bytes_wrap. by apply le_bytes_slice.
Qed.

(** Replaces each load by its slice, then each re-encoded slice by itself. *)
Ltac canonical_law f fs n :=
  intros b m Hlen Hdec; change (length b = n) in Hlen;
  change (f b = Ok (Some m)) in Hdec; change (fields_bytes (fs m) = b);
  unfold f in Hdec; unfold_sizes; rewrite bool_decide_eq_false_2 in Hdec by lia;
  repeat match type of Hdec with
  | (load_le ?n b ?off ≫= _) = _ => rewrite (load_le_spec n b off), bind_ok in Hdec by lia
  | (load_le_i64 b ?off ≫= _) = _ => rewrite (load_le_i64_spec b off), bind_ok in Hdec by lia
  end;
  injection Hdec as <-; unfold fs; cbn -[le_bytes le_val take drop to_signed];
  repeat first [rewrite le_bytes_slice by lia | rewrite le_bytes_slice_i64 by lia];
  do 30 (try (destruct b as [|? b]; [discriminate|]));
  destruct b; [reflexivity|discriminate].

#[export] Instance AddOrder_canonical : WireCanonical AddOrder.
Proof. canonical_law decode_AddOrder AddOrder_fields 25%nat. Qed.
#[export] Instance CancelOrder_canonical : WireCanonical CancelOrder.
Proof. canonical_law decode_CancelOrder CancelOrder_fields 12%nat. Qed.
#[export] Instance ModifyOrder_canonical : WireCanonical ModifyOrder.
Proof. canonical_law decode_ModifyOrder ModifyOrder_fields 24%nat. Qed.
#[export] Instance Trade_canonical : WireCanonical Trade.
Proof. canonical_law decode_Trade Trade_fields 25%nat. Qed.
#[export] Instance Heartbeat_canonical : WireCanonical Heartbeat.
Proof. intros [|] m Hlen Hdec; [done|discriminate]. Qed.

Lemma slice_app n m off (b : list byte) :
  take n (drop off b) ++ take m (drop (off + n) b) = take (n + m) (drop off b).
Proof. by rewrite <- drop_drop, take_take_drop. Qed.

Lemma decode_levels_canonical n b off r :
  decode_levels n b off = Ok r -> (off + 12 * n <= length b)%nat ->
  r.2 = (off + 12 * n)%nat /\ fields_bytes (levels_fields r.1) = take (12 * n) (drop off b).
Proof.
  revert off r; induction n as [|n IH]; intros off r Hdec Hlen; cbn [decode_levels] in Hdec.
  { injection Hdec as <-. cbn. split; [lia|done]. }
  rewrite load_le_i64_spec, bind_ok, load_le_spec, bind_ok in Hdec by lia.
  apply bind_Ok_inv in Hdec as ([ls off'] & E & [= <-]). destruct (IH _ _ E) as [Hoff Hls]; [lia|].
  cbn [fst snd] in *. split; [lia|].
  change (levels_fields (?l :: ls)) with (level_fields l ++ levels_fields ls).
  rewrite fields_bytes_app, Hls. unfold level_fields. cbn [fields_bytes fst snd sl_price sl_quantity].
  rewrite le_bytes_slice_i64, le_bytes_slice, app_nil_r by lia.
  rewrite slice_app, slice_app. f_equal. lia.
Qed.

#[export] Instance BookSnapshot_canonical : WireCanonical BookSnapshot.
Proof.
  intros b m Hlen Hdec. change (length b = kSnapshotBodySize) in Hlen.
  change (decode_BookSnapshot b = Ok (Some m)) in Hdec.
  change (fields_bytes (BookSnapshot_fields m) = zero_reserved MsgBookSnapshot b).
  unfold decode_BookSnapshot in Hdec. unfold_sizes.
  assert (kMaxSnapshotLevels = 5%nat) as Hn by reflexivity.
  rewrite bool_decide_eq_false_2, !load_le_spec, !bind_ok in Hdec by lia.
  apply bind_Ok_inv in Hdec as ([bs o1] & Eb & Hdec). apply bind_Ok_inv in Hdec as ([asks o2] & Ea & [= <-]).
  cbn [fst snd] in *. destruct (decode_levels_canonical _ _ _ _ Eb) as [Ho1 Hbs]; [lia|]. cbn [fst snd] in *. subst o1.
  destruct (decode_levels_canonical _ _ _ _ Ea) as [_ Has]; [lia|]. cbn [fst snd] in *.
  unfold BookSnapshot_fields. rewrite !fields_bytes_app. cbn [fields_bytes fst snd snap_symbol snap_num_bid_levels
    snap_num_ask_levels snap_bids snap_asks]. rewrite !le_bytes_slice, Hbs, Has, app_nil_r, slice_app by lia.
  unfold zero_reserved. change (le_bytes 2 0) with [Byte.x00; Byte.x00]. rewrite <- !app_assoc.
  rewrite (take_ge (drop 8 b)), !app_assoc by (rewrite length_drop; lia). do 2 f_equal.
  pose proof (slice_app 4 1 0 b) as E5. pose proof (slice_app 5 1 0 b) as E6.
  cbn [Nat.add] in E5, E6. by rewrite E5, E6, drop_0.
Qed.
