(* ===== verification/Parser.v ===== *)
(** The event sink interface (include/mdfh/event_handler.hpp) and the streaming
    parser (include/mdfh/parser.hpp), with the reference scanner [scan_at] that
    says which events a buffer holds and where parsing stops. *)
From S2P Require Import Prelude ByteOrder Protocol Serialization.

Local Open Scope Z_scope.

(** ** Event sinks *)

(** The concept [HandlerLike]: callbacks on a sink's state, which may fail. *)
Class HandlerLike (H : Type) : Type := {
  on_add_order : MessageHeader -> AddOrder -> H -> outcome H;
  on_cancel_order : MessageHeader -> CancelOrder -> H -> outcome H;
  on_modify_order : MessageHeader -> ModifyOrder -> H -> outcome H;
  on_trade : MessageHeader -> Trade -> H -> outcome H;
  on_snapshot : MessageHeader -> BookSnapshot -> H -> outcome H;
  on_heartbeat : MessageHeader -> H -> outcome H;
  on_malformed : nat -> H -> outcome H
}.

(** The base class [EventHandler]: every callback does nothing. *)
Record EventHandler := mkEventHandler {}.
#[export] Instance EventHandler_like : HandlerLike EventHandler := {|
  on_add_order := fun _ _ h => Ok h;
  on_cancel_order := fun _ _ h => Ok h;
  on_modify_order := fun _ _ h => Ok h;
  on_trade := fun _ _ h => Ok h;
  on_snapshot := fun _ _ h => Ok h;
  on_heartbeat := fun _ h => Ok h;
  on_malformed := fun _ h => Ok h
|}.

(** ** The parser *)

Record ParseResult := mkParseResult {
  bytes_consumed : nat;
  pr_messages : nat;
  pr_malformed : nat;
  needs_more : bool
}.
#[export] Instance ParseResult_eq_dec : EqDecision ParseResult.
Proof. solve_decision. Defined.

Definition empty_result : ParseResult := mkParseResult 0 0 0 false.
Definition incr_messages (r : ParseResult) : ParseResult :=
  mkParseResult (bytes_consumed r) (S (pr_messages r)) (pr_malformed r) (needs_more r).
Definition incr_malformed (r : ParseResult) : ParseResult :=
  mkParseResult (bytes_consumed r) (pr_messages r) (S (pr_malformed r)) (needs_more r).
Definition set_consumed (n : nat) (r : ParseResult) : ParseResult :=
  mkParseResult n (pr_messages r) (pr_malformed r) (needs_more r).
Definition set_needs_more (r : ParseResult) : ParseResult :=
  mkParseResult (bytes_consumed r) (pr_messages r) (pr_malformed r) true.

(** [buf.subspan(off, count)], undefined outside the buffer. *)
Definition subspan (buf : list byte) (off count : nat) : outcome (list byte) :=
  require (bool_decide (off + count <= length buf)%nat);;
  Ok (take count (drop off buf)).

Lemma subspan_ok buf off count :
  (off + count <= length buf)%nat -> subspan buf off count = Ok (take count (drop off buf)).
Proof. intros Hlen. unfold subspan. by rewrite bool_decide_eq_true_2 by done. Qed.

Section BinaryParser.
Context {H : Type} `{HandlerLike H}.

(** One case of [dispatch]: decode the body, then call back. *)
Definition dispatch_body {B} `{WireBody B} (callback : MessageHeader -> B -> H -> outcome H)
    (hdr : MessageHeader) (body : list byte) (off : nat) (r : ParseResult) (h : H)
  : outcome (H * ParseResult) :=
  m ← decode_body body;
  match m with
  | Some m => h ← callback hdr m h; Ok (h, incr_messages r)
  | None => h ← on_malformed off h; Ok (h, incr_malformed r)
  end.

Definition dispatch (hdr : MessageHeader) (body : list byte) (off : nat) (r : ParseResult) (h : H)
  : outcome (H * ParseResult) :=
  match hdr_type hdr with
  | MsgAddOrder => dispatch_body on_add_order hdr body off r h
  | MsgCancelOrder => dispatch_body on_cancel_order hdr body off r h
  | MsgModifyOrder => dispatch_body on_modify_order hdr body off r h
  | MsgTrade => dispatch_body on_trade hdr body off r h
  | MsgBookSnapshot => dispatch_body on_snapshot hdr body off r h
  | MsgHeartbeat => h ← on_heartbeat hdr h; Ok (h, incr_messages r)
  end.

(** The loop of [parse]; every iteration but the last advances [off] by at
    least a header, so [length buf + 1] iterations are enough. *)
Fixpoint parse_loop (fuel : nat) (buf : list byte) (off : nat) (r : ParseResult) (h : H)
  : outcome (H * ParseResult) :=
  match fuel with
  | O => Diverge
  | S fuel =>
      if bool_decide (off + kHeaderWireSize <= length buf)%nat then
        header_span ← subspan buf off kHeaderWireSize;
        ohdr ← decode_header header_span;
        match ohdr with
        | None =>
            h ← on_malformed off h;
            Ok (h, set_consumed (off + kHeaderWireSize) (incr_malformed r))
        | Some hdr =>
            let expected_body := body_size_for (hdr_type hdr) in
            let frame := (kHeaderWireSize + Z.to_nat (hdr_body_size hdr))%nat in
            if bool_decide (length buf < off + frame)%nat then
              Ok (h, set_consumed off (set_needs_more r))
            else if bool_decide (hdr_body_size hdr <> Z.of_nat expected_body)
                    || bool_decide (hdr_version hdr <> kProtocolVersion) then
              h ← on_malformed off h;
              parse_loop fuel buf (off + frame) (incr_malformed r) h
            else
              body ← subspan buf (off + kHeaderWireSize) expected_body;
              hr ← dispatch hdr body off r h;
              parse_loop fuel buf (off + frame) hr.2 hr.1
        end
      else Ok (h, set_consumed off r)
  end.

Definition parse (buf : list byte) (h : H) : outcome (H * ParseResult) :=
  parse_loop (S (length buf)) buf 0 empty_result h.
End BinaryParser.

(** ** Events: the reference reading of a buffer *)

Inductive Event : Type :=
  | EvAddOrder (hdr : MessageHeader) (m : AddOrder)
  | EvCancelOrder (hdr : MessageHeader) (m : CancelOrder)
  | EvModifyOrder (hdr : MessageHeader) (m : ModifyOrder)
  | EvTrade (hdr : MessageHeader) (m : Trade)
  | EvSnapshot (hdr : MessageHeader) (m : BookSnapshot)
  | EvHeartbeat (hdr : MessageHeader)
  | EvMalformed (off : nat).

Definition is_malformed (ev : Event) : bool :=
  match ev with EvMalformed _ => true | _ => false end.

Definition event_header (ev : Event) : option MessageHeader :=
  match ev with
  | EvAddOrder h _ | EvCancelOrder h _ | EvModifyOrder h _ | EvTrade h _ | EvSnapshot h _
  | EvHeartbeat h => Some h
  | EvMalformed _ => None
  end.

(** The values an event carries are in the ranges of their C++ types. *)
Definition event_ok (ev : Event) : Prop :=
  match ev with
  | EvAddOrder h m => MessageHeader_ok h /\ AddOrder_ok m
  | EvCancelOrder h m => MessageHeader_ok h /\ CancelOrder_ok m
  | EvModifyOrder h m => MessageHeader_ok h /\ ModifyOrder_ok m
  | EvTrade h m => MessageHeader_ok h /\ Trade_ok m
  | EvSnapshot h m => MessageHeader_ok h /\ BookSnapshot_ok m
  | EvHeartbeat h => MessageHeader_ok h
  | EvMalformed _ => True
  end.

(** Calls the callback an event is for. *)
Definition deliver {H} `{HandlerLike H} (ev : Event) (h : H) : outcome H :=
  match ev with
  | EvAddOrder hdr m => on_add_order hdr m h
  | EvCancelOrder hdr m => on_cancel_order hdr m h
  | EvModifyOrder hdr m => on_modify_order hdr m h
  | EvTrade hdr m => on_trade hdr m h
  | EvSnapshot hdr m => on_snapshot hdr m h
  | EvHeartbeat hdr => on_heartbeat hdr h
  | EvMalformed off => on_malformed off h
  end.

Fixpoint deliver_all {H} `{HandlerLike H} (evs : list Event) (h : H) : outcome H :=
  match evs with
  | [] => Ok h
  | ev :: evs => h ← deliver ev h; deliver_all evs h
  end.

Lemma deliver_all_app {H} `{HandlerLike H} evs1 evs2 (h : H) :
  deliver_all (evs1 ++ evs2) h = (h ← deliver_all evs1 h; deliver_all evs2 h).
Proof.
  revert h; induction evs1 as [|ev evs1 IH]; intros h; [done|]. cbn.
  destruct (deliver ev h); [apply IH|done..].
Qed.

(** What stands at the front of a buffer: fewer bytes than a header, a header
    whose type byte is unknown, a frame whose body has not fully arrived, or a
    frame of [len] bytes and the event it is reported as. *)
Inductive front : Type :=
  | FrontShort
  | FrontBadHeader
  | FrontPartial
  | FrontFrame (ev : Event) (len : nat).

(** The event of a well-framed message. *)
Definition body_event (hdr : MessageHeader) (body : list byte) (off : nat) : Event :=
  match hdr_type hdr with
  | MsgAddOrder =>
      match decode_AddOrder body with Ok (Some m) => EvAddOrder hdr m | _ => EvMalformed off end
  | MsgCancelOrder =>
      match decode_CancelOrder body with Ok (Some m) => EvCancelOrder hdr m | _ => EvMalformed off end
  | MsgModifyOrder =>
      match decode_ModifyOrder body with Ok (Some m) => EvModifyOrder hdr m | _ => EvMalformed off end
  | MsgTrade =>
      match decode_Trade body with Ok (Some m) => EvTrade hdr m | _ => EvMalformed off end
  | MsgBookSnapshot =>
      match decode_BookSnapshot body with Ok (Some m) => EvSnapshot hdr m | _ => EvMalformed off end
  | MsgHeartbeat => EvHeartbeat hdr
  end.

Definition classify (off : nat) (buf : list byte) : front :=
  if bool_decide (length buf < kHeaderWireSize)%nat then FrontShort else
  match decode_header (take kHeaderWireSize buf) with
  | Ok (Some hdr) =>
      let expected_body := body_size_for (hdr_type hdr) in
      let frame := (kHeaderWireSize + Z.to_nat (hdr_body_size hdr))%nat in
      if bool_decide (length buf < frame)%nat then FrontPartial else
      if bool_decide (hdr_body_size hdr <> Z.of_nat expected_body)
         || bool_decide (hdr_version hdr <> kProtocolVersion)
      then FrontFrame (EvMalformed off) frame
      else FrontFrame (body_event hdr (take expected_body (drop kHeaderWireSize buf)) off) frame
  | _ => FrontBadHeader
  end.

(** Why a scan stopped. *)
Inductive stop : Type := StopShort | StopBadHeader | StopPartial.

(** A scan: the events, the bytes consumed, and why it stopped.  [buf] is what
    remains from absolute offset [off]. *)
Record scanned := mkScanned { sc_events : list Event; sc_consumed : nat; sc_stop : stop }.

Fixpoint scan_fuel (fuel : nat) (off : nat) (buf : list byte) : scanned :=
  match fuel with
  | O => mkScanned [] 0 StopShort
  | S fuel =>
      match classify off buf with
      | FrontShort => mkScanned [] 0 StopShort
      | FrontPartial => mkScanned [] 0 StopPartial
      | FrontBadHeader => mkScanned [EvMalformed off] kHeaderWireSize StopBadHeader
      | FrontFrame ev len =>
          let s := scan_fuel fuel (off + len) (drop len buf) in
          mkScanned (ev :: sc_events s) (len + sc_consumed s) (sc_stop s)
      end
  end.

Definition scan_at (off : nat) (buf : list byte) : scanned := scan_fuel (S (length buf)) off buf.

Definition scan_result (s : scanned) : ParseResult :=
  mkParseResult (sc_consumed s)
    (length (filter (fun ev => is_malformed ev = false) (sc_events s)))
    (length (filter (fun ev => is_malformed ev = true) (sc_events s)))
    (match sc_stop s with StopPartial => true | _ => false end).

(** ** Facts of the reference scanner *)

Lemma body_event_ok hdr body off :
  MessageHeader_ok hdr -> length body = body_size_for (hdr_type hdr) ->
  event_ok (body_event hdr body off) /\ is_malformed (body_event hdr body off) = false /\
  event_header (body_event hdr body off) = Some hdr.
Proof.
  intros Hh Hlen. unfold body_event.
  destruct (hdr_type hdr); cbn [body_size_for] in Hlen; [done|..].
  - destruct (decode_body_long (B := AddOrder) body) as (m & E & Hm); [by rewrite Hlen|].
    cbn [decode_body AddOrder_body] in E. by rewrite E.
  - destruct (decode_body_long (B := CancelOrder) body) as (m & E & Hm); [by rewrite Hlen|].
    cbn [decode_body CancelOrder_body] in E. by rewrite E.
  - destruct (decode_body_long (B := ModifyOrder) body) as (m & E & Hm); [by rewrite Hlen|].
    cbn [decode_body ModifyOrder_body] in E. by rewrite E.
  - destruct (decode_body_long (B := Trade) body) as (m & E & Hm); [by rewrite Hlen|].
    cbn [decode_body Trade_body] in E. by rewrite E.
  - destruct (decode_body_long (B := BookSnapshot) body) as (m & E & Hm); [by rewrite Hlen|].
    cbn [decode_body BookSnapshot_body] in E. by rewrite E.
Qed.

Lemma classify_frame off buf ev len :
  classify off buf = FrontFrame ev len ->
  (kHeaderWireSize <= len <= length buf)%nat /\ event_ok ev /\
  (is_malformed ev = true -> ev = EvMalformed off).
Proof.
  unfold classify. cbn zeta. case_bool_decide as Hlen; [discriminate|].
  destruct (decode_header_cases (take kHeaderWireSize buf)) as [(hdr & -> & Hhdr & _)|[-> _]];
    [|discriminate].
  case_bool_decide as Hframe; [discriminate|].
  destruct (_ || _) eqn:E; intros [= <- <-]; (split; [unfold_sizes; lia|]); [done|].
  apply orb_false_iff in E as [E1 _]. apply bool_decide_eq_false in E1.
  destruct (body_event_ok hdr (take (body_size_for (hdr_type hdr)) (drop kHeaderWireSize buf)) off)
    as (Hev & Hm & _); [done| |split; [done|congruence]].
  rewrite length_take, length_drop. lia.
Qed.

Lemma classify_app off x y ev len :
  classify off x = FrontFrame ev len -> classify off (x ++ y) = FrontFrame ev len.
Proof.
  unfold classify. cbn zeta. rewrite length_app. unfold_sizes.
  case_bool_decide as Hlen; [discriminate|]. rewrite bool_decide_eq_false_2 by lia.
  rewrite take_app_le by lia. destruct (decode_header _) as [[hdr|]| | |]; [|discriminate..].
  case_bool_decide as Hframe; [discriminate|].
  rewrite (bool_decide_eq_false_2 (length x + length y < _)%nat) by lia.
  destruct (_ || _) eqn:E; [done|]. intros <-.
  apply orb_false_iff in E as [E1 _]. apply bool_decide_eq_false in E1.
  f_equal. f_equal. rewrite drop_app_le by lia. rewrite take_app_le; [done|].
  rewrite length_drop. lia.
Qed.

Lemma scan_fuel_irrel f1 f2 off buf :
  (length buf < f1)%nat -> (length buf < f2)%nat -> scan_fuel f1 off buf = scan_fuel f2 off buf.
Proof.
  revert f2 off buf; induction f1 as [|f1 IH]; intros f2 off buf H1 H2; [lia|].
  destruct f2 as [|f2]; [lia|]. cbn [scan_fuel].
  destruct (classify off buf) as [| | |ev len] eqn:E; [done..|].
  apply classify_frame in E as (Hlen & _). unfold_sizes.
  rewrite (IH f2) by (rewrite length_drop; lia). done.
Qed.

Lemma scan_at_eq off buf :
  scan_at off buf =
  match classify off buf with
  | FrontShort => mkScanned [] 0 StopShort
  | FrontPartial => mkScanned [] 0 StopPartial
  | FrontBadHeader => mkScanned [EvMalformed off] kHeaderWireSize StopBadHeader
  | FrontFrame ev len =>
      let s := scan_at (off + len) (drop len buf) in
      mkScanned (ev :: sc_events s) (len + sc_consumed s) (sc_stop s)
  end.
Proof.
  unfold scan_at at 1. cbn [scan_fuel].
  destruct (classify off buf) as [| | |ev len] eqn:E; [done..|].
  apply classify_frame in E as (Hlen & _). unfold_sizes. unfold scan_at.
  rewrite (scan_fuel_irrel (length buf) (S (length (drop len buf)))); [done|..];
    rewrite length_drop; lia.
Qed.

(** Induction over the frames of a buffer. *)
Lemma frames_ind (P : nat -> list byte -> Prop) :
  (forall off buf,
     (forall ev len, classify off buf = FrontFrame ev len -> P (off + len)%nat (drop len buf)) ->
     P off buf) ->
  forall off buf, P off buf.
Proof.
  intros step off buf. remember (length buf) as n eqn:Hn. revert off buf Hn.
  induction (lt_wf n) as [n _ IH]; intros off buf ->. apply step. intros ev len E.
  apply classify_frame in E as (Hlen & _). unfold_sizes.
  eapply IH; [|reflexivity]. rewrite length_drop. lia.
Qed.

Lemma scan_events_ok off buf : Forall event_ok (sc_events (scan_at off buf)).
Proof.
  revert off buf. apply frames_ind; intros off buf IH. rewrite scan_at_eq.
  destruct (classify off buf) as [| | |ev len] eqn:E; cbn -[scan_at]; auto.
  - by repeat constructor.
  - constructor; [|by eapply IH]. by apply classify_frame in E as (_ & ? & _).
Qed.

(** Parsing never runs past the buffer, and leaves less than a header behind
    unless it stopped at a bad header or a partial frame. *)
Lemma scan_consumed_le off buf : (sc_consumed (scan_at off buf) <= length buf)%nat.
Proof.
  revert off buf. apply frames_ind; intros off buf IH. rewrite scan_at_eq.
  destruct (classify off buf) as [| | |ev len] eqn:E; cbn -[scan_at]; try lia.
  - unfold classify in E. cbn zeta in E. case_bool_decide; [discriminate|]. unfold_sizes. lia.
  - pose proof (IH _ _ eq_refl) as Hr. apply classify_frame in E as (Hlen & _).
    rewrite length_drop in Hr. lia.
Qed.

(** A scan of [x ++ y] is the scan of [x] continued where it stopped. *)
Lemma scan_app off x y :
  sc_stop (scan_at off x) <> StopBadHeader ->
  let s := scan_at off x in
  let s' := scan_at (off + sc_consumed s) (drop (sc_consumed s) x ++ y) in
  scan_at off (x ++ y) =
  mkScanned (sc_events s ++ sc_events s') (sc_consumed s + sc_consumed s') (sc_stop s').
Proof.
  cbn zeta. revert off x. refine (frames_ind _ _). intros off x IH. rewrite (scan_at_eq off x).
  destruct (classify off x) as [| | |ev len] eqn:E; cbn -[scan_at]; intros Hs;
    [by rewrite Nat.add_0_r, drop_0; destruct (scan_at off (x ++ y))|done
    |by rewrite Nat.add_0_r, drop_0; destruct (scan_at off (x ++ y))|].
  rewrite scan_at_eq, (classify_app _ _ y _ _ E). cbn -[scan_at].
  apply classify_frame in E as Hl. destruct Hl as (Hlen & _).
  rewrite drop_app_le by lia. rewrite (IH _ _ eq_refl Hs). cbn -[scan_at].
  by rewrite drop_drop, !Nat.add_assoc.
Qed.

(** An event up to the offset of a malformed message. *)
Definition erase_offset (ev : Event) : Event :=
  match ev with EvMalformed _ => EvMalformed 0 | _ => ev end.

Lemma body_event_erase hdr body o1 o2 :
  erase_offset (body_event hdr body o1) = erase_offset (body_event hdr body o2).
Proof. unfold body_event. by repeat case_match. Qed.

Lemma classify_erase o1 o2 buf :
  match classify o1 buf, classify o2 buf with
  | FrontFrame e1 l1, FrontFrame e2 l2 => erase_offset e1 = erase_offset e2 /\ l1 = l2
  | f1, f2 => f1 = f2
  end.
Proof.
  unfold classify. case_bool_decide; [done|]. destruct (decode_header _) as [[hdr|]| | |]; [|done..].
  case_bool_decide; [done|]. destruct (_ || _); split; auto using body_event_erase.
Qed.

(** What a scan leaves behind holds no complete frame. *)
Lemma scan_rest off off' x :
  sc_stop (scan_at off x) <> StopBadHeader ->
  scan_at off' (drop (sc_consumed (scan_at off x)) x) = mkScanned [] 0 (sc_stop (scan_at off x)).
Proof.
  revert off x. refine (frames_ind _ _). intros off x IH. rewrite (scan_at_eq off x).
  destruct (classify off x) as [| | |ev len] eqn:E; cbn -[scan_at]; intros Hs; try done.
  3:{ rewrite <- drop_drop. by apply (IH _ _ eq_refl). }
  all: rewrite drop_0, scan_at_eq; pose proof (classify_erase off off' x) as Hc; rewrite E in Hc;
    by rewrite <- Hc.
Qed.

(** A bad header stays one whatever follows it. *)
Lemma scan_app_bad off x y :
  sc_stop (scan_at off x) = StopBadHeader -> scan_at off (x ++ y) = scan_at off x.
Proof.
  revert off x. refine (frames_ind _ _). intros off x IH. rewrite (scan_at_eq off x).
  destruct (classify off x) as [| | |ev len] eqn:E; cbn -[scan_at]; intros Hs; try done.
  - rewrite scan_at_eq. unfold classify in *. rewrite length_app. unfold_sizes. cbn zeta in *.
    case_bool_decide; [discriminate|]. rewrite bool_decide_eq_false_2 by lia.
    rewrite take_app_le by lia. destruct (decode_header _) as [[hdr|]| | |]; [|done..].
    case_bool_decide; [discriminate|]. by destruct (_ || _).
  - rewrite scan_at_eq, (classify_app _ _ y _ _ E). cbn -[scan_at].
    apply classify_frame in E as Hl. destruct Hl as (Hlen & _).
    rewrite drop_app_le by lia. by rewrite (IH _ _ eq_refl Hs).
Qed.

(** ** The parser delivers exactly the scanned events *)

Definition is_partial (s : stop) : bool := match s with StopPartial => true | _ => false end.

(** The result of continuing [r] from offset [off] over a scan. *)
Definition continue_result (r : ParseResult) (off : nat) (s : scanned) : ParseResult :=
  mkParseResult (off + sc_consumed s)
    (pr_messages r + pr_messages (scan_result s))
    (pr_malformed r + pr_malformed (scan_result s))
    (needs_more r || is_partial (sc_stop s)).

Lemma continue_result_frame r off ev len evs n st :
  continue_result r off (mkScanned (ev :: evs) (len + n) st) =
  continue_result (if is_malformed ev then incr_malformed r else incr_messages r)
    (off + len) (mkScanned evs n st).
Proof.
  unfold continue_result, scan_result. cbn [sc_events sc_consumed sc_stop pr_messages pr_malformed].
  rewrite !filter_cons.
  destruct (is_malformed ev); repeat case_decide; try done; cbn; f_equal; lia.
Qed.

Section ParserSpec.
Context {H : Type} `{HandlerLike H}.
Implicit Types (h : H).

Lemma dispatch_deliver hdr body off r h :
  length body = body_size_for (hdr_type hdr) ->
  dispatch hdr body off r h =
  (h' ← deliver (body_event hdr body off) h; Ok (h', incr_messages r)).
Proof.
  intros Hlen. unfold dispatch, body_event, dispatch_body.
  destruct (hdr_type hdr); cbn [body_size_for] in Hlen; [done|..].
  - destruct (decode_body_long (B := AddOrder) body) as (m & E & _); [by rewrite Hlen|].
    cbn [decode_body AddOrder_body] in *. by rewrite E.
  - destruct (decode_body_long (B := CancelOrder) body) as (m & E & _); [by rewrite Hlen|].
    cbn [decode_body CancelOrder_body] in *. by rewrite E.
  - destruct (decode_body_long (B := ModifyOrder) body) as (m & E & _); [by rewrite Hlen|].
    cbn [decode_body ModifyOrder_body] in *. by rewrite E.
  - destruct (decode_body_long (B := Trade) body) as (m & E & _); [by rewrite Hlen|].
    cbn [decode_body Trade_body] in *. by rewrite E.
  - destruct (decode_body_long (B := BookSnapshot) body) as (m & E & _); [by rewrite Hlen|].
    cbn [decode_body BookSnapshot_body] in *. by rewrite E.
Qed.

(** One iteration of the loop, by what stands at the front of the rest. *)
Lemma parse_loop_step fuel buf off r h :
  (off <= length buf)%nat ->
  parse_loop (S fuel) buf off r h =
  match classify off (drop off buf) with
  | FrontShort => Ok (h, set_consumed off r)
  | FrontPartial => Ok (h, set_consumed off (set_needs_more r))
  | FrontBadHeader =>
      h ← on_malformed off h; Ok (h, set_consumed (off + kHeaderWireSize) (incr_malformed r))
  | FrontFrame ev len =>
      h ← deliver ev h;
      parse_loop fuel buf (off + len) (if is_malformed ev then incr_malformed r else incr_messages r) h
  end.
Proof.
  intros Hoff. cbn [parse_loop]. unfold classify. cbn zeta. rewrite length_drop.
  case_bool_decide as Hlen.
  2:{ rewrite bool_decide_eq_true_2 by lia. done. }
  rewrite (bool_decide_eq_false_2 (_ - _ < kHeaderWireSize)%nat) by lia.
  rewrite (subspan_ok buf off kHeaderWireSize), bind_ok by lia.
  destruct (decode_header_cases (take kHeaderWireSize (drop off buf)))
    as [(hdr & E & Hhdr & _)|[E _]]; rewrite E, bind_ok; [|done].
  case_bool_decide as Hframe.
  { rewrite bool_decide_eq_true_2 by (unfold_sizes; lia). done. }
  rewrite (bool_decide_eq_false_2 (length buf - off < _)%nat) by (unfold_sizes; lia).
  destruct (_ || _) eqn:Ec; [done|].
  apply orb_false_iff in Ec as [E1 _]. apply bool_decide_eq_false in E1.
  rewrite subspan_ok, bind_ok by (unfold_sizes; lia). rewrite <- drop_drop.
  assert (length (take (body_size_for (hdr_type hdr)) (drop kHeaderWireSize (drop off buf)))
          = body_size_for (hdr_type hdr)) as Hb.
  { rewrite length_take, !length_drop. unfold_sizes. lia. }
  rewrite dispatch_deliver by done. destruct (body_event_ok hdr _ off Hhdr Hb) as (_ & Hm & _).
  rewrite Hm, bind_assoc. by apply bind_ext; intros h'.
Qed.

Lemma parse_loop_scan fuel buf off r h :
  (off <= length buf)%nat -> (length buf - off < fuel)%nat ->
  parse_loop fuel buf off r h =
  (let s := scan_at off (drop off buf) in
   h' ← deliver_all (sc_events s) h; Ok (h', continue_result r off s)).
Proof.
  cbn zeta. revert off r h; induction fuel as [|fuel IH]; intros off r h Hoff Hfuel; [lia|].
  rewrite parse_loop_step by done. rewrite scan_at_eq.
  destruct (classify off (drop off buf)) as [| | |ev len] eqn:E; cbn -[scan_at continue_result].
  - unfold continue_result. cbn. by rewrite !Nat.add_0_r, orb_false_r.
  - rewrite bind_ret_r. apply bind_ext; intros h'. unfold continue_result. cbn.
    by rewrite Nat.add_0_r, !Nat.add_1_r, orb_false_r.
  - unfold continue_result. cbn. by rewrite !Nat.add_0_r, orb_true_r.
  - apply classify_frame in E as (Hlen & _). rewrite length_drop in Hlen. unfold_sizes.
    rewrite bind_assoc. apply bind_ext; intros h'.
    rewrite IH by lia. cbn zeta. rewrite <- drop_drop.
    apply bind_ext; intros h''. by rewrite continue_result_frame; destruct (scan_at _ _).
Qed.

Lemma parse_scan buf h :
  parse buf h =
  (h' ← deliver_all (sc_events (scan_at 0 buf)) h; Ok (h', scan_result (scan_at 0 buf))).
Proof.
  unfold parse. rewrite parse_loop_scan by lia. cbn zeta. rewrite drop_0. done.
Qed.
End ParserSpec.

(** ** Interfaces of sinks *)

(** A sink whose callbacks never fail on values in range, and keep [I]. *)
Class HandlerSafe (H : Type) `{HandlerLike H} (I : H -> Prop) : Prop :=
  deliver_safe ev h : event_ok ev -> I h -> exists h', deliver ev h = Ok h' /\ I h'.

(** A sink that ignores the offset a malformed message is reported at. *)
Class OffsetInsensitive (H : Type) `{HandlerLike H} : Prop :=
  on_malformed_offset o1 o2 (h : H) : on_malformed o1 h = on_malformed o2 h.

#[export] Instance EventHandler_safe : HandlerSafe EventHandler (fun _ => True).
Proof. intros [] h _ _; by exists h. Qed.
#[export] Instance EventHandler_offset : OffsetInsensitive EventHandler.
Proof. by intros o1 o2 h. Qed.

Lemma deliver_all_safe {H} `{HandlerLike H} (I : H -> Prop) `{!HandlerSafe H I} evs h :
  Forall event_ok evs -> I h -> exists h', deliver_all evs h = Ok h' /\ I h'.
Proof.
  intros Hevs. revert h; induction Hevs as [|ev evs Hev _ IH]; intros h Hh; [by exists h|].
  destruct (deliver_safe ev h Hev Hh) as (h1 & E & Hh1). cbn. rewrite E, bind_ok. by apply IH.
Qed.

Lemma deliver_erase {H} `{OffsetInsensitive H} ev h : deliver (erase_offset ev) h = deliver ev h.
Proof. destruct ev; [done..|]. apply on_malformed_offset. Qed.

Lemma deliver_all_erase {H} `{OffsetInsensitive H} evs1 evs2 h :
  erase_offset <$> evs1 = erase_offset <$> evs2 -> deliver_all evs1 h = deliver_all evs2 h.
Proof.
  revert evs2 h; induction evs1 as [|e1 evs1 IH]; intros [|e2 evs2] h E; [done|discriminate..|].
  injection E as E Es. cbn. rewrite <- (deliver_erase e1), E, deliver_erase.
  apply bind_ext; intros h'. by apply IH.
Qed.

(** Offsets only show in the malformed events. *)
Lemma scan_erase o1 o2 buf :
  erase_offset <$> sc_events (scan_at o1 buf) = erase_offset <$> sc_events (scan_at o2 buf) /\
  sc_consumed (scan_at o1 buf) = sc_consumed (scan_at o2 buf) /\
  sc_stop (scan_at o1 buf) = sc_stop (scan_at o2 buf).
Proof.
  revert o2. revert o1 buf. refine (frames_ind _ _). intros o1 buf IH o2.
  rewrite (scan_at_eq o1), (scan_at_eq o2). pose proof (classify_erase o1 o2 buf) as Hc.
  destruct (classify o1 buf) as [| | |e1 l1], (classify o2 buf) as [| | |e2 l2];
    try discriminate; [done..|].
  destruct Hc as [He <-]. destruct (IH _ _ eq_refl (o2 + l1)%nat) as (Hes & Hn & Hs).
  cbn -[scan_at]. by rewrite He, Hes, Hn, Hs.
Qed.

(** ** Streams of encoded messages *)

Inductive Body : Type :=
  | BodyAddOrder (m : AddOrder)
  | BodyCancelOrder (m : CancelOrder)
  | BodyModifyOrder (m : ModifyOrder)
  | BodyTrade (m : Trade)
  | BodySnapshot (m : BookSnapshot)
  | BodyHeartbeat (m : Heartbeat).

Record Packet := mkPacket { pk_seq : Sequence; pk_ts : TimestampNs; pk_body : Body }.

Definition body_type (b : Body) : MsgType :=
  match b with
  | BodyAddOrder _ => MsgAddOrder
  | BodyCancelOrder _ => MsgCancelOrder
  | BodyModifyOrder _ => MsgModifyOrder
  | BodyTrade _ => MsgTrade
  | BodySnapshot _ => MsgBookSnapshot
  | BodyHeartbeat _ => MsgHeartbeat
  end.

Definition packet_bytes (p : Packet) : list byte :=
  match pk_body p with
  | BodyAddOrder m => message_bytes (pk_seq p) (pk_ts p) m
  | BodyCancelOrder m => message_bytes (pk_seq p) (pk_ts p) m
  | BodyModifyOrder m => message_bytes (pk_seq p) (pk_ts p) m
  | BodyTrade m => message_bytes (pk_seq p) (pk_ts p) m
  | BodySnapshot m => message_bytes (pk_seq p) (pk_ts p) m
  | BodyHeartbeat m => message_bytes (pk_seq p) (pk_ts p) m
  end.

Definition packet_header (p : Packet) : MessageHeader :=
  let t := body_type (pk_body p) in
  mkMessageHeader t kProtocolVersion (Z.of_nat (body_size_for t)) (pk_seq p) (pk_ts p).

Definition packet_event (p : Packet) : Event :=
  let h := packet_header p in
  match pk_body p with
  | BodyAddOrder m => EvAddOrder h m
  | BodyCancelOrder m => EvCancelOrder h m
  | BodyModifyOrder m => EvModifyOrder h m
  | BodyTrade m => EvTrade h m
  | BodySnapshot m => EvSnapshot h m
  | BodyHeartbeat m => EvHeartbeat h
  end.

Definition body_ok (b : Body) : Prop :=
  match b with
  | BodyAddOrder m => wire_ok m
  | BodyCancelOrder m => wire_ok m
  | BodyModifyOrder m => wire_ok m
  | BodyTrade m => wire_ok m
  | BodySnapshot m => wire_ok m
  | BodyHeartbeat m => wire_ok m
  end.

Definition packet_ok (p : Packet) : Prop :=
  in_unsigned 32 (pk_seq p) /\ in_unsigned 64 (pk_ts p) /\ body_ok (pk_body p).

Definition packet_size (p : Packet) : nat := kHeaderWireSize + body_size_for (body_type (pk_body p)).

Definition stream_bytes (ps : list Packet) : list byte := concat (map packet_bytes ps).

Lemma length_packet_bytes p : packet_ok p -> length (packet_bytes p) = packet_size p.
Proof.
  destruct p as [seq ts []]; intros (_ & _ & Hb); apply (length_message_bytes seq ts _ Hb).
Qed.

(** A framed message is read back as its event, whatever follows it. *)
Lemma classify_message {B} `{WireBodyLaws B} seq ts (m : B) (ev : Event) off rest :
  let t := msg_type_of B in
  let hdr := mkMessageHeader t kProtocolVersion (Z.of_nat (body_size_for t)) seq ts in
  in_unsigned 32 seq -> in_unsigned 64 ts -> wire_ok m ->
  (forall body, decode_body body = Ok (Some m) -> body_event hdr body off = ev) ->
  classify off (message_bytes seq ts m ++ rest) = FrontFrame ev (message_size B).
Proof.
  cbn zeta. intros Hseq Hts Hm Hev. unfold classify. cbn zeta.
  assert (length (fields_bytes (header_fields (msg_type_of B) seq ts)) = kHeaderWireSize) as Hh.
  { by rewrite length_fields_bytes. }
  assert (length (fields_bytes (wire_fields m)) = body_size_for (msg_type_of B)) as Hb.
  { by rewrite length_fields_bytes, wire_fields_size. }
  rewrite length_app, (length_message_bytes _ _ _ Hm).
  rewrite bool_decide_eq_false_2 by (unfold message_size; lia).
  unfold message_bytes. rewrite <- app_assoc, take_app_length' by done.
  pose proof (decode_encode_header (msg_type_of B) seq ts [] Hseq Hts) as E.
  rewrite app_nil_r in E. rewrite E. cbn [hdr_type hdr_body_size hdr_version].
  rewrite Nat2Z.id. rewrite bool_decide_eq_false_2 by (unfold message_size; lia).
  rewrite !bool_decide_eq_false_2 by (intros Hn; by apply Hn). cbn [orb].
  rewrite drop_app_length', take_app_length' by done.
  rewrite Hev; [done|]. pose proof (decode_encode_body m [] Hm) as E'. by rewrite app_nil_r in E'.
Qed.

Lemma classify_packet p off rest :
  packet_ok p -> classify off (packet_bytes p ++ rest) = FrontFrame (packet_event p) (packet_size p).
Proof.
  destruct p as [seq ts b]. intros (Hseq & Hts & Hb). cbn [pk_seq pk_ts pk_body] in *.
  destruct b as [m|m|m|m|m|m]; refine (classify_message seq ts m _ off rest Hseq Hts Hb _);
    intros body E; unfold body_event; cbn [hdr_type msg_type_of AddOrder_body CancelOrder_body
      ModifyOrder_body Trade_body BookSnapshot_body Heartbeat_body];
    [rewrite (E : decode_AddOrder body = _)|rewrite (E : decode_CancelOrder body = _)
    |rewrite (E : decode_ModifyOrder body = _)|rewrite (E : decode_Trade body = _)
    |rewrite (E : decode_BookSnapshot body = _)|]; reflexivity.
Qed.

(** The scan of a stream of encoded messages: their events, in order. *)
Lemma scan_stream ps off rest :
  Forall packet_ok ps ->
  scan_at off (stream_bytes ps ++ rest) =
  (let s := scan_at (off + length (stream_bytes ps)) rest in
   mkScanned (map packet_event ps ++ sc_events s) (length (stream_bytes ps) + sc_consumed s)
     (sc_stop s)).
Proof.
  intros Hps. cbn zeta. revert off; induction Hps as [|p ps Hp _ IH]; intros off.
  - cbn -[scan_at]. rewrite Nat.add_0_r. by destruct (scan_at off rest).
  - unfold stream_bytes in *. cbn [map concat]. rewrite <- app_assoc, scan_at_eq, classify_packet by done.
    cbn zeta. rewrite <- length_packet_bytes, drop_app_length by done. rewrite IH.
    rewrite length_app. cbn [sc_events sc_consumed sc_stop app]. by rewrite !Nat.add_assoc.
Qed.

Lemma scan_stream_all ps off :
  Forall packet_ok ps ->
  scan_at off (stream_bytes ps) =
  mkScanned (map packet_event ps) (length (stream_bytes ps)) StopShort.
Proof.
  intros Hps. rewrite <- (app_nil_r (stream_bytes ps)) at 1. rewrite scan_stream by done.
  cbn [scan_at scan_fuel length]. cbn. by rewrite Nat.add_0_r, app_nil_r.
Qed.

Lemma packet_event_ok p : packet_ok p -> event_ok (packet_event p) /\ is_malformed (packet_event p) = false.
Proof.
  destruct p as [seq ts b]. intros (Hseq & Hts & Hb). cbn [pk_seq pk_ts pk_body] in *.
  assert (MessageHeader_ok (packet_header (mkPacket seq ts b))) as Hh.
  { split_and!; [vm_compute; by split|apply body_size_for_range|done..]. }
  by destruct b.
Qed.

(** The result of a scan that found only packets. *)
Lemma packet_scan_result ps n st :
  Forall packet_ok ps ->
  scan_result (mkScanned (map packet_event ps) n st) =
  mkParseResult n (length ps) 0 (is_partial st).
Proof.
  intros Hps. unfold scan_result. cbn [sc_events sc_consumed sc_stop].
  assert (length (filter (fun ev => is_malformed ev = false) (map packet_event ps)) = length ps /\
          length (filter (fun ev => is_malformed ev = true) (map packet_event ps)) = 0%nat) as [-> ->];
    [|done].
  induction Hps as [|p ps Hp _ [IH1 IH2]]; [done|]. cbn [map].
  destruct (packet_event_ok p Hp) as [_ Hm].
  rewrite filter_cons_True, filter_cons_False by (rewrite Hm; done). cbn [length]. auto.
Qed.
