(* ===== verification/SequenceTracker.v ===== *)
(** Sequence-number validation (include/mdfh/sequence_tracker.hpp): the tracker
    with its 32-bit sequence numbers and 64-bit counters, and its specification
    by the list of sequence numbers observed so far. *)
From S2P Require Import Prelude Protocol.
From stdpp Require Import sorting.
From Stdlib Require Import Sorting.Sorted.

Local Open Scope Z_scope.

Inductive SeqStatus : Set := InOrder | Duplicate | Gap | OutOfOrder.
#[export] Instance SeqStatus_eq_dec : EqDecision SeqStatus.
Proof. solve_decision. Defined.

Record SeqStats := mkSeqStats {
  st_total : Z;
  st_in_order : Z;
  st_duplicates : Z;
  st_out_of_order : Z;
  st_gap_events : Z;
  st_missing : Z
}.
#[export] Instance SeqStats_eq_dec : EqDecision SeqStats.
Proof. solve_decision. Defined.

Record SequenceTracker := mkTracker {
  tr_initialized : bool;
  tr_next_expected : Sequence;
  tr_last_seq : Sequence;
  tr_stats : SeqStats
}.
#[export] Instance SequenceTracker_eq_dec : EqDecision SequenceTracker.
Proof. solve_decision. Defined.

Definition empty_stats : SeqStats := mkSeqStats 0 0 0 0 0 0.
Definition new_tracker : SequenceTracker := mkTracker false 0 0 empty_stats.

(** [reset()]: [*this = SequenceTracker{}]. *)
Definition reset (t : SequenceTracker) : SequenceTracker := new_tracker.

Definition incr_total (s : SeqStats) : SeqStats :=
  mkSeqStats (incr64 (st_total s)) (st_in_order s) (st_duplicates s) (st_out_of_order s)
    (st_gap_events s) (st_missing s).
Definition incr_in_order (s : SeqStats) : SeqStats :=
  mkSeqStats (st_total s) (incr64 (st_in_order s)) (st_duplicates s) (st_out_of_order s)
    (st_gap_events s) (st_missing s).
Definition incr_duplicates (s : SeqStats) : SeqStats :=
  mkSeqStats (st_total s) (st_in_order s) (incr64 (st_duplicates s)) (st_out_of_order s)
    (st_gap_events s) (st_missing s).
Definition incr_out_of_order (s : SeqStats) : SeqStats :=
  mkSeqStats (st_total s) (st_in_order s) (st_duplicates s) (incr64 (st_out_of_order s))
    (st_gap_events s) (st_missing s).
Definition add_gap (skipped : Z) (s : SeqStats) : SeqStats :=
  mkSeqStats (st_total s) (st_in_order s) (st_duplicates s) (st_out_of_order s)
    (incr64 (st_gap_events s)) (add64 (st_missing s) skipped).

(** [seq + 1] and [seq - next_expected_] are 32-bit unsigned. *)
Definition observe (seq : Sequence) (t : SequenceTracker) : SeqStatus * SequenceTracker :=
  let stats := incr_total (tr_stats t) in
  if negb (tr_initialized t) then
    (InOrder, mkTracker true (wrap 32 (seq + 1)) seq (incr_in_order stats))
  else if seq =? tr_next_expected t then
    (InOrder, mkTracker true (wrap 32 (seq + 1)) seq (incr_in_order stats))
  else if tr_next_expected t <? seq then
    (Gap, mkTracker true (wrap 32 (seq + 1)) seq
            (add_gap (wrap 32 (seq - tr_next_expected t)) stats))
  else if seq =? tr_last_seq t then
    (Duplicate, mkTracker true (tr_next_expected t) seq (incr_duplicates stats))
  else
    (OutOfOrder, mkTracker true (tr_next_expected t) seq (incr_out_of_order stats)).

(** The tracker after observing [seqs] in turn, and the statuses returned. *)
Fixpoint observe_all (seqs : list Sequence) (t : SequenceTracker)
  : list SeqStatus * SequenceTracker :=
  match seqs with
  | [] => ([], t)
  | seq :: seqs =>
      let r := observe seq t in
      let rs := observe_all seqs r.2 in
      (r.1 :: rs.1, rs.2)
  end.

(** ** Specification by history

    [hist] is the list of sequence numbers observed, oldest first.  The
    high-water mark is their maximum; the next number is in order when it is
    one above the mark, a gap when it is further above, a duplicate when it
    repeats the last observation, and out of order otherwise. *)
Definition high_water (first : Sequence) (hist : list Sequence) : Z := foldr Z.max first hist.

Definition spec_status (first : Sequence) (hist : list Sequence) (seq : Sequence) : SeqStatus :=
  let hw := high_water first hist in
  if seq =? hw + 1 then InOrder
  else if hw + 1 <? seq then Gap
  else if seq =? default first (last hist) then Duplicate
  else OutOfOrder.

(** Numbers whose successor is still a 32-bit number. *)
Definition no_wrap (seq : Sequence) : Prop := 0 <= seq < 2 ^ 32 - 1.

(** The sequence numbers a stream's tracker accepts (in order or after a gap). *)
Definition accepted (st : SeqStatus) : bool :=
  match st with InOrder | Gap => true | Duplicate | OutOfOrder => false end.

Fixpoint accepted_seqs (seqs : list Sequence) (t : SequenceTracker) : list Sequence :=
  match seqs with
  | [] => []
  | seq :: seqs =>
      let r := observe seq t in
      (if accepted r.1 then [seq] else []) ++ accepted_seqs seqs r.2
  end.

(** ** Lemmas *)

Lemma high_water_snoc first hist seq :
  high_water first (hist ++ [seq]) = Z.max (high_water first hist) seq.
Proof. unfold high_water. induction hist as [|x hist IH]; cbn -[Z.max] in *; lia. Qed.

Lemma high_water_ge first hist : first <= high_water first hist.
Proof. unfold high_water. induction hist as [|x hist IH]; cbn -[Z.max] in *; lia. Qed.

Lemma high_water_bound first hist b :
  first < b -> Forall (fun s => s < b) hist -> high_water first hist < b.
Proof. unfold high_water. intros Hf Hh. induction Hh; cbn -[Z.max] in *; lia. Qed.

Lemma observe_all_app s1 s2 t :
  observe_all (s1 ++ s2) t =
  (let r1 := observe_all s1 t in let r2 := observe_all s2 r1.2 in (r1.1 ++ r2.1, r2.2)).
Proof.
  revert t; induction s1 as [|s s1 IH]; intros t; cbn; [by destruct (observe_all s2 t)|].
  by rewrite IH.
Qed.

(** The tracker's state after a first number and a history. *)
Lemma observe_all_state first hist :
  no_wrap first -> Forall no_wrap hist ->
  let t := (observe_all (first :: hist) new_tracker).2 in
  tr_initialized t = true /\ tr_next_expected t = high_water first hist + 1 /\
  tr_last_seq t = default first (last hist).
Proof.
  intros Hf Hh. cbn zeta. induction hist as [|seq hist IH] using rev_ind.
  - cbn. split_and!; [done| |done]. unfold no_wrap in Hf. rewrite wrap_small; [done|].
    unfold in_unsigned. lia.
  - apply Forall_app in Hh as [Hh Hs]. rewrite Forall_singleton in Hs. destruct (IH Hh) as (Hi & Hn & Hl).
    rewrite app_comm_cons, observe_all_app. cbn zeta.
    set (t := (observe_all (first :: hist) new_tracker).2) in *. clearbody t.
    cbn [observe_all snd].
    rewrite high_water_snoc, last_snoc.
    assert (high_water first hist < 2 ^ 32 - 1).
    { apply high_water_bound; [apply Hf|]. eapply Forall_impl; [exact Hh|]. by intros x [_ ?]. }
    pose proof (high_water_ge first hist). unfold no_wrap in *.
    assert (wrap 32 (seq + 1) = seq + 1) as Hw by (apply wrap_small; unfold in_unsigned; lia).
    unfold observe. rewrite Hi, Hn. cbn [negb].
    destruct (Z.eqb_spec seq (high_water first hist + 1));
      [|destruct (Z.ltb_spec (high_water first hist + 1) seq); [|destruct (seq =? _)]];
      cbn [fst snd tr_initialized tr_next_expected tr_last_seq]; split_and!; lia || done.
Qed.

(** ** Counter invariant *)

(** Every observation is counted exactly once, modulo the counters' width. *)
Definition stats_balanced (s : SeqStats) : Prop :=
  st_total s =
  wrap 64 (st_in_order s + st_duplicates s + st_out_of_order s + st_gap_events s).

(** Incrementing one summand of a balanced total. *)
Lemma balanced_incr total c rest sum :
  total = wrap 64 (c + rest) -> sum = wrap 64 (c + 1) + rest ->
  wrap 64 (total + 1) = wrap 64 sum.
Proof. intros -> ->. rewrite !wrap_add_l. f_equal. lia. Qed.

Lemma observe_balanced seq t :
  stats_balanced (tr_stats t) -> stats_balanced (tr_stats (observe seq t).2).
Proof.
  unfold stats_balanced. destruct (tr_stats t) as [tot io dup ooo gap mis] eqn:E. cbn. intros H.
  unfold observe. rewrite E. repeat case_match; cbn; unfold incr64.
  - apply (balanced_incr _ io (dup + ooo + gap)); [rewrite H; f_equal|]; lia.
  - apply (balanced_incr _ io (dup + ooo + gap)); [rewrite H; f_equal|]; lia.
  - apply (balanced_incr _ gap (io + dup + ooo)); [rewrite H; f_equal|]; lia.
  - apply (balanced_incr _ dup (io + ooo + gap)); [rewrite H; f_equal|]; lia.
  - apply (balanced_incr _ ooo (io + dup + gap)); [rewrite H; f_equal|]; lia.
Qed.

Lemma observe_all_balanced seqs t :
  stats_balanced (tr_stats t) -> stats_balanced (tr_stats (observe_all seqs t).2).
Proof.
  revert t; induction seqs as [|s seqs IH]; intros t Ht; [done|]. by apply IH, observe_balanced.
Qed.

Lemma observe_total seq t :
  st_total (tr_stats (observe seq t).2) = incr64 (st_total (tr_stats t)).
Proof. unfold observe. by repeat case_match. Qed.

Lemma observe_all_total seqs t :
  st_total (tr_stats (observe_all seqs t).2) =
  wrap 64 (st_total (tr_stats t) + Z.of_nat (length seqs)) \/ seqs = [].
Proof.
  revert t; induction seqs as [|s seqs IH]; intros t; [by right|left].
  cbn [observe_all snd]. destruct (IH (observe s t).2) as [E | ->].
  - rewrite E, observe_total. unfold incr64. rewrite wrap_add_l. f_equal. cbn [length]. lia.
  - cbn [observe_all snd length]. rewrite observe_total. reflexivity.
Qed.

(** ** Accepted numbers *)

Lemma accepted_seqs_app s1 s2 t :
  accepted_seqs (s1 ++ s2) t = accepted_seqs s1 t ++ accepted_seqs s2 (observe_all s1 t).2.
Proof.
  revert t; induction s1 as [|s s1 IH]; intros t; cbn; [done|]. by rewrite IH, <- app_assoc.
Qed.

(** A number is accepted exactly when it is above the high-water mark. *)
Lemma observe_accepts first hist seq :
  no_wrap first -> Forall no_wrap hist ->
  let t := (observe_all (first :: hist) new_tracker).2 in
  accepted (observe seq t).1 = (high_water first hist <? seq).
Proof.
  intros Hf Hh. cbn zeta. destruct (observe_all_state first hist Hf Hh) as (Hi & Hn & _).
  unfold observe. rewrite Hi, Hn. cbn [negb].
  destruct (Z.eqb_spec seq (high_water first hist + 1)); cbn [fst accepted]; [lia|].
  destruct (Z.ltb_spec (high_water first hist + 1) seq); cbn [fst accepted]; [lia|].
  destruct (seq =? _); cbn [fst accepted]; lia.
Qed.

Lemma accepted_seqs_bounds first hist :
  no_wrap first -> Forall no_wrap hist ->
  let acc := accepted_seqs (first :: hist) new_tracker in
  StronglySorted Z.lt acc /\ Forall (fun s => first <= s <= high_water first hist) acc.
Proof.
  intros Hf Hh. cbn zeta. induction hist as [|seq hist IH] using rev_ind.
  - cbn. split; repeat constructor; lia.
  - apply Forall_app in Hh as [Hh Hs]. destruct (IH Hh) as [Hsort Hb].
    rewrite app_comm_cons, accepted_seqs_app. cbn [accepted_seqs]. rewrite app_nil_r.
    rewrite observe_accepts by done. rewrite high_water_snoc.
    pose proof (high_water_ge first hist).
    destruct (Z.ltb_spec (high_water first hist) seq) as [Hlt|Hge].
    + split.
      * apply StronglySorted_app_2; [|done|by repeat constructor].
        rewrite Forall_forall in Hb. intros x y Hx Hy%list_elem_of_singleton. subst.
        specialize (Hb x Hx). cbn in Hb. lia.
      * apply Forall_app. split; [|constructor; [lia|done]].
        eapply Forall_impl; [exact Hb|]. cbn. lia.
    + rewrite app_nil_r. split; [done|]. eapply Forall_impl; [exact Hb|]. cbn. lia.
Qed.

Lemma missing_accounting first hist :
  no_wrap first -> Forall no_wrap hist ->
  let t := (observe_all (first :: hist) new_tracker).2 in
  wrap 64 (st_missing (tr_stats t) + Z.of_nat (length (accepted_seqs (first :: hist) new_tracker)))
  = wrap 64 (high_water first hist + 1 - first).
Proof.
  intros Hf Hh. cbn zeta. induction hist as [|seq hist IH] using rev_ind.
  - cbn. f_equal. lia.
  - apply Forall_app in Hh as [Hh Hs]. rewrite Forall_singleton in Hs. specialize (IH Hh).
    destruct (observe_all_state first hist Hf Hh) as (Hi & Hn & _).
    pose proof (observe_accepts first hist seq Hf Hh) as Hacc. cbn zeta in Hacc.
    rewrite app_comm_cons, accepted_seqs_app, observe_all_app. cbn zeta.
    set (t := (observe_all (first :: hist) new_tracker).2) in *. clearbody t.
    set (acc := accepted_seqs (first :: hist) new_tracker) in *. clearbody acc.
    cbn [accepted_seqs observe_all snd]. rewrite Hacc, app_nil_r, high_water_snoc, length_app.
    pose proof (high_water_ge first hist) as Hge.
    assert (high_water first hist < 2 ^ 32 - 1) as Hhw.
    { apply high_water_bound; [apply Hf|]. eapply Forall_impl; [exact Hh|]. by intros x [_ ?]. }
    unfold no_wrap in *. unfold observe. rewrite Hi, Hn. cbn [negb].
    destruct (Z.eqb_spec seq (high_water first hist + 1)) as [Heq|Hne].
    { rewrite (proj2 (Z.ltb_lt _ _)) by lia. cbn [snd tr_stats st_missing incr_in_order incr_total length].
      rewrite Z.max_r by lia. rewrite Nat2Z.inj_add, Z.add_assoc, <- wrap_add_l, IH, wrap_add_l.
      f_equal. lia. }
    destruct (Z.ltb_spec (high_water first hist + 1) seq) as [Hlt|Hle].
    { rewrite (proj2 (Z.ltb_lt _ _)) by lia. cbn [snd tr_stats st_missing add_gap incr_total length].
      rewrite Z.max_r by lia. unfold add64.
      rewrite (wrap_small 32) by (unfold in_unsigned; lia).
      rewrite wrap_add_l. rewrite Nat2Z.inj_add.
      transitivity (wrap 64 (wrap 64 (st_missing (tr_stats t) +
        Z.of_nat (length acc)) + (seq - (high_water first hist + 1) + 1))).
      - rewrite wrap_add_l. f_equal. cbn [Z.of_nat]. lia.
      - rewrite IH, wrap_add_l. f_equal. lia. }
    rewrite (proj2 (Z.ltb_ge _ _)) by lia. rewrite Z.max_l by lia. cbn [length]. rewrite Nat.add_0_r.
    rewrite <- IH. destruct (seq =? _); done.
Qed.

(** ** Properties *)

(** C27: on a stream that does not reach the last 32-bit number, the tracker
    classifies every sequence number as the specification by history does:
    against the maximum of all numbers seen and the number seen last. *)
Theorem observe_classifies first hist seq :
  no_wrap first -> Forall no_wrap hist ->
  (observe seq (observe_all (first :: hist) new_tracker).2).1 = spec_status first hist seq.
Proof.
  intros Hf Hh. destruct (observe_all_state first hist Hf Hh) as (Hi & Hn & Hl).
  unfold observe, spec_status. cbn zeta. rewrite Hi, Hn, Hl. by repeat case_match.
Qed.

Lemma observe_classifies_witness :
  (observe 3 (observe_all [1; 2; 4] new_tracker).2).1 = OutOfOrder.
Proof.
  rewrite (observe_classifies 1 [2; 4] 3); [reflexivity| |];
    repeat constructor; cbv; congruence.
Defined.

(** C28: on a stream that does not reach the last 32-bit number, the numbers the
    tracker accepts (and the feed handler forwards) are strictly increasing, so
    each is delivered at most once, and the counter of missing numbers is exactly how many numbers between the first one and the
    high-water mark were not accepted. *)
Theorem accepted_once_and_missing first hist :
  no_wrap first -> Forall no_wrap hist ->
  let acc := accepted_seqs (first :: hist) new_tracker in
  let t := (observe_all (first :: hist) new_tracker).2 in
  StronglySorted Z.lt acc /\
  Forall (fun s => first <= s <= high_water first hist) acc /\
  wrap 64 (st_missing (tr_stats t)) =
  wrap 64 (high_water first hist + 1 - first - Z.of_nat (length acc)).
Proof.
  intros Hf Hh. cbn zeta. destruct (accepted_seqs_bounds first hist Hf Hh) as [Hs Hb].
  split_and!; [done..|]. rewrite <- wrap_sub_l, <- missing_accounting, wrap_sub_l by done.
  f_equal. lia.
Qed.

Lemma accepted_once_and_missing_witness :
  accepted_seqs [1; 2; 5; 3; 5; 9] new_tracker = [1; 2; 5; 9] /\
  StronglySorted Z.lt (accepted_seqs [1; 2; 5; 3; 5; 9] new_tracker).
Proof.
  split; [reflexivity|].
  apply (accepted_once_and_missing 1 [2; 5; 3; 5; 9]); repeat constructor; cbv; congruence.
Defined.

(** Whatever the stream, every observation is counted exactly once: the
    total equals the number of observations and the sum of the four
    classification counters, modulo the 64-bit width of the counters. *)
Theorem observations_balanced seqs :
  let s := tr_stats (observe_all seqs new_tracker).2 in
  st_total s = wrap 64 (Z.of_nat (length seqs)) /\
  st_total s = wrap 64 (st_in_order s + st_duplicates s + st_out_of_order s + st_gap_events s).
Proof.
  cbn zeta. split.
  - destruct (observe_all_total seqs new_tracker) as [E | ->]; [|done]. by rewrite E.
  - by apply observe_all_balanced.
Qed.

(** At the top of the 32-bit range the duplicate test is lost: a re-sent
    number 2^32-1 is reported as a gap of 2^32-1 missing messages, and
    accepted again, because the expected number has wrapped to 0. *)
Theorem duplicate_at_wrap_is_gap :
  let top := 2 ^ 32 - 1 in
  let r := observe_all [top - 1; top; top] new_tracker in
  r.1 = [InOrder; InOrder; Gap] /\ st_missing (tr_stats r.2) = top /\
  st_duplicates (tr_stats r.2) = 0 /\ tr_next_expected r.2 = 0.
Proof. vm_compute. repeat split. Qed.
