(* ===== verification/FeedHandler.v ===== *)
(** The feed handler (include/mdfh/feed_handler.hpp): reassembly of a byte
    stream into frames, sequence validation and forwarding to a downstream
    sink.  It is a sink itself, so the parser calls back into it. *)
From S2P Require Import Prelude ByteOrder Protocol Serialization Parser SequenceTracker.

Local Open Scope Z_scope.

Record FeedHandler (Down : Type) : Type := mkFeedHandler {
  fh_down : Down;
  fh_seq : SequenceTracker;
  fh_residual : list byte;
  fh_forwarded : Z;    (* u64 *)
  fh_dropped : Z;      (* u64 *)
  fh_malformed : Z     (* u64 *)
}.
Arguments mkFeedHandler {Down}.
Arguments fh_down {Down}.
Arguments fh_seq {Down}.
Arguments fh_residual {Down}.
Arguments fh_forwarded {Down}.
Arguments fh_dropped {Down}.
Arguments fh_malformed {Down}.

(** [FeedHandler(Down& down)]. *)
Definition new_feed {Down} (down : Down) : FeedHandler Down :=
  mkFeedHandler down new_tracker [] 0 0 0.

Section FeedHandler.
Context {Down : Type} `{HandlerLike Down}.
Implicit Types (fh : FeedHandler Down).

Definition set_down (d : Down) fh : FeedHandler Down :=
  mkFeedHandler d (fh_seq fh) (fh_residual fh) (fh_forwarded fh) (fh_dropped fh) (fh_malformed fh).
Definition set_residual (res : list byte) fh : FeedHandler Down :=
  mkFeedHandler (fh_down fh) (fh_seq fh) res (fh_forwarded fh) (fh_dropped fh) (fh_malformed fh).

(** [accept(seq)]: whether to forward, and the updated tracker and counters. *)
Definition accept (seq : Sequence) fh : bool * FeedHandler Down :=
  let r := observe seq (fh_seq fh) in
  match r.1 with
  | InOrder | Gap =>
      (true, mkFeedHandler (fh_down fh) r.2 (fh_residual fh)
               (incr64 (fh_forwarded fh)) (fh_dropped fh) (fh_malformed fh))
  | Duplicate | OutOfOrder =>
      (false, mkFeedHandler (fh_down fh) r.2 (fh_residual fh)
                (fh_forwarded fh) (incr64 (fh_dropped fh)) (fh_malformed fh))
  end.

(** [if (accept(h.sequence)) down_.callback(h, m);] *)
Definition forward (hdr : MessageHeader) (callback : Down -> outcome Down) fh
  : outcome (FeedHandler Down) :=
  let r := accept (hdr_sequence hdr) fh in
  if r.1 then d ← callback (fh_down r.2); Ok (set_down d r.2) else Ok r.2.

#[export] Instance FeedHandler_like : HandlerLike (FeedHandler Down) := {|
  on_add_order := fun hdr m => forward hdr (on_add_order hdr m);
  on_cancel_order := fun hdr m => forward hdr (on_cancel_order hdr m);
  on_modify_order := fun hdr m => forward hdr (on_modify_order hdr m);
  on_trade := fun hdr m => forward hdr (on_trade hdr m);
  on_snapshot := fun hdr m => forward hdr (on_snapshot hdr m);
  on_heartbeat := fun hdr => forward hdr (on_heartbeat hdr);
  on_malformed := fun off fh => d ← on_malformed off (fh_down fh); Ok (set_down d fh)
|}.

Definition accumulate (r : ParseResult) fh : FeedHandler Down :=
  mkFeedHandler (fh_down fh) (fh_seq fh) (fh_residual fh) (fh_forwarded fh) (fh_dropped fh)
    (add64 (fh_malformed fh) (Z.of_nat (pr_malformed r))).

(** Stream entry point: a trailing partial message waits in [residual_]. *)
Definition consume (bytes : list byte) fh : outcome (FeedHandler Down * ParseResult) :=
  if bool_decide (fh_residual fh = []) then
    pr ← parse bytes fh;
    let '(fh, r) := pr in
    fh ← (if bool_decide (bytes_consumed r < length bytes)%nat then
            tail ← subspan bytes (bytes_consumed r) (length bytes - bytes_consumed r);
            Ok (set_residual tail fh)
          else Ok fh);
    Ok (accumulate r fh, r)
  else
    let fh := set_residual (fh_residual fh ++ bytes) fh in
    pr ← parse (fh_residual fh) fh;
    let '(fh, r) := pr in
    require (bool_decide (bytes_consumed r <= length (fh_residual fh))%nat);;
    let fh := set_residual (drop (bytes_consumed r) (fh_residual fh)) fh in
    Ok (accumulate r fh, r).

(** Datagram entry point: nothing is carried from one datagram to the next. *)
Definition consume_datagram (bytes : list byte) fh : outcome (FeedHandler Down * ParseResult) :=
  pr ← parse bytes fh;
  let '(fh, r) := pr in
  Ok (accumulate r fh, r).

Definition pending_bytes fh : nat := length (fh_residual fh).

(** A sequence of segments received one after the other; returns the state
    and the totals of the messages and malformed messages reported. *)
Fixpoint consume_all (chunks : list (list byte)) fh : outcome (FeedHandler Down * (nat * nat)) :=
  match chunks with
  | [] => Ok (fh, (0, 0)%nat)
  | bytes :: chunks =>
      pr ← consume bytes fh;
      let '(fh, r) := pr in
      rest ← consume_all chunks fh;
      Ok (rest.1, (pr_messages r + rest.2.1, pr_malformed r + rest.2.2)%nat)
  end.
End FeedHandler.

(** ** The events a feed handler forwards *)

(** The tracker after the events of a buffer, and the events that go through:
    malformed reports always, messages when the tracker accepts them. *)
Fixpoint forwarded_events (evs : list Event) (t : SequenceTracker) : list Event :=
  match evs with
  | [] => []
  | ev :: evs =>
      match event_header ev with
      | None => ev :: forwarded_events evs t
      | Some hdr =>
          let r := observe (hdr_sequence hdr) t in
          (if accepted r.1 then [ev] else []) ++ forwarded_events evs r.2
      end
  end.

Definition event_seqs (evs : list Event) : list Sequence :=
  omap (fun ev => hdr_sequence <$> event_header ev) evs.

Definition count_accepted (sts : list SeqStatus) : nat :=
  length (filter (fun st => accepted st = true) sts).
Definition count_rejected (sts : list SeqStatus) : nat :=
  length (filter (fun st => accepted st = false) sts).

(** Messages and malformed reports among events. *)
Definition good_count (evs : list Event) : nat := length (filter (fun ev => is_malformed ev = false) evs).
Definition bad_count (evs : list Event) : nat := length (filter (fun ev => is_malformed ev = true) evs).

(** What the segments of a stream hold, scanned one after the other with what
    the ones before left, and what the last one leaves. *)
Fixpoint stream_events (res : list byte) (chunks : list (list byte)) : list Event :=
  match chunks with
  | [] => []
  | bytes :: chunks =>
      let s := scan_at 0 (res ++ bytes) in
      sc_events s ++ stream_events (drop (sc_consumed s) (res ++ bytes)) chunks
  end.
Fixpoint stream_rest (res : list byte) (chunks : list (list byte)) : list byte :=
  match chunks with
  | [] => res
  | bytes :: chunks =>
      let s := scan_at 0 (res ++ bytes) in stream_rest (drop (sc_consumed s) (res ++ bytes)) chunks
  end.

Lemma event_seqs_cons ev evs :
  event_seqs (ev :: evs) =
  match event_header ev with
  | Some hdr => hdr_sequence hdr :: event_seqs evs
  | None => event_seqs evs
  end.
Proof. unfold event_seqs. cbn. by destruct (event_header ev). Qed.

(** The forwarded messages are those with the accepted numbers. *)
Lemma forwarded_event_seqs evs t :
  event_seqs (forwarded_events evs t) = accepted_seqs (event_seqs evs) t.
Proof.
  revert t; induction evs as [|ev evs IH]; intros t; [done|].
  rewrite event_seqs_cons. cbn [forwarded_events].
  destruct (event_header ev) as [hdr|] eqn:E.
  - cbn [accepted_seqs]. destruct (accepted _); cbn [app]; [|apply IH].
    by rewrite event_seqs_cons, E, IH.
  - by rewrite event_seqs_cons, E, IH.
Qed.

Lemma filter_length_app {A} (P : A -> Prop) `{!forall x, Decision (P x)} l1 l2 :
  length (filter P (l1 ++ l2)) = (length (filter P l1) + length (filter P l2))%nat.
Proof. by rewrite filter_app, length_app. Qed.

Lemma scan_result_append s s' :
  let both := mkScanned (sc_events s ++ sc_events s') (sc_consumed s + sc_consumed s') (sc_stop s') in
  pr_messages (scan_result both) = (pr_messages (scan_result s) + pr_messages (scan_result s'))%nat /\
  pr_malformed (scan_result both) = (pr_malformed (scan_result s) + pr_malformed (scan_result s'))%nat.
Proof. cbn. by rewrite !filter_length_app. Qed.

Lemma drop_app_add_le {A} (x y : list A) n m :
  (n <= length x)%nat -> drop (n + m) (x ++ y) = drop m (drop n x ++ y).
Proof. intros Hn. by rewrite <- drop_drop, drop_app_le. Qed.

Section FeedSpec.
Context {Down : Type} `{HandlerLike Down}.
Implicit Types (fh : FeedHandler Down).

Lemma deliver_feed ev fh :
  deliver ev fh =
  match event_header ev with
  | Some hdr => forward hdr (deliver ev) fh
  | None => d ← deliver ev (fh_down fh); Ok (set_down d fh)
  end.
Proof. by destruct ev. Qed.

(** The state of the handler after the events of a buffer, given the
    downstream state. *)
Definition after_events (evs : list Event) (d : Down) fh : FeedHandler Down :=
  let r := observe_all (event_seqs evs) (fh_seq fh) in
  mkFeedHandler d r.2 (fh_residual fh)
    (add64 (fh_forwarded fh) (Z.of_nat (count_accepted r.1)))
    (add64 (fh_dropped fh) (Z.of_nat (count_rejected r.1))) (fh_malformed fh).

(** Counters in range: what [uint64_t] guarantees. *)
Definition counters_ok fh : Prop :=
  in_unsigned 64 (fh_forwarded fh) /\ in_unsigned 64 (fh_dropped fh) /\
  in_unsigned 64 (fh_malformed fh).

Lemma add64_0 c : in_unsigned 64 c -> add64 c 0 = c.
Proof. intros Hc. unfold add64. rewrite Z.add_0_r. by apply wrap_small. Qed.

Lemma add64_incr c n : add64 (incr64 c) (Z.of_nat n) = add64 c (Z.of_nat (S n)).
Proof. unfold add64, incr64. rewrite wrap_add_l. f_equal. lia. Qed.

Lemma add64_range c n : in_unsigned 64 (add64 c n).
Proof. apply wrap_range. lia. Qed.

Lemma add64_add c m n : add64 (add64 c m) n = add64 c (m + n).
Proof. unfold add64. rewrite wrap_add_l. f_equal. lia. Qed.

Lemma incr64_range c : in_unsigned 64 (incr64 c).
Proof. apply wrap_range. lia. Qed.

(** Delivering events to the handler is delivering the forwarded ones
    downstream. *)
Lemma deliver_all_feed evs fh :
  counters_ok fh ->
  deliver_all evs fh =
  (d ← deliver_all (forwarded_events evs (fh_seq fh)) (fh_down fh); Ok (after_events evs d fh)).
Proof.
  revert fh; induction evs as [|ev evs IH]; intros fh (Hf & Hd & Hm).
  - cbn. unfold after_events. cbn. rewrite !add64_0 by done. by destruct fh.
  - cbn [deliver_all forwarded_events]. rewrite deliver_feed. unfold after_events.
    rewrite event_seqs_cons. destruct (event_header ev) as [hdr|] eqn:Eh.
    + unfold forward, accept. cbn zeta.
      destruct (observe (hdr_sequence hdr) (fh_seq fh)) as [st t'] eqn:Eo.
      cbn [observe_all fst snd]. rewrite Eo. cbn [fst snd].
      destruct st; cbn [fst snd accepted app deliver_all];
        rewrite ?bind_assoc, ?bind_ok; rewrite ?IH by (split_and!; cbn; auto using incr64_range);
        unfold after_events; cbn [fh_down fh_seq fh_residual fh_forwarded fh_dropped fh_malformed].
      all: try (apply bind_ext; intros d; unfold count_accepted, count_rejected;
                rewrite ?filter_cons; repeat case_decide; try done; cbn [length];
                by rewrite add64_incr).
      all: apply bind_ext; intros d; rewrite bind_ok, IH by (split_and!; cbn; auto using incr64_range);
        unfold after_events; cbn; apply bind_ext; intros d'; unfold count_accepted, count_rejected;
        rewrite ?filter_cons; repeat case_decide; try done; cbn [length]; by rewrite add64_incr.
    + cbn [deliver_all]. rewrite !bind_assoc. apply bind_ext; intros d. rewrite bind_ok.
      rewrite IH by done. done.
Qed.

(** The callbacks touch neither the pending bytes nor the malformed count. *)
Definition set_pending (res : list byte) (mal : Z) fh : FeedHandler Down :=
  mkFeedHandler (fh_down fh) (fh_seq fh) res (fh_forwarded fh) (fh_dropped fh) mal.

Lemma forward_pending hdr cb res mal fh :
  forward hdr cb (set_pending res mal fh) =
  (fh' ← forward hdr cb fh; Ok (set_pending res mal fh')).
Proof.
  unfold forward, accept. cbn [fh_seq set_pending].
  destruct (observe _ _) as [[] t]; cbn [fst snd fh_down set_pending]; try done;
    rewrite bind_assoc; by apply bind_ext.
Qed.

Lemma deliver_all_pending evs res mal fh :
  deliver_all evs (set_pending res mal fh) =
  (fh' ← deliver_all evs fh; Ok (set_pending res mal fh')).
Proof.
  revert fh; induction evs as [|ev evs IH]; intros fh; [done|]. cbn [deliver_all].
  rewrite !deliver_feed. destruct (event_header ev).
  - rewrite forward_pending, !bind_assoc. apply bind_ext; intros fh'. by rewrite bind_ok, IH.
  - rewrite !bind_assoc. apply bind_ext; intros d. rewrite !bind_ok, <- IH. done.
Qed.

Lemma deliver_all_keeps evs fh fh' :
  deliver_all evs fh = Ok fh' -> fh' = set_pending (fh_residual fh) (fh_malformed fh) fh'.
Proof.
  assert (fh = set_pending (fh_residual fh) (fh_malformed fh) fh) as Hfh by (by destruct fh).
  rewrite Hfh at 1. rewrite deliver_all_pending. intros (x & _ & [= <-])%bind_Ok_inv. done.
Qed.

Lemma deliver_all_residual evs res fh :
  deliver_all evs (set_residual res fh) = (fh' ← deliver_all evs fh; Ok (set_residual res fh')).
Proof.
  change (set_residual res fh) with (set_pending res (fh_malformed fh) fh).
  rewrite deliver_all_pending. destruct (deliver_all evs fh) as [fh'| | |] eqn:E; [|done..].
  apply deliver_all_keeps in E. rewrite E. done.
Qed.

(** Both branches of [consume] scan what was pending followed by the new
    bytes, deliver the events, and keep the unconsumed tail. *)
Lemma consume_spec bytes fh :
  consume bytes fh =
  (let s := scan_at 0 (fh_residual fh ++ bytes) in
   fh' ← deliver_all (sc_events s) fh;
   Ok (accumulate (scan_result s)
         (set_residual (drop (sc_consumed s) (fh_residual fh ++ bytes)) fh'), scan_result s)).
Proof.
  cbn zeta. unfold consume. case_bool_decide as Hres.
  - rewrite Hres, app_nil_l, parse_scan, bind_assoc.
    destruct (deliver_all _ fh) as [fh'| | |] eqn:E; [|done..]. rewrite !bind_ok.
    apply deliver_all_keeps in E.
    pose proof (scan_consumed_le 0 bytes) as Hle.
    change (bytes_consumed (scan_result (scan_at 0 bytes))) with (sc_consumed (scan_at 0 bytes)).
    case_bool_decide as Hlt.
    + rewrite subspan_ok, !bind_ok by lia. rewrite firstn_all2; [done|]. rewrite length_drop. lia.
    + rewrite bind_ok. rewrite drop_ge by lia. rewrite E, Hres. done.
  - rewrite parse_scan, deliver_all_residual, !bind_assoc. apply bind_ext; intros fh'.
    rewrite !bind_ok. cbn [fh_residual set_residual].
    rewrite bool_decide_eq_true_2 by apply (scan_consumed_le 0). done.
Qed.

(** Any sequence of segments: the events they hold, delivered in order. *)
Lemma consume_all_spec chunks fh :
  counters_ok fh ->
  let evs := stream_events (fh_residual fh) chunks in
  consume_all chunks fh =
  (fh' ← deliver_all evs fh;
   Ok (set_pending (stream_rest (fh_residual fh) chunks)
         (add64 (fh_malformed fh) (Z.of_nat (bad_count evs))) fh', (good_count evs, bad_count evs))).
Proof.
  cbn zeta. enough (forall res mal, in_unsigned 64 mal -> fh_residual fh = res -> fh_malformed fh = mal ->
    consume_all chunks fh = (fh' ← deliver_all (stream_events res chunks) fh;
      Ok (set_pending (stream_rest res chunks) (add64 mal (Z.of_nat (bad_count (stream_events res chunks)))) fh',
          (good_count (stream_events res chunks), bad_count (stream_events res chunks))))) as Hgen.
  { intros (_ & _ & Hm). by apply Hgen. }
  revert fh. induction chunks as [|bytes chunks IH]; intros fh res mal Hmal Hres Hm.
  { cbn. rewrite add64_0 by done. subst. by destruct fh. }
  cbn [consume_all stream_events stream_rest]. rewrite consume_spec, Hres. cbn zeta.
  set (s := scan_at 0 (res ++ bytes)). rewrite deliver_all_app, !bind_assoc.
  destruct (deliver_all (sc_events s) fh) as [fh1| | |] eqn:E; [|done..].
  apply deliver_all_keeps in E. rewrite !bind_ok. cbn [fst snd].
  change (accumulate ?r (set_residual ?x fh1))
    with (set_pending x (add64 (fh_malformed fh1) (Z.of_nat (pr_malformed r))) fh1).
  assert (fh_malformed fh1 = mal) as -> by (by rewrite E).
  erewrite IH; [|apply add64_range|done|done]. rewrite deliver_all_pending, !bind_assoc.
  apply bind_ext; intros fh2. rewrite !bind_ok. cbn [fst snd]. rewrite add64_add, <- Nat2Z.inj_add.
  unfold good_count, bad_count. by rewrite !filter_length_app.
Qed.

Lemma consume_datagram_spec bytes fh :
  consume_datagram bytes fh =
  (fh' ← deliver_all (sc_events (scan_at 0 bytes)) fh;
   Ok (accumulate (scan_result (scan_at 0 bytes)) fh', scan_result (scan_at 0 bytes))).
Proof. unfold consume_datagram. by rewrite parse_scan, bind_assoc. Qed.

#[export] Instance FeedHandler_offset `{!OffsetInsensitive Down} :
  OffsetInsensitive (FeedHandler Down).
Proof. intros o1 o2 fh. cbn. by rewrite (on_malformed_offset o1 o2). Qed.

#[export] Instance FeedHandler_safe (I : Down -> Prop) `{!HandlerSafe Down I} :
  HandlerSafe (FeedHandler Down) (fun fh => I (fh_down fh)).
Proof.
  intros ev fh Hev Hfh. rewrite deliver_feed. destruct (event_header ev) as [hdr|].
  - unfold forward, accept. destruct (observe _ _) as [[] t]; cbn [fst snd fh_down]; eauto;
      destruct (deliver_safe ev _ Hev Hfh) as (d & E & Hd); rewrite E, bind_ok; eauto.
  - destruct (deliver_safe ev _ Hev Hfh) as (d & E & Hd). rewrite E, bind_ok. eauto.
Qed.

(** Nothing in [fh_residual] could have been parsed already. *)
Definition quiescent fh : Prop :=
  let s := scan_at 0 (fh_residual fh) in
  sc_events s = [] /\ sc_consumed s = 0%nat /\ sc_stop s <> StopBadHeader.

Lemma quiescent_new (d : Down) : quiescent (new_feed d).
Proof. split_and!; [done..|]. cbn. discriminate. Qed.

(** The bytes of the stream from the pending ones on hold no unknown type
    byte where a header is expected. *)
Definition well_framed (bytes : list byte) : Prop :=
  sc_stop (scan_at 0 bytes) <> StopBadHeader.

Lemma scan_result_events s :
  pr_messages (scan_result s) = length (filter (fun ev => is_malformed ev = false) (erase_offset <$> sc_events s)) /\
  pr_malformed (scan_result s) = length (filter (fun ev => is_malformed ev = true) (erase_offset <$> sc_events s)).
Proof.
  unfold scan_result. cbn. induction (sc_events s) as [|ev evs [IH1 IH2]]; [done|].
  rewrite fmap_cons, !filter_cons.
  replace (is_malformed (erase_offset ev)) with (is_malformed ev) by (by destruct ev).
  repeat case_decide; cbn; auto.
Qed.

Lemma well_framed_prefix x y : well_framed (x ++ y) -> well_framed x.
Proof. unfold well_framed. intros H1 H2. apply H1. by rewrite scan_app_bad. Qed.

Lemma well_framed_rest x y :
  well_framed (x ++ y) -> well_framed (drop (sc_consumed (scan_at 0 x)) x ++ y).
Proof.
  intros Hw. pose proof (well_framed_prefix _ _ Hw) as Hx. unfold well_framed in *.
  rewrite scan_app in Hw by done. cbn [sc_stop] in Hw.
  by rewrite (proj2 (proj2 (scan_erase 0 (0 + sc_consumed (scan_at 0 x)) _))).
Qed.

Lemma accumulate_after_counters evs d res r fh :
  counters_ok (accumulate r (set_residual res (after_events evs d fh))).
Proof. split_and!; apply add64_range. Qed.

(** Consuming [a] then [b] is consuming [a ++ b], unless the stream holds an
    unknown type byte. *)
Lemma consume_app `{!OffsetInsensitive Down} a b fh :
  well_framed (fh_residual fh ++ a ++ b) ->
  (pr ← consume a fh; pr' ← consume b pr.1;
   Ok (pr'.1, (pr_messages pr.2 + pr_messages pr'.2, pr_malformed pr.2 + pr_malformed pr'.2)%nat))
  = (pr ← consume (a ++ b) fh; Ok (pr.1, (pr_messages pr.2, pr_malformed pr.2))).
Proof.
  rewrite app_assoc. set (x := fh_residual fh ++ a). intros Hw.
  pose proof (well_framed_prefix _ _ Hw) as Hx.
  rewrite !consume_spec. cbn zeta. rewrite app_assoc. fold x.
  rewrite (scan_app 0 x b Hx). cbn zeta. cbn [Nat.add].
  set (s := scan_at 0 x) in *.
  set (s' := scan_at (sc_consumed s) (drop (sc_consumed s) x ++ b)).
  destruct (scan_erase 0 (sc_consumed s) (drop (sc_consumed s) x ++ b)) as (He & Hn & Hst).
  fold s' in He, Hn, Hst.
  cbn [sc_events sc_consumed]. rewrite deliver_all_app, !bind_assoc. apply bind_ext; intros fh1.
  rewrite bind_ok. cbn [fst snd]. rewrite consume_spec. cbn zeta. cbn [fh_residual accumulate set_residual].
  set (s2 := scan_at 0 (drop (sc_consumed s) x ++ b)) in *.
  change (accumulate ?r (set_residual ?res fh1))
    with (set_pending res (add64 (fh_malformed fh1) (Z.of_nat (pr_malformed r))) fh1).
  rewrite deliver_all_pending, !bind_assoc, (deliver_all_erase _ _ fh1 He).
  destruct (deliver_all (sc_events s') fh1) as [fh2| | |] eqn:E; [|done..].
  apply deliver_all_keeps in E. rewrite E, !bind_ok. cbn [fst snd].
  destruct (scan_result_events s2) as [Hm2 Hf2], (scan_result_events s') as [Hm' Hf'].
  rewrite He, <- Hm' in Hm2. rewrite He, <- Hf' in Hf2. rewrite Hm2, Hf2, Hn.
  destruct (scan_result_append s s') as [-> ->].
  rewrite (drop_app_add_le x b) by apply (scan_consumed_le 0).
  f_equal. f_equal. unfold accumulate, set_residual, set_pending.
  cbn [fh_down fh_seq fh_residual fh_forwarded fh_dropped fh_malformed].
  f_equal. rewrite Hf2, (proj2 (scan_result_append s s')), add64_add. f_equal. lia.
Qed.

Lemma consume_quiescent bytes fh pr :
  well_framed (fh_residual fh ++ bytes) -> consume bytes fh = Ok pr ->
  quiescent pr.1 /\ fh_residual pr.1 = drop (sc_consumed (scan_at 0 (fh_residual fh ++ bytes)))
                                         (fh_residual fh ++ bytes).
Proof.
  intros Hw. rewrite consume_spec. cbn zeta. intros (fh' & _ & [= <-])%bind_Ok_inv.
  cbn [fst fh_residual accumulate set_residual]. split; [|done].
  unfold quiescent. cbn [fst fh_residual accumulate set_residual].
  rewrite scan_rest by done. by split_and!.
Qed.

(** Reassembly: however a stream is cut into segments, receiving them one
    after the other is receiving it at once. *)
Lemma consume_all_concat `{!OffsetInsensitive Down} chunks fh :
  quiescent fh -> counters_ok fh -> well_framed (fh_residual fh ++ concat chunks) ->
  consume_all chunks fh =
  (pr ← consume (concat chunks) fh; Ok (pr.1, (pr_messages pr.2, pr_malformed pr.2))).
Proof.
  revert fh; induction chunks as [|a chunks IH]; intros fh Hq Hc Hw.
  - cbn [concat] in *. rewrite consume_spec. cbn zeta. rewrite app_nil_r.
    destruct Hq as (He & Hn & _). destruct (scan_at 0 (fh_residual fh)) as [evs n st]. cbn in He, Hn.
    subst. cbn. rewrite drop_0. destruct Hc as (_ & _ & Hm). unfold accumulate. cbn.
    rewrite add64_0 by done. by destruct fh.
  - cbn [concat consume_all] in *. rewrite <- consume_app by done.
    destruct (consume a fh) as [[fh1 r1]| | |] eqn:E; [|done..]. rewrite !bind_ok. cbn [fst snd].
    rewrite app_assoc in Hw. pose proof (well_framed_prefix _ _ Hw) as Hwa.
    destruct (consume_quiescent _ _ _ Hwa E) as [Hq1 Hr1]. cbn [fst] in *.
    rewrite IH; [|done| |].
    + rewrite bind_assoc. apply bind_ext; intros [fh2 r2]. by rewrite bind_ok.
    + rewrite consume_spec in E. cbn zeta in E. rewrite deliver_all_feed in E by done.
      apply bind_Ok_inv in E as (x & Ex & [= <- _]). apply bind_Ok_inv in Ex as (d & _ & [= <-]).
      apply accumulate_after_counters.
    + rewrite Hr1. by apply well_framed_rest.
Qed.
End FeedSpec.
