(* ===== verification/OrderedMap.v ===== *)
(** [std::map<std::int64_t, V, Compare>] as the order book uses it: a list of
    entries in increasing order of the comparator, with the operations the
    code calls ([find], [try_emplace], assignment through a reference,
    [erase], [begin], iteration), proved against lookup laws that do not
    mention the list. *)
From S2P Require Import Prelude.
From stdpp Require Import sorting.

Local Open Scope Z_scope.

(** ** Comparators *)

Definition std_less (a b : Z) : bool := a <? b.
Definition std_greater (a b : Z) : bool := b <? a.

(** What a map needs of its comparator: a strict total order. *)
Class Comparator (lt : Z -> Z -> bool) : Prop := {
  cmp_irrefl a : lt a a = false;
  cmp_trans a b c : lt a b = true -> lt b c = true -> lt a c = true;
  cmp_total a b : lt a b = false -> lt b a = false -> a = b
}.
#[export] Instance std_less_comparator : Comparator std_less.
Proof. split; unfold std_less; intros; lia. Qed.
#[export] Instance std_greater_comparator : Comparator std_greater.
Proof. split; unfold std_greater; intros; lia. Qed.

(** ** Operations *)

Section Operations.
Context {V : Type} (lt : Z -> Z -> bool).

(** [m.find(k)]; [None] is [m.end()]. *)
Fixpoint om_find (k : Z) (m : list (Z * V)) : option V :=
  match m with
  | [] => None
  | (k', v) :: m' =>
      if lt k k' then None else if lt k' k then om_find k m' else Some v
  end.

(** [m.try_emplace(k, v)]: inserts at the key's place unless present; the
    boolean says whether it inserted. *)
Fixpoint om_try_emplace (k : Z) (v : V) (m : list (Z * V)) : bool * list (Z * V) :=
  match m with
  | [] => (true, [(k, v)])
  | (k', v') :: m' =>
      if lt k k' then (true, (k, v) :: (k', v') :: m')
      else if lt k' k then
        let r := om_try_emplace k v m' in (r.1, (k', v') :: r.2)
      else (false, (k', v') :: m')
  end.

(** [it->second = v] for [it = m.find(k)]; no effect when the key is absent
    (the code's iterator would be [end()], which the callers exclude). *)
Fixpoint om_assign (k : Z) (v : V) (m : list (Z * V)) : list (Z * V) :=
  match m with
  | [] => []
  | (k', v') :: m' =>
      if lt k k' then (k', v') :: m'
      else if lt k' k then (k', v') :: om_assign k v m' else (k', v) :: m'
  end.

(** [m.erase(m.find(k))]. *)
Fixpoint om_erase (k : Z) (m : list (Z * V)) : list (Z * V) :=
  match m with
  | [] => []
  | (k', v') :: m' =>
      if lt k k' then (k', v') :: m'
      else if lt k' k then (k', v') :: om_erase k m' else m'
  end.

(** [m.begin()->second] for a non-empty map. *)
Definition om_begin (m : list (Z * V)) : option V := snd <$> head m.

Definition om_keys (m : list (Z * V)) : list Z := map fst m.
Definition om_sorted (m : list (Z * V)) : Prop :=
  StronglySorted (fun a b => lt a b = true) (om_keys m).
End Operations.

(** ** Laws *)

Section Laws.
Context {V : Type} (lt : Z -> Z -> bool) `{!Comparator lt}.
Implicit Types (m : list (Z * V)).

Lemma cmp_asym a b : lt a b = true -> lt b a = false.
Proof.
  intros Hab. destruct (lt b a) eqn:Hba; [|done].
  pose proof (cmp_trans _ _ _ Hab Hba). by rewrite cmp_irrefl in H.
Qed.

Lemma om_sorted_cons k v m :
  om_sorted lt ((k, v) :: m) <->
  om_sorted lt m /\ (forall k', k' ∈ om_keys m -> lt k k' = true).
Proof.
  unfold om_sorted. cbn. rewrite StronglySorted_cons, Forall_forall. tauto.
Qed.

Lemma om_find_not_key k m :
  om_sorted lt m -> k ∉ om_keys m -> om_find lt k m = None.
Proof.
  induction m as [|[k' v] m IH]; [done|]. rewrite om_sorted_cons. intros [Hs Hlt] Hk.
  cbn in *. apply not_elem_of_cons in Hk as [Hne Hk].
  destruct (lt k k') eqn:E1; [done|]. destruct (lt k' k) eqn:E2; [by apply IH|].
  by destruct Hne; apply cmp_total.
Qed.

Lemma om_find_elem k v m : om_sorted lt m -> om_find lt k m = Some v <-> (k, v) ∈ m.
Proof.
  induction m as [|[k' v'] m IH]; [set_solver|]. rewrite om_sorted_cons. intros [Hs Hlt].
  cbn. rewrite elem_of_cons. destruct (lt k k') eqn:E1.
  - split; [done|]. intros [[= -> ->]|Hin]; [by rewrite cmp_irrefl in E1|].
    assert (k ∈ om_keys m) as Hk by (apply list_elem_of_fmap; by exists (k, v)).
    apply Hlt, cmp_asym in Hk. congruence.
  - destruct (lt k' k) eqn:E2.
    + rewrite IH by done. split; [by right|]. intros [[= -> ->]|Hin]; [|done].
      by rewrite cmp_irrefl in E2.
    + pose proof (cmp_total _ _ E1 E2) as ->. split; [intros [= ->]; by left|].
      intros [[= ->]|Hin]; [done|].
      assert (k' ∈ om_keys m) as Hk by (apply list_elem_of_fmap; by exists (k', v)).
      apply Hlt in Hk. by rewrite cmp_irrefl in Hk.
Qed.

Lemma om_keys_elem k m : om_sorted lt m -> k ∈ om_keys m <-> is_Some (om_find lt k m).
Proof.
  intros Hs. split.
  - intros ([k' v] & -> & Hin)%list_elem_of_fmap. exists v. by apply om_find_elem.
  - intros [v Hv%om_find_elem]; [|done]. apply list_elem_of_fmap. by exists (k, v).
Qed.

(** A map is determined by its lookups. *)
Lemma om_ext m1 m2 :
  om_sorted lt m1 -> om_sorted lt m2 ->
  (forall k, om_find lt k m1 = om_find lt k m2) -> m1 = m2.
Proof.
  revert m2; induction m1 as [|[k1 v1] m1 IH]; intros [|[k2 v2] m2] H1 H2 Heq; [done|..].
  - specialize (Heq k2). cbn in Heq. by rewrite cmp_irrefl in Heq.
  - specialize (Heq k1). cbn in Heq. by rewrite cmp_irrefl in Heq.
  - pose proof (Heq k1) as Hk1. pose proof (Heq k2) as Hk2. cbn in Hk1, Hk2.
    rewrite cmp_irrefl in Hk1, Hk2.
    destruct (lt k1 k2) eqn:E1; [done|]. destruct (lt k2 k1) eqn:E2; [done|].
    pose proof (cmp_total _ _ E1 E2) as ->. injection Hk1 as ->. f_equal.
    apply om_sorted_cons in H1 as [H1 Hl1]. apply om_sorted_cons in H2 as [H2 Hl2].
    apply IH; [done..|]. intros k. specialize (Heq k). cbn in Heq.
    destruct (lt k k2) eqn:E3.
    + rewrite !om_find_not_key; [done|done| |done|].
      * intros Hk%Hl2%cmp_asym. congruence.
      * intros Hk%Hl1%cmp_asym. congruence.
    + destruct (lt k2 k) eqn:E4; [done|]. pose proof (cmp_total _ _ E3 E4) as ->.
      rewrite !om_find_not_key; [done|done| |done|].
      * intros Hk%Hl2. by rewrite cmp_irrefl in Hk.
      * intros Hk%Hl1. by rewrite cmp_irrefl in Hk.
Qed.

(** *** [try_emplace] *)

Lemma om_keys_try_emplace k v m k' :
  k' ∈ om_keys (om_try_emplace lt k v m).2 <-> k' = k \/ k' ∈ om_keys m.
Proof.
  induction m as [|[k1 v1] m IH]; cbn; [by rewrite list_elem_of_singleton, elem_of_nil; tauto|].
  destruct (lt k k1) eqn:E1; cbn; [by rewrite !elem_of_cons|].
  destruct (lt k1 k) eqn:E2; cbn; rewrite !elem_of_cons.
  - unfold om_keys in IH. rewrite IH. tauto.
  - pose proof (cmp_total _ _ E1 E2). subst. tauto.
Qed.

Lemma om_sorted_try_emplace k v m :
  om_sorted lt m -> om_sorted lt (om_try_emplace lt k v m).2.
Proof.
  induction m as [|[k1 v1] m IH]; intros Hs; cbn; [by repeat constructor|].
  apply om_sorted_cons in Hs as Hs'. destruct Hs' as [Hm Hlt].
  destruct (lt k k1) eqn:E1; cbn.
  - apply om_sorted_cons. split; [done|]. cbn. intros k' [->|Hk']%elem_of_cons; [done|].
    by eapply cmp_trans, Hlt.
  - destruct (lt k1 k) eqn:E2; cbn; [|done]. apply om_sorted_cons. split; [by apply IH|].
    intros k' [->|Hk']%om_keys_try_emplace; auto.
Qed.

Lemma om_find_try_emplace k v m k' :
  om_sorted lt m ->
  om_find lt k' (om_try_emplace lt k v m).2 =
  if decide (k' = k) then Some (default v (om_find lt k m)) else om_find lt k' m.
Proof.
  induction m as [|[k1 v1] m IH]; intros Hs; cbn.
  - case_decide; subst; [by rewrite cmp_irrefl|].
    destruct (lt k' k) eqn:E1, (lt k k') eqn:E2; try done. by destruct H; apply cmp_total.
  - apply om_sorted_cons in Hs as [Hm Hlt].
    destruct (lt k k1) eqn:E1; cbn.
    + case_decide; subst; [by rewrite cmp_irrefl|].
      destruct (lt k' k) eqn:E2; [by rewrite (cmp_trans _ _ _ E2 E1)|].
      destruct (lt k k') eqn:E3; [done|]. by destruct H; apply cmp_total.
    + destruct (lt k1 k) eqn:E2; cbn.
      * rewrite IH by done. case_decide; subst; [by rewrite E1, E2|done].
      * pose proof (cmp_total _ _ E1 E2) as ->. case_decide; subst; [by rewrite cmp_irrefl|done].
Qed.

Lemma om_try_emplace_inserted k v m :
  om_sorted lt m ->
  (om_try_emplace lt k v m).1 = match om_find lt k m with Some _ => false | None => true end.
Proof.
  induction m as [|[k1 v1] m IH]; intros Hs; cbn; [done|].
  apply om_sorted_cons in Hs as [Hm Hlt].
  destruct (lt k k1); cbn; [done|]. destruct (lt k1 k); cbn; [by apply IH|done].
Qed.

(** *** Assignment through a reference *)

Lemma om_keys_assign k v m : om_keys (om_assign lt k v m) = om_keys m.
Proof.
  unfold om_keys. induction m as [|[k1 v1] m IH]; cbn; [done|].
  destruct (lt k k1) eqn:E1; cbn; [done|]. destruct (lt k1 k) eqn:E2; cbn; [by rewrite IH|done].
Qed.

Lemma om_sorted_assign k v m : om_sorted lt m -> om_sorted lt (om_assign lt k v m).
Proof. unfold om_sorted. by rewrite om_keys_assign. Qed.

Lemma om_find_assign k v m k' :
  om_sorted lt m -> is_Some (om_find lt k m) ->
  om_find lt k' (om_assign lt k v m) = if decide (k' = k) then Some v else om_find lt k' m.
Proof.
  induction m as [|[k1 v1] m IH]; intros Hs; cbn; [by intros []|].
  apply om_sorted_cons in Hs as [Hm Hlt].
  destruct (lt k k1) eqn:E1; [by intros []|]. destruct (lt k1 k) eqn:E2; intros Hk; cbn.
  - rewrite IH by done. case_decide; subst; [by rewrite E1, E2|done].
  - pose proof (cmp_total _ _ E1 E2) as ->. case_decide; subst; [by rewrite cmp_irrefl|].
    destruct (lt k' k1) eqn:E3; [done|]. destruct (lt k1 k') eqn:E4; [done|].
    by destruct H; apply cmp_total.
Qed.

(** *** [erase] *)

Lemma om_keys_erase k m k' : k' ∈ om_keys (om_erase lt k m) -> k' ∈ om_keys m.
Proof.
  unfold om_keys. induction m as [|[k1 v1] m IH]; cbn; [done|].
  destruct (lt k k1); cbn; [done|]. destruct (lt k1 k); cbn; rewrite !elem_of_cons; tauto.
Qed.

Lemma om_sorted_erase k m : om_sorted lt m -> om_sorted lt (om_erase lt k m).
Proof.
  induction m as [|[k1 v1] m IH]; intros Hs; cbn; [done|].
  apply om_sorted_cons in Hs as Hs'. destruct Hs' as [Hm Hlt].
  destruct (lt k k1); [done|]. destruct (lt k1 k); [|done].
  apply om_sorted_cons. split; [by apply IH|]. intros k' Hk'%om_keys_erase. auto.
Qed.

Lemma om_find_erase k m k' :
  om_sorted lt m ->
  om_find lt k' (om_erase lt k m) = if decide (k' = k) then None else om_find lt k' m.
Proof.
  induction m as [|[k1 v1] m IH]; intros Hs; cbn; [by case_decide|].
  apply om_sorted_cons in Hs as [Hm Hlt].
  destruct (lt k k1) eqn:E1; cbn.
  - case_decide; subst; [by rewrite E1|done].
  - destruct (lt k1 k) eqn:E2; cbn.
    + rewrite IH by done. case_decide; subst; [by rewrite E1, E2|done].
    + pose proof (cmp_total _ _ E1 E2) as ->. case_decide; subst.
      * apply om_find_not_key; [done|]. intros Hk%Hlt. by rewrite cmp_irrefl in Hk.
      * destruct (lt k' k1) eqn:E3.
        { apply om_find_not_key; [done|]. intros Hk%Hlt%cmp_asym. congruence. }
        destruct (lt k1 k') eqn:E4; [done|]. by destruct H; apply cmp_total.
Qed.

(** *** [begin] *)

(** The first entry is the least one in the comparator's order. *)
Lemma om_begin_spec m :
  om_sorted lt m ->
  match om_begin m with
  | None => forall k, om_find lt k m = None
  | Some v => exists k, om_find lt k m = Some v /\
                        forall k', is_Some (om_find lt k' m) -> k' = k \/ lt k k' = true
  end.
Proof.
  destruct m as [|[k v] m]; [done|]. intros Hs. cbn. exists k. split; [by rewrite cmp_irrefl|].
  intros k' Hk'. apply om_sorted_cons in Hs as [Hm Hlt].
  destruct (lt k' k) eqn:E1; [by destruct Hk'|]. destruct (lt k k') eqn:E2; [by right|].
  left. symmetry. by apply cmp_total.
Qed.
End Laws.

Arguments om_find : simpl never.
Arguments om_try_emplace : simpl never.
Arguments om_assign : simpl never.
Arguments om_erase : simpl never.
