(* ===== verification/OrderBook.v ===== *)
(** The order book (include/mdfh/order_book.hpp, src/order_book.cpp).

    The lists of resting orders live in a heap of nodes: a [std::list] is the
    list of its nodes' addresses, a [std::list::iterator] is an address, and
    the locator table shares these addresses with the price levels.  Every
    dereference goes through the heap and is undefined when the node is gone. *)
From S2P Require Import Prelude Protocol OrderedMap.

Local Open Scope Z_scope.

(** ** Data *)

(** The address of a list node, which is what an iterator holds. *)
Notation addr := nat (only parsing).

Record RestingOrder := mkRestingOrder {
  ro_id : OrderId;
  ro_quantity : Quantity
}.

Record PriceLevel := mkPriceLevel {
  lvl_price : Price;
  lvl_total_quantity : Quantity;
  lvl_orders : list addr    (* front = oldest *)
}.

Record LevelView := mkLevelView {
  lv_price : Price;
  lv_quantity : Quantity;
  lv_order_count : Z        (* u32 *)
}.

Record OrderLocation := mkOrderLocation {
  loc_side : Side;
  loc_price : Price;
  loc_it : addr
}.

(** The nodes of the book's lists and the next address the allocator hands out. *)
Record Heap := mkHeap {
  h_nodes : gmap nat RestingOrder;
  h_next : addr
}.

Record OrderBook := mkOrderBook {
  ob_symbol : SymbolId;
  ob_bids : list (Price * PriceLevel);      (* ordered by std_greater *)
  ob_asks : list (Price * PriceLevel);      (* ordered by std_less *)
  ob_orders : gmap Z OrderLocation;
  ob_heap : Heap
}.

#[export] Instance RestingOrder_eq_dec : EqDecision RestingOrder.
Proof. solve_decision. Defined.
#[export] Instance PriceLevel_eq_dec : EqDecision PriceLevel.
Proof. solve_decision. Defined.
#[export] Instance LevelView_eq_dec : EqDecision LevelView.
Proof. solve_decision. Defined.
#[export] Instance OrderLocation_eq_dec : EqDecision OrderLocation.
Proof. solve_decision. Defined.
#[export] Instance Heap_eq_dec : EqDecision Heap.
Proof. solve_decision. Defined.
#[export] Instance OrderBook_eq_dec : EqDecision OrderBook.
Proof. solve_decision. Defined.

Definition new_book (symbol : SymbolId) : OrderBook :=
  mkOrderBook symbol [] [] ∅ (mkHeap ∅ 0).

(** The map of a side, with its comparator: [bids_] for buyers, [asks_] for
    sellers.  The code's [side == Side::Buy ? ... bids_ ... : ... asks_ ...]. *)
Definition side_order (buy : bool) : Z -> Z -> bool := if buy then std_greater else std_less.
Definition side_map (buy : bool) (b : OrderBook) : list (Price * PriceLevel) :=
  if buy then ob_bids b else ob_asks b.
Definition set_side (buy : bool) (m : list (Price * PriceLevel)) (b : OrderBook) : OrderBook :=
  if buy then mkOrderBook (ob_symbol b) m (ob_asks b) (ob_orders b) (ob_heap b)
  else mkOrderBook (ob_symbol b) (ob_bids b) m (ob_orders b) (ob_heap b).
Definition set_orders (orders : gmap Z OrderLocation) (b : OrderBook) : OrderBook :=
  mkOrderBook (ob_symbol b) (ob_bids b) (ob_asks b) orders (ob_heap b).
Definition set_heap (h : Heap) (b : OrderBook) : OrderBook :=
  mkOrderBook (ob_symbol b) (ob_bids b) (ob_asks b) (ob_orders b) h.

(** ** Lists of nodes *)

(** [*it], [it->quantity = q]: undefined on a node that does not exist. *)
Definition deref (it : addr) (h : Heap) : outcome RestingOrder := of_option (h_nodes h !! it).
Definition set_quantity (it : addr) (q : Quantity) (h : Heap) : outcome Heap :=
  o ← deref it h;
  Ok (mkHeap (<[it := mkRestingOrder (ro_id o) q]> (h_nodes h)) (h_next h)).

(** [orders.push_back(o)]: a fresh node; returns its address. *)
Definition list_push_back (o : RestingOrder) (l : list addr) (h : Heap) : list addr * Heap * addr :=
  (l ++ [h_next h], mkHeap (<[h_next h := o]> (h_nodes h)) (S (h_next h)), h_next h).

(** [orders.erase(it)]: undefined unless [it] is a node of this list. *)
Fixpoint remove_addr (it : addr) (l : list addr) : option (list addr) :=
  match l with
  | [] => None
  | a :: l' => if bool_decide (a = it) then Some l' else cons a <$> remove_addr it l'
  end.
Definition list_erase (it : addr) (l : list addr) (h : Heap) : outcome (list addr * Heap) :=
  l' ← of_option (remove_addr it l);
  Ok (l', mkHeap (delete it (h_nodes h)) (h_next h)).

(** ** The file-local templates of order_book.cpp *)

Definition insert_order (lt : Z -> Z -> bool) (m : list (Price * PriceLevel)) (price : Price)
    (id : OrderId) (qty : Quantity) (h : Heap)
  : outcome (list (Price * PriceLevel) * Heap * addr) :=
  let r := om_try_emplace lt price (mkPriceLevel 0 0 []) m in
  level ← of_option (om_find lt price r.2);
  let level_price := if r.1 then price else lvl_price level in
  let total := wrap 32 (lvl_total_quantity level + qty) in
  let '(orders, h, it) := list_push_back (mkRestingOrder id qty) (lvl_orders level) h in
  Ok (om_assign lt price (mkPriceLevel level_price total orders) r.2, h, it).

Definition erase_order (lt : Z -> Z -> bool) (m : list (Price * PriceLevel)) (price : Price)
    (order_it : addr) (h : Heap) : outcome (list (Price * PriceLevel) * Heap) :=
  match om_find lt price m with
  | None => Ok (m, h)
  | Some level =>
      o ← deref order_it h;
      let total := wrap 32 (lvl_total_quantity level - ro_quantity o) in
      r ← list_erase order_it (lvl_orders level) h;
      let '(orders, h) := r in
      if bool_decide (orders = []) then Ok (om_erase lt price m, h)
      else Ok (om_assign lt price (mkPriceLevel (lvl_price level) total orders) m, h)
  end.

(** [m.find(price)->second.total_quantity -= delta]. *)
Definition reduce_total (lt : Z -> Z -> bool) (m : list (Price * PriceLevel)) (price : Price)
    (delta : Quantity) : outcome (list (Price * PriceLevel)) :=
  level ← of_option (om_find lt price m);
  Ok (om_assign lt price
        (mkPriceLevel (lvl_price level) (wrap 32 (lvl_total_quantity level - delta))
           (lvl_orders level)) m).

(** ** Mutations *)

Definition add (id : OrderId) (side : Side) (price : Price) (qty : Quantity) (b : OrderBook)
  : outcome (bool * OrderBook) :=
  if qty =? 0 then Ok (false, b) else
  match ob_orders b !! id with
  | Some _ => Ok (false, b)
  | None =>
      let buy := is_buy side in
      r ← insert_order (side_order buy) (side_map buy b) price id qty (ob_heap b);
      let '(m, h, it) := r in
      let b := set_heap h (set_side buy m b) in
      Ok (true, set_orders (<[id := mkOrderLocation side price it]> (ob_orders b)) b)
  end.

Definition cancel (id : OrderId) (b : OrderBook) : outcome (bool * OrderBook) :=
  match ob_orders b !! id with
  | None => Ok (false, b)
  | Some loc =>
      let buy := is_buy (loc_side loc) in
      r ← erase_order (side_order buy) (side_map buy b) (loc_price loc) (loc_it loc) (ob_heap b);
      let '(m, h) := r in
      let b := set_heap h (set_side buy m b) in
      Ok (true, set_orders (delete id (ob_orders b)) b)
  end.

Definition modify (id : OrderId) (new_price : Price) (new_qty : Quantity) (b : OrderBook)
  : outcome (bool * OrderBook) :=
  if new_qty =? 0 then cancel id b else
  match ob_orders b !! id with
  | None => Ok (false, b)
  | Some loc =>
      let buy := is_buy (loc_side loc) in
      o ← deref (loc_it loc) (ob_heap b);
      let old_qty := ro_quantity o in
      if (new_price =? loc_price loc) && (new_qty <=? old_qty) then
        let delta := wrap 32 (old_qty - new_qty) in
        h ← set_quantity (loc_it loc) new_qty (ob_heap b);
        m ← reduce_total (side_order buy) (side_map buy b) (loc_price loc) delta;
        Ok (true, set_heap h (set_side buy m b))
      else
        let side := loc_side loc in
        r ← erase_order (side_order buy) (side_map buy b) (loc_price loc) (loc_it loc) (ob_heap b);
        let '(m, h) := r in
        r ← insert_order (side_order buy) m new_price id new_qty h;
        let '(m, h, it) := r in
        let b := set_heap h (set_side buy m b) in
        Ok (true, set_orders (<[id := mkOrderLocation side new_price it]> (ob_orders b)) b)
  end.

Definition execute (resting_id : OrderId) (qty : Quantity) (b : OrderBook)
  : outcome (bool * OrderBook) :=
  match ob_orders b !! resting_id with
  | None => Ok (false, b)
  | Some loc =>
      let buy := is_buy (loc_side loc) in
      o ← deref (loc_it loc) (ob_heap b);
      let fill := Z.min qty (ro_quantity o) in
      h ← set_quantity (loc_it loc) (wrap 32 (ro_quantity o - fill)) (ob_heap b);
      m ← reduce_total (side_order buy) (side_map buy b) (loc_price loc) fill;
      let b := set_heap h (set_side buy m b) in
      o ← deref (loc_it loc) (ob_heap b);
      if ro_quantity o =? 0 then
        r ← erase_order (side_order buy) (side_map buy b) (loc_price loc) (loc_it loc) (ob_heap b);
        let '(m, h) := r in
        let b := set_heap h (set_side buy m b) in
        Ok (true, set_orders (delete resting_id (ob_orders b)) b)
      else Ok (true, b)
  end.

(** [clear()]: the lists' nodes are freed with the levels that own them. *)
Definition clear (b : OrderBook) : OrderBook :=
  mkOrderBook (ob_symbol b) [] [] ∅ (mkHeap ∅ (h_next (ob_heap b))).

(** ** Queries *)

Definition empty (b : OrderBook) : bool := bool_decide (ob_orders b = ∅).
Definition order_count (b : OrderBook) : nat := size (ob_orders b).
Definition bid_levels (b : OrderBook) : nat := length (ob_bids b).
Definition ask_levels (b : OrderBook) : nat := length (ob_asks b).

(** [LevelView{lvl.price, lvl.total_quantity, static_cast<uint32_t>(lvl.orders.size())}]. *)
Definition view_level (lvl : PriceLevel) : LevelView :=
  mkLevelView (lvl_price lvl) (lvl_total_quantity lvl) (wrap 32 (Z.of_nat (length (lvl_orders lvl)))).

Definition best_bid (b : OrderBook) : option LevelView := view_level <$> om_begin (ob_bids b).
Definition best_ask (b : OrderBook) : option LevelView := view_level <$> om_begin (ob_asks b).

(** The subtraction is of signed 64-bit prices: undefined when it overflows. *)
Definition spread (b : OrderBook) : outcome (option Price) :=
  match om_begin (ob_bids b), om_begin (ob_asks b) with
  | Some bid, Some ask =>
      let d := lvl_price ask - lvl_price bid in
      require (in_signedb 64 d);; Ok (Some d)
  | _, _ => Ok None
  end.

(** The loop of [top_levels] with [out] collected so far, oldest first. *)
Fixpoint top_levels_loop (m : list (Price * PriceLevel)) (depth : nat) (out : list LevelView)
  : list LevelView :=
  match m with
  | [] => out
  | (_, lvl) :: m' =>
      if bool_decide (depth <= length out)%nat then out
      else top_levels_loop m' depth (out ++ [view_level lvl])
  end.
Definition top_levels (m : list (Price * PriceLevel)) (depth : nat) : list LevelView :=
  top_levels_loop m depth [].

Definition bids (depth : nat) (b : OrderBook) : list LevelView := top_levels (ob_bids b) depth.
Definition asks (depth : nat) (b : OrderBook) : list LevelView := top_levels (ob_asks b) depth.

(** [for (i = 0; i < v.size(); ++i) arr[i] = {v[i].price, v[i].quantity};] *)
Fixpoint fill_levels (i : nat) (v : list LevelView) (arr : list SnapshotLevel)
  : outcome (list SnapshotLevel) :=
  match v with
  | [] => Ok arr
  | lv :: v' =>
      require (bool_decide (i < length arr)%nat);;
      fill_levels (S i) v' (<[i := mkSnapshotLevel (lv_price lv) (lv_quantity lv)]> arr)
  end.

Definition empty_levels : list SnapshotLevel := replicate kMaxSnapshotLevels (mkSnapshotLevel 0 0).

Definition snapshot (b : OrderBook) : outcome BookSnapshot :=
  let bv := bids kMaxSnapshotLevels b in
  let av := asks kMaxSnapshotLevels b in
  sb ← fill_levels 0 bv empty_levels;
  sa ← fill_levels 0 av empty_levels;
  Ok (mkBookSnapshot (ob_symbol b) (wrap 8 (Z.of_nat (length bv))) (wrap 8 (Z.of_nat (length av))) sb sa).

(** ** check_invariants *)

(** The loop over a level's orders: [None] is an early [return false], [Some]
    the 32-bit sum of the quantities. *)
Fixpoint sum_orders (h : Heap) (orders : list addr) (sum : Quantity) : outcome (option Quantity) :=
  match orders with
  | [] => Ok (Some sum)
  | a :: orders' =>
      o ← deref a h;
      if ro_quantity o =? 0 then Ok None
      else sum_orders h orders' (wrap 32 (sum + ro_quantity o))
  end.

(** The lambda [level_ok] over one side. *)
Fixpoint level_ok (h : Heap) (m : list (Price * PriceLevel)) : outcome bool :=
  match m with
  | [] => Ok true
  | (price, lvl) :: m' =>
      if bool_decide (lvl_orders lvl = []) then Ok false
      else if negb (lvl_price lvl =? price) then Ok false
      else
        s ← sum_orders h (lvl_orders lvl) 0;
        match s with
        | None => Ok false
        | Some sum => if negb (sum =? lvl_total_quantity lvl) then Ok false else level_ok h m'
        end
  end.

Definition count_orders (m : list (Price * PriceLevel)) : nat :=
  sum_list_with (fun e => length (lvl_orders e.2)) m.

Definition check_invariants (b : OrderBook) : outcome bool :=
  bids_ok ← level_ok (ob_heap b) (ob_bids b);
  asks_ok ← (if bids_ok then level_ok (ob_heap b) (ob_asks b) else Ok false);
  if negb (bids_ok && asks_ok) then Ok false else
  let crossed :=
    match om_begin (ob_bids b), om_begin (ob_asks b) with
    | Some bid, Some ask => lvl_price ask <=? lvl_price bid
    | _, _ => false
    end in
  if crossed then Ok false else
  Ok (bool_decide (count_orders (ob_bids b) + count_orders (ob_asks b) = size (ob_orders b))%nat).

(** ** Concrete runs *)

Example book_example :
  (r1 ← add 1 Side_Buy 100 5 (new_book 1);
   r2 ← add 2 Side_Buy 100 7 r1.2;
   r3 ← add 3 Side_Sell 101 3 r2.2;
   r4 ← modify 1 100 4 r3.2;
   r5 ← execute 2 2 r4.2;
   ok ← check_invariants r5.2;
   Ok (best_bid r5.2, best_ask r5.2, order_count r5.2, ok))
  = Ok (Some (mkLevelView 100 9 2), Some (mkLevelView 101 3 1), 3%nat, true).
Proof. reflexivity. Qed.
