(* ===== verification/BookSpec.v ===== *)
(** What an order book promises: its abstract state is the list of live orders
    in time priority, and a price level is the sublist of one side and price.
    This file defines the specification of each operation on that list and the
    representation relation [rep] between it and an [OrderBook]. *)
From stdpp Require Import sorting.
From S2P Require Import Prelude Protocol OrderedMap OrderBook.

Local Open Scope Z_scope.

(** ** The specification *)

Record Order := mkOrder {
  o_id : OrderId;
  o_side : Side;
  o_price : Price;
  o_qty : Quantity
}.
#[export] Instance Order_eq_dec : EqDecision Order.
Proof. solve_decision. Defined.

Fixpoint find_order (id : OrderId) (l : list Order) : option Order :=
  match l with
  | [] => None
  | o :: l' => if o_id o =? id then Some o else find_order id l'
  end.

Definition remove_order (id : OrderId) (l : list Order) : list Order :=
  filter (fun o => o_id o <> id) l.

Definition set_qty (q : Quantity) (o : Order) : Order :=
  mkOrder (o_id o) (o_side o) (o_price o) q.
Definition update_qty (id : OrderId) (q : Quantity) (l : list Order) : list Order :=
  map (fun o => if o_id o =? id then set_qty q o else o) l.

Definition spec_add (id : OrderId) (side : Side) (price : Price) (qty : Quantity) (l : list Order)
  : bool * list Order :=
  if qty =? 0 then (false, l) else
  match find_order id l with
  | Some _ => (false, l)
  | None => (true, l ++ [mkOrder id side price qty])
  end.

Definition spec_cancel (id : OrderId) (l : list Order) : bool * list Order :=
  match find_order id l with
  | None => (false, l)
  | Some _ => (true, remove_order id l)
  end.

(** A reduction in place keeps the order's place in the queue; any other
    change moves it to the back. *)
Definition spec_modify (id : OrderId) (new_price : Price) (new_qty : Quantity) (l : list Order)
  : bool * list Order :=
  if new_qty =? 0 then spec_cancel id l else
  match find_order id l with
  | None => (false, l)
  | Some o =>
      if (new_price =? o_price o) && (new_qty <=? o_qty o) then (true, update_qty id new_qty l)
      else (true, remove_order id l ++ [mkOrder id (o_side o) new_price new_qty])
  end.

Definition spec_execute (id : OrderId) (qty : Quantity) (l : list Order) : bool * list Order :=
  match find_order id l with
  | None => (false, l)
  | Some o =>
      if o_qty o <=? qty then (true, remove_order id l)
      else (true, update_qty id (o_qty o - qty) l)
  end.

(** The queue of a side and price, in time priority. *)
Definition in_level (buy : bool) (p : Price) (o : Order) : Prop :=
  is_buy (o_side o) = buy /\ o_price o = p.
#[export] Instance in_level_dec buy p o : Decision (in_level buy p o) := _.

Definition queue (buy : bool) (p : Price) (l : list Order) : list Order := filter (in_level buy p) l.

Fixpoint total_qty (l : list Order) : Z :=
  match l with
  | [] => 0
  | o :: l' => o_qty o + total_qty l'
  end.

(** What the outside sees of a level: its quantity and count are 32-bit. *)
Definition spec_view (buy : bool) (p : Price) (l : list Order) : LevelView :=
  mkLevelView p (wrap 32 (total_qty (queue buy p l)))
    (wrap 32 (Z.of_nat (length (queue buy p l)))).

(** The occupied prices of a side, best first. *)
Definition spec_prices (buy : bool) (l : list Order) : list Price :=
  om_keys (foldr (fun o m => if bool_decide (is_buy (o_side o) = buy)
                             then (om_try_emplace (side_order buy) (o_price o) tt m).2 else m) [] l).

Definition spec_best (buy : bool) (l : list Order) : option LevelView :=
  (fun p => spec_view buy p l) <$> head (spec_prices buy l).

Definition spec_depth (buy : bool) (depth : nat) (l : list Order) : list LevelView :=
  map (fun p => spec_view buy p l) (take depth (spec_prices buy l)).

(** The book is crossed when a buyer offers at least what a seller asks. *)
Definition crossed (l : list Order) : Prop :=
  exists o1 o2, o1 ∈ l /\ o2 ∈ l /\ is_buy (o_side o1) = true /\ is_buy (o_side o2) = false /\
                o_price o2 <= o_price o1.

(** ** Representation *)

(** The orders with the addresses of their nodes. *)
Notation annotated := (list (nat * Order)) (only parsing).

Definition entries (buy : bool) (p : Price) (L : annotated) : annotated :=
  filter (fun x => in_level buy p x.2) L.

Definition level_of (buy : bool) (p : Price) (L : annotated) : option PriceLevel :=
  match entries buy p L with
  | [] => None
  | _ => Some (mkPriceLevel p (wrap 32 (total_qty (map snd (entries buy p L))))
                 (map fst (entries buy p L)))
  end.

Definition node_of (x : nat * Order) : nat * RestingOrder :=
  (x.1, mkRestingOrder (o_id x.2) (o_qty x.2)).
Definition locator_of (x : nat * Order) : Z * OrderLocation :=
  (o_id x.2, mkOrderLocation (o_side x.2) (o_price x.2) x.1).
Definition ids (L : annotated) : list OrderId := map (fun x => o_id x.2) L.

Record rep (b : OrderBook) (L : annotated) : Prop := mkRep {
  rep_sorted buy : om_sorted (side_order buy) (side_map buy b);
  rep_levels buy p : om_find (side_order buy) p (side_map buy b) = level_of buy p L;
  rep_addrs : NoDup (map fst L);
  rep_ids : NoDup (ids L);
  rep_nodes : h_nodes (ob_heap b) = list_to_map (map node_of L);
  rep_orders : ob_orders b = list_to_map (map locator_of L);
  rep_fresh : Forall (fun x => (x.1 < h_next (ob_heap b))%nat) L;
  rep_qty : Forall (fun x => 0 < o_qty x.2 < 2 ^ 32) L
}.

(** The abstract state of a well-formed book. *)
Definition book_state (b : OrderBook) (l : list Order) : Prop :=
  exists L : annotated, rep b L /\ map snd L = l.

(** A well-formed book: every locator points to a live node of the right level,
    every level is non-empty, ordered and totalled, and no node is leaked. *)
Definition book_wf (b : OrderBook) : Prop := exists l, book_state b l.
