(* ===== verification/BookRep.v ===== *)
(** The representation lemmas of the order book: how appending an order,
    removing one and changing one's quantity act on the price levels, on the
    heap and on the locator table, and that the file-local templates of
    order_book.cpp perform these three steps. *)
From stdpp Require Import sorting.
From S2P Require Import Prelude Protocol OrderedMap OrderBook BookSpec.

Local Open Scope Z_scope.

(** ** Tables built from a list with unique keys *)

Section Keyed.
Context {A K V : Type} `{Countable K} (f : A -> K * V).
Implicit Types (L : list A).

Lemma fst_map_keys L : (map f L).*1 = map (fun x => (f x).1) L.
Proof. induction L as [|x L IH]; cbn; [done|]. by rewrite <- IH. Qed.

Lemma keyed_middle L1 x L2 :
  NoDup (map (fun y => (f y).1) (L1 ++ x :: L2)) ->
  (list_to_map (map f (L1 ++ x :: L2)) : gmap K V) =
    <[(f x).1 := (f x).2]> (list_to_map (map f (L1 ++ L2))) /\
  (list_to_map (map f (L1 ++ L2)) : gmap K V) !! (f x).1 = None.
Proof.
  intros Hnd. split.
  - rewrite (list_to_map_proper (map f (L1 ++ x :: L2)) (map f (x :: L1 ++ L2))).
    + cbn. by destruct (f x).
    + by rewrite fst_map_keys.
    + by rewrite <- Permutation_middle.
  - apply not_elem_of_list_to_map_1. rewrite fst_map_keys.
    rewrite <- Permutation_middle in Hnd. cbn in Hnd. by apply NoDup_cons in Hnd as [? _].
Qed.

Lemma keyed_lookup L k v :
  NoDup (map (fun y => (f y).1) L) ->
  (list_to_map (map f L) : gmap K V) !! k = Some v ->
  exists L1 x L2, L = L1 ++ x :: L2 /\ f x = (k, v).
Proof.
  intros Hnd Hk. apply elem_of_list_to_map_2, list_elem_of_fmap in Hk as (x & Hx & Hin).
  apply list_elem_of_split in Hin as (L1 & L2 & ->). eauto.
Qed.
End Keyed.

(** ** The list of live orders *)

Section Splits.
Implicit Types (L : list (nat * Order)) (o : Order).

Lemma remove_order_other id l : id ∉ map o_id l -> remove_order id l = l.
Proof.
  unfold remove_order. induction l as [|o l IH]; intros Hid; [done|].
  cbn in Hid. apply not_elem_of_cons in Hid as [Hne Hid].
  rewrite filter_cons_True by congruence. by rewrite IH.
Qed.

Lemma update_qty_other id q l : id ∉ map o_id l -> update_qty id q l = l.
Proof.
  unfold update_qty. induction l as [|o l IH]; intros Hid; [done|].
  cbn in *. apply not_elem_of_cons in Hid as [Hne Hid]. rewrite IH by done.
  by destruct (Z.eqb_spec (o_id o) id).
Qed.

Lemma find_order_None id l : find_order id l = None <-> id ∉ map o_id l.
Proof.
  induction l as [|o l IH]; cbn; [by split; [intros _; apply not_elem_of_nil|]|].
  rewrite not_elem_of_cons. destruct (Z.eqb_spec (o_id o) id); [naive_solver congruence|].
  rewrite IH. naive_solver.
Qed.

Lemma find_order_split id o l1 l2 :
  id ∉ map o_id l1 -> o_id o = id -> find_order id (l1 ++ o :: l2) = Some o.
Proof.
  intros H1 <-. induction l1 as [|o1 l1 IH]; cbn in *; [by rewrite Z.eqb_refl|].
  apply not_elem_of_cons in H1 as [Hne H1].
  destruct (Z.eqb_spec (o_id o1) (o_id o)); [congruence|auto].
Qed.

(** Around an order of a list with unique ids, the specification's
    operations act on that order only. *)
Lemma ids_split L1 a o L2 :
  NoDup (ids (L1 ++ (a, o) :: L2)) ->
  o_id o ∉ map o_id (map snd L1) /\ o_id o ∉ map o_id (map snd L2).
Proof.
  unfold ids. rewrite !map_map. rewrite map_app. intros (H1 & H2 & H3)%NoDup_app.
  cbn in *. apply NoDup_cons in H3 as [H3 _]. split; [|done].
  intros Hin. by apply (H2 _ Hin), list_elem_of_here.
Qed.

Lemma spec_split L1 a o L2 :
  NoDup (ids (L1 ++ (a, o) :: L2)) ->
  let l := map snd (L1 ++ (a, o) :: L2) in
  find_order (o_id o) l = Some o /\
  remove_order (o_id o) l = map snd (L1 ++ L2) /\
  forall q, update_qty (o_id o) q l = map snd (L1 ++ (a, set_qty q o) :: L2).
Proof.
  intros [H1 H2]%ids_split. cbn zeta. rewrite !map_app. cbn. repeat split.
  - by apply find_order_split.
  - unfold remove_order. rewrite filter_app, filter_cons_False by auto.
    fold (remove_order (o_id o) (map snd L1)). fold (remove_order (o_id o) (map snd L2)).
    by rewrite !remove_order_other.
  - intros q. rewrite map_app. cbn. unfold update_qty at 1. rewrite map_app. cbn.
    rewrite Z.eqb_refl. fold (update_qty (o_id o) q (map snd L1)).
    fold (update_qty (o_id o) q (map snd L2)). by rewrite !update_qty_other.
Qed.
End Splits.

(** ** Price levels *)

(** One side of a book represents the orders of that side. *)
Definition side_rep (buy : bool) (m : list (Price * PriceLevel)) (L : list (nat * Order)) : Prop :=
  om_sorted (side_order buy) m /\
  forall p, om_find (side_order buy) p m = level_of buy p L.

#[export] Instance side_order_comparator buy : Comparator (side_order buy).
Proof. destruct buy; apply _. Qed.
#[export] Hint Resolve side_order_comparator : core.

Section Levels.
Implicit Types (L : list (nat * Order)) (o : Order) (m : list (Price * PriceLevel)).

Lemma entries_app buy p L1 L2 : entries buy p (L1 ++ L2) = entries buy p L1 ++ entries buy p L2.
Proof. apply filter_app. Qed.

Lemma entries_in buy p a o L :
  in_level buy p o -> entries buy p ((a, o) :: L) = (a, o) :: entries buy p L.
Proof. intros. by apply filter_cons_True. Qed.

Lemma entries_out buy p a o L :
  ~ in_level buy p o -> entries buy p ((a, o) :: L) = entries buy p L.
Proof. intros. by apply filter_cons_False. Qed.

(** A level depends on its entries only. *)
Definition level_from (p : Price) (E : list (nat * Order)) : option PriceLevel :=
  match E with
  | [] => None
  | _ => Some (mkPriceLevel p (wrap 32 (total_qty (map snd E))) (map fst E))
  end.

Lemma level_of_from buy p L : level_of buy p L = level_from p (entries buy p L).
Proof. done. Qed.

Lemma level_from_middle p E1 x E2 :
  level_from p (E1 ++ x :: E2) =
  Some (mkPriceLevel p (wrap 32 (total_qty (map snd (E1 ++ x :: E2)))) (map fst (E1 ++ x :: E2))).
Proof. by destruct E1. Qed.

Lemma level_from_nonempty p E :
  E <> [] -> level_from p E =
  Some (mkPriceLevel p (wrap 32 (total_qty (map snd E))) (map fst E)).
Proof. by destruct E. Qed.

Lemma level_of_out buy p L1 a o L2 :
  ~ in_level buy p o -> level_of buy p (L1 ++ (a, o) :: L2) = level_of buy p (L1 ++ L2).
Proof. intros. by rewrite !level_of_from, !entries_app, entries_out. Qed.

Lemma total_qty_app l1 l2 : total_qty (l1 ++ l2) = total_qty l1 + total_qty l2.
Proof. induction l1 as [|o l1 IH]; cbn; lia. Qed.

Lemma total_qty_middle E1 (x : nat * Order) E2 :
  total_qty (map snd (E1 ++ x :: E2)) = total_qty (map snd (E1 ++ E2)) + o_qty x.2.
Proof. rewrite !map_app, !total_qty_app. cbn. lia. Qed.

Lemma remove_addr_middle a l1 l2 : a ∉ l1 -> remove_addr a (l1 ++ a :: l2) = Some (l1 ++ l2).
Proof.
  induction l1 as [|a1 l1 IH]; intros Ha; cbn; [by rewrite bool_decide_eq_true_2|].
  apply not_elem_of_cons in Ha as [Hne Ha]. rewrite bool_decide_eq_false_2 by done.
  by rewrite IH.
Qed.

Lemma entries_addr a buy p L : a ∉ map fst L -> a ∉ map fst (entries buy p L).
Proof.
  intros Ha ([a' o] & -> & Hin)%list_elem_of_fmap. apply list_elem_of_filter in Hin as [_ Hin].
  apply Ha, list_elem_of_fmap. by exists (a', o).
Qed.

Lemma remove_addr_entries a o buy p L1 E2 :
  a ∉ map fst L1 ->
  remove_addr a (map fst (entries buy p L1 ++ (a, o) :: E2)) =
  Some (map fst (entries buy p L1 ++ E2)).
Proof.
  intros Ha. rewrite !map_app. cbn. by apply remove_addr_middle, entries_addr.
Qed.

Lemma addr_split L1 a o L2 :
  NoDup (map fst (L1 ++ (a, o) :: L2)) -> a ∉ map fst L1 /\ a ∉ map fst L2.
Proof.
  rewrite map_app. intros (H1 & H2 & H3)%NoDup_app. cbn in *.
  apply NoDup_cons in H3 as [H3 _]. split; [|done].
  intros Hin. by apply (H2 _ Hin), list_elem_of_here.
Qed.

(** The other side of the book does not see an order. *)
Lemma side_rep_other buy m L1 a o L2 :
  is_buy (o_side o) <> buy -> side_rep buy m (L1 ++ (a, o) :: L2) <-> side_rep buy m (L1 ++ L2).
Proof.
  intros Ho. assert (forall p, ~ in_level buy p o) as Hout by (by intros p [? _]).
  unfold side_rep. by setoid_rewrite level_of_out.
Qed.
End Levels.

(** ** The templates *)

Section Templates.
Implicit Types (L : list (nat * Order)) (o : Order) (m : list (Price * PriceLevel)).

Lemma insert_order_spec buy m L o h :
  side_rep buy m L -> is_buy (o_side o) = buy ->
  exists m', insert_order (side_order buy) m (o_price o) (o_id o) (o_qty o) h =
    Ok (m', mkHeap (<[h_next h := mkRestingOrder (o_id o) (o_qty o)]> (h_nodes h)) (S (h_next h)),
        h_next h) /\
    side_rep buy m' (L ++ [(h_next h, o)]).
Proof.
  intros [Hs Hf] Ho. unfold insert_order. cbv zeta.
  pose proof (om_sorted_try_emplace (side_order buy) (o_price o) (mkPriceLevel 0 0 []) m Hs) as Hs'.
  assert (is_Some (om_find (side_order buy) (o_price o)
    (om_try_emplace (side_order buy) (o_price o) (mkPriceLevel 0 0 []) m).2)) as Hsome.
  { by rewrite om_find_try_emplace, decide_True by done. }
  rewrite om_find_try_emplace, decide_True by done.
  rewrite om_try_emplace_inserted by done. rewrite Hf, level_of_from.
  eexists. split; [reflexivity|]. split; [by apply om_sorted_assign|].
  intros p. rewrite om_find_assign, om_find_try_emplace by done. case_decide as Hp; [subst p|].
  - rewrite level_of_from, entries_app, entries_in by done. cbn.
    rewrite level_from_middle, total_qty_middle, app_nil_r.
    destruct (entries buy (o_price o) L) as [|x E] eqn:HE; cbn; [done|].
    rewrite wrap_add_l, map_app. done.
  - rewrite level_of_out by (unfold in_level; naive_solver). by rewrite app_nil_r, Hf.
Qed.

Lemma side_rep_level buy m L1 a o L2 :
  side_rep buy m (L1 ++ (a, o) :: L2) -> is_buy (o_side o) = buy ->
  is_Some (om_find (side_order buy) (o_price o) m).
Proof.
  intros [_ Hf] Ho. by rewrite Hf, level_of_from, entries_app, entries_in, level_from_middle.
Qed.

Lemma erase_order_spec buy m L1 a o L2 h :
  side_rep buy m (L1 ++ (a, o) :: L2) -> is_buy (o_side o) = buy ->
  NoDup (map fst (L1 ++ (a, o) :: L2)) ->
  h_nodes h !! a = Some (mkRestingOrder (o_id o) (o_qty o)) ->
  exists m', erase_order (side_order buy) m (o_price o) a h =
    Ok (m', mkHeap (delete a (h_nodes h)) (h_next h)) /\ side_rep buy m' (L1 ++ L2).
Proof.
  intros Hrep Ho [Ha1 Ha2]%addr_split Hnode.
  pose proof (side_rep_level _ _ _ _ _ _ Hrep Ho) as Hsome. destruct Hrep as [Hs Hf].
  unfold erase_order.
  rewrite Hf, level_of_from, entries_app, entries_in, level_from_middle by done.
  unfold deref, list_erase. rewrite Hnode. cbn -[wrap remove_addr].
  rewrite remove_addr_entries by done. cbn -[wrap]. case_bool_decide as Hnil; eexists; (split; [reflexivity|]).
  - apply map_eq_nil in Hnil. rewrite <- entries_app in Hnil. split; [by apply om_sorted_erase|].
    intros p. rewrite om_find_erase by done. case_decide; subst; [by rewrite level_of_from, Hnil|].
    rewrite Hf. apply level_of_out. unfold in_level. naive_solver.
  - split; [by apply om_sorted_assign|]. intros p.
    rewrite om_find_assign by done. case_decide; subst; [|rewrite Hf; apply level_of_out; unfold in_level; naive_solver].
    rewrite level_of_from, entries_app, level_from_nonempty by (intros HE; by rewrite HE in Hnil).
    rewrite total_qty_middle, wrap_sub_l. cbn. repeat f_equal. lia.
Qed.

Lemma reduce_total_spec buy m L1 a o L2 q :
  side_rep buy m (L1 ++ (a, o) :: L2) -> is_buy (o_side o) = buy ->
  exists m', reduce_total (side_order buy) m (o_price o) (wrap 32 (o_qty o - q)) = Ok m' /\
    side_rep buy m' (L1 ++ (a, set_qty q o) :: L2).
Proof.
  intros Hrep Ho. pose proof (side_rep_level _ _ _ _ _ _ Hrep Ho) as Hsome.
  destruct Hrep as [Hs Hf]. unfold reduce_total.
  destruct (om_find (side_order buy) (o_price o) m) as [lvl|] eqn:Hlvl; [|by destruct Hsome].
  eexists. split; [reflexivity|]. split; [by apply om_sorted_assign|].
  pose proof Hlvl as Hl. rewrite Hf, level_of_from, entries_app, entries_in, level_from_middle in Hl by done.
  injection Hl as <-. intros p. rewrite om_find_assign by (by rewrite ?Hlvl).
  case_decide; subst.
  - rewrite level_of_from, entries_app, entries_in, level_from_middle by done.
    rewrite !total_qty_middle, !map_app. cbn [fst snd map o_qty set_qty lvl_price lvl_orders lvl_total_quantity].
    rewrite wrap_sub_l, wrap_sub_r. repeat f_equal. lia.
  - rewrite Hf. by rewrite !level_of_out by (unfold in_level; cbn; naive_solver).
Qed.
End Templates.
