(* ===== verification/BookProofs.v ===== *)
(** The order book refines its specification: every operation of
    order_book.cpp terminates without undefined behaviour on a well-formed
    book, returns what the operation on the list of live orders returns, and
    leaves the book representing the resulting list; and every query answers
    from that list. *)
From stdpp Require Import sorting.
From S2P Require Import Prelude Protocol OrderedMap OrderBook BookSpec BookRep.

Local Open Scope Z_scope.

(** ** The node heap and the locator table *)

Section Tables.
Implicit Types (L : list (nat * Order)) (o : Order).

Definition nodes_of L : gmap nat RestingOrder := list_to_map (map node_of L).
Definition locs_of L : gmap Z OrderLocation := list_to_map (map locator_of L).

Lemma nodes_middle L1 a o L2 :
  NoDup (map fst (L1 ++ (a, o) :: L2)) ->
  nodes_of (L1 ++ (a, o) :: L2) = <[a := mkRestingOrder (o_id o) (o_qty o)]> (nodes_of (L1 ++ L2)) /\
  nodes_of (L1 ++ L2) !! a = None.
Proof. apply (keyed_middle node_of). Qed.

Lemma locs_middle L1 a o L2 :
  NoDup (ids (L1 ++ (a, o) :: L2)) ->
  locs_of (L1 ++ (a, o) :: L2) =
    <[o_id o := mkOrderLocation (o_side o) (o_price o) a]> (locs_of (L1 ++ L2)) /\
  locs_of (L1 ++ L2) !! o_id o = None.
Proof. apply (keyed_middle locator_of). Qed.

Lemma nodes_remove L1 a o L2 :
  NoDup (map fst (L1 ++ (a, o) :: L2)) ->
  delete a (nodes_of (L1 ++ (a, o) :: L2)) = nodes_of (L1 ++ L2).
Proof. intros [-> H]%nodes_middle. by rewrite delete_insert_eq, delete_id. Qed.

Lemma locs_remove L1 a o L2 :
  NoDup (ids (L1 ++ (a, o) :: L2)) ->
  delete (o_id o) (locs_of (L1 ++ (a, o) :: L2)) = locs_of (L1 ++ L2).
Proof. intros [-> H]%locs_middle. by rewrite delete_insert_eq, delete_id. Qed.

Lemma nodes_set L1 a o L2 q :
  NoDup (map fst (L1 ++ (a, o) :: L2)) ->
  <[a := mkRestingOrder (o_id o) q]> (nodes_of (L1 ++ (a, o) :: L2)) =
  nodes_of (L1 ++ (a, set_qty q o) :: L2).
Proof.
  intros Hnd. destruct (nodes_middle _ _ _ _ Hnd) as [-> _].
  destruct (nodes_middle L1 a (set_qty q o) L2) as [-> _]; [by rewrite map_app in *|].
  by rewrite insert_insert_eq.
Qed.

Lemma locs_set L1 a o L2 q :
  locs_of (L1 ++ (a, set_qty q o) :: L2) = locs_of (L1 ++ (a, o) :: L2).
Proof. unfold locs_of. by rewrite !map_app. Qed.

Lemma nodes_append L a o :
  NoDup (map fst (L ++ [(a, o)])) ->
  nodes_of (L ++ [(a, o)]) = <[a := mkRestingOrder (o_id o) (o_qty o)]> (nodes_of L).
Proof. intros [-> _]%nodes_middle. by rewrite app_nil_r. Qed.

Lemma locs_append L a o :
  NoDup (ids (L ++ [(a, o)])) ->
  locs_of (L ++ [(a, o)]) =
  <[o_id o := mkOrderLocation (o_side o) (o_price o) a]> (locs_of L).
Proof. intros [-> _]%locs_middle. by rewrite app_nil_r. Qed.

Lemma NoDup_remove_keys {A} (g : nat * Order -> A) L1 x L2 :
  NoDup (map g (L1 ++ x :: L2)) -> NoDup (map g (L1 ++ L2)).
Proof.
  rewrite <- Permutation_middle. cbn. by intros [_ ?]%NoDup_cons.
Qed.

Lemma NoDup_append_key {A} (g : nat * Order -> A) L x :
  NoDup (map g L) -> g x ∉ map g L -> NoDup (map g (L ++ [x])).
Proof.
  intros Hnd Hx. rewrite map_app. apply NoDup_app. split; [done|].
  split; [|cbn; by apply NoDup_singleton].
  intros y Hy. cbn. rewrite list_elem_of_singleton. congruence.
Qed.
End Tables.

Lemma deref_Some a h o : h_nodes h !! a = Some o -> deref a h = Ok o.
Proof. unfold deref. by intros ->. Qed.

(** ** Accessing a represented book *)

Section Access.
Context (b : OrderBook) (L : list (nat * Order)).
Hypothesis Hrep : rep b L.

Lemma rep_side buy : side_rep buy (side_map buy b) L.
Proof. destruct Hrep as [Hs Hl]. by split. Qed.

Lemma rep_locate id loc :
  ob_orders b !! id = Some loc ->
  exists L1 a o L2, L = L1 ++ (a, o) :: L2 /\ id = o_id o /\
    loc = mkOrderLocation (o_side o) (o_price o) a.
Proof.
  rewrite (rep_orders _ _ Hrep). intros H.
  apply keyed_lookup in H as (L1 & [a o] & L2 & -> & [= <- <-]); [|apply (rep_ids _ _ Hrep)].
  by exists L1, a, o, L2.
Qed.

Lemma rep_find_None id :
  ob_orders b !! id = None <-> find_order id (map snd L) = None.
Proof.
  rewrite (rep_orders _ _ Hrep), find_order_None.
  assert ((map locator_of L).*1 = map o_id (map snd L)) as Hk.
  { rewrite fst_map_keys, map_map. done. }
  rewrite <- Hk. split; [apply not_elem_of_list_to_map_2 | apply not_elem_of_list_to_map_1].
Qed.

Lemma rep_node L1 a o L2 :
  L = L1 ++ (a, o) :: L2 ->
  h_nodes (ob_heap b) !! a = Some (mkRestingOrder (o_id o) (o_qty o)).
Proof.
  intros ->. rewrite (rep_nodes _ _ Hrep). fold (nodes_of (L1 ++ (a, o) :: L2)).
  destruct (nodes_middle L1 a o L2 (rep_addrs _ _ Hrep)) as [-> _].
  apply lookup_insert_eq.
Qed.

Lemma rep_next_fresh : h_next (ob_heap b) ∉ map fst L.
Proof.
  intros (x & Heq & Hin)%list_elem_of_fmap. pose proof (rep_fresh _ _ Hrep) as Hf.
  rewrite Forall_forall in Hf. apply Hf in Hin. lia.
Qed.
End Access.

Lemma side_map_set_same buy m b : side_map buy (set_side buy m b) = m.
Proof. by destruct buy. Qed.
Lemma side_map_set_other buy m b : side_map (negb buy) (set_side buy m b) = side_map (negb buy) b.
Proof. by destruct buy. Qed.

Lemma side_map_set_heap buy h b : side_map buy (set_heap h b) = side_map buy b.
Proof. by destruct buy. Qed.
Lemma side_map_set_orders buy orders b : side_map buy (set_orders orders b) = side_map buy b.
Proof. by destruct buy. Qed.
Lemma ob_orders_set_side buy m b : ob_orders (set_side buy m b) = ob_orders b.
Proof. by destruct buy. Qed.
Lemma ob_orders_set_heap h b : ob_orders (set_heap h b) = ob_orders b.
Proof. done. Qed.
Lemma ob_heap_set_heap h b : ob_heap (set_heap h b) = h.
Proof. done. Qed.
Lemma ob_heap_set_orders orders b : ob_heap (set_orders orders b) = ob_heap b.
Proof. done. Qed.
Lemma ob_orders_set_orders orders b : ob_orders (set_orders orders b) = orders.
Proof. done. Qed.
#[export] Hint Rewrite side_map_set_same side_map_set_other side_map_set_heap side_map_set_orders
  ob_orders_set_side ob_orders_set_heap ob_heap_set_heap ob_heap_set_orders ob_orders_set_orders : book.

(** Changing one side of a book, when the other side does not notice. *)
Lemma sides_update b buy m (L L' : list (nat * Order)) :
  (forall buy', side_rep buy' (side_map buy' b) L) ->
  side_rep buy m L' ->
  (forall m', side_rep (negb buy) m' L -> side_rep (negb buy) m' L') ->
  forall buy', side_rep buy' (side_map buy' (set_side buy m b)) L'.
Proof.
  intros HL Hm Hother buy'. destruct (decide (buy' = buy)) as [->|Hne].
  - by rewrite side_map_set_same.
  - assert (buy' = negb buy) as -> by (by destruct buy, buy').
    rewrite side_map_set_other. apply Hother, HL.
Qed.

(** What a list of annotated orders must satisfy on its own. *)
Definition listed (next : nat) (L : list (nat * Order)) : Prop :=
  NoDup (map fst L) /\ NoDup (ids L) /\
  Forall (fun x => (x.1 < next)%nat) L /\ Forall (fun x => 0 < o_qty x.2 < 2 ^ 32) L.

Section Listed.
Implicit Types (L : list (nat * Order)) (o : Order).

Lemma rep_listed b L : rep b L -> listed (h_next (ob_heap b)) L.
Proof. intros []. by split_and!. Qed.

Lemma rep_intro b L :
  (forall buy, side_rep buy (side_map buy b) L) -> listed (h_next (ob_heap b)) L ->
  h_nodes (ob_heap b) = nodes_of L -> ob_orders b = locs_of L -> rep b L.
Proof. intros Hs (? & ? & ? & ?). split; try done; intros buy; apply Hs. Qed.

Lemma listed_remove next L1 x L2 : listed next (L1 ++ x :: L2) -> listed next (L1 ++ L2).
Proof.
  intros (H1 & H2 & H3 & H4). split_and!; [by eapply NoDup_remove_keys..| |];
    rewrite Forall_app in *; rewrite Forall_cons in *; naive_solver.
Qed.

Lemma listed_append next L o :
  listed next L -> o_id o ∉ ids L -> 0 < o_qty o < 2 ^ 32 ->
  listed (S next) (L ++ [(next, o)]).
Proof.
  intros (H1 & H2 & H3 & H4) Hid Hq. split_and!.
  - apply NoDup_append_key; [done|]. cbn. intros (x & Heq & Hin)%list_elem_of_fmap.
    rewrite Forall_forall in H3. apply H3 in Hin. lia.
  - by apply (NoDup_append_key (fun x => o_id x.2)).
  - apply Forall_app. split; [|apply Forall_singleton; cbn; lia].
    eapply Forall_impl; [exact H3|]. cbn. lia.
  - apply Forall_app. split; [done|by apply Forall_singleton].
Qed.

Lemma listed_set next L1 a o L2 q :
  0 < q < 2 ^ 32 -> listed next (L1 ++ (a, o) :: L2) ->
  listed next (L1 ++ (a, set_qty q o) :: L2).
Proof.
  intros Hq (H1 & H2 & H3 & H4). unfold listed, ids in *. rewrite !map_app in *. cbn in *.
  split_and!; try done; rewrite Forall_app in *; rewrite Forall_cons in *; naive_solver.
Qed.

Lemma ids_fresh L id : find_order id (map snd L) = None -> id ∉ ids L.
Proof. rewrite find_order_None, map_map. done. Qed.

Lemma ids_removed L1 a o L2 : NoDup (ids (L1 ++ (a, o) :: L2)) -> o_id o ∉ ids (L1 ++ L2).
Proof.
  intros [H1 H2]%ids_split. rewrite !map_map in *. unfold ids.
  rewrite map_app, elem_of_app. tauto.
Qed.
End Listed.

(** ** The operations refine the specification *)

(** An operation on the book implements one on the list of orders: on every
    represented state it returns, with the same result and a book that
    represents the new list. *)
Definition implements (op : OrderBook -> outcome (bool * OrderBook))
    (spec : list Order -> bool * list Order) : Prop :=
  forall b l, book_state b l ->
    exists b', op b = Ok ((spec l).1, b') /\ book_state b' (spec l).2.

Section Refinement.
Implicit Types (b : OrderBook) (L : list (nat * Order)) (o : Order).

Lemma new_book_state symbol : book_state (new_book symbol) [].
Proof.
  exists []. split; [|done]. apply rep_intro; [intros []; (split; [constructor|done])|split_and!; constructor|done..].
Qed.

Lemma clear_state b : book_state (clear b) [].
Proof.
  exists []. split; [|done]. apply rep_intro; [intros []; (split; [constructor|done])|split_and!; constructor|done..].
Qed.

(** Appending a fresh order at the back of its queue. *)
Lemma sides_append b buy m L o a :
  (forall buy', side_rep buy' (side_map buy' b) L) -> is_buy (o_side o) = buy ->
  side_rep buy m (L ++ [(a, o)]) ->
  forall buy', side_rep buy' (side_map buy' (set_side buy m b)) (L ++ [(a, o)]).
Proof.
  intros Hsides Ho Hm. apply (sides_update _ _ _ L); [done..|]. intros m' Hm'.
  apply side_rep_other; [rewrite Ho; by destruct buy|by rewrite app_nil_r].
Qed.

Lemma sides_remove b buy m L1 a o L2 :
  (forall buy', side_rep buy' (side_map buy' b) (L1 ++ (a, o) :: L2)) ->
  is_buy (o_side o) = buy -> side_rep buy m (L1 ++ L2) ->
  forall buy', side_rep buy' (side_map buy' (set_side buy m b)) (L1 ++ L2).
Proof.
  intros Hsides Ho Hm. apply (sides_update _ _ _ (L1 ++ (a, o) :: L2)); [done..|].
  intros m' Hm'. apply side_rep_other in Hm'; [done|rewrite Ho; by destruct buy].
Qed.

Lemma sides_set b buy m L1 a o L2 q :
  (forall buy', side_rep buy' (side_map buy' b) (L1 ++ (a, o) :: L2)) ->
  is_buy (o_side o) = buy -> side_rep buy m (L1 ++ (a, set_qty q o) :: L2) ->
  forall buy', side_rep buy' (side_map buy' (set_side buy m b)) (L1 ++ (a, set_qty q o) :: L2).
Proof.
  intros Hsides Ho Hm. apply (sides_update _ _ _ (L1 ++ (a, o) :: L2)); [done..|].
  intros m' Hm'. apply side_rep_other in Hm'; [|rewrite Ho; by destruct buy].
  apply side_rep_other; [cbn; rewrite Ho; by destruct buy|done].
Qed.

(** *** [add] *)

Lemma add_implements id side price qty :
  in_unsigned 32 qty -> implements (add id side price qty) (spec_add id side price qty).
Proof.
  intros Hqty b l (L & Hrep & <-). unfold add, spec_add.
  destruct (Z.eqb_spec qty 0) as [|Hq]; [by exists b; split; [|exists L]|].
  destruct (find_order id (map snd L)) as [o|] eqn:Hfind.
  - destruct (ob_orders b !! id) eqn:Hloc; [by exists b; split; [|exists L]|].
    apply (rep_find_None _ _ Hrep) in Hloc. congruence.
  - rewrite (proj2 (rep_find_None _ _ Hrep id) Hfind).
    pose (o := mkOrder id side price qty).
    destruct (insert_order_spec (is_buy side) (side_map (is_buy side) b) L o (ob_heap b))
      as (m & Hm & Hside); [by apply rep_side|done|].
    change (o_price o) with price in Hm. change (o_id o) with id in Hm.
    change (o_qty o) with qty in Hm. rewrite Hm, bind_ok. eexists. split; [reflexivity|].
    exists (L ++ [(h_next (ob_heap b), o)]). split; [|by rewrite map_app].
    assert (listed (S (h_next (ob_heap b))) (L ++ [(h_next (ob_heap b), o)])) as Hl.
    { apply listed_append; [by apply rep_listed|by apply ids_fresh|].
      unfold in_unsigned in Hqty. cbn. lia. }
    pose proof Hl as (Ha & Hi & _).
    apply rep_intro; autorewrite with book.
    + intros buy. autorewrite with book. by apply sides_append; [apply rep_side|..].
    + done.
    + cbn. by rewrite nodes_append, (rep_nodes _ _ Hrep).
    + by rewrite locs_append, (rep_orders _ _ Hrep).
Qed.

(** *** [cancel] *)

Lemma cancel_implements id : implements (cancel id) (spec_cancel id).
Proof.
  intros b l (L & Hrep & <-). unfold cancel, spec_cancel.
  destruct (ob_orders b !! id) as [loc|] eqn:Hloc.
  - apply (rep_locate _ _ Hrep) in Hloc as (L1 & a & o & L2 & -> & -> & ->).
    destruct (spec_split L1 a o L2 (rep_ids _ _ Hrep)) as (-> & -> & _). cbn [loc_side loc_price loc_it].
    destruct (erase_order_spec (is_buy (o_side o)) (side_map (is_buy (o_side o)) b) L1 a o L2 (ob_heap b))
      as (m & -> & Hside); [by apply rep_side|done|apply Hrep|by eapply rep_node|].
    rewrite bind_ok. eexists. split; [reflexivity|]. exists (L1 ++ L2). split; [|done].
    apply rep_intro; autorewrite with book.
    + intros buy. autorewrite with book. by eapply sides_remove; [apply rep_side|..].
    + by eapply listed_remove, rep_listed.
    + cbn. rewrite (rep_nodes _ _ Hrep). apply nodes_remove, Hrep.
    + rewrite (rep_orders _ _ Hrep). apply locs_remove, Hrep.
  - apply (rep_find_None _ _ Hrep) in Hloc. rewrite Hloc. exists b. split; [done|by exists L].
Qed.

(** *** [modify] *)

(** The fast path: a smaller quantity at the same price. *)
Lemma reduce_state b L1 a o L2 q m :
  rep b (L1 ++ (a, o) :: L2) -> 0 < q < 2 ^ 32 ->
  side_rep (is_buy (o_side o)) m (L1 ++ (a, set_qty q o) :: L2) ->
  rep (set_heap (mkHeap (<[a := mkRestingOrder (o_id o) q]> (h_nodes (ob_heap b)))
                   (h_next (ob_heap b)))
         (set_side (is_buy (o_side o)) m b)) (L1 ++ (a, set_qty q o) :: L2).
Proof.
  intros Hrep Hq Hside. apply rep_intro; autorewrite with book.
  - intros buy. autorewrite with book. by eapply sides_set; [apply rep_side|..].
  - by apply listed_set, rep_listed.
  - cbn. rewrite (rep_nodes _ _ Hrep). apply nodes_set, Hrep.
  - rewrite (rep_orders _ _ Hrep). symmetry. apply locs_set.
Qed.

(** The slow path: erase, then insert at the back of the new level. *)
Lemma requeue_state b L1 a o L2 m price q :
  let o' := mkOrder (o_id o) (o_side o) price q in
  let a' := h_next (ob_heap b) in
  rep b (L1 ++ (a, o) :: L2) -> 0 < q < 2 ^ 32 ->
  side_rep (is_buy (o_side o)) m ((L1 ++ L2) ++ [(a', o')]) ->
  rep (set_orders (<[o_id o := mkOrderLocation (o_side o) price a']> (ob_orders b))
        (set_heap (mkHeap (<[a' := mkRestingOrder (o_id o) q]> (delete a (h_nodes (ob_heap b)))) (S a'))
           (set_side (is_buy (o_side o)) m b))) ((L1 ++ L2) ++ [(a', o')]).
Proof.
  intros o' a' Hrep Hq Hside. pose proof (rep_listed _ _ Hrep) as Hl.
  assert (listed (S a') ((L1 ++ L2) ++ [(a', o')])) as Hl'.
  { apply listed_append; [by eapply listed_remove| |done].
    change (o_id o') with (o_id o). eapply ids_removed, Hrep. }
  pose proof Hl' as (Ha & Hi & _). apply rep_intro; autorewrite with book.
  - intros buy. autorewrite with book. 
    apply (sides_update _ _ _ (L1 ++ (a, o) :: L2)); [by apply rep_side|done|].
    intros m' Hm'. apply side_rep_other in Hm'; [|by destruct (is_buy _)].
    apply side_rep_other; [cbn; by destruct (is_buy _)|by rewrite app_nil_r].
  - done.
  - cbn. by rewrite nodes_append, (rep_nodes _ _ Hrep), <- (nodes_remove _ _ _ _ (rep_addrs _ _ Hrep)).
  - rewrite locs_append, (rep_orders _ _ Hrep), <- (locs_remove _ _ _ _ (rep_ids _ _ Hrep)) by done.
    cbn. by rewrite insert_delete_eq.
Qed.

Lemma modify_implements id price qty :
  in_unsigned 32 qty -> implements (modify id price qty) (spec_modify id price qty).
Proof.
  intros Hqty. unfold in_unsigned in Hqty. destruct (Z.eqb_spec qty 0) as [->|Hq].
  { exact (cancel_implements id). }
  intros b l (L & Hrep & <-). unfold modify, spec_modify.
  rewrite (proj2 (Z.eqb_neq _ _) Hq). destruct (ob_orders b !! id) as [loc|] eqn:Hloc.
  2:{ apply (rep_find_None _ _ Hrep) in Hloc. rewrite Hloc. exists b. split; [done|by exists L]. }
  apply (rep_locate _ _ Hrep) in Hloc as (L1 & a & o & L2 & -> & -> & ->).
  destruct (spec_split L1 a o L2 (rep_ids _ _ Hrep)) as (-> & -> & Hset).
  pose proof (rep_node _ _ Hrep L1 a o L2 eq_refl) as Hnode.
  cbn [loc_side loc_price loc_it]. unfold set_quantity.
  rewrite !(deref_Some a (ob_heap b) _ Hnode), !bind_ok. cbn [ro_quantity ro_id].
  destruct ((price =? o_price o) && (qty <=? o_qty o)) eqn:Hfast.
  - destruct (reduce_total_spec (is_buy (o_side o)) (side_map (is_buy (o_side o)) b) L1 a o L2 qty)
      as (m & -> & Hside); [by apply rep_side|done|].
    rewrite bind_ok. eexists. split; [reflexivity|]. rewrite Hset.
    exists (L1 ++ (a, set_qty qty o) :: L2). split; [|done]. apply reduce_state; [done|lia|done].
  - destruct (erase_order_spec (is_buy (o_side o)) (side_map (is_buy (o_side o)) b) L1 a o L2 (ob_heap b))
      as (m & -> & Hside); [by apply rep_side|done|apply Hrep|done|].
    rewrite bind_ok. pose (o' := mkOrder (o_id o) (o_side o) price qty).
    destruct (insert_order_spec (is_buy (o_side o)) m (L1 ++ L2) o'
      (mkHeap (delete a (h_nodes (ob_heap b))) (h_next (ob_heap b)))) as (m' & Hins & Hside'); [done..|].
    cbn [o_price o_id o_qty o' h_next h_nodes] in Hins. rewrite Hins, bind_ok.
    eexists. split; [reflexivity|]. rewrite ob_orders_set_heap, ob_orders_set_side.
    exists ((L1 ++ L2) ++ [(h_next (ob_heap b), o')]). split; [|by rewrite map_app].
    apply requeue_state; [done|lia|done].
Qed.

(** *** [execute] *)

Lemma execute_implements id qty :
  in_unsigned 32 qty -> implements (execute id qty) (spec_execute id qty).
Proof.
  intros Hqty b l (L & Hrep & <-). unfold in_unsigned in Hqty. unfold execute, spec_execute.
  destruct (ob_orders b !! id) as [loc|] eqn:Hloc.
  2:{ apply (rep_find_None _ _ Hrep) in Hloc. rewrite Hloc. exists b. split; [done|by exists L]. }
  apply (rep_locate _ _ Hrep) in Hloc as (L1 & a & o & L2 & -> & -> & ->).
  destruct (spec_split L1 a o L2 (rep_ids _ _ Hrep)) as (-> & -> & Hset).
  pose proof (rep_node _ _ Hrep L1 a o L2 eq_refl) as Hnode.
  pose proof (proj1 (Forall_forall _ _) (rep_qty _ _ Hrep) (a, o) ltac:(set_solver)) as Ho.
  cbn [snd] in Ho. cbn [loc_side loc_price loc_it]. unfold set_quantity.
  rewrite !(deref_Some a (ob_heap b) _ Hnode), !bind_ok. cbn [ro_quantity ro_id].
  pose (q := o_qty o - Z.min qty (o_qty o)).
  assert (wrap 32 (o_qty o - Z.min qty (o_qty o)) = q) as -> by (apply wrap_small; unfold in_unsigned; lia).
  destruct (reduce_total_spec (is_buy (o_side o)) (side_map (is_buy (o_side o)) b) L1 a o L2 q)
    as (m & Hred & Hside); [by apply rep_side|done|].
  assert (wrap 32 (o_qty o - q) = Z.min qty (o_qty o)) as Hw.
  { unfold q. rewrite wrap_small; [lia|unfold in_unsigned; lia]. }
  rewrite Hw in Hred. rewrite Hred, bind_ok, ob_heap_set_heap.
  erewrite deref_Some by apply lookup_insert_eq. rewrite bind_ok. cbn [ro_quantity].
  destruct (Z.eqb_spec q 0) as [Hq0|Hq0], (Z.leb_spec (o_qty o) qty); try (exfalso; lia).
  - rewrite Hq0 in *.
    destruct (erase_order_spec (is_buy (o_side o)) m L1 a (set_qty 0 o) L2
      (mkHeap (<[a := mkRestingOrder (o_id o) 0]> (h_nodes (ob_heap b))) (h_next (ob_heap b))))
      as (m' & He & Hside'); [done|done| |apply lookup_insert_eq|].
    { pose proof (rep_addrs _ _ Hrep) as Ha. by rewrite !map_app in *. }
    rewrite side_map_set_heap, side_map_set_same.
    cbn [o_price set_qty h_nodes h_next] in He. rewrite He, bind_ok.
    eexists. split; [reflexivity|]. exists (L1 ++ L2). split; [|done].
    apply rep_intro; autorewrite with book.
    + intros buy. autorewrite with book.
      cut (side_rep buy (side_map buy (set_side (is_buy (o_side o)) m' b)) (L1 ++ L2)).
      { by destruct (is_buy (o_side o)), buy. }
      revert buy. by eapply sides_remove; [apply rep_side|..].
    + by eapply listed_remove, rep_listed.
    + cbn. rewrite delete_insert_eq, (rep_nodes _ _ Hrep). apply nodes_remove, Hrep.
    + rewrite (rep_orders _ _ Hrep). apply locs_remove, Hrep.
  - eexists. split; [reflexivity|]. cbn [snd].
    replace (o_qty o - qty) with q by lia. rewrite Hset.
    exists (L1 ++ (a, set_qty q o) :: L2). split; [|done]. apply reduce_state; [done|lia|done].
Qed.
End Refinement.
