(* ===== verification/BookQueries.v ===== *)
(** The queries of the order book answer from the list of live orders: top of
    book, depth, counts, spread, snapshot, and the book's own consistency check
    [check_invariants], which on a well-formed book decides crossedness. *)
From stdpp Require Import sorting.
From S2P Require Import Prelude Protocol OrderedMap OrderBook BookSpec BookRep BookProofs.

Local Open Scope Z_scope.

(** ** A level as seen from outside *)

Section Views.
Implicit Types (L : list (nat * Order)) (o : Order).

Lemma map_snd_entries buy p L : map snd (entries buy p L) = queue buy p (map snd L).
Proof.
  unfold queue. induction L as [|[a o] L IH]; [done|]. cbn [map snd].
  destruct (decide (in_level buy p o)).
  - rewrite entries_in, filter_cons_True by done. cbn. by rewrite IH.
  - by rewrite entries_out, filter_cons_False.
Qed.

Lemma level_of_Some buy p L lvl :
  level_of buy p L = Some lvl ->
  entries buy p L <> [] /\ lvl_price lvl = p /\ lvl_orders lvl = map fst (entries buy p L) /\
  lvl_total_quantity lvl = wrap 32 (total_qty (map snd (entries buy p L))).
Proof.
  rewrite level_of_from. destruct (entries buy p L) as [|x E]; [done|]. by intros [= <-].
Qed.

Lemma level_view buy p L lvl :
  level_of buy p L = Some lvl -> view_level lvl = spec_view buy p (map snd L).
Proof.
  intros (_ & <- & Ho & Ht)%level_of_Some. unfold view_level, spec_view.
  rewrite Ho, Ht, map_snd_entries, <- map_snd_entries, !length_map. done.
Qed.

Lemma level_of_is_Some buy p L :
  is_Some (level_of buy p L) <-> exists o, o ∈ map snd L /\ in_level buy p o.
Proof.
  rewrite level_of_from. split.
  - destruct (entries buy p L) as [|[a o] E] eqn:HE; [by intros []|intros _].
    assert ((a, o) ∈ entries buy p L) as [Hin HL]%list_elem_of_filter by (rewrite HE; left).
    exists o. split; [|done]. apply list_elem_of_fmap. by exists (a, o).
  - intros (o & ([a o'] & -> & Hin)%list_elem_of_fmap & Hl).
    assert ((a, o') ∈ entries buy p L) as He by by apply list_elem_of_filter.
    destruct (entries buy p L); [by apply not_elem_of_nil in He|done].
Qed.
End Views.

(** ** The occupied prices *)

Section Prices.
Implicit Types (l : list Order).

(** The set of occupied prices of a side, as an ordered map to [unit]. *)
Definition price_map (buy : bool) (l : list Order) : list (Price * unit) :=
  foldr (fun o m => if bool_decide (is_buy (o_side o) = buy)
                    then (om_try_emplace (side_order buy) (o_price o) tt m).2 else m) [] l.

Lemma price_map_sorted buy l : om_sorted (side_order buy) (price_map buy l).
Proof.
  induction l as [|o l IH]; cbn; [constructor|].
  case_bool_decide; [|done]. by apply om_sorted_try_emplace.
Qed.

Lemma price_map_find buy l p :
  is_Some (om_find (side_order buy) p (price_map buy l)) <->
  exists o, o ∈ l /\ in_level buy p o.
Proof.
  induction l as [|o l IH]; cbn.
  - split; [by intros []|]. by intros (o & Ho%not_elem_of_nil & _).
  - setoid_rewrite elem_of_cons. case_bool_decide as Hb.
    + rewrite om_find_try_emplace by (done || apply price_map_sorted). case_decide as Hp.
      * split; [|done]. intros _. exists o. by split; [left|].
      * rewrite IH. split; [naive_solver|]. intros (o' & [->|Ho'] & Hl); [|by eauto].
        destruct Hl. congruence.
    + rewrite IH. split; [naive_solver|]. intros (o' & [->|Ho'] & Hl); [|by eauto].
      by destruct Hl.
Qed.

Definition erase_values {V} (m : list (Price * V)) : list (Price * unit) :=
  map (fun e => (e.1, tt)) m.

Lemma erase_values_keys {V} (m : list (Price * V)) : om_keys (erase_values m) = om_keys m.
Proof. unfold om_keys, erase_values. by rewrite map_map. Qed.

Lemma erase_values_find {V} lt (m : list (Price * V)) p :
  om_find lt p (erase_values m) = (fun _ => tt) <$> om_find lt p m.
Proof.
  unfold om_find, erase_values. induction m as [|[p' v] m IH]; cbn; [done|].
  destruct (lt p p'); [done|]. destruct (lt p' p); [done|done].
Qed.

(** The prices of a side's map are those of the list, best first. *)
Lemma rep_prices b (L : list (nat * Order)) buy :
  rep b L -> om_keys (side_map buy b) = spec_prices buy (map snd L).
Proof.
  intros Hrep. destruct (rep_side _ _ Hrep buy) as [Hs Hf].
  change (spec_prices buy (map snd L)) with (om_keys (price_map buy (map snd L))).
  rewrite <- erase_values_keys. f_equal. apply (om_ext (side_order buy)).
  - by unfold om_sorted; rewrite erase_values_keys.
  - apply price_map_sorted.
  - intros p. rewrite erase_values_find, Hf.
    assert (is_Some (level_of buy p L) <->
            is_Some (om_find (side_order buy) p (price_map buy (map snd L)))) as Hiff.
    { by rewrite level_of_is_Some, price_map_find. }
    destruct (level_of buy p L), (om_find (side_order buy) p _) as [[]|]; cbn; try done.
    + by destruct Hiff as [[] _].
    + by destruct Hiff as [_ []].
Qed.

Lemma rep_level_elem b (L : list (nat * Order)) buy p lvl :
  rep b L -> (p, lvl) ∈ side_map buy b -> level_of buy p L = Some lvl.
Proof.
  intros Hrep Hin. destruct (rep_side _ _ Hrep buy) as [Hs Hf]. rewrite <- Hf.
  by apply om_find_elem.
Qed.

(** A side's map, read off the list. *)
Lemma rep_views b (L : list (nat * Order)) buy :
  rep b L -> map (fun e => view_level e.2) (side_map buy b) =
             map (fun p => spec_view buy p (map snd L)) (spec_prices buy (map snd L)).
Proof.
  intros Hrep. rewrite <- (rep_prices _ _ _ Hrep). unfold om_keys. rewrite map_map.
  apply map_ext_in. intros [p lvl] Hin%list_elem_of_In. cbn.
  by eapply level_view, rep_level_elem.
Qed.
End Prices.

(** ** Top of book and depth *)

Section Queries.
Context (b : OrderBook) (L : list (nat * Order)).
Hypothesis Hrep : rep b L.
Let l := map snd L.

Lemma head_map {A B} (f : A -> B) (x : list A) : head (map f x) = f <$> head x.
Proof. by destruct x. Qed.

Lemma rep_best buy : view_level <$> om_begin (side_map buy b) = spec_best buy l.
Proof.
  unfold spec_best, l.
  rewrite <- (head_map (fun p => spec_view buy p (map snd L))), <- (rep_views _ _ _ Hrep).
  by destruct (side_map buy b).
Qed.

Lemma top_levels_loop_spec m depth out :
  (length out <= depth)%nat ->
  top_levels_loop m depth out =
  out ++ map (fun e => view_level e.2) (take (depth - length out) m).
Proof.
  revert out; induction m as [|[p lvl] m IH]; intros out Hd; cbn.
  - by rewrite take_nil, app_nil_r.
  - case_bool_decide as Hfull.
    + replace (depth - length out)%nat with 0%nat by lia. by rewrite app_nil_r.
    + rewrite IH by (rewrite length_app; cbn; lia). rewrite length_app. cbn.
      replace (depth - length out)%nat with (S (depth - (length out + 1))) by lia.
      cbn. by rewrite <- app_assoc.
Qed.

Lemma map_take {A B} (f : A -> B) n (x : list A) : map f (take n x) = take n (map f x).
Proof. revert n. induction x as [|y x IH]; intros [|n]; cbn; try done. by rewrite IH. Qed.

Lemma rep_depth buy depth : top_levels (side_map buy b) depth = spec_depth buy depth l.
Proof.
  unfold top_levels. rewrite top_levels_loop_spec by (cbn; lia). cbn.
  rewrite Nat.sub_0_r, map_take, (rep_views _ _ _ Hrep). unfold spec_depth. by rewrite map_take.
Qed.

Lemma rep_count : order_count b = length l.
Proof.
  unfold order_count, l. rewrite (rep_orders _ _ Hrep), map_size_list_to_map, !length_map; [done|].
  rewrite fst_map_keys. apply Hrep.
Qed.

Lemma rep_empty : empty b = bool_decide (l = []).
Proof.
  unfold empty, l. apply bool_decide_ext. rewrite (rep_orders _ _ Hrep).
  destruct L as [|x L']; cbn; [done|]. destruct (locator_of x).
  split; [|done]. by intros ?%insert_non_empty.
Qed.

Lemma rep_level_count buy : length (side_map buy b) = length (spec_prices buy l).
Proof.
  unfold l. rewrite <- (rep_prices _ _ _ Hrep). unfold om_keys. by rewrite length_map.
Qed.

(** The key and the price of the first level agree. *)
Lemma rep_begin_price buy :
  lvl_price <$> om_begin (side_map buy b) = head (spec_prices buy l).
Proof.
  unfold l. rewrite <- (rep_prices _ _ _ Hrep). pose proof (rep_side _ _ Hrep buy) as [Hs Hf].
  destruct (side_map buy b) as [|[p lvl] m] eqn:Hm; [done|]. cbn. f_equal.
  assert (om_find (side_order buy) p ((p, lvl) :: m) = Some lvl) as Hl.
  { apply om_find_elem; [done|done|left]. }
  rewrite Hf in Hl. by apply level_of_Some in Hl as (_ & ? & _).
Qed.

(** The best price is one of the list's, and the comparator's least. *)
Lemma rep_best_price buy :
  match head (spec_prices buy l) with
  | None => forall o, o ∈ l -> is_buy (o_side o) <> buy
  | Some p => (exists o, o ∈ l /\ in_level buy p o) /\
              forall o, o ∈ l -> is_buy (o_side o) = buy ->
                o_price o = p \/ side_order buy p (o_price o) = true
  end.
Proof.
  unfold l. rewrite <- (rep_prices _ _ _ Hrep). pose proof (rep_side _ _ Hrep buy) as [Hs Hf].
  assert (forall o, o ∈ map snd L -> is_buy (o_side o) = buy ->
            is_Some (om_find (side_order buy) (o_price o) (side_map buy b))) as Hin.
  { intros o Ho Hb. rewrite Hf. apply level_of_is_Some. by exists o. }
  pose proof (om_begin_spec (side_order buy) _ Hs) as Hbegin.
  destruct (side_map buy b) as [|[p lvl] m] eqn:Hm; cbn in *.
  - intros o Ho Hb. by destruct (Hin o Ho Hb).
  - assert (om_find (side_order buy) p ((p, lvl) :: m) = Some lvl) as Hl.
    { apply om_find_elem; [done|done|left]. }
    split; [apply level_of_is_Some; rewrite <- Hf; eauto|]. intros o Ho Hb.
    destruct (Hin o Ho Hb) as [lvl' Hlvl'%om_find_elem]; [|done..].
    apply elem_of_cons in Hlvl' as [[= -> ->]|Hlvl']; [by left|right].
    apply om_sorted_cons in Hs as [_ Hs]. apply Hs, list_elem_of_fmap. by exists (o_price o, lvl').
Qed.
End Queries.

(** ** The snapshot *)

Definition to_snapshot_level (lv : LevelView) : SnapshotLevel :=
  mkSnapshotLevel (lv_price lv) (lv_quantity lv).

(** The fixed array of the wire format: the levels, then zeroes. *)
Definition pad_levels (v : list LevelView) : list SnapshotLevel :=
  map to_snapshot_level v ++ replicate (kMaxSnapshotLevels - length v) (mkSnapshotLevel 0 0).

Definition spec_snapshot (symbol : SymbolId) (l : list Order) : BookSnapshot :=
  let bv := spec_depth true kMaxSnapshotLevels l in
  let av := spec_depth false kMaxSnapshotLevels l in
  mkBookSnapshot symbol (Z.of_nat (length bv)) (Z.of_nat (length av)) (pad_levels bv) (pad_levels av).

Section Snapshot.
Lemma fill_levels_spec v pre rest :
  (length v <= length rest)%nat ->
  fill_levels (length pre) v (pre ++ rest) =
  Ok (pre ++ map to_snapshot_level v ++ drop (length v) rest).
Proof.
  revert pre rest; induction v as [|lv v IH]; intros pre rest Hv; cbn in *; [by rewrite drop_0|].
  destruct rest as [|x rest]; cbn in Hv; [lia|].
  rewrite bool_decide_eq_true_2 by (rewrite length_app; cbn; lia). cbn [require]. rewrite bind_ok.
  rewrite insert_app_r_alt, Nat.sub_diag by lia. cbn [list_insert insert].
  replace (S (length pre)) with (length (pre ++ [to_snapshot_level lv])) by (rewrite length_app; cbn; lia).
  change (mkSnapshotLevel (lv_price lv) (lv_quantity lv)) with (to_snapshot_level lv).
  replace (pre ++ to_snapshot_level lv :: rest) with ((pre ++ [to_snapshot_level lv]) ++ rest)
    by (by rewrite <- app_assoc).
  rewrite IH by lia. by rewrite <- app_assoc.
Qed.

Lemma fill_levels_pad v :
  (length v <= kMaxSnapshotLevels)%nat -> fill_levels 0 v empty_levels = Ok (pad_levels v).
Proof.
  intros Hv. pose proof (fill_levels_spec v [] empty_levels) as H. cbn [length app] in H.
  rewrite H by (unfold empty_levels; by rewrite length_replicate).
  unfold pad_levels, empty_levels. by rewrite drop_replicate.
Qed.

Lemma spec_depth_length buy depth l : (length (spec_depth buy depth l) <= depth)%nat.
Proof. unfold spec_depth. rewrite length_map, length_take. lia. Qed.

Lemma rep_snapshot b (L : list (nat * Order)) :
  rep b L -> snapshot b = Ok (spec_snapshot (ob_symbol b) (map snd L)).
Proof.
  intros Hrep. unfold snapshot, bids, asks.
  change (ob_bids b) with (side_map true b). change (ob_asks b) with (side_map false b).
  rewrite !(rep_depth _ _ Hrep).
  pose proof (spec_depth_length true kMaxSnapshotLevels (map snd L)) as Hb.
  pose proof (spec_depth_length false kMaxSnapshotLevels (map snd L)) as Ha.
  rewrite !fill_levels_pad, !bind_ok by done. unfold spec_snapshot.
  unfold kMaxSnapshotLevels in *. by rewrite !wrap_small by (unfold in_unsigned; lia).
Qed.
End Snapshot.

(** ** check_invariants *)

Section CheckInvariants.
Implicit Types (L E : list (nat * Order)) (o : Order) (m : list (Price * PriceLevel)).

Lemma sum_orders_spec h E s :
  Forall (fun x => h_nodes h !! x.1 = Some (mkRestingOrder (o_id x.2) (o_qty x.2)) /\
                   0 < o_qty x.2) E ->
  sum_orders h (map fst E) (wrap 32 s) = Ok (Some (wrap 32 (s + total_qty (map snd E)))).
Proof.
  revert s; induction E as [|[a o] E IH]; intros s HE; [cbn; by rewrite Z.add_0_r|].
  apply Forall_cons in HE as [[Hn Hq] HE]. cbn [map fst snd sum_orders total_qty] in *.
  rewrite (deref_Some _ _ _ Hn), bind_ok. cbn [ro_quantity].
  rewrite (proj2 (Z.eqb_neq (o_qty o) 0)), wrap_add_l, IH by (done || lia).
  by rewrite Z.add_assoc.
Qed.

Lemma level_ok_spec h m :
  Forall (fun e => lvl_orders e.2 <> [] /\ lvl_price e.2 = e.1 /\
    sum_orders h (lvl_orders e.2) 0 = Ok (Some (lvl_total_quantity e.2))) m ->
  level_ok h m = Ok true.
Proof.
  induction m as [|[p lvl] m IH]; [done|]. intros [(Ho & Hp & Hs) Hm]%Forall_cons.
  cbn [fst snd level_ok] in *. rewrite bool_decide_eq_false_2, Hp, Z.eqb_refl, Hs by done.
  cbn [negb]. rewrite bind_ok, Z.eqb_refl. by apply IH.
Qed.

Lemma rep_level_ok b L buy : rep b L -> level_ok (ob_heap b) (side_map buy b) = Ok true.
Proof.
  intros Hrep. apply level_ok_spec, Forall_forall. intros [p lvl] Hin. cbn.
  apply (rep_level_elem _ _ _ _ _ Hrep), level_of_Some in Hin as (Hne & Hp & Ho & Ht).
  rewrite Hp, Ho, Ht. split_and!; [by intros ?%map_eq_nil|done|].
  pose proof (sum_orders_spec (ob_heap b) (entries buy p L) 0) as Hsum.
  rewrite Z.add_0_l in Hsum. apply Hsum. clear Hsum.
  apply Forall_forall. intros [a o] [_ Hin]%list_elem_of_filter. cbn.
  pose proof (proj1 (Forall_forall _ _) (rep_qty _ _ Hrep) _ Hin) as Hq. cbn in Hq.
  apply list_elem_of_split in Hin as (L1 & L2 & ->).
  split; [by eapply rep_node|lia].
Qed.

(** Counting the orders of a side level by level. *)
Definition on_side (buy : bool) L : list (nat * Order) :=
  filter (fun x => is_buy (o_side x.2) = buy) L.

Lemma count_over_prices buy L (ps : list Price) :
  NoDup ps -> (forall o, o ∈ map snd L -> is_buy (o_side o) = buy -> o_price o ∈ ps) ->
  sum_list_with (fun p => length (entries buy p L)) ps = length (on_side buy L).
Proof.
  intros Hnd. induction L as [|[a o] L IH]; intros Hps; cbn [map snd] in *.
  - clear. induction ps; cbn; auto.
  - setoid_rewrite elem_of_cons in Hps.
    assert (forall ps', NoDup ps' ->
      sum_list_with (fun p => length (entries buy p ((a, o) :: L))) ps' =
      (sum_list_with (fun p => length (entries buy p L)) ps' +
       if decide (is_buy (o_side o) = buy /\ o_price o ∈ ps') then 1 else 0))%nat as Hsum.
    { clear. induction ps' as [|p ps' IH]; intros Hnd; cbn [sum_list_with].
      - rewrite decide_False; [done|]. by intros [_ ?%not_elem_of_nil].
      - apply NoDup_cons in Hnd as [Hp Hnd]. rewrite IH by done.
        destruct (decide (in_level buy p o)) as [[Hb <-]|Hout].
        + rewrite entries_in by done. cbn [length].
          rewrite (decide_False (P := _ /\ _ ∈ ps')), decide_True; [lia| |naive_solver].
          split; [done|left].
        + rewrite entries_out by done. unfold in_level in Hout.
          rewrite (decide_ext _ (is_buy (o_side o) = buy /\ o_price o ∈ p :: ps')); [lia|].
          rewrite elem_of_cons. naive_solver. }
    rewrite Hsum, IH by naive_solver. unfold on_side.
    destruct (decide (is_buy (o_side o) = buy)) as [Hb|Hb].
    + rewrite filter_cons_True, decide_True by naive_solver. cbn. lia.
    + rewrite filter_cons_False, decide_False by naive_solver. lia.
Qed.

Lemma om_keys_NoDup {V} lt `{!Comparator lt} (mm : list (Z * V)) :
  om_sorted lt mm -> NoDup (om_keys mm).
Proof.
  induction mm as [|[k v] mm IH]; [intros _; constructor|].
  intros [Hs Hlt]%om_sorted_cons; [|done..]. cbn. constructor; [|by apply IH].
  intros Hk%Hlt. by rewrite cmp_irrefl in Hk.
Qed.

Lemma rep_count_orders b L buy :
  rep b L -> count_orders (side_map buy b) = length (on_side buy L).
Proof.
  intros Hrep. pose proof (rep_side _ _ Hrep buy) as [Hs Hf].
  rewrite <- (count_over_prices buy L (om_keys (side_map buy b))).
  - unfold count_orders, om_keys.
    assert (forall e, e ∈ side_map buy b -> length (lvl_orders e.2) = length (entries buy e.1 L)) as He.
    { intros [p lvl] Hin. cbn. apply (rep_level_elem _ _ _ _ _ Hrep), level_of_Some in Hin as (_ & _ & -> & _). by rewrite length_map. }
    revert He. clear. induction (side_map buy b) as [|e m IH]; intros He; cbn; [done|].
    rewrite He by left. rewrite IH; [done|]. intros e' Hin. apply He. by right.
  - by eapply om_keys_NoDup.
  - intros o Ho Hb. apply (om_keys_elem (side_order buy)); [done|].
    rewrite Hf. apply level_of_is_Some. by exists o.
Qed.

Lemma on_side_total L : (length (on_side true L) + length (on_side false L))%nat = length L.
Proof.
  unfold on_side. induction L as [|[a o] L IH]; [done|].
  destruct (is_buy (o_side o)) eqn:Hb.
  - rewrite filter_cons_True, filter_cons_False by (cbn; congruence). cbn in *. lia.
  - rewrite filter_cons_False, filter_cons_True by (cbn; congruence). cbn in *. lia.
Qed.

Lemma rep_crossed b L :
  rep b L ->
  match om_begin (ob_bids b), om_begin (ob_asks b) with
  | Some bid, Some ask => lvl_price ask <=? lvl_price bid
  | _, _ => false
  end = true <-> crossed (map snd L).
Proof.
  intros Hrep. pose proof (rep_begin_price _ _ Hrep true) as Hb.
  pose proof (rep_begin_price _ _ Hrep false) as Ha.
  pose proof (rep_best_price _ _ Hrep true) as Hbp. pose proof (rep_best_price _ _ Hrep false) as Hap.
  rewrite <- Hb in Hbp. rewrite <- Ha in Hap. cbn [side_map] in *.
  destruct (om_begin (ob_bids b)) as [bid|]; cbn in *.
  2:{ split; [done|]. intros (o1 & o2 & H1 & _ & Hs1 & _). by destruct (Hbp _ H1). }
  destruct (om_begin (ob_asks b)) as [ask|]; cbn in *.
  2:{ split; [done|]. intros (o1 & o2 & _ & H2 & _ & Hs2 & _). by destruct (Hap _ H2). }
  rewrite Z.leb_le. unfold std_less, std_greater in *. split.
  - intros Hle. destruct Hbp as [(o1 & H1 & Hs1 & Hp1) _]. destruct Hap as [(o2 & H2 & Hs2 & Hp2) _].
    exists o1, o2. split_and!; try done. lia.
  - intros (o1 & o2 & H1 & H2 & Hs1 & Hs2 & Hle).
    destruct Hbp as [_ Hb1]. destruct Hap as [_ Ha1].
    specialize (Hb1 _ H1 Hs1). specialize (Ha1 _ H2 Hs2). lia.
Qed.

Lemma rep_check_invariants b L :
  rep b L -> exists c, check_invariants b = Ok c /\ (c = true <-> ~ crossed (map snd L)).
Proof.
  intros Hrep. unfold check_invariants.
  pose proof (rep_level_ok _ _ true Hrep) as Hb. pose proof (rep_level_ok _ _ false Hrep) as Ha.
  pose proof (rep_count_orders _ _ true Hrep) as Hcb.
  pose proof (rep_count_orders _ _ false Hrep) as Hca. cbn [side_map] in *.
  rewrite Hb, bind_ok, Ha, bind_ok. cbn [andb negb]. pose proof (rep_crossed _ _ Hrep) as Hx.
  revert Hx. destruct (match om_begin (ob_bids b) with Some _ => _ | None => _ end).
  - intros Hx. eexists. split; [reflexivity|]. naive_solver.
  - intros Hx. eexists. split; [reflexivity|]. rewrite bool_decide_eq_true_2; [naive_solver|].
    rewrite Hcb, Hca, on_side_total. pose proof (rep_count _ _ Hrep) as Hn.
    unfold order_count in Hn. by rewrite Hn, length_map.
Qed.
End CheckInvariants.
