(* ===== verification/BookTheorems.v ===== *)
(** The theorems about the order book: runs of operations, top of book, depth,
    snapshot, the consistency check, time priority and traded volume. *)
From stdpp Require Import sorting.
From S2P Require Import Prelude Protocol OrderedMap OrderBook BookSpec BookRep BookProofs.
From S2P Require Import BookQueries.

Local Open Scope Z_scope.

(** ** Runs of operations *)

(** The calls a client can make, with arguments of the C++ types. *)
Inductive BookOp :=
  | OpAdd (id : OrderId) (side : Side) (price : Price) (qty : Quantity)
  | OpCancel (id : OrderId)
  | OpModify (id : OrderId) (price : Price) (qty : Quantity)
  | OpExecute (id : OrderId) (qty : Quantity)
  | OpClear.

Definition op_ok (op : BookOp) : Prop :=
  match op with
  | OpAdd _ _ _ q | OpModify _ _ q | OpExecute _ q => in_unsigned 32 q
  | OpCancel _ | OpClear => True
  end.

Definition run_op (op : BookOp) (b : OrderBook) : outcome (bool * OrderBook) :=
  match op with
  | OpAdd id side price qty => add id side price qty b
  | OpCancel id => cancel id b
  | OpModify id price qty => modify id price qty b
  | OpExecute id qty => execute id qty b
  | OpClear => Ok (true, clear b)
  end.

Definition spec_op (op : BookOp) (l : list Order) : bool * list Order :=
  match op with
  | OpAdd id side price qty => spec_add id side price qty l
  | OpCancel id => spec_cancel id l
  | OpModify id price qty => spec_modify id price qty l
  | OpExecute id qty => spec_execute id qty l
  | OpClear => (true, [])
  end.

Fixpoint run_ops (ops : list BookOp) (b : OrderBook) : outcome (list bool * OrderBook) :=
  match ops with
  | [] => Ok ([], b)
  | op :: ops' =>
      r ← run_op op b;
      rs ← run_ops ops' r.2;
      Ok (r.1 :: rs.1, rs.2)
  end.

Fixpoint spec_ops (ops : list BookOp) (l : list Order) : list bool * list Order :=
  match ops with
  | [] => ([], l)
  | op :: ops' =>
      let r := spec_op op l in
      let rs := spec_ops ops' r.2 in
      (r.1 :: rs.1, rs.2)
  end.

Lemma run_op_implements op : op_ok op -> implements (run_op op) (spec_op op).
Proof.
  destruct op; cbn [op_ok run_op spec_op]; intros Hok.
  - by apply add_implements.
  - by apply cancel_implements.
  - by apply modify_implements.
  - by apply execute_implements.
  - intros b l _. exists (clear b). split; [done|]. apply clear_state.
Qed.

Lemma run_ops_state ops b l :
  Forall op_ok ops -> book_state b l ->
  exists b', run_ops ops b = Ok ((spec_ops ops l).1, b') /\ book_state b' (spec_ops ops l).2.
Proof.
  intros Hops. revert b l; induction Hops as [|op ops Hop Hops IH]; intros b l Hb; [by exists b|].
  destruct (run_op_implements op Hop b l Hb) as (b1 & Hr & Hb1).
  cbn [run_ops spec_ops fst snd]. rewrite Hr, bind_ok. cbn [fst snd].
  destruct (IH _ _ Hb1) as (b2 & -> & Hb2). rewrite bind_ok. by exists b2.
Qed.

(** The book a run reaches represents the list the specification reaches. *)
Lemma run_ops_reached ops symbol rs b :
  Forall op_ok ops -> run_ops ops (new_book symbol) = Ok (rs, b) ->
  book_state b (spec_ops ops []).2.
Proof.
  intros Hops Hr. destruct (run_ops_state ops _ _ Hops (new_book_state symbol)) as (b' & Hr' & Hb').
  rewrite Hr in Hr'. by injection Hr' as -> ->.
Qed.

(** ** A concrete book, for the witnesses *)

Definition demo_ops : list BookOp :=
  [OpAdd 1 Side_Buy 100 5; OpAdd 2 Side_Buy 100 7; OpAdd 3 Side_Sell 103 4;
   OpAdd 4 Side_Buy 99 9; OpModify 1 100 3; OpExecute 2 2; OpCancel 4; OpAdd 5 Side_Sell 104 8].

Definition demo_orders : list Order :=
  [mkOrder 1 Side_Buy 100 3; mkOrder 2 Side_Buy 100 5; mkOrder 3 Side_Sell 103 4;
   mkOrder 5 Side_Sell 104 8].

(** The book after [demo_ops]. *)
Definition demo_book : OrderBook :=
  match run_ops demo_ops (new_book 7) with Ok r => r.2 | _ => new_book 7 end.

Lemma demo_state : book_state demo_book demo_orders.
Proof.
  change demo_orders with (spec_ops demo_ops []).2.
  apply (run_ops_reached demo_ops 7 (spec_ops demo_ops []).1); [|vm_compute; reflexivity].
  repeat constructor; cbn; unfold in_unsigned; lia.
Qed.

(** ** The theorems *)

(** C1: for every sequence of calls of [add], [cancel], [modify], [execute] and
    [clear] on a fresh book, with 32-bit quantities and any ids, sides and
    prices, no iterator is dangling and every call returns exactly what the
    price-time priority specification returns; the final book represents the
    specification's list of live orders. *)
Theorem book_runs_refine_spec symbol ops :
  Forall op_ok ops ->
  exists b, run_ops ops (new_book symbol) = Ok ((spec_ops ops []).1, b) /\
            book_state b (spec_ops ops []).2.
Proof. intros Hops. apply run_ops_state; [done|apply new_book_state]. Qed.

Lemma book_runs_refine_spec_witness :
  exists b, run_ops demo_ops (new_book 7) =
              Ok ([true; true; true; true; true; true; true; true], b) /\
            book_state b demo_orders.
Proof.
  apply (book_runs_refine_spec 7 demo_ops).
  repeat constructor; cbn; unfold in_unsigned; lia.
Defined.

(** C31: on a well-formed book the queries [best_bid], [best_ask], [bids],
    [asks], [order_count], [empty], [bid_levels] and [ask_levels] answer from
    the list of live orders: the best price first, each level with the 32-bit
    sum and count of the orders queued there. *)
Theorem book_queries_answer b l depth :
  book_state b l ->
  best_bid b = spec_best true l /\ best_ask b = spec_best false l /\
  bids depth b = spec_depth true depth l /\ asks depth b = spec_depth false depth l /\
  order_count b = length l /\ empty b = bool_decide (l = []) /\
  bid_levels b = length (spec_prices true l) /\ ask_levels b = length (spec_prices false l).
Proof.
  intros (L & Hrep & <-).
  pose proof (rep_best _ _ Hrep) as Hbest. pose proof (rep_depth _ _ Hrep) as Hdepth.
  pose proof (rep_level_count _ _ Hrep) as Hlc.
  split_and!; [apply (Hbest true)|apply (Hbest false)|apply (Hdepth true)|apply (Hdepth false)
    |by apply rep_count|by apply rep_empty|apply (Hlc true)|apply (Hlc false)].
Qed.

Lemma book_queries_answer_witness :
  best_bid demo_book = Some (mkLevelView 100 8 2) /\ best_ask demo_book = Some (mkLevelView 103 4 1) /\
  bids 5 demo_book = [mkLevelView 100 8 2] /\
  asks 5 demo_book = [mkLevelView 103 4 1; mkLevelView 104 8 1] /\
  order_count demo_book = 4%nat /\ empty demo_book = false /\
  bid_levels demo_book = 1%nat /\ ask_levels demo_book = 2%nat.
Proof. apply (book_queries_answer demo_book demo_orders 5), demo_state. Defined.

(** C32: on a well-formed book [check_invariants] returns (no level is empty,
    every total is right and the counts agree) and it answers true exactly
    when no buyer offers at least what a seller asks. *)
Theorem check_invariants_decides_crossed b l :
  book_state b l ->
  exists ok, check_invariants b = Ok ok /\ (ok = true <-> ~ crossed l).
Proof. intros (L & Hrep & <-). by apply rep_check_invariants. Qed.

Lemma check_invariants_decides_crossed_witness :
  exists ok, check_invariants demo_book = Ok ok /\ (ok = true <-> ~ crossed demo_orders).
Proof. apply (check_invariants_decides_crossed demo_book demo_orders), demo_state. Defined.

(** The snapshot of a well-formed book writes inside its fixed arrays and
    holds the best [kMaxSnapshotLevels] levels of each side, best first, zero-padded, with the
    level counts. *)
Theorem snapshot_is_top_levels b l :
  book_state b l -> snapshot b = Ok (spec_snapshot (ob_symbol b) l).
Proof. intros (L & Hrep & <-). by apply rep_snapshot. Qed.

Lemma snapshot_is_top_levels_witness :
  snapshot demo_book = Ok (spec_snapshot 7 demo_orders).
Proof. apply (snapshot_is_top_levels demo_book demo_orders), demo_state. Defined.

(** [spread] of a well-formed book is the best ask price minus the best bid
    price when both sides are occupied and nothing otherwise; the subtraction
    is undefined behaviour exactly when the difference leaves the 64-bit signed
    range, which no check on wire prices excludes. *)
Theorem spread_is_price_difference b l :
  book_state b l ->
  spread b =
  match head (spec_prices true l), head (spec_prices false l) with
  | Some bid, Some ask => if in_signedb 64 (ask - bid) then Ok (Some (ask - bid)) else Undef
  | _, _ => Ok None
  end.
Proof.
  intros (L & Hrep & <-).
  pose proof (rep_begin_price _ _ Hrep true) as Hb. pose proof (rep_begin_price _ _ Hrep false) as Ha.
  rewrite <- Hb, <- Ha. unfold spread. cbn [side_map].
  destruct (om_begin (ob_bids b)) as [bid|], (om_begin (ob_asks b)) as [ask|]; try done.
  cbn [fmap option_fmap option_map]. by destruct (in_signedb 64 _).
Qed.

Lemma spread_is_price_difference_witness : spread demo_book = Ok (Some 3).
Proof. apply (spread_is_price_difference demo_book demo_orders), demo_state. Defined.

(** *** Time priority *)

Lemma queue_update_ids buy p id q l :
  map o_id (queue buy p (update_qty id q l)) = map o_id (queue buy p l).
Proof.
  unfold queue, update_qty. induction l as [|o l IH]; [done|]. cbn [map].
  assert (in_level buy p (if o_id o =? id then set_qty q o else o) <-> in_level buy p o) as Hiff.
  { by destruct (o_id o =? id). }
  destruct (decide (in_level buy p o)).
  - rewrite !filter_cons_True by (done || by apply Hiff). cbn [map]. rewrite IH.
    by destruct (o_id o =? id).
  - rewrite !filter_cons_False by (done || by rewrite Hiff). done.
Qed.

Lemma queue_app buy p l1 l2 : queue buy p (l1 ++ l2) = queue buy p l1 ++ queue buy p l2.
Proof. apply filter_app. Qed.

Lemma queue_remove buy p id l : queue buy p (remove_order id l) = remove_order id (queue buy p l).
Proof.
  unfold queue, remove_order. rewrite !list_filter_filter. apply list_filter_iff. naive_solver.
Qed.

(** C33: [modify] keeps time priority exactly on a reduction in place.  When the
    price is unchanged and the non-zero quantity does not grow, every queue of
    the book keeps its order of ids; otherwise the order leaves its queue and
    joins the back of the queue at the new price, the others keeping theirs. *)
Theorem modify_time_priority b l id price qty o :
  book_state b l -> find_order id l = Some o -> 0 < qty < 2 ^ 32 ->
  exists b' l', modify id price qty b = Ok (true, b') /\ book_state b' l' /\
    forall buy p,
      map o_id (queue buy p l') =
      if bool_decide (price = o_price o /\ qty <= o_qty o) then map o_id (queue buy p l)
      else map o_id (remove_order id (queue buy p l)) ++
           (if bool_decide (is_buy (o_side o) = buy /\ price = p) then [id] else []).
Proof.
  intros Hb Hfind Hqty.
  destruct (modify_implements id price qty ltac:(unfold in_unsigned; lia) b l Hb) as (b' & Hm & Hb').
  exists b', (spec_modify id price qty l).2. rewrite Hm. unfold spec_modify in *.
  rewrite (proj2 (Z.eqb_neq qty 0)), Hfind in * by lia.
  case_bool_decide as Hfast.
  - destruct Hfast as [-> Hle]. rewrite Z.eqb_refl, (proj2 (Z.leb_le _ _) Hle) in *.
    cbn [andb fst snd] in *. split_and!; [done|done|]. intros. apply queue_update_ids.
  - replace ((price =? o_price o) && (qty <=? o_qty o)) with false in * by lia.
    cbn [fst snd] in *. split_and!; [done|done|]. intros buy p.
    rewrite queue_app, map_app, queue_remove. f_equal. unfold queue.
    case_bool_decide as Hl; [by rewrite filter_cons_True|by rewrite filter_cons_False].
Qed.

Lemma modify_time_priority_witness :
  exists b' l', modify 1 100 6 demo_book = Ok (true, b') /\ book_state b' l' /\
    map o_id (queue true 100 l') = [2; 1].
Proof.
  destruct (modify_time_priority demo_book demo_orders 1 100 6 (mkOrder 1 Side_Buy 100 3) demo_state
    eq_refl ltac:(lia)) as (b' & l' & Hm & Hb & Hq).
  exists b', l'. split; [exact Hm|]. split; [exact Hb|]. exact (Hq true 100).
Defined.

(** *** Volume *)

Lemma total_update_qty id q l o :
  NoDup (map o_id l) -> find_order id l = Some o ->
  total_qty (update_qty id q l) = total_qty l - o_qty o + q.
Proof.
  intros Hnd Hf. induction l as [|o1 l IH]; [done|]. apply NoDup_cons in Hnd as [H1 Hnd].
  cbn in *. destruct (Z.eqb_spec (o_id o1) id) as [<-|].
  - injection Hf as ->. fold (update_qty (o_id o) q l). rewrite update_qty_other by done. cbn. lia.
  - fold (update_qty id q l). rewrite IH by done. lia.
Qed.

Lemma total_remove id l o :
  NoDup (map o_id l) -> find_order id l = Some o ->
  total_qty (remove_order id l) = total_qty l - o_qty o.
Proof.
  intros Hnd Hf. induction l as [|o1 l IH]; [done|]. apply NoDup_cons in Hnd as [H1 Hnd].
  cbn in Hf. unfold remove_order. destruct (Z.eqb_spec (o_id o1) id) as [<-|].
  - injection Hf as ->. rewrite filter_cons_False by auto. fold (remove_order (o_id o) l).
    rewrite remove_order_other by done. cbn. lia.
  - rewrite filter_cons_True by done. fold (remove_order id l). cbn. rewrite IH by done. lia.
Qed.

Lemma book_state_ids b l : book_state b l -> NoDup (map o_id l).
Proof. intros (L & Hrep & <-). rewrite map_map. apply Hrep. Qed.

Lemma book_state_qty b l : book_state b l -> Forall (fun o => 0 < o_qty o < 2 ^ 32) l.
Proof.
  intros (L & Hrep & <-). apply Forall_forall. intros o ([a o'] & -> & Hin)%list_elem_of_fmap.
  by apply (proj1 (Forall_forall _ _) (rep_qty _ _ Hrep)) in Hin.
Qed.

Lemma find_update_qty id q l o :
  find_order id l = Some o -> find_order id (update_qty id q l) = Some (set_qty q o).
Proof.
  induction l as [|o1 l IH]; [done|]. cbn. destruct (Z.eqb_spec (o_id o1) id) as [<-|Hne].
  - intros [= ->]. cbn. by rewrite Z.eqb_refl.
  - rewrite (proj2 (Z.eqb_neq _ _) Hne). apply IH.
Qed.

Lemma remove_update_qty id q l : remove_order id (update_qty id q l) = remove_order id l.
Proof.
  unfold remove_order, update_qty. induction l as [|o1 l IH]; [done|]. cbn [map].
  destruct (Z.eqb_spec (o_id o1) id) as [<-|Hne].
  - rewrite !filter_cons_False by auto. done.
  - rewrite !filter_cons_True by done. by rewrite IH.
Qed.

Lemma find_remove_order id l : find_order id (remove_order id l) = None.
Proof.
  apply find_order_None. unfold remove_order.
  intros (o' & Ho & [Hne _]%list_elem_of_filter)%list_elem_of_fmap. congruence.
Qed.

Lemma remove_remove_order id l : remove_order id (remove_order id l) = remove_order id l.
Proof. unfold remove_order. rewrite list_filter_filter. apply list_filter_iff. tauto. Qed.

(** C34: [execute] trades the smaller of the requested and the resting quantity:
    the live volume falls by exactly that, the order leaves the book exactly
    when it is filled, no other order changes, and an unknown id changes
    nothing. *)
Theorem execute_conserves_volume b l id qty :
  book_state b l -> in_unsigned 32 qty ->
  exists b' l', execute id qty b = Ok (bool_decide (id ∈ map o_id l), b') /\ book_state b' l' /\
    match find_order id l with
    | None => l' = l
    | Some o =>
        total_qty l' = total_qty l - Z.min qty (o_qty o) /\
        find_order id l' = (if bool_decide (o_qty o <= qty) then None
                            else Some (set_qty (o_qty o - qty) o)) /\
        remove_order id l' = remove_order id l
    end.
Proof.
  intros Hb Hqty. pose proof (book_state_ids _ _ Hb) as Hnd.
  destruct (execute_implements id qty Hqty b l Hb) as (b' & He & Hb').
  exists b', (spec_execute id qty l).2. rewrite He. split_and!; [|done|].
  - unfold spec_execute. destruct (find_order id l) eqn:Hf.
    + rewrite bool_decide_eq_true_2; [by case_match|].
      destruct (decide (id ∈ map o_id l)) as [|Hn]; [done|]. apply find_order_None in Hn. congruence.
    + apply find_order_None in Hf. by rewrite bool_decide_eq_false_2.
  - unfold spec_execute in *. destruct (find_order id l) as [o|] eqn:Hf; [|done].
    destruct (Z.leb_spec (o_qty o) qty); cbn [snd].
    + rewrite bool_decide_eq_true_2 by lia. split_and!; [rewrite (total_remove _ _ _ Hnd Hf); lia| |].
      * apply find_remove_order.
      * apply remove_remove_order.
    + rewrite bool_decide_eq_false_2 by lia.
      split_and!; [rewrite (total_update_qty _ _ _ _ Hnd Hf); lia| |].
      * by apply find_update_qty.
      * apply remove_update_qty.
Qed.

Lemma execute_conserves_volume_witness :
  exists b' l', execute 2 9 demo_book = Ok (true, b') /\ book_state b' l' /\
    total_qty l' = 15 /\ find_order 2 l' = None.
Proof.
  destruct (execute_conserves_volume demo_book demo_orders 2 9 demo_state
    ltac:(unfold in_unsigned; lia)) as (b' & l' & He & Hb & Ht & Hf & _).
  exists b', l'. split; [exact He|]. split; [exact Hb|]. split; [exact Ht|exact Hf].
Defined.

(** *** Width of the level totals *)

(** The 32-bit total of a level is not the volume of its orders once that
    reaches 2^32: two orders of 2^31 at one price show a level of quantity 0
    with two orders in it, and [check_invariants] sees nothing wrong. *)
Theorem level_total_wraps :
  exists b, run_ops [OpAdd 1 Side_Buy 100 (2 ^ 31); OpAdd 2 Side_Buy 100 (2 ^ 31)] (new_book 7)
              = Ok ([true; true], b) /\
    best_bid b = Some (mkLevelView 100 0 2) /\ check_invariants b = Ok true.
Proof. eexists. split; [vm_compute; reflexivity|]. split; vm_compute; reflexivity. Qed.
