(* ===== verification/BookBuilder.v ===== *)
(** The book manager and the book builder (include/mdfh/book_builder.hpp,
    src/book_builder.cpp): one order book per symbol, driven by the events of
    the feed.  The builder is a sink; its theorems are stated against the
    specification of the books as lists of live orders. *)
From S2P Require Import Prelude ByteOrder Protocol Serialization Parser OrderedMap OrderBook.
From S2P Require Import BookSpec BookRep BookProofs BookQueries BookTheorems.

Local Open Scope Z_scope.

(** ** BookManager *)

(** [std::unordered_map<SymbolId, OrderBook>]. *)
Notation BookManager := (gmap Z OrderBook) (only parsing).

(** [book(symbol)]: the book of a symbol, created on first access.  Returns
    the manager as well, for the code's reference is to the stored book. *)
Definition book (symbol : SymbolId) (m : BookManager) : OrderBook * BookManager :=
  match m !! symbol with
  | Some bk => (bk, m)
  | None => let bk := new_book symbol in (bk, <[symbol := bk]> m)
  end.

(** [find(symbol)]: no book is created. *)
Definition find_book (symbol : SymbolId) (m : BookManager) : option OrderBook := m !! symbol.
Definition symbol_count (m : BookManager) : nat := size m.
Definition clear_books (m : BookManager) : BookManager := ∅.

(** [for (const auto& [sym, bk] : books_) if (!bk.check_invariants()) return false;]
    over the entries in the order the hash table yields them. *)
Fixpoint check_all_loop (l : list (SymbolId * OrderBook)) : outcome bool :=
  match l with
  | [] => Ok true
  | (_, bk) :: l' =>
      ok ← check_invariants bk;
      if negb ok then Ok false else check_all_loop l'
  end.

(** The order in which a hash table is traversed is unspecified. *)
Section HashOrder.
Context (hash_order : gmap Z OrderBook -> list (Z * OrderBook)).

Definition check_all_invariants (m : BookManager) : outcome bool := check_all_loop (hash_order m).

(** [for_each(fn)] on the state [fn] captures by reference. *)
Definition for_each {S} (fn : SymbolId -> OrderBook -> S -> outcome S) (m : BookManager) (s : S)
  : outcome S :=
  foldl (fun acc e => s ← acc; fn e.1 e.2 s) (Ok s) (hash_order m).
End HashOrder.

(** ** BookBuilder *)

Record BookStats := mkBookStats {
  st_adds : Z; st_cancels : Z; st_modifies : Z; st_trades : Z;
  st_snapshots : Z; st_heartbeats : Z; st_malformed : Z;
  st_rejected : Z
}.
Definition no_stats : BookStats := mkBookStats 0 0 0 0 0 0 0 0.

Definition incr_adds (s : BookStats) : BookStats :=
  mkBookStats (incr64 (st_adds s)) (st_cancels s) (st_modifies s) (st_trades s) (st_snapshots s)
    (st_heartbeats s) (st_malformed s) (st_rejected s).
Definition incr_cancels (s : BookStats) : BookStats :=
  mkBookStats (st_adds s) (incr64 (st_cancels s)) (st_modifies s) (st_trades s) (st_snapshots s)
    (st_heartbeats s) (st_malformed s) (st_rejected s).
Definition incr_modifies (s : BookStats) : BookStats :=
  mkBookStats (st_adds s) (st_cancels s) (incr64 (st_modifies s)) (st_trades s) (st_snapshots s)
    (st_heartbeats s) (st_malformed s) (st_rejected s).
Definition incr_trades (s : BookStats) : BookStats :=
  mkBookStats (st_adds s) (st_cancels s) (st_modifies s) (incr64 (st_trades s)) (st_snapshots s)
    (st_heartbeats s) (st_malformed s) (st_rejected s).
Definition incr_snapshots (s : BookStats) : BookStats :=
  mkBookStats (st_adds s) (st_cancels s) (st_modifies s) (st_trades s) (incr64 (st_snapshots s))
    (st_heartbeats s) (st_malformed s) (st_rejected s).
Definition incr_heartbeats (s : BookStats) : BookStats :=
  mkBookStats (st_adds s) (st_cancels s) (st_modifies s) (st_trades s) (st_snapshots s)
    (incr64 (st_heartbeats s)) (st_malformed s) (st_rejected s).
Definition incr_malformed_count (s : BookStats) : BookStats :=
  mkBookStats (st_adds s) (st_cancels s) (st_modifies s) (st_trades s) (st_snapshots s)
    (st_heartbeats s) (incr64 (st_malformed s)) (st_rejected s).
Definition incr_rejected (s : BookStats) : BookStats :=
  mkBookStats (st_adds s) (st_cancels s) (st_modifies s) (st_trades s) (st_snapshots s)
    (st_heartbeats s) (st_malformed s) (incr64 (st_rejected s)).

(** The builder, indexed by whether it was compiled with [NDEBUG]. *)
Record BookBuilder (ndebug : bool) := mkBookBuilder {
  bb_manager : BookManager;
  bb_stats : BookStats;
  bb_verify : bool
}.
Arguments mkBookBuilder {ndebug}.
Arguments bb_manager {ndebug}.
Arguments bb_stats {ndebug}.
Arguments bb_verify {ndebug}.

Section BookBuilder.
Context {ndebug : bool}.
Implicit Types (bb : BookBuilder ndebug).

Definition new_builder : BookBuilder ndebug := mkBookBuilder ∅ no_stats (negb ndebug).
Definition set_verify (v : bool) bb : BookBuilder ndebug :=
  mkBookBuilder (bb_manager bb) (bb_stats bb) v.
Definition set_stats (s : BookStats) bb : BookBuilder ndebug :=
  mkBookBuilder (bb_manager bb) s (bb_verify bb).
Definition set_manager (m : BookManager) bb : BookBuilder ndebug :=
  mkBookBuilder m (bb_stats bb) (bb_verify bb).

(** [if (verify_) assert(bk.check_invariants());]: with [NDEBUG] the macro
    does not evaluate its argument. *)
Definition verify_book (bk : OrderBook) bb : outcome unit :=
  if bb_verify bb then
    if ndebug then Ok tt else ok ← check_invariants bk; cassert ndebug ok
  else Ok tt.

(** The common shape of the four order callbacks: count the event, take the
    symbol's book, apply [op] to it in place, count a rejection, verify. *)
Definition apply_op (count : BookStats -> BookStats) (symbol : SymbolId)
    (op : OrderBook -> outcome (bool * OrderBook)) bb : outcome (BookBuilder ndebug) :=
  let bb := set_stats (count (bb_stats bb)) bb in
  let '(bk, m) := book symbol (bb_manager bb) in
  r ← op bk;
  let '(ok, bk) := r in
  let bb := set_manager (<[symbol := bk]> m) bb in
  let bb := if negb ok then set_stats (incr_rejected (bb_stats bb)) bb else bb in
  verify_book bk bb;;
  Ok bb.

Definition bb_on_add_order (_ : MessageHeader) (m : AddOrder) : BookBuilder ndebug -> _ :=
  apply_op incr_adds (add_symbol m)
    (add (add_order_id m) (add_side m) (add_price m) (add_quantity m)).
Definition bb_on_cancel_order (_ : MessageHeader) (m : CancelOrder) : BookBuilder ndebug -> _ :=
  apply_op incr_cancels (cancel_symbol m) (cancel (cancel_order_id m)).
Definition bb_on_modify_order (_ : MessageHeader) (m : ModifyOrder) : BookBuilder ndebug -> _ :=
  apply_op incr_modifies (mod_symbol m)
    (modify (mod_order_id m) (mod_new_price m) (mod_new_quantity m)).
Definition bb_on_trade (_ : MessageHeader) (m : Trade) : BookBuilder ndebug -> _ :=
  apply_op incr_trades (trade_symbol m) (execute (trade_resting_order_id m) (trade_quantity m)).
Definition bb_on_snapshot (_ : MessageHeader) (_ : BookSnapshot) bb : outcome (BookBuilder ndebug) :=
  Ok (set_stats (incr_snapshots (bb_stats bb)) bb).
Definition bb_on_heartbeat (_ : MessageHeader) bb : outcome (BookBuilder ndebug) :=
  Ok (set_stats (incr_heartbeats (bb_stats bb)) bb).
Definition bb_on_malformed (_ : nat) bb : outcome (BookBuilder ndebug) :=
  Ok (set_stats (incr_malformed_count (bb_stats bb)) bb).

#[export] Instance BookBuilder_like : HandlerLike (BookBuilder ndebug) := {|
  on_add_order := bb_on_add_order;
  on_cancel_order := bb_on_cancel_order;
  on_modify_order := bb_on_modify_order;
  on_trade := bb_on_trade;
  on_snapshot := bb_on_snapshot;
  on_heartbeat := bb_on_heartbeat;
  on_malformed := bb_on_malformed
|}.
End BookBuilder.
Arguments new_builder : clear implicits.

(** ** The specification *)

(** The call an event makes on the book of its symbol. *)
Definition event_op (ev : Event) : option (SymbolId * BookOp) :=
  match ev with
  | EvAddOrder _ m =>
      Some (add_symbol m, OpAdd (add_order_id m) (add_side m) (add_price m) (add_quantity m))
  | EvCancelOrder _ m => Some (cancel_symbol m, OpCancel (cancel_order_id m))
  | EvModifyOrder _ m =>
      Some (mod_symbol m, OpModify (mod_order_id m) (mod_new_price m) (mod_new_quantity m))
  | EvTrade _ m => Some (trade_symbol m, OpExecute (trade_resting_order_id m) (trade_quantity m))
  | EvSnapshot _ _ | EvHeartbeat _ | EvMalformed _ => None
  end.

Definition count_event (ev : Event) : BookStats -> BookStats :=
  match ev with
  | EvAddOrder _ _ => incr_adds
  | EvCancelOrder _ _ => incr_cancels
  | EvModifyOrder _ _ => incr_modifies
  | EvTrade _ _ => incr_trades
  | EvSnapshot _ _ => incr_snapshots
  | EvHeartbeat _ => incr_heartbeats
  | EvMalformed _ => incr_malformed_count
  end.

(** The live orders of every symbol seen, and the counters. *)
Notation Books := (gmap Z (list Order)) (only parsing).

Definition orders_of (symbol : SymbolId) (S : Books) : list Order := default [] (S !! symbol).

Definition spec_event (ev : Event) (s : Books * BookStats) : Books * BookStats :=
  match event_op ev with
  | None => (s.1, count_event ev s.2)
  | Some (symbol, op) =>
      let r := spec_op op (orders_of symbol s.1) in
      (<[symbol := r.2]> s.1,
       if r.1 then count_event ev s.2 else incr_rejected (count_event ev s.2))
  end.

Fixpoint spec_events (evs : list Event) (s : Books * BookStats) : Books * BookStats :=
  match evs with
  | [] => s
  | ev :: evs' => spec_events evs' (spec_event ev s)
  end.

(** A manager represents the live orders per symbol: the same symbols, each
    with a well-formed book of its own. *)
Definition manager_state (m : BookManager) (S : Books) : Prop :=
  forall symbol,
    match m !! symbol, S !! symbol with
    | None, None => True
    | Some bk, Some l => book_state bk l /\ ob_symbol bk = symbol
    | _, _ => False
    end.

Definition builder_state {ndebug} (bb : BookBuilder ndebug) (s : Books * BookStats) : Prop :=
  manager_state (bb_manager bb) s.1 /\ bb_stats bb = s.2.

(** ** The symbol of a book never changes *)

Lemma set_side_symbol buy m b : ob_symbol (set_side buy m b) = ob_symbol b.
Proof. by destruct buy. Qed.

Lemma run_op_symbol op b r : run_op op b = Ok r -> ob_symbol r.2 = ob_symbol b.
Proof.
  assert (forall id r, cancel id b = Ok r -> ob_symbol r.2 = ob_symbol b) as Hc.
  { intros id r'. unfold cancel. case_match; [|by intros [= <-]].
    intros ([m h] & _ & [= <-])%bind_Ok_inv. apply set_side_symbol. }
  destruct op; cbn [run_op]; [|by apply Hc| | |by intros [= <-]].
  - unfold add. case_match; [by intros [= <-]|]. case_match; [by intros [= <-]|].
    intros ([[m h] it] & _ & [= <-])%bind_Ok_inv. apply set_side_symbol.
  - unfold modify. case_match; [apply Hc|]. case_match; [|by intros [= <-]].
    intros (o1 & _ & H1)%bind_Ok_inv. case_match.
    + apply bind_Ok_inv in H1 as (h & _ & H1). apply bind_Ok_inv in H1 as (m & _ & [= <-]).
      apply set_side_symbol.
    + apply bind_Ok_inv in H1 as ([m h] & _ & H1). apply bind_Ok_inv in H1 as ([[m' h'] it] & _ & [= <-]).
      apply set_side_symbol.
  - unfold execute. case_match; [|by intros [= <-]].
    intros (o1 & _ & H1)%bind_Ok_inv. apply bind_Ok_inv in H1 as (h & _ & H1).
    apply bind_Ok_inv in H1 as (m & _ & H1). apply bind_Ok_inv in H1 as (o2 & _ & H1).
    case_match; [|injection H1 as <-; apply set_side_symbol].
    apply bind_Ok_inv in H1 as ([m' h'] & _ & [= <-]).
    cbn. rewrite set_side_symbol. cbn. by rewrite set_side_symbol.
Qed.

(** ** The builder refines the specification *)

Section Refinement.
Context {ndebug : bool}.
Implicit Types (bb : BookBuilder ndebug) (s : Books * BookStats).

Lemma builder_state_new : builder_state (new_builder ndebug) (∅, no_stats).
Proof. split; [|done]. intros symbol. cbn. by rewrite !lookup_empty. Qed.

Lemma book_access symbol m S :
  manager_state m S ->
  exists bk, book symbol m = (bk, <[symbol := bk]> m) /\ book_state bk (orders_of symbol S) /\
             ob_symbol bk = symbol.
Proof.
  intros Hm. specialize (Hm symbol). unfold book, orders_of.
  destruct (m !! symbol) as [bk|] eqn:E, (S !! symbol) as [l|]; try done.
  - destruct Hm as [Hb Hs]. exists bk. by rewrite insert_id.
  - exists (new_book symbol). split_and!; [done|apply new_book_state|done].
Qed.

Lemma manager_size m S : manager_state m S -> size m = size S.
Proof.
  intros Hm. rewrite <- !size_dom. f_equal. apply set_eq. intros sym. rewrite !elem_of_dom.
  specialize (Hm sym). destruct (m !! sym), (S !! sym); try done; by split; intros []; eexists.
Qed.

Lemma manager_state_insert symbol bk l m S :
  manager_state m S -> book_state bk l -> ob_symbol bk = symbol ->
  manager_state (<[symbol := bk]> m) (<[symbol := l]> S).
Proof.
  intros Hm Hb Hs symbol'. destruct (decide (symbol' = symbol)) as [->|Hne].
  - by rewrite !lookup_insert_eq.
  - rewrite !lookup_insert_ne by done. apply Hm.
Qed.

(** Whether the verification of a book passes: always, unless it is compiled
    in, switched on and the book is crossed. *)
Lemma verify_book_spec bk l bb :
  book_state bk l ->
  (verify_book bk bb = Ok tt /\ (bb_verify bb && negb ndebug = true -> ~ crossed l)) \/
  (verify_book bk bb = Abort /\ bb_verify bb && negb ndebug = true /\ crossed l).
Proof.
  intros (L & Hrep & <-). unfold verify_book. destruct (bb_verify bb); [|by left].
  destruct ndebug; [by left|].
  destruct (rep_check_invariants _ _ Hrep) as (ok & -> & Hok). rewrite bind_ok.
  pose proof (rep_crossed _ _ Hrep) as Hx.
  destruct ok; [left; by split; [|intros; apply Hok]|right].
  split_and!; [done..|]. apply Hx. destruct (match om_begin (ob_bids bk) with Some _ => _ | None => _ end);
    [done|]. apply Hok. intros Hc. by apply Hx in Hc.
Qed.

Lemma apply_op_spec count symbol op bb s :
  op_ok op -> builder_state bb s ->
  let r := spec_op op (orders_of symbol s.1) in
  exists bb',
    builder_state bb' (<[symbol := r.2]> s.1,
                       if r.1 then count s.2 else incr_rejected (count s.2)) /\
    bb_verify bb' = bb_verify bb /\
    ((apply_op count symbol (run_op op) bb = Ok bb' /\
      (bb_verify bb && negb ndebug = true -> ~ crossed r.2)) \/
     (apply_op count symbol (run_op op) bb = Abort /\ bb_verify bb && negb ndebug = true /\
      crossed r.2)).
Proof.
  intros Hop [Hm Hst] r. unfold apply_op. cbn [bb_manager set_stats].
  destruct (book_access symbol _ _ Hm) as (bk & -> & Hbk & Hsym).
  destruct (run_op_implements op Hop bk _ Hbk) as (bk' & Hrun & Hbk'). fold r in Hrun, Hbk'.
  pose proof (run_op_symbol _ _ _ Hrun) as Hsym'. cbn [snd] in Hsym'.
  rewrite Hrun, bind_ok, insert_insert_eq.
  set (bb0 := set_manager _ (set_stats _ bb)).
  set (bb1 := if negb r.1 then set_stats (incr_rejected (bb_stats bb0)) bb0 else bb0).
  assert (bb_verify bb1 = bb_verify bb) as Hver by (unfold bb1; by destruct r.1).
  exists bb1. split_and!; [|done|].
  - split; [|unfold bb1; cbn; rewrite <- Hst; by destruct r.1].
    assert (bb_manager bb1 = <[symbol := bk']> (bb_manager bb)) as -> by (unfold bb1; by destruct r.1).
    apply manager_state_insert; [done..|congruence].
  - cbn zeta. rewrite <- Hver.
    destruct (verify_book_spec bk' r.2 bb1 Hbk') as [[-> Hc]|(-> & Hv & Hc)]; [by left|by right].
Qed.
End Refinement.

(** ** Events *)

(** The event leaves its book crossed. *)
Definition crosses (ev : Event) (s : Books * BookStats) : Prop :=
  match event_op ev with
  | Some (symbol, op) => crossed (spec_op op (orders_of symbol s.1)).2
  | None => False
  end.

(** No event of the sequence leaves its book crossed. *)
Fixpoint never_crosses (evs : list Event) (s : Books * BookStats) : Prop :=
  match evs with
  | [] => True
  | ev :: evs' => ~ crosses ev s /\ never_crosses evs' (spec_event ev s)
  end.

(** Verification is compiled in and switched on. *)
Definition checked {ndebug} (bb : BookBuilder ndebug) : bool := bb_verify bb && negb ndebug.

Lemma event_op_ok ev symbol op : event_ok ev -> event_op ev = Some (symbol, op) -> op_ok op.
Proof.
  destruct ev; cbn; try done; intros [_ Hm] [= _ <-]; cbn; try done;
    unfold AddOrder_ok, ModifyOrder_ok, Trade_ok in Hm; tauto.
Qed.

Section Events.
Context {ndebug : bool}.
Implicit Types (bb : BookBuilder ndebug) (s : Books * BookStats).

Lemma deliver_event_op ev bb :
  deliver ev bb =
  match event_op ev with
  | Some (symbol, op) => apply_op (count_event ev) symbol (run_op op) bb
  | None => Ok (set_stats (count_event ev (bb_stats bb)) bb)
  end.
Proof. by destruct ev. Qed.

(** An event either takes the builder to the specified state or, when
    verification is on and the event crosses the book, aborts. *)
Lemma deliver_builder ev bb s :
  event_ok ev -> builder_state bb s ->
  exists bb', builder_state bb' (spec_event ev s) /\ checked bb' = checked bb /\
    ((deliver ev bb = Ok bb' /\ (checked bb = true -> ~ crosses ev s)) \/
     (deliver ev bb = Abort /\ checked bb = true /\ crosses ev s)).
Proof.
  intros Hev Hbb. rewrite deliver_event_op. unfold spec_event, crosses.
  destruct (event_op ev) as [[symbol op]|] eqn:Eop.
  - destruct (apply_op_spec (count_event ev) symbol op bb s) as (bb' & Hs & Hv & Hr);
      [by eapply event_op_ok|done|].
    exists bb'. split; [done|]. unfold checked in *. by rewrite Hv.
  - exists (set_stats (count_event ev (bb_stats bb)) bb). destruct Hbb as [Hm Hst].
    split; [|split; [done|left; tauto]]. split; [done|]. cbn. by rewrite Hst.
Qed.

Lemma deliver_all_unchecked evs bb s :
  Forall event_ok evs -> builder_state bb s -> checked bb = false ->
  exists bb', deliver_all evs bb = Ok bb' /\ builder_state bb' (spec_events evs s) /\
              checked bb' = false.
Proof.
  intros Hevs. revert bb s; induction Hevs as [|ev evs Hev _ IH]; intros bb s Hbb Hc; [by exists bb|].
  destruct (deliver_builder ev bb s Hev Hbb) as (bb1 & Hbb1 & Hc1 & [[E _]|(_ & ? & _)]); [|congruence].
  cbn [deliver_all spec_events]. rewrite E, bind_ok. apply IH; congruence.
Qed.

Lemma deliver_all_checked evs bb s :
  Forall event_ok evs -> builder_state bb s -> checked bb = true ->
  (never_crosses evs s /\ exists bb', deliver_all evs bb = Ok bb' /\
     builder_state bb' (spec_events evs s) /\ checked bb' = true) \/
  (~ never_crosses evs s /\ deliver_all evs bb = Abort).
Proof.
  intros Hevs. revert bb s; induction Hevs as [|ev evs Hev _ IH]; intros bb s Hbb Hc.
  { left. split; [done|]. by exists bb. }
  destruct (deliver_builder ev bb s Hev Hbb) as (bb1 & Hbb1 & Hc1 & [[E Hx]|(E & _ & Hx)]);
    cbn [deliver_all spec_events never_crosses]; rewrite E; [rewrite bind_ok|].
  - specialize (Hx Hc). destruct (IH bb1 _ Hbb1) as [[Hn Hr]|[Hn Hr]]; [congruence|left|right]; tauto.
  - right. split; [tauto|done].
Qed.

#[export] Instance BookBuilder_offset : OffsetInsensitive (BookBuilder ndebug).
Proof. done. Qed.

(** With verification off the builder is a safe sink: its books stay
    well-formed whatever the feed says. *)
#[export] Instance BookBuilder_safe :
  HandlerSafe (BookBuilder ndebug) (fun bb => (exists s, builder_state bb s) /\ checked bb = false).
Proof.
  intros ev bb Hev [[s Hbb] Hc].
  destruct (deliver_builder ev bb s Hev Hbb) as (bb1 & Hbb1 & Hc1 & [[E _]|(_ & ? & _)]); [|congruence].
  exists bb1. split; [done|]. split; [by eexists|congruence].
Qed.
End Events.

(** ** check_all_invariants *)

Lemma check_all_loop_spec l :
  (forall e, e ∈ l -> exists c, check_invariants e.2 = Ok c) ->
  exists ok, check_all_loop l = Ok ok /\
    (ok = true <-> forall e, e ∈ l -> check_invariants e.2 = Ok true).
Proof.
  induction l as [|[sym bk] l IH]; intros Hl.
  { exists true. split; [done|]. split; [|done]. by intros _ e ?%not_elem_of_nil. }
  destruct (Hl (sym, bk)) as [c Hc]; [left|]. cbn in *. rewrite Hc, bind_ok.
  destruct c; cbn [negb].
  - destruct IH as (ok & -> & Hok); [intros e He; apply Hl; by right|].
    exists ok. split; [done|]. rewrite Hok. setoid_rewrite elem_of_cons. naive_solver.
  - exists false. split; [done|]. split; [done|]. intros H.
    pose proof (H (sym, bk) ltac:(left)) as Hb. cbn in Hb. congruence.
Qed.

(** ** The theorems *)

(** A feed on two symbols that trades, cancels an unknown order and sends a
    snapshot, for the witnesses. *)
Definition demo_header (seq : Z) : MessageHeader := mkMessageHeader MsgAddOrder 1 25 seq 0.
Definition demo_events : list Event :=
  [EvAddOrder (demo_header 1) (mkAddOrder 7 1 Side_Buy 100 5);
   EvAddOrder (demo_header 2) (mkAddOrder 7 2 Side_Sell 101 4);
   EvTrade (demo_header 3) (mkTrade 7 2 101 3 Side_Buy);
   EvCancelOrder (demo_header 4) (mkCancelOrder 8 9);
   EvHeartbeat (demo_header 5)].

Lemma demo_events_ok : Forall event_ok demo_events.
Proof. solve_ranges. Qed.

(** C24: in a release build (or with verification off) the builder takes every
    sequence of decoded events, however hostile, to the state the
    specification reaches: the live orders of each symbol, and each counter
    including the rejected events; it never fails. *)
Theorem builder_refines_spec evs :
  Forall event_ok evs ->
  exists bb, deliver_all evs (new_builder true) = Ok bb /\
    manager_state (bb_manager bb) (spec_events evs (∅, no_stats)).1 /\
    bb_stats bb = (spec_events evs (∅, no_stats)).2.
Proof.
  intros Hevs.
  destruct (deliver_all_unchecked evs (new_builder true) (∅, no_stats) Hevs builder_state_new eq_refl)
    as (bb & E & [Hm Hs] & _). by exists bb.
Qed.

Lemma builder_refines_spec_witness :
  exists bb, deliver_all demo_events (new_builder true) = Ok bb /\
    bb_stats bb = mkBookStats 2 1 0 1 0 1 0 1.
Proof.
  destruct (builder_refines_spec demo_events demo_events_ok) as (bb & E & _ & Hs).
  exists bb. split; [exact E|]. exact Hs.
Defined.

(** C25: in a debug build with verification on, the builder fails only by the
    assertion and only when the feed crosses a book: it processes a sequence
    of events completely, reaching the specified state, exactly when no event
    leaves its book crossed, and aborts otherwise. *)
Theorem checked_builder_aborts_iff_crossed evs :
  Forall event_ok evs ->
  (never_crosses evs (∅, no_stats) /\
   exists bb, deliver_all evs (new_builder false) = Ok bb /\
     manager_state (bb_manager bb) (spec_events evs (∅, no_stats)).1) \/
  (~ never_crosses evs (∅, no_stats) /\ deliver_all evs (new_builder false) = Abort).
Proof.
  intros Hevs.
  destruct (deliver_all_checked evs (new_builder false) (∅, no_stats) Hevs builder_state_new eq_refl)
    as [[Hn (bb & E & [Hm _] & _)]|?]; [left|by right]. split; [done|]. by exists bb.
Qed.

Lemma checked_builder_aborts_iff_crossed_witness :
  deliver_all [EvAddOrder (demo_header 1) (mkAddOrder 7 1 Side_Buy 100 5);
               EvAddOrder (demo_header 2) (mkAddOrder 7 2 Side_Sell 100 4)] (new_builder false)
  = Abort.
Proof.
  destruct (checked_builder_aborts_iff_crossed
    [EvAddOrder (demo_header 1) (mkAddOrder 7 1 Side_Buy 100 5);
     EvAddOrder (demo_header 2) (mkAddOrder 7 2 Side_Sell 100 4)]) as [[Hn _]|[_ E]].
  - solve_ranges.
  - exfalso. destruct Hn as (_ & Hn & _). apply Hn.
    exists (mkOrder 1 Side_Buy 100 5), (mkOrder 2 Side_Sell 100 4). cbn.
    split_and!; try done; [left|right; left].
  - exact E.
Defined.

(** [check_all_invariants] of a represented manager returns, and answers
    whether no symbol's book is crossed, in whatever order the hash table is
    traversed. *)
Theorem check_all_invariants_decides hash_order m S :
  hash_order m ≡ₚ map_to_list m -> manager_state m S ->
  exists ok, check_all_invariants hash_order m = Ok ok /\
    (ok = true <-> forall symbol l, S !! symbol = Some l -> ~ crossed l).
Proof.
  intros Hperm Hm.
  assert (forall e, e ∈ hash_order m -> exists l, S !! e.1 = Some l /\ book_state e.2 l) as Hin.
  { intros [sym bk] He. rewrite Hperm in He. apply elem_of_map_to_list in He.
    specialize (Hm sym). rewrite He in Hm. destruct (S !! sym) as [l|] eqn:E; [|done].
    exists l. cbn. by destruct Hm. }
  destruct (check_all_loop_spec (hash_order m)) as (ok & Hr & Hok).
  { intros e He. destruct (Hin e He) as (l & _ & L & Hrep & <-).
    destruct (rep_check_invariants _ _ Hrep) as (c & Hc & _). by exists c. }
  exists ok. split; [done|]. rewrite Hok. split.
  - intros Hall symbol l Hl. specialize (Hm symbol). rewrite Hl in Hm.
    destruct (m !! symbol) as [bk|] eqn:E; [|done]. destruct Hm as [(L & Hrep & <-) _].
    destruct (rep_check_invariants _ _ Hrep) as (c & Hc & Hx). apply Hx.
    assert ((symbol, bk) ∈ hash_order m) as He by by rewrite Hperm, elem_of_map_to_list.
    specialize (Hall _ He). cbn in Hall. congruence.
  - intros Hall e He. destruct (Hin e He) as (l & Hl & L & Hrep & <-).
    destruct (rep_check_invariants _ _ Hrep) as (c & Hc & Hx). rewrite Hc. f_equal.
    apply Hx. by eapply Hall.
Qed.

Lemma check_all_invariants_decides_witness :
  exists ok, check_all_invariants map_to_list {[7 := demo_book]} = Ok ok /\
    (ok = true <-> forall symbol l, ({[7 := demo_orders]} : Books) !! symbol = Some l -> ~ crossed l).
Proof.
  apply (check_all_invariants_decides map_to_list {[7 := demo_book]} {[7 := demo_orders]}).
  - reflexivity.
  - intros symbol. destruct (decide (symbol = 7)) as [->|Hne].
    + rewrite !lookup_singleton_eq. split; [apply demo_state|reflexivity].
    + rewrite !lookup_singleton_ne by congruence. exact I.
Defined.
