(* ===== verification/EndToEnd.v ===== *)
(** The feed handler driving the book builder, from bytes to books: whatever
    bytes arrive the process survives with well-formed books, and a stream of
    encoded messages, however it is cut into segments, produces exactly the
    books its messages describe. *)
From S2P Require Import Prelude ByteOrder Protocol Serialization Parser SequenceTracker.
From S2P Require Import FeedHandler OrderedMap OrderBook BookSpec BookProofs BookTheorems.
From S2P Require Import BookBuilder.

Local Open Scope Z_scope.

(** ** Gap-free sequence numbers *)

(** [s], [s+1], ... with the 32-bit wrap-around. *)
Fixpoint consecutive (s : Sequence) (seqs : list Sequence) : Prop :=
  match seqs with
  | [] => True
  | x :: seqs' => x = s /\ consecutive (wrap 32 (s + 1)) seqs'
  end.

(** The tracker expects [s] next. *)
Definition expects (s : Sequence) (t : SequenceTracker) : Prop :=
  tr_initialized t = true -> tr_next_expected t = s.

Lemma observe_expected s t :
  expects s t -> (observe s t).1 = InOrder /\ expects (wrap 32 (s + 1)) (observe s t).2.
Proof.
  unfold expects, observe. intros Ht. destruct (tr_initialized t); cbn [negb].
  - rewrite Ht, Z.eqb_refl by done. done.
  - done.
Qed.

Lemma forwarded_consecutive evs s t :
  expects s t -> consecutive s (event_seqs evs) -> forwarded_events evs t = evs.
Proof.
  revert s t; induction evs as [|ev evs IH]; intros s t Ht Hc; [done|].
  rewrite event_seqs_cons in Hc. cbn [forwarded_events].
  destruct (event_header ev) as [hdr|]; [|by rewrite (IH s)].
  destruct Hc as [-> Hc]. destruct (observe_expected s t Ht) as [-> Ht'].
  cbn [accepted app]. by rewrite (IH (wrap 32 (s + 1))).
Qed.

Lemma observe_all_consecutive seqs s t :
  expects s t -> consecutive s seqs -> (observe_all seqs t).1 = replicate (length seqs) InOrder.
Proof.
  revert s t; induction seqs as [|x seqs IH]; intros s t Ht Hc; [done|].
  destruct Hc as [-> Hc]. destruct (observe_expected s t Ht) as [E Ht'].
  cbn [observe_all fst length replicate]. by rewrite E, (IH (wrap 32 (s + 1))).
Qed.

Lemma count_in_order n :
  count_accepted (replicate n InOrder) = n /\ count_rejected (replicate n InOrder) = 0%nat.
Proof.
  unfold count_accepted, count_rejected.
  induction n as [|n [IH1 IH2]]; [done|]. cbn [replicate].
  rewrite filter_cons_True, filter_cons_False by (cbn; congruence). cbn [length]. auto.
Qed.

(** ** Consuming with a specified sink *)

Section Consume.
Context {ndebug : bool}.
Implicit Types (fh : FeedHandler (BookBuilder ndebug)).

Lemma forwarded_events_ok evs t : Forall event_ok evs -> Forall event_ok (forwarded_events evs t).
Proof.
  intros Hevs. revert t; induction Hevs as [|ev evs Hev _ IH]; intros t; [constructor|].
  cbn. destruct (event_header ev); [|by constructor].
  apply Forall_app. split; [|apply IH]. destruct (accepted _); by repeat constructor.
Qed.

(** One call of [consume] on a release build: the forwarded events drive the
    books to the specified state. *)
Lemma consume_books bytes fh s :
  counters_ok fh -> builder_state (fh_down fh) s -> checked (fh_down fh) = false ->
  let sc := scan_at 0 (fh_residual fh ++ bytes) in
  exists bb,
    consume bytes fh =
      Ok (accumulate (scan_result sc)
            (set_residual (drop (sc_consumed sc) (fh_residual fh ++ bytes))
               (after_events (sc_events sc) bb fh)), scan_result sc) /\
    builder_state bb (spec_events (forwarded_events (sc_events sc) (fh_seq fh)) s) /\
    checked bb = false.
Proof.
  intros Hc Hbb Hch sc. rewrite consume_spec. fold sc. cbn zeta.
  rewrite deliver_all_feed by done.
  destruct (deliver_all_unchecked (forwarded_events (sc_events sc) (fh_seq fh)) _ s
    (forwarded_events_ok _ _ (scan_events_ok 0 _)) Hbb Hch) as (bb & E & Hbb' & Hch').
  rewrite E, bind_ok. by exists bb.
Qed.

End Consume.

Lemma counters_new {D} `{HandlerLike D} (d : D) : counters_ok (new_feed d).
Proof. split_and!; cbn; unfold in_unsigned; lia. Qed.

(** ** Streams of packets *)

Lemma packet_event_header p : packet_ok p -> event_header (packet_event p) = Some (packet_header p).
Proof. by destruct p as [seq ts []]. Qed.

Lemma packet_event_seqs ps :
  Forall packet_ok ps -> event_seqs (map packet_event ps) = map pk_seq ps.
Proof.
  induction 1 as [|p ps Hp _ IH]; [done|]. cbn [map].
  rewrite event_seqs_cons, packet_event_header, IH by done. done.
Qed.

Lemma packet_events_ok ps : Forall packet_ok ps -> Forall event_ok (map packet_event ps).
Proof. intros Hps. apply Forall_fmap. eapply Forall_impl; [exact Hps|]. apply packet_event_ok. Qed.

(** The statistics of a gap-free sequence. *)
Lemma observe_all_in_order seqs s t :
  expects s t -> consecutive s seqs ->
  in_unsigned 64 (st_total (tr_stats t)) -> in_unsigned 64 (st_in_order (tr_stats t)) ->
  let st := tr_stats t in
  tr_stats (observe_all seqs t).2 =
  mkSeqStats (add64 (st_total st) (Z.of_nat (length seqs))) (add64 (st_in_order st) (Z.of_nat (length seqs)))
    (st_duplicates st) (st_out_of_order st) (st_gap_events st) (st_missing st).
Proof.
  revert s t; induction seqs as [|x seqs IH]; intros s t Ht Hc Htot Hin; cbn zeta.
  - cbn. rewrite !add64_0 by done. by destruct (tr_stats t).
  - destruct Hc as [-> Hc]. destruct (observe_expected s t Ht) as [E Ht'].
    assert (tr_stats (observe s t).2 = incr_in_order (incr_total (tr_stats t))) as Hst.
    { unfold observe in *. unfold expects in Ht. destruct (tr_initialized t); [|done].
      cbn [negb] in *. by rewrite Ht, Z.eqb_refl. }
    cbn [observe_all snd]. erewrite IH; [|exact Ht'|exact Hc|rewrite Hst; apply wrap_range; lia..].
    rewrite Hst. cbn [st_total st_in_order st_duplicates st_out_of_order st_gap_events st_missing
      incr_in_order incr_total length]. by rewrite !add64_incr.
Qed.

(** Events that no assertion stops: any, in a release build; those that never
    cross a book, in a debug build. *)
Lemma deliver_all_passes {ndebug} evs :
  Forall event_ok evs -> ndebug = true \/ never_crosses evs (∅, no_stats) ->
  exists bb, deliver_all evs (new_builder ndebug) = Ok bb /\
    builder_state bb (spec_events evs (∅, no_stats)).
Proof.
  intros Hev Hwhy. destruct ndebug.
  - destruct (deliver_all_unchecked evs (new_builder true) _ Hev builder_state_new eq_refl) as (bb & E & Hbb & _).
    by exists bb.
  - destruct Hwhy as [?|Hn]; [done|].
    destruct (deliver_all_checked evs (new_builder false) _ Hev builder_state_new eq_refl)
      as [[_ (bb & E & Hbb & _)]|[? _]]; [by exists bb|done].
Qed.

Lemma builder_passes_or_aborts {ndebug} evs :
  Forall event_ok evs ->
  ((ndebug = true \/ never_crosses evs (∅, no_stats)) /\
   exists bb, deliver_all evs (new_builder ndebug) = Ok bb /\ builder_state bb (spec_events evs (∅, no_stats))) \/
  (ndebug = false /\ ~ never_crosses evs (∅, no_stats) /\ deliver_all evs (new_builder ndebug) = Abort).
Proof.
  intros Hev. destruct ndebug.
  - left. split; [by left|]. apply deliver_all_passes; [done|by left].
  - destruct (deliver_all_checked evs (new_builder false) _ Hev builder_state_new eq_refl)
      as [[Hn (bb & E & Hbb & _)]|?]; [left|by right]. split; [by right|]. by exists bb.
Qed.

Lemma stream_events_ok res chunks : Forall event_ok (stream_events res chunks).
Proof.
  revert res; induction chunks as [|bytes chunks IH]; intros res; [constructor|].
  cbn [stream_events]. apply Forall_app. split; [apply scan_events_ok|apply IH].
Qed.

(** A feed handler that has received [evs] since it was new: the tracker and the
    counters it has come to, and the books and statistics of the messages it has
    forwarded. *)
Record received {ndebug} (evs : list Event) (fh : FeedHandler (BookBuilder ndebug)) : Prop := mkReceived {
  rv_books : builder_state (fh_down fh) (spec_events (forwarded_events evs new_tracker) (∅, no_stats));
  rv_seq : fh_seq fh = (observe_all (event_seqs evs) new_tracker).2;
  rv_forwarded :
    fh_forwarded fh = wrap 64 (Z.of_nat (count_accepted (observe_all (event_seqs evs) new_tracker).1));
  rv_dropped :
    fh_dropped fh = wrap 64 (Z.of_nat (count_rejected (observe_all (event_seqs evs) new_tracker).1));
  rv_malformed : fh_malformed fh = wrap 64 (Z.of_nat (bad_count evs))
}.

(** What a new handler makes of a list of events, on either build. *)
Lemma events_received {ndebug} evs :
  Forall event_ok evs ->
  let fwd := forwarded_events evs new_tracker in
  ((ndebug = true \/ never_crosses fwd (∅, no_stats)) /\
   exists fh, deliver_all evs (new_feed (new_builder ndebug)) = Ok fh /\
     forall res, received evs (set_pending res (add64 0 (Z.of_nat (bad_count evs))) fh)) \/
  (ndebug = false /\ ~ never_crosses fwd (∅, no_stats) /\
   deliver_all evs (new_feed (new_builder ndebug)) = Abort).
Proof.
  intros Hev fwd. rewrite deliver_all_feed by apply counters_new. cbn [fh_seq fh_down new_feed]. fold fwd.
  destruct (builder_passes_or_aborts (ndebug := ndebug) fwd) as [[Hwhy (bb & -> & Hbb)]|(-> & Hx & ->)];
    [by apply forwarded_events_ok| |by right].
  left. split; [done|]. rewrite bind_ok. eexists. split; [reflexivity|]. intros res. by split.
Qed.

(** Segments of any bytes. *)
Lemma segments_received {ndebug} chunks :
  let evs := stream_events [] chunks in
  let fwd := forwarded_events evs new_tracker in
  ((ndebug = true \/ never_crosses fwd (∅, no_stats)) /\
   exists fh, consume_all chunks (new_feed (new_builder ndebug)) = Ok (fh, (good_count evs, bad_count evs)) /\
     received evs fh /\ fh_residual fh = stream_rest [] chunks) \/
  (ndebug = false /\ ~ never_crosses fwd (∅, no_stats) /\
   consume_all chunks (new_feed (new_builder ndebug)) = Abort).
Proof.
  cbn zeta. rewrite consume_all_spec by apply counters_new. cbn [fh_residual fh_malformed new_feed].
  destruct (events_received (ndebug := ndebug) (stream_events [] chunks) (stream_events_ok _ _))
    as [[Hwhy (fh & E & Hfh)]|(-> & Hx & E)]; [left|right; by rewrite E].
  split; [done|]. rewrite E, bind_ok. eexists. split; [reflexivity|]. by split.
Qed.

(** A gap-free stream in segments, on either build. *)
Lemma stream_consumed {ndebug} chunks ps seq :
  Forall packet_ok ps -> consecutive seq (map pk_seq ps) ->
  ndebug = true \/ never_crosses (map packet_event ps) (∅, no_stats) ->
  concat chunks = stream_bytes ps ->
  exists fh : FeedHandler (BookBuilder ndebug),
    consume_all chunks (new_feed (new_builder ndebug)) = Ok (fh, (length ps, 0%nat)) /\
    builder_state (fh_down fh) (spec_events (map packet_event ps) (∅, no_stats)) /\
    fh_forwarded fh = wrap 64 (Z.of_nat (length ps)) /\ fh_dropped fh = 0 /\ fh_malformed fh = 0 /\
    pending_bytes fh = 0%nat /\
    tr_stats (fh_seq fh) =
      mkSeqStats (wrap 64 (Z.of_nat (length ps))) (wrap 64 (Z.of_nat (length ps))) 0 0 0 0.
Proof.
  intros Hps Hseq Hwhy Hbytes. set (fh0 := new_feed (new_builder ndebug)).
  pose proof (scan_stream_all ps 0 Hps) as Hscan.
  rewrite consume_all_concat, Hbytes; [|apply quiescent_new|apply counters_new|].
  2:{ rewrite Hbytes. unfold well_framed. change (fh_residual fh0 ++ stream_bytes ps) with (stream_bytes ps).
      by rewrite Hscan. }
  rewrite consume_spec. cbn zeta. change (fh_residual fh0 ++ stream_bytes ps) with (stream_bytes ps).
  rewrite Hscan. cbn [sc_events sc_consumed]. rewrite deliver_all_feed by apply counters_new.
  cbn [fh_seq fh_down fh0 new_feed]. rewrite <- (packet_event_seqs ps Hps) in Hseq.
  rewrite (forwarded_consecutive _ seq) by done.
  destruct (deliver_all_passes (ndebug := ndebug) (map packet_event ps) (packet_events_ok ps Hps) Hwhy)
    as (bb & Eb & Hbb).
  rewrite Eb, !bind_ok. cbn [fst snd]. rewrite packet_scan_result by done.
  eexists. split; [reflexivity|]. unfold pending_bytes.
  cbn [fst fh_down fh_seq fh_forwarded fh_dropped fh_malformed fh_residual accumulate set_residual
    after_events pr_malformed new_feed fh0].
  rewrite (observe_all_consecutive _ seq), (observe_all_in_order _ seq) by done.
  rewrite packet_event_seqs, length_map, drop_all by done.
  destruct (count_in_order (length ps)) as [-> ->]. done.
Qed.

(** ** The theorems *)

(** C3: the whole receive path on any input: whatever bytes arrive in whatever
    segments, parsing, sequencing and book updates never lead to undefined
    behaviour.  A release build finishes, having counted every message and every
    malformed report the scanner finds, with the unconsumed tail kept and the
    books, statistics and counters that the messages accepted by the tracker
    describe.  A debug build does the same, or
    stops at its assertion, which it does exactly when one of those messages
    leaves its book crossed. *)
Theorem feed_never_fails ndebug chunks :
  let evs := stream_events [] chunks in
  let fwd := forwarded_events evs new_tracker in
  ((ndebug = true \/ never_crosses fwd (∅, no_stats)) /\
   exists fh,
     consume_all chunks (new_feed (new_builder ndebug)) = Ok (fh, (good_count evs, bad_count evs)) /\
     received evs fh /\ fh_residual fh = stream_rest [] chunks) \/
  (ndebug = false /\ ~ never_crosses fwd (∅, no_stats) /\
   consume_all chunks (new_feed (new_builder ndebug)) = Abort).
Proof. apply segments_received. Qed.

(** C2: in a release build a gap-free stream of encoded messages, cut into
    segments at arbitrary places, is delivered completely: all messages are forwarded, none dropped
    or malformed, no byte is left pending, and the books and counters are those
    the messages describe, for the whole 32-bit range of sequence numbers
    including its wrap-around. *)
Theorem stream_builds_the_books chunks ps seq :
  Forall packet_ok ps -> consecutive seq (map pk_seq ps) -> Z.of_nat (length ps) < 2 ^ 64 ->
  concat chunks = stream_bytes ps ->
  exists fh,
    consume_all chunks (new_feed (new_builder true)) = Ok (fh, (length ps, 0%nat)) /\
    builder_state (fh_down fh) (spec_events (map packet_event ps) (∅, no_stats)) /\
    fh_forwarded fh = Z.of_nat (length ps) /\ fh_dropped fh = 0 /\ fh_malformed fh = 0 /\
    pending_bytes fh = 0%nat.
Proof.
  intros Hps Hseq Hlen Hbytes.
  destruct (stream_consumed (ndebug := true) chunks ps seq) as (fh & E & Hbb & Hf & Hd & Hm & Hp & _); [done..|by left|done|].
  exists fh. split_and!; try done. rewrite Hf. apply wrap_small. unfold in_unsigned. lia.
Qed.

Definition demo_packets : list Packet :=
  [mkPacket 4294967295 1 (BodyAddOrder (mkAddOrder 7 1 Side_Buy 100 5));
   mkPacket 0 2 (BodyAddOrder (mkAddOrder 7 2 Side_Sell 101 4));
   mkPacket 1 3 (BodyTrade (mkTrade 7 2 101 3 Side_Buy))].

Lemma stream_builds_the_books_witness :
  exists fh,
    consume_all [take 50 (stream_bytes demo_packets); []; drop 50 (stream_bytes demo_packets)]
      (new_feed (new_builder true)) = Ok (fh, (3, 0)%nat) /\
    builder_state (fh_down fh)
      ({[7 := [mkOrder 1 Side_Buy 100 5; mkOrder 2 Side_Sell 101 1]]},
       mkBookStats 2 0 0 1 0 0 0 0) /\
    fh_forwarded fh = 3 /\ fh_dropped fh = 0 /\ fh_malformed fh = 0 /\ pending_bytes fh = 0%nat.
Proof.
  apply (stream_builds_the_books
    [take 50 (stream_bytes demo_packets); []; drop 50 (stream_bytes demo_packets)]
    demo_packets 4294967295).
  - solve_ranges.
  - vm_compute. repeat split.
  - reflexivity.
  - reflexivity.
Defined.
