(* ===== verification/Replay.v ===== *)
(** Deterministic replay of a captured feed (include/mdfh/replay.hpp,
    src/replay.cpp): the fast path hands the whole buffer to the feed handler,
    the timed path walks it frame by frame and sleeps in between; and the
    fingerprint that compares the books of two replays. *)
From Stdlib Require Import SpecFloat.
From S2P Require Import Prelude Doubles ByteOrder Protocol Serialization Parser SequenceTracker.
From S2P Require Import FeedHandler OrderedMap OrderBook BookSpec BookProofs BookQueries.
From S2P Require Import BookTheorems BookBuilder EndToEnd.

Local Open Scope Z_scope.

(** ** ReplayDriver *)

Inductive ReplayMode := MaxSpeed | Realtime | Accelerated.

Record ReplayConfig := mkReplayConfig {
  cfg_mode : ReplayMode;
  cfg_speed : double
}.

Record ReplayResult := mkReplayResult {
  rr_messages_parsed : Z;    (* u64 *)
  rr_malformed : Z;          (* u64 *)
  rr_forwarded : Z;          (* u64 *)
  rr_dropped : Z;            (* u64 *)
  rr_seq : SeqStats;
  rr_wall_seconds : double
}.

(** [cfg.mode == Accelerated && cfg.speed > 0 ? cfg.speed : 1.0]. *)
Definition replay_scale (cfg : ReplayConfig) : double :=
  match cfg_mode cfg with
  | Accelerated => if SFltb (S754_zero false) (cfg_speed cfg) then cfg_speed cfg else double_of_Z 1
  | _ => double_of_Z 1
  end.

(** The time a message is due: [start_wall] plus the scaled nanoseconds since
    the first message.  The difference of timestamps is unsigned. *)
Definition pace (cfg : ReplayConfig) (start_wall first_ts ts : Z) : outcome Z :=
  delay ← int64_of_double (double_div (double_of_Z (wrap 64 (ts - first_ts))) (replay_scale cfg));
  require (in_signedb 64 (start_wall + delay));;
  Ok (start_wall + delay).

(** The driver owns a feed handler on the builder it references. *)
Notation ReplayDriver ndebug := (FeedHandler (BookBuilder ndebug)) (only parsing).
Definition new_driver {ndebug} (builder : BookBuilder ndebug) : ReplayDriver ndebug :=
  new_feed builder.

Section Replay.
Context {ndebug : bool}.
Implicit Types (fh : FeedHandler (BookBuilder ndebug)).

(** The loop of the timed path.  [first_ts] is [None] until [have_first];
    the times slept until are collected, oldest first.  Every iteration
    advances by at least a header, so [length messages + 1] iterations are
    enough. *)
Fixpoint replay_loop (fuel : nat) (cfg : ReplayConfig) (start_wall : Z) (messages : list byte)
    (off : nat) (first_ts : option Z) (parsed malformed : Z) (sleeps : list Z) fh
  : outcome (FeedHandler (BookBuilder ndebug) * (Z * Z) * list Z) :=
  match fuel with
  | O => Diverge
  | S fuel =>
      if bool_decide (off + kHeaderWireSize <= length messages)%nat then
        header_span ← subspan messages off kHeaderWireSize;
        ohdr ← decode_header header_span;
        match ohdr with
        | None => Ok (fh, (parsed, malformed), sleeps)
        | Some hdr =>
            let frame := (kHeaderWireSize + Z.to_nat (hdr_body_size hdr))%nat in
            if bool_decide (length messages < off + frame)%nat then
              Ok (fh, (parsed, malformed), sleeps)
            else
              let first := default (hdr_timestamp hdr) first_ts in
              target ← pace cfg start_wall first (hdr_timestamp hdr);
              span ← subspan messages off frame;
              r ← consume span fh;
              replay_loop fuel cfg start_wall messages (off + frame) (Some first)
                (add64 parsed (Z.of_nat (pr_messages r.2)))
                (add64 malformed (Z.of_nat (pr_malformed r.2)))
                (sleeps ++ [target]) r.1
        end
      else Ok (fh, (parsed, malformed), sleeps)
  end.

(** [replay], given the clock readings: the start of the timed path and the
    elapsed time of the call. *)
Definition replay (messages : list byte) (cfg : ReplayConfig) (start_wall : Z) (wall : double) fh
  : outcome (FeedHandler (BookBuilder ndebug) * ReplayResult) :=
  r ← match cfg_mode cfg with
      | MaxSpeed =>
          r ← consume messages fh;
          Ok (r.1, (Z.of_nat (pr_messages r.2), Z.of_nat (pr_malformed r.2)))
      | _ =>
          r ← replay_loop (S (length messages)) cfg start_wall messages 0 None 0 0 [] fh;
          Ok (r.1.1, r.1.2)
      end;
  let '(fh, (parsed, malformed)) := r in
  Ok (fh, mkReplayResult parsed malformed (fh_forwarded fh) (fh_dropped fh)
            (tr_stats (fh_seq fh)) wall).
End Replay.

(** ** book_fingerprint *)

Definition fnv_offset : Z := 1469598103934665603.
Definition fnv_prime : Z := 1099511628211.

(** [h ^= v; h *= prime]. *)
Definition mix (v h : Z) : Z := wrap 64 (Z.lxor h v * fnv_prime).

Definition mix_level (o : option LevelView) (h : Z) : Z :=
  match o with
  | Some lv => mix (lv_order_count lv) (mix (lv_quantity lv) (mix (wrap 64 (lv_price lv)) h))
  | None => h
  end.

Definition book_hash (sym : SymbolId) (bk : OrderBook) : Z :=
  let h := fnv_offset in
  let h := mix sym h in
  let h := mix (Z.of_nat (bid_levels bk)) h in
  let h := mix (Z.of_nat (ask_levels bk)) h in
  let h := mix (Z.of_nat (order_count bk)) h in
  let h := mix_level (best_bid bk) h in
  mix_level (best_ask bk) h.

Definition book_fingerprint (hash_order : gmap Z OrderBook -> list (Z * OrderBook))
    (m : gmap Z OrderBook) : outcome Z :=
  for_each hash_order (fun sym bk acc => Ok (add64 acc (book_hash sym bk))) m 0.

(** ** The frames the timed path walks *)

(** The timestamp of the header at the front of a buffer. *)
Definition front_timestamp (buf : list byte) : Z :=
  match decode_header (take kHeaderWireSize buf) with
  | Ok (Some hdr) => hdr_timestamp hdr
  | _ => 0
  end.

(** Timestamps and events of the complete frames of a buffer. *)
Fixpoint frames_fuel (fuel : nat) (buf : list byte) : list (Z * Event) :=
  match fuel with
  | O => []
  | S fuel =>
      match classify 0 buf with
      | FrontFrame ev len => (front_timestamp buf, ev) :: frames_fuel fuel (drop len buf)
      | _ => []
      end
  end.
Definition frames (buf : list byte) : list (Z * Event) := frames_fuel (S (length buf)) buf.

(** The times the messages are due, when they are all defined. *)
Fixpoint due_times (cfg : ReplayConfig) (start_wall : Z) (first_ts : option Z) (tss : list Z)
  : outcome (list Z) :=
  match tss with
  | [] => Ok []
  | ts :: tss' =>
      let first := default ts first_ts in
      t ← pace cfg start_wall first ts;
      rest ← due_times cfg start_wall (Some first) tss';
      Ok (t :: rest)
  end.

(** ** When the due times are defined *)

(** The timestamps never precede the first, and the time since then, scaled,
    is at most [2 ^ 61] nanoseconds (73 years). *)
Definition timely_after (scale : double) (first : Z) (tss : list Z) : Prop :=
  Forall (fun ts => first <= ts /\ within_2_61 (ts - first) scale) tss.
Definition timely (scale : double) (tss : list Z) : Prop :=
  match tss with [] => True | first :: _ => timely_after scale first tss end.

(** The start of the replay leaves room for that. *)
Definition wall_ok (start_wall : Z) : Prop := 0 <= start_wall < 2 ^ 61.

Lemma within_2_61_mono d d' scale : d <= d' -> within_2_61 d' scale -> within_2_61 d scale.
Proof.
  intros Hd. destruct scale as [| | |[] m e]; try done. cbn [within_2_61].
  assert (0 < 2 ^ Z.max 0 (- e)) by (apply Z.pow_pos_nonneg; lia). nia.
Qed.

Lemma within_2_61_one d : d <= 2 ^ 61 -> within_2_61 d (double_of_Z 1).
Proof.
  intros Hd. change (double_of_Z 1) with (S754_finite false (Z.to_pos (2 ^ 52)) (-52)). cbn [within_2_61].
  change (2 ^ Z.max 0 (- -52)) with (2 ^ 52). change (2 ^ Z.max 0 (-52)) with 1.
  change (Zpos (Z.to_pos (2 ^ 52))) with (2 ^ 52). lia.
Qed.

Lemma pace_ok cfg sw first ts :
  wall_ok sw -> 0 <= first -> in_unsigned 64 ts -> first <= ts ->
  within_2_61 (ts - first) (replay_scale cfg) ->
  exists t, pace cfg sw first ts = Ok t /\ sw <= t.
Proof.
  intros Hsw Hf Hts Hle Hw. unfold wall_ok, in_unsigned in *. unfold pace.
  rewrite wrap_small by (unfold in_unsigned; lia).
  destruct (div_int64 (ts - first) (replay_scale cfg)) as (v & E & Hv); [lia|done|].
  rewrite E, bind_ok. rewrite (proj2 (in_signedb_spec 64 _)) by (unfold in_signed; lia).
  eexists. split; [reflexivity|lia].
Qed.

(** At an integer speed a message is due exactly as long after the first as it
    was sent after it, divided by the speed, for up to [2 ^ 52] nanoseconds (52
    days). *)
Lemma pace_at_speed cfg sw first ts n :
  wall_ok sw -> 0 < n < 2 ^ 52 -> replay_scale cfg = double_of_Z n -> 0 <= ts - first < 2 ^ 52 ->
  pace cfg sw first ts = Ok (sw + (ts - first) / n).
Proof.
  intros Hsw Hn Hs Hd. unfold wall_ok in *. unfold pace.
  rewrite wrap_small, Hs, div_by_int, bind_ok by (try done; unfold in_unsigned; lia).
  pose proof (Z.div_pos (ts - first) n ltac:(lia) ltac:(lia)).
  pose proof (Z.div_le_upper_bound (ts - first) n (ts - first) ltac:(lia) ltac:(nia)).
  by rewrite (proj2 (in_signedb_spec 64 _)) by (unfold in_signed; lia).
Qed.

Lemma due_times_after cfg sw first o tss :
  wall_ok sw -> 0 <= first -> (o = Some first \/ o = None /\ (head tss = None \/ head tss = Some first)) ->
  Forall (in_unsigned 64) tss -> timely_after (replay_scale cfg) first tss ->
  exists targets, due_times cfg sw o tss = Ok targets /\ length targets = length tss /\
    Forall (fun t => sw <= t) targets /\
    (forall n, 0 < n < 2 ^ 52 -> replay_scale cfg = double_of_Z n -> Forall (fun ts => ts - first < 2 ^ 52) tss ->
     targets = (fun ts => sw + (ts - first) / n) <$> tss).
Proof.
  intros Hsw Hf Ho Hr Ht. revert o Ho. induction Ht as [|ts tss [Hle Hw] _ IH]; intros o Ho.
  { exists []. done. }
  apply Forall_cons in Hr as [Hts Hr].
  assert (default ts o = first) as Hd by (destruct Ho as [->|[-> [[=]|[=]]]]; done).
  destruct (pace_ok cfg sw first ts) as (t & E & Hge); [done..|].
  destruct (IH Hr (Some first) (or_introl eq_refl)) as (targets & E' & Hlen & Hges & Hex).
  cbn [due_times]. rewrite Hd, E, bind_ok, E', bind_ok. eexists. split; [reflexivity|].
  split; [cbn; by rewrite Hlen|]. split; [by constructor|]. intros n Hn Hs [H1 H2]%Forall_cons.
  rewrite fmap_cons, <- (Hex n) by done. f_equal.
  assert (Ok t = Ok (sw + (ts - first) / n)) as [= ->]; [|done]. rewrite <- E. apply pace_at_speed; [done..|lia].
Qed.

Lemma due_times_defined cfg sw tss :
  wall_ok sw -> Forall (in_unsigned 64) tss -> timely (replay_scale cfg) tss ->
  exists targets, due_times cfg sw None tss = Ok targets /\ length targets = length tss /\
    Forall (fun t => sw <= t) targets /\
    forall first n, head tss = Some first -> 0 < n < 2 ^ 52 -> replay_scale cfg = double_of_Z n ->
      Forall (fun ts => ts - first < 2 ^ 52) tss ->
      targets = (fun ts => sw + (ts - first) / n) <$> tss.
Proof.
  intros Hsw Hr Ht. destruct tss as [|first tss]; [by exists []|].
  destruct (due_times_after cfg sw first None (first :: tss)) as (targets & E & Hlen & Hge & Hex);
    [done|by apply Forall_cons in Hr as [[? _] _]|by right; auto|done..|].
  exists targets. split_and!; try done. intros ? n [= <-]. by apply Hex.
Qed.

Lemma frames_fuel_irrel f1 f2 buf :
  (length buf < f1)%nat -> (length buf < f2)%nat -> frames_fuel f1 buf = frames_fuel f2 buf.
Proof.
  revert f2 buf; induction f1 as [|f1 IH]; intros f2 buf H1 H2; [lia|].
  destruct f2 as [|f2]; [lia|]. cbn [frames_fuel].
  destruct (classify 0 buf) as [| | |ev len] eqn:E; [done..|].
  apply classify_frame in E as (Hlen & _). unfold_sizes.
  rewrite (IH f2) by (rewrite length_drop; lia). done.
Qed.

Lemma frames_eq buf :
  frames buf =
  match classify 0 buf with
  | FrontFrame ev len => (front_timestamp buf, ev) :: frames (drop len buf)
  | _ => []
  end.
Proof.
  unfold frames at 1. cbn [frames_fuel].
  destruct (classify 0 buf) as [| | |ev len] eqn:E; [done..|].
  apply classify_frame in E as (Hlen & _). unfold_sizes. f_equal.
  apply frames_fuel_irrel; rewrite length_drop; lia.
Qed.

(** The report of a bad header, which ends a scan. *)
Definition stop_events (st : stop) : list Event :=
  match st with StopBadHeader => [EvMalformed 0] | _ => [] end.

(** The frames are the scanned events, up to offsets and the final report. *)
Lemma frames_scan off buf :
  erase_offset <$> sc_events (scan_at off buf) =
  (erase_offset <$> (frames buf).*2) ++ stop_events (sc_stop (scan_at off buf)).
Proof.
  revert off buf. refine (frames_ind _ _). intros off buf IH.
  rewrite scan_at_eq, frames_eq. pose proof (classify_erase off 0 buf) as Hc.
  destruct (classify off buf) as [| | |ev len], (classify 0 buf) as [| | |ev' len'];
    try discriminate; try done.
  destruct Hc as [He <-]. specialize (IH _ _ eq_refl).
  cbn -[scan_at frames] in *. by rewrite IH, He.
Qed.

(** A complete frame on its own. *)
Lemma classify_take off buf ev len :
  classify off buf = FrontFrame ev len -> classify off (take len buf) = FrontFrame ev len.
Proof.
  intros E. pose proof (classify_frame _ _ _ _ E) as (Hlen & _). revert E.
  unfold classify. cbn zeta. rewrite length_take.
  case_bool_decide; [discriminate|]. rewrite bool_decide_eq_false_2 by lia.
  rewrite take_take, Nat.min_l by lia. destruct (decode_header _) as [[hdr|]| | |]; [|discriminate..].
  case_bool_decide; [discriminate|].
  destruct (_ || _) eqn:Ec; intros [= <- <-];
    rewrite (bool_decide_eq_false_2 (_ `min` _ < _)%nat) by (unfold_sizes; lia); [done|].
  apply orb_false_iff in Ec as [E1 _]. apply bool_decide_eq_false in E1.
  rewrite skipn_firstn_comm, take_take, Nat.min_l by (unfold_sizes; lia). done.
Qed.

Lemma scan_single buf ev len :
  classify 0 buf = FrontFrame ev len -> scan_at 0 (take len buf) = mkScanned [ev] len StopShort.
Proof.
  intros E. pose proof (classify_frame _ _ _ _ E) as (Hlen & _).
  rewrite scan_at_eq, (classify_take _ _ _ _ E). cbn zeta.
  rewrite drop_ge by (rewrite length_take; lia).
  rewrite scan_at_eq. cbn [sc_events sc_consumed sc_stop]. unfold classify.
  rewrite bool_decide_eq_true_2 by (unfold_sizes; cbn; lia). cbn. by rewrite Nat.add_0_r.
Qed.

Section ReplayProofs.
Context {ndebug : bool}.
Implicit Types (fh : FeedHandler (BookBuilder ndebug)).

(** One frame handed to an idle feed handler. *)
Lemma consume_frame buf ev len fh :
  classify 0 buf = FrontFrame ev len -> fh_residual fh = [] ->
  consume (take len buf) fh =
  (fh' ← deliver ev fh;
   Ok (set_pending [] (add64 (fh_malformed fh) (Z.of_nat (bad_count [ev]))) fh',
       mkParseResult len (good_count [ev]) (bad_count [ev]) false)).
Proof.
  intros E Hres. rewrite consume_spec, Hres, app_nil_l, (scan_single _ _ _ E). cbn zeta.
  cbn [sc_events sc_consumed deliver_all]. rewrite bind_ret_r.
  destruct (deliver ev fh) as [fh'| | |] eqn:Ed; [|done..]. rewrite !bind_ok.
  pose proof (classify_frame _ _ _ _ E) as (Hlen & _).
  rewrite drop_ge by (rewrite length_take; lia).
  assert (fh' = set_pending (fh_residual fh) (fh_malformed fh) fh') as ->.
  { apply (deliver_all_keeps [ev]). cbn. by rewrite Ed, bind_ok. }
  done.
Qed.

Lemma replay_loop_step fuel cfg sw msgs off first parsed mal sleeps fh :
  (off <= length msgs)%nat ->
  replay_loop (S fuel) cfg sw msgs off first parsed mal sleeps fh =
  match classify 0 (drop off msgs) with
  | FrontFrame ev len =>
      let ts := front_timestamp (drop off msgs) in
      target ← pace cfg sw (default ts first) ts;
      r ← consume (take len (drop off msgs)) fh;
      replay_loop fuel cfg sw msgs (off + len) (Some (default ts first))
        (add64 parsed (Z.of_nat (pr_messages r.2))) (add64 mal (Z.of_nat (pr_malformed r.2)))
        (sleeps ++ [target]) r.1
  | _ => Ok (fh, (parsed, mal), sleeps)
  end.
Proof.
  intros Hoff. cbn [replay_loop]. unfold classify, front_timestamp. cbn zeta. rewrite length_drop.
  case_bool_decide as Hlen.
  2:{ by rewrite bool_decide_eq_true_2 by lia. }
  rewrite (bool_decide_eq_false_2 (_ - _ < kHeaderWireSize)%nat) by lia.
  rewrite (subspan_ok msgs off kHeaderWireSize), bind_ok by lia.
  destruct (decode_header_cases (take kHeaderWireSize (drop off msgs)))
    as [(hdr & E & Hhdr & _)|[E _]]; rewrite E, bind_ok; [|done].
  case_bool_decide as Hframe.
  { rewrite bool_decide_eq_true_2 by (unfold_sizes; lia). done. }
  rewrite (bool_decide_eq_false_2 (length msgs - off < _)%nat) by (unfold_sizes; lia).
  rewrite subspan_ok by (unfold_sizes; lia).
  destruct (_ || _); apply bind_ext; intros t; by rewrite bind_ok.
Qed.

(** The timed path, when every due time is defined: the frames' events one
    after the other. *)
Lemma replay_loop_spec fuel cfg sw msgs off first parsed mal sleeps fh targets :
  (off <= length msgs)%nat -> (length msgs - off < fuel)%nat -> fh_residual fh = [] ->
  in_unsigned 64 parsed -> in_unsigned 64 mal -> in_unsigned 64 (fh_malformed fh) ->
  let fs := frames (drop off msgs) in
  due_times cfg sw first fs.*1 = Ok targets ->
  replay_loop fuel cfg sw msgs off first parsed mal sleeps fh =
  (fh' ← deliver_all fs.*2 fh;
   Ok (set_pending [] (add64 (fh_malformed fh) (Z.of_nat (bad_count fs.*2))) fh',
       (add64 parsed (Z.of_nat (good_count fs.*2)), add64 mal (Z.of_nat (bad_count fs.*2))),
       sleeps ++ targets)).
Proof.
  cbn zeta. revert off first parsed mal sleeps fh targets.
  induction fuel as [|fuel IH]; intros off first parsed mal sleeps fh targets Hoff Hfuel Hres Hp Hm Hf; [lia|].
  rewrite replay_loop_step, frames_eq by done.
  destruct (classify 0 (drop off msgs)) as [| | |ev len] eqn:E.
  1-3: intros [= <-]; cbn; rewrite !add64_0, app_nil_r by done;
    (assert (fh = set_pending [] (fh_malformed fh) fh) as <-; [by destruct fh; cbn in Hres; subst|done]).
  pose proof (classify_frame _ _ _ _ E) as (Hlen & _). rewrite length_drop in Hlen. unfold_sizes.
  rewrite !fmap_cons. cbn [due_times fst snd]. intros Hdue.
  apply bind_Ok_inv in Hdue as (t & Ht & Hdue). apply bind_Ok_inv in Hdue as (ts' & Hts & [= <-]).
  rewrite Ht, bind_ok, (consume_frame _ _ _ _ E Hres), bind_assoc. cbn [deliver_all].
  rewrite bind_assoc. apply bind_ext; intros fh1. rewrite bind_ok.
  cbn [fst snd pr_messages pr_malformed]. rewrite drop_drop in *.
  erewrite IH; [|lia|lia|done|apply add64_range|apply add64_range|apply add64_range|exact Hts].
  rewrite deliver_all_pending, bind_assoc. apply bind_ext; intros fh2. rewrite bind_ok.
  cbn [fh_malformed set_pending]. rewrite !add64_add, <- app_assoc.
  unfold good_count, bad_count. rewrite !filter_cons, !filter_nil.
  by repeat case_decide; cbn [length]; rewrite <- !Nat2Z.inj_add.
Qed.
End ReplayProofs.

(** ** Fresh replays *)

Lemma frames_walk (P : list byte -> Prop) :
  (forall b, (forall ev len, classify 0 b = FrontFrame ev len -> P (drop len b)) -> P b) ->
  forall b, P b.
Proof.
  intros step b. apply (frames_ind (fun _ b => P b)); [|exact 0%nat]. clear b.
  intros off b IH. apply step. intros ev len E.
  pose proof (classify_erase off 0 b) as Hc. rewrite E in Hc.
  destruct (classify off b) as [| | |ev' len'] eqn:E'; try discriminate.
  destruct Hc as [_ <-]. by apply (IH ev').
Qed.

Lemma frames_ok buf : Forall event_ok (frames buf).*2.
Proof.
  revert buf. apply frames_walk. intros b IH. rewrite frames_eq.
  destruct (classify 0 b) as [| | |ev len] eqn:E; [constructor..|]. cbn.
  constructor; [by apply classify_frame in E as (_ & ? & _)|by apply (IH ev)].
Qed.

Lemma frames_timestamps buf : Forall (in_unsigned 64) (frames buf).*1.
Proof.
  revert buf. apply frames_walk. intros b IH. rewrite frames_eq.
  destruct (classify 0 b) as [| | |ev len] eqn:E; [constructor..|]. rewrite fmap_cons.
  constructor; [|by apply (IH ev)]. cbn [fst]. unfold front_timestamp.
  by destruct (decode_header_cases (take kHeaderWireSize b)) as [(h & -> & (_ & _ & _ & Hts) & _)|[-> _]].
Qed.

Lemma front_timestamp_packet p rest :
  packet_ok p -> front_timestamp (packet_bytes p ++ rest) = pk_ts p.
Proof.
  destruct p as [seq ts b]. intros (Hseq & Hts & _). cbn [pk_seq pk_ts pk_body] in *. unfold front_timestamp.
  destruct b; cbn [packet_bytes pk_body]; unfold message_bytes; rewrite <- app_assoc, take_app_length' by done;
    rewrite <- (app_nil_r (fields_bytes (header_fields _ seq ts))); by rewrite decode_encode_header.
Qed.

(** The frames of a stream of encoded messages are the messages. *)
Lemma frames_stream ps :
  Forall packet_ok ps -> (frames (stream_bytes ps)).*1 = map pk_ts ps.
Proof.
  induction 1 as [|p ps Hp _ IH]; [done|]. unfold stream_bytes in *. cbn [map concat].
  rewrite frames_eq, classify_packet by done. rewrite fmap_cons. cbn [fst].
  rewrite front_timestamp_packet by done.
  by rewrite <- length_packet_bytes, drop_app_length, IH.
Qed.

Lemma frames_length buf : (length (frames buf) <= length buf)%nat.
Proof.
  revert buf. apply frames_walk. intros b IH. rewrite frames_eq.
  destruct (classify 0 b) as [| | |ev len] eqn:E; [cbn; lia..|]. specialize (IH _ _ eq_refl).
  apply classify_frame in E as (Hlen & _). rewrite length_drop in IH. unfold_sizes. cbn [length]. lia.
Qed.

Lemma erase_idemp ev : erase_offset (erase_offset ev) = erase_offset ev.
Proof. by destruct ev. Qed.

Lemma good_count_erase evs : good_count (erase_offset <$> evs) = good_count evs.
Proof.
  unfold good_count. induction evs as [|ev evs IH]; [done|]. rewrite fmap_cons, !filter_cons.
  replace (is_malformed (erase_offset ev)) with (is_malformed ev) by (by destruct ev).
  case_decide; cbn; auto.
Qed.
Lemma bad_count_erase evs : bad_count (erase_offset <$> evs) = bad_count evs.
Proof.
  unfold bad_count. induction evs as [|ev evs IH]; [done|]. rewrite fmap_cons, !filter_cons.
  replace (is_malformed (erase_offset ev)) with (is_malformed ev) by (by destruct ev).
  case_decide; cbn; auto.
Qed.
Lemma good_count_length evs : (good_count evs <= length evs)%nat.
Proof. apply length_filter. Qed.
Lemma bad_count_length evs : (bad_count evs <= length evs)%nat.
Proof. apply length_filter. Qed.

Section Fresh.
Context {ndebug : bool}.
Implicit Types (fh : FeedHandler (BookBuilder ndebug)).

(** What a whole buffer does to an idle feed handler, as its frames'
    events followed by the report of a bad header, if any. *)
Lemma consume_frames msgs fh :
  fh_residual fh = [] ->
  let s := scan_at 0 msgs in
  consume msgs fh =
  (fh' ← deliver_all (frames msgs).*2 fh; fh'' ← deliver_all (stop_events (sc_stop s)) fh';
   Ok (accumulate (scan_result s) (set_residual (drop (sc_consumed s) msgs) fh''), scan_result s)).
Proof.
  intros Hres s. rewrite consume_spec, Hres, app_nil_l. fold s. cbn zeta.
  rewrite (deliver_all_erase (sc_events s) ((frames msgs).*2 ++ stop_events (sc_stop s))).
  - by rewrite deliver_all_app, bind_assoc.
  - unfold s. rewrite (frames_scan 0 msgs), fmap_app. f_equal. by destruct (sc_stop (scan_at 0 msgs)).
Qed.

Lemma scan_result_frames msgs :
  let s := scan_at 0 msgs in
  pr_messages (scan_result s) = good_count (frames msgs).*2 /\
  pr_malformed (scan_result s) = (bad_count (frames msgs).*2 + length (stop_events (sc_stop s)))%nat.
Proof.
  intros s. change (pr_messages (scan_result s)) with (good_count (sc_events s)).
  change (pr_malformed (scan_result s)) with (bad_count (sc_events s)).
  rewrite <- good_count_erase, <- bad_count_erase. unfold s. rewrite (frames_scan 0 msgs).
  unfold good_count, bad_count. rewrite !filter_length_app.
  fold (good_count (erase_offset <$> (frames msgs).*2)) (bad_count (erase_offset <$> (frames msgs).*2)).
  rewrite good_count_erase, bad_count_erase. by destruct (sc_stop (scan_at 0 msgs)); cbn; rewrite Nat.add_0_r.
Qed.

(** The report of a bad header leaves everything but one counter alone. *)
Lemma deliver_stop st fh :
  exists fh', deliver_all (stop_events st) fh = Ok fh' /\
    bb_manager (fh_down fh') = bb_manager (fh_down fh) /\ fh_seq fh' = fh_seq fh /\
    fh_forwarded fh' = fh_forwarded fh /\ fh_dropped fh' = fh_dropped fh /\
    (st <> StopBadHeader -> fh' = fh).
Proof.
  destruct st; cbn; eexists; (split; [reflexivity|]); split_and!; try done.
Qed.
End Fresh.

(** ** Paced replays *)

(** What keeps the timed path defined; the fast path looks at no timestamp. *)
Definition paced (cfg : ReplayConfig) (start_wall : Z) (msgs : list byte) : Prop :=
  cfg_mode cfg = MaxSpeed \/ wall_ok start_wall /\ timely (replay_scale cfg) (frames msgs).*1.

Section Paced.
Context {ndebug : bool}.
Implicit Types (b : BookBuilder ndebug) (fh : FeedHandler (BookBuilder ndebug)).

(** The timed path of a fresh driver, from what the frames' events do. *)
Lemma timed_loop msgs cfg sw b fh1 targets :
  due_times cfg sw None (frames msgs).*1 = Ok targets -> Z.of_nat (length msgs) < 2 ^ 64 ->
  deliver_all (frames msgs).*2 (new_driver b) = Ok fh1 ->
  let good := Z.of_nat (good_count (frames msgs).*2) in
  let bad := Z.of_nat (bad_count (frames msgs).*2) in
  replay_loop (S (length msgs)) cfg sw msgs 0 None 0 0 [] (new_driver b) =
  Ok (set_pending [] bad fh1, (good, bad), targets).
Proof.
  intros Hdue Hlen E good bad.
  erewrite (replay_loop_spec (S (length msgs)) cfg sw msgs 0 None 0 0 [] (new_driver b) targets);
    [|lia|lia|done|split; lia|split; lia|by destruct (counters_new b) as (_ & _ & ?)|by rewrite drop_0].
  rewrite drop_0, E, bind_ok. cbn [new_driver new_feed fh_malformed app]. fold good bad.
  pose proof (good_count_length (frames msgs).*2). pose proof (bad_count_length (frames msgs).*2).
  pose proof (frames_length msgs). rewrite length_fmap in *.
  unfold add64. by rewrite !Z.add_0_l, !wrap_small by (unfold good, bad, in_unsigned; lia).
Qed.

Lemma replay_timed msgs cfg sw wall b fh1 targets :
  cfg_mode cfg <> MaxSpeed ->
  due_times cfg sw None (frames msgs).*1 = Ok targets -> Z.of_nat (length msgs) < 2 ^ 64 ->
  deliver_all (frames msgs).*2 (new_driver b) = Ok fh1 ->
  let good := Z.of_nat (good_count (frames msgs).*2) in
  let bad := Z.of_nat (bad_count (frames msgs).*2) in
  replay msgs cfg sw wall (new_driver b) =
  Ok (set_pending [] bad fh1,
      mkReplayResult good bad (fh_forwarded fh1) (fh_dropped fh1) (tr_stats (fh_seq fh1)) wall).
Proof.
  intros Hmode Hdue Hlen E good bad. unfold replay.
  rewrite (timed_loop msgs cfg sw b fh1 targets Hdue Hlen E), bind_ok. by destruct (cfg_mode cfg).
Qed.

(** On a buffer that ends with its last frame both paths do what [consume]
    does. *)
Lemma replay_as_consume msgs cfg sw wall b feed r :
  paced cfg sw msgs -> Z.of_nat (length msgs) < 2 ^ 64 ->
  consume msgs (new_driver b) = Ok (feed, r) -> well_framed msgs -> fh_residual feed = [] ->
  replay msgs cfg sw wall (new_driver b) =
  Ok (feed, mkReplayResult (Z.of_nat (pr_messages r)) (Z.of_nat (pr_malformed r)) (fh_forwarded feed)
              (fh_dropped feed) (tr_stats (fh_seq feed)) wall).
Proof.
  intros Hpaced Hlen Ec Hw Hres. assert (cfg_mode cfg = MaxSpeed \/ cfg_mode cfg <> MaxSpeed) as [Hfast|Htimed]
    by (destruct (cfg_mode cfg); auto).
  { unfold replay. by rewrite Hfast, Ec, !bind_ok. }
  destruct Hpaced as [?|[Hsw Ht]]; [done|].
  destruct (due_times_defined cfg sw _ Hsw (frames_timestamps msgs) Ht) as (targets & Hdue & _).
  pose proof (scan_result_frames msgs) as [Hgood Hbad].
  rewrite (consume_frames msgs (new_driver b) eq_refl) in Ec.
  apply bind_Ok_inv in Ec as (fh1 & E & Ec). apply bind_Ok_inv in Ec as (fh2 & E2 & [= <- <-]).
  destruct (deliver_stop (sc_stop (scan_at 0 msgs)) fh1) as (fh2' & E2' & _ & _ & _ & _ & Hst).
  rewrite E2 in E2'. injection E2' as <-. specialize (Hst Hw). subst fh2.
  rewrite (replay_timed msgs cfg sw wall b fh1 targets) by done.
  pose proof (deliver_all_keeps _ _ _ E) as Hkeep.
  assert (length (stop_events (sc_stop (scan_at 0 msgs))) = 0%nat) as Hstop
    by (unfold well_framed in Hw; by destruct (sc_stop (scan_at 0 msgs))).
  rewrite Hstop, Nat.add_0_r in Hbad. cbn [accumulate fh_residual set_residual] in Hres.
  rewrite Hgood, Hbad. unfold accumulate. rewrite Hbad, Hres, Hkeep.
  cbn [set_residual set_pending fh_seq fh_down fh_residual fh_malformed fh_forwarded fh_dropped new_driver new_feed].
  unfold add64. rewrite Z.add_0_l, wrap_small; [done|].
  pose proof (bad_count_length (frames msgs).*2). pose proof (frames_length msgs).
  rewrite length_fmap in *. unfold in_unsigned. lia.
Qed.
End Paced.

(** What a release build makes of the frames of any buffer. *)
Lemma deliver_frames_release msgs (b : BookBuilder true) s :
  builder_state b s -> checked b = false ->
  exists fh1, deliver_all (frames msgs).*2 (new_driver b) = Ok fh1 /\
    exists s', builder_state (fh_down fh1) s'.
Proof.
  intros Hb Hch.
  pose proof (FeedHandler_safe (fun bb : BookBuilder true => (exists s, builder_state bb s) /\ checked bb = false))
    as Hsafe.
  destruct (@deliver_all_safe _ _ _ Hsafe (frames msgs).*2 (new_driver b) (frames_ok msgs)) as (fh1 & E & Hfh1 & _);
    [split; [by exists s|done]|]. by exists fh1.
Qed.

(** The messages of a buffer that a fresh feed handler forwards. *)
Definition forwarded_frames (msgs : list byte) : list Event := forwarded_events (frames msgs).*2 new_tracker.

(** The frames of a buffer on a fresh driver of either build. *)
Lemma deliver_frames {ndebug} msgs :
  ((ndebug = true \/ never_crosses (forwarded_frames msgs) (∅, no_stats)) /\
   exists fh1, deliver_all (frames msgs).*2 (new_driver (new_builder ndebug)) = Ok fh1 /\
     builder_state (fh_down fh1) (spec_events (forwarded_frames msgs) (∅, no_stats))) \/
  (ndebug = false /\ ~ never_crosses (forwarded_frames msgs) (∅, no_stats) /\
   deliver_all (frames msgs).*2 (new_driver (new_builder ndebug)) = Abort).
Proof.
  rewrite deliver_all_feed by apply counters_new.
  cbn [new_driver new_feed fh_down fh_seq]. fold (forwarded_frames msgs).
  destruct (builder_passes_or_aborts (ndebug := ndebug) (forwarded_frames msgs)) as [[Hwhy (bb & E & Hbb)]|(-> & Hx & E)].
  - apply forwarded_events_ok, frames_ok.
  - left. split; [done|]. rewrite E, bind_ok. by eexists.
  - right. by rewrite E.
Qed.

(** Replaying a buffer on either build, at any pace: books as its messages
    describe them, or the assertion of a debug build. *)
Lemma replay_outcome ndebug msgs cfg sw wall :
  paced cfg sw msgs ->
  ((ndebug = true \/ never_crosses (forwarded_frames msgs) (∅, no_stats)) /\
   exists driver r, replay msgs cfg sw wall (new_driver (new_builder ndebug)) = Ok (driver, r) /\
     manager_state (bb_manager (fh_down driver)) (spec_events (forwarded_frames msgs) (∅, no_stats)).1) \/
  (ndebug = false /\ ~ never_crosses (forwarded_frames msgs) (∅, no_stats) /\
   replay msgs cfg sw wall (new_driver (new_builder ndebug)) = Abort).
Proof.
  intros Hpaced. unfold replay.
  assert (cfg_mode cfg = MaxSpeed \/ cfg_mode cfg <> MaxSpeed) as [Hfast|Htimed]
    by (destruct (cfg_mode cfg); auto).
  - rewrite Hfast, (consume_frames msgs (new_driver _) eq_refl).
    destruct (deliver_frames (ndebug := ndebug) msgs) as [[Hwhy (fh1 & -> & Hm & _)]|(-> & Hx & ->)]; [left|by right].
    destruct (deliver_stop (sc_stop (scan_at 0 msgs)) fh1) as (fh2 & E2 & Hm2 & _).
    rewrite bind_ok, E2, !bind_ok. split; [done|]. eexists _, _. split; [reflexivity|]. cbn. by rewrite Hm2.
  - destruct Hpaced as [?|[Hsw Ht]]; [done|].
    destruct (due_times_defined cfg sw _ Hsw (frames_timestamps msgs) Ht) as (targets & Hdue & _).
    erewrite (replay_loop_spec (S (length msgs)) cfg sw msgs 0 None 0 0 [] (new_driver _) targets);
      [|lia|lia|done|split; lia|split; lia|split; cbn; lia|by rewrite drop_0].
    rewrite drop_0. destruct (deliver_frames (ndebug := ndebug) msgs) as [[Hwhy (fh1 & -> & Hm & _)]|(-> & Hx & ->)].
    + left. split; [done|]. rewrite bind_ok. destruct (cfg_mode cfg); [done|..]; (eexists _, _; split; [reflexivity|done]).
    + right. by destruct (cfg_mode cfg).
Qed.

(** ** The theorems *)

(** The scale of a mode and an integer speed. *)
Lemma scale_of_speed cfg n :
  0 < n < 2 ^ 52 ->
  cfg_mode cfg = Realtime /\ n = 1 \/ cfg_mode cfg = Accelerated /\ cfg_speed cfg = double_of_Z n ->
  replay_scale cfg = double_of_Z n.
Proof.
  intros Hn [[Hm ->]|[Hm Hs]]; unfold replay_scale; rewrite Hm; [done|]. rewrite Hs.
  destruct (double_of_small false n) as (p & e & E & _); [lia|]. cbn [cond_Zopp] in E. by rewrite E.
Qed.

(** C26: replay is deterministic: in a release build, on any buffer whose
    timestamps never precede the first and stay within 73 scaled years of it, and
    from a clock reading within 73 years of its epoch, the timed path, in real
    time or at any speed, and the fast path of a fresh driver reach the same
    books, the same sequence statistics and the same forwarded, dropped and
    parsed counts; they also agree on the malformed count and the builder's
    counters unless the buffer holds an unknown type byte, which only the fast
    path reports.  The timed path sleeps once before each message, never until a
    time before its start; at an integer speed below [2 ^ 52], and at speed 1 in
    real time, exactly until the start plus the time of the message since the
    first divided by the speed, if that time is less than [2 ^ 52] nanoseconds. *)
Theorem replay_modes_agree msgs cfg sw w1 w2 (b : BookBuilder true) s :
  cfg_mode cfg <> MaxSpeed -> builder_state b s -> checked b = false ->
  wall_ok sw -> timely (replay_scale cfg) (frames msgs).*1 -> Z.of_nat (length msgs) < 2 ^ 64 ->
  exists fast r1 timed r2 counts targets,
    replay msgs (mkReplayConfig MaxSpeed (cfg_speed cfg)) sw w1 (new_driver b) = Ok (fast, r1) /\
    replay msgs cfg sw w2 (new_driver b) = Ok (timed, r2) /\
    bb_manager (fh_down fast) = bb_manager (fh_down timed) /\
    rr_seq r1 = rr_seq r2 /\ rr_forwarded r1 = rr_forwarded r2 /\ rr_dropped r1 = rr_dropped r2 /\
    rr_messages_parsed r1 = rr_messages_parsed r2 /\
    (well_framed msgs -> rr_malformed r1 = rr_malformed r2 /\ fh_down fast = fh_down timed) /\
    replay_loop (S (length msgs)) cfg sw msgs 0 None 0 0 [] (new_driver b) = Ok (timed, counts, targets) /\
    length targets = length (frames msgs) /\ Forall (fun t => sw <= t) targets /\
    forall first n, head (frames msgs).*1 = Some first -> 0 < n < 2 ^ 52 ->
      cfg_mode cfg = Realtime /\ n = 1 \/ cfg_mode cfg = Accelerated /\ cfg_speed cfg = double_of_Z n ->
      Forall (fun ts => ts - first < 2 ^ 52) (frames msgs).*1 ->
      targets = (fun ts => sw + (ts - first) / n) <$> (frames msgs).*1.
Proof.
  intros Hmode Hb Hch Hsw Ht Hlen.
  destruct (due_times_defined cfg sw _ Hsw (frames_timestamps msgs) Ht) as (targets & Hdue & Hn & Hge & Hexact).
  destruct (deliver_frames_release msgs b s Hb Hch) as (fh1 & E & _).
  destruct (deliver_stop (sc_stop (scan_at 0 msgs)) fh1) as (fh2 & E2 & Hm & Hseq & Hf & Hd & Hst).
  destruct (scan_result_frames msgs) as [Hgood Hbad].
  do 3 eexists. eexists. eexists _, targets. split; [|split].
  - unfold replay. cbn [cfg_mode]. rewrite (consume_frames msgs (new_driver b) eq_refl), E, bind_ok, E2, !bind_ok.
    reflexivity.
  - by apply (replay_timed msgs cfg sw w2 b fh1 targets).
  - cbn [fst snd fh_down fh_seq fh_forwarded fh_dropped accumulate set_residual set_pending
      rr_seq rr_forwarded rr_dropped rr_messages_parsed rr_malformed].
    rewrite Hgood, Hbad, length_fmap in *. split_and!; try done; [by rewrite Hseq| |by apply timed_loop|].
    + intros Hw. specialize (Hst Hw). subst fh2. unfold well_framed in Hw.
      split; [|done]. by destruct (sc_stop (scan_at 0 msgs)); cbn; rewrite ?Nat.add_0_r.
    + intros first n' Hfirst Hn' Hspeed Hspan. by apply Hexact; [..|apply scale_of_speed|].
Qed.

Lemma replay_modes_agree_witness :
  exists fast r1 timed r2,
    replay (stream_bytes demo_packets) (mkReplayConfig MaxSpeed (double_of_Z 2)) 1000 (double_of_Z 1)
      (new_driver (new_builder true)) = Ok (fast, r1) /\
    replay (stream_bytes demo_packets) (mkReplayConfig Accelerated (double_of_Z 2)) 1000
      (double_of_Z 3) (new_driver (new_builder true)) = Ok (timed, r2) /\
    rr_messages_parsed r1 = rr_messages_parsed r2.
Proof.
  destruct (replay_modes_agree (stream_bytes demo_packets) (mkReplayConfig Accelerated (double_of_Z 2))
    1000 (double_of_Z 1) (double_of_Z 3) (new_builder true) (∅, no_stats))
    as (fast & r1 & timed & r2 & _ & _ & E1 & E2 & _ & _ & _ & _ & Hp & _).
  - discriminate.
  - apply builder_state_new.
  - reflexivity.
  - vm_compute. split; [discriminate|reflexivity].
  - assert ((frames (stream_bytes demo_packets)).*1 = [1; 2; 3]) as -> by (vm_compute; reflexivity).
    repeat constructor; vm_compute; discriminate.
  - vm_compute. reflexivity.
  - exists fast, r1, timed, r2. split; [exact E1|]. split; [exact E2|exact Hp].
Defined.

(** Two heartbeats, the second stamped a nanosecond before the first. *)
Definition reordered_heartbeats : list byte :=
  stream_bytes [mkPacket 1 10 (BodyHeartbeat mkHeartbeat); mkPacket 2 9 (BodyHeartbeat mkHeartbeat)].

(** The timed path computes the time since the first message as an unsigned
    difference, so a capture with a timestamp that goes back by one nanosecond
    converts an out-of-range double to a 64-bit integer, which is undefined
    behaviour; the fast path accepts the same capture. *)
Theorem timed_replay_undefined_on_reordering :
  replay reordered_heartbeats (mkReplayConfig Realtime (double_of_Z 1)) 0 (double_of_Z 0)
    (new_driver (new_builder true)) = Undef /\
  exists fh r, replay reordered_heartbeats (mkReplayConfig MaxSpeed (double_of_Z 1)) 0 (double_of_Z 0)
    (new_driver (new_builder true)) = Ok (fh, r) /\ rr_messages_parsed r = 2.
Proof.
  split; [vm_compute; reflexivity|]. eexists _, _. split; [vm_compute; reflexivity|reflexivity].
Qed.

(** Two heartbeats a millisecond apart. *)
Definition spaced_heartbeats : list byte :=
  stream_bytes [mkPacket 1 0 (BodyHeartbeat mkHeartbeat); mkPacket 2 1000000 (BodyHeartbeat mkHeartbeat)].

(** Any positive speed is accepted, also one so small (here 2^-70) that the
    scaled delay is out of range, which is undefined behaviour as well. *)
Theorem timed_replay_undefined_at_tiny_speed :
  replay spaced_heartbeats (mkReplayConfig Accelerated (S754_finite false (Z.to_pos (2 ^ 52)) (-122))) 0
    (double_of_Z 0) (new_driver (new_builder true)) = Undef.
Proof. vm_compute. reflexivity. Qed.

(** *** The fingerprint *)

(** The fingerprint as a function of the live orders. *)
Definition spec_hash (sym : SymbolId) (l : list Order) : Z :=
  let h := fnv_offset in
  let h := mix sym h in
  let h := mix (Z.of_nat (length (spec_prices true l))) h in
  let h := mix (Z.of_nat (length (spec_prices false l))) h in
  let h := mix (Z.of_nat (length l)) h in
  let h := mix_level (spec_best true l) h in
  mix_level (spec_best false l) h.

Definition spec_fingerprint (S : gmap Z (list Order)) : Z :=
  wrap 64 (map_fold (fun sym l acc => spec_hash sym l + acc) 0 S).

Lemma book_hash_spec sym bk l : book_state bk l -> book_hash sym bk = spec_hash sym l.
Proof.
  intros (L & Hrep & <-). unfold book_hash, spec_hash.
  pose proof (rep_best _ _ Hrep true) as Hb. pose proof (rep_best _ _ Hrep false) as Ha.
  pose proof (rep_level_count _ _ Hrep true) as Hbl. pose proof (rep_level_count _ _ Hrep false) as Hal.
  cbn [side_map] in *. unfold best_bid, best_ask, bid_levels, ask_levels.
  by rewrite (rep_count _ _ Hrep), Hb, Ha, Hbl, Hal.
Qed.

Definition sum_hashes (es : list (Z * OrderBook)) : Z :=
  foldr (fun e acc => book_hash e.1 e.2 + acc) 0 es.

Lemma sum_hashes_perm es1 es2 : es1 ≡ₚ es2 -> sum_hashes es1 = sum_hashes es2.
Proof. unfold sum_hashes. induction 1; cbn [foldr] in *; lia. Qed.

Lemma fingerprint_fold es acc :
  foldl (fun a e => s ← a; Ok (add64 s (book_hash e.1 e.2))) (Ok acc) es =
  match es with [] => Ok acc | _ => Ok (wrap 64 (acc + sum_hashes es)) end.
Proof.
  revert acc; induction es as [|e es IH]; intros acc; [done|].
  cbn [foldl sum_hashes foldr]. rewrite bind_ok, IH. fold (sum_hashes es).
  destruct es as [|e' es']; [cbn; by rewrite Z.add_0_r|].
  unfold add64. rewrite wrap_add_l. do 2 f_equal. lia.
Qed.

Lemma book_fingerprint_sum hash_order m :
  book_fingerprint hash_order m = Ok (wrap 64 (sum_hashes (hash_order m))).
Proof.
  unfold book_fingerprint, for_each. rewrite (fingerprint_fold (hash_order m) 0).
  by destruct (hash_order m).
Qed.

Lemma sum_hashes_spec m S :
  manager_state m S ->
  sum_hashes (map_to_list m) = map_fold (fun sym l acc => spec_hash sym l + acc) 0 S.
Proof.
  revert S; induction m as [|sym bk m Hm IH] using map_ind; intros S Hst.
  - assert (S = ∅) as ->; [|by rewrite map_to_list_empty].
    apply map_empty. intros sym. specialize (Hst sym). rewrite lookup_empty in Hst. by destruct (S !! sym).
  - pose proof (Hst sym) as Hsym. rewrite lookup_insert_eq in Hsym.
    destruct (S !! sym) as [l|] eqn:Hl; [|done]. destruct Hsym as [Hb _].
    rewrite (sum_hashes_perm _ _ (map_to_list_insert m sym bk Hm)). cbn [sum_hashes foldr fst snd].
    fold (sum_hashes (map_to_list m)).
    rewrite (map_fold_delete_L _ _ sym l S); [|intros; lia|done].
    rewrite (book_hash_spec _ _ _ Hb), (IH (delete sym S)); [done|].
    intros sym'. destruct (decide (sym' = sym)) as [->|Hne].
    + by rewrite Hm, lookup_delete_eq.
    + specialize (Hst sym'). by rewrite lookup_insert_ne in Hst; [rewrite lookup_delete_ne|].
Qed.

Lemma book_fingerprint_spec hash_order m S :
  hash_order m ≡ₚ map_to_list m -> manager_state m S ->
  book_fingerprint hash_order m = Ok (spec_fingerprint S).
Proof.
  intros Hperm Hst. unfold spec_fingerprint.
  by rewrite book_fingerprint_sum, (sum_hashes_perm _ _ Hperm), (sum_hashes_spec _ _ Hst).
Qed.

(** The fingerprint depends only on the live orders of each symbol: it is
    the same for every traversal order of the hash table, so two replays that
    reach the same state have equal fingerprints. *)
Theorem fingerprint_of_orders hash_order m S :
  hash_order m ≡ₚ map_to_list m -> manager_state m S ->
  book_fingerprint hash_order m = Ok (spec_fingerprint S).
Proof. apply book_fingerprint_spec. Qed.

Lemma fingerprint_of_orders_witness :
  book_fingerprint (fun m => rev (map_to_list m)) {[7 := demo_book]} =
  Ok (spec_fingerprint {[7 := demo_orders]}).
Proof.
  apply (fingerprint_of_orders (fun m => rev (map_to_list m)) {[7 := demo_book]} {[7 := demo_orders]}).
  - symmetry. apply Permutation_rev.
  - intros symbol. destruct (decide (symbol = 7)) as [->|Hne].
    + rewrite !lookup_singleton_eq. split; [apply demo_state|reflexivity].
    + rewrite !lookup_singleton_ne by congruence. exact I.
Defined.

(** Equal fingerprints do not mean equal books: below the top of the book
    only the number of levels and orders is mixed in, so two books that differ
    in a deeper level's price and quantity have the same fingerprint. *)
Theorem fingerprint_ignores_depth :
  exists b1 b2 l1 l2,
    run_ops [OpAdd 1 Side_Buy 100 5; OpAdd 2 Side_Buy 99 5] (new_book 7) = Ok (l1, b1) /\
    run_ops [OpAdd 1 Side_Buy 100 5; OpAdd 2 Side_Buy 50 9] (new_book 7) = Ok (l2, b2) /\
    bids 2 b1 <> bids 2 b2 /\
    book_fingerprint map_to_list {[7 := b1]} = book_fingerprint map_to_list {[7 := b2]}.
Proof.
  eexists _, _, _, _. split; [vm_compute; reflexivity|]. split; [vm_compute; reflexivity|].
  split; [vm_compute; discriminate|vm_compute; reflexivity].
Qed.
