(* ===== verification/WireTheorems.v ===== *)
(** The theorems about the wire format and the parser: byte order, message
    round trips in both directions, totality of the decoders on arbitrary
    bytes, and what [parse] delivers, consumes and reports. *)
From S2P Require Import Prelude ByteOrder Protocol Serialization Parser.

Local Open Scope Z_scope.

(** ** Messages of any type *)

(** [encode_message] at the type of a packet's body. *)
Definition encode_packet (out : list byte) (p : Packet) : outcome (nat * list byte) :=
  match pk_body p with
  | BodyAddOrder m => encode_message out (pk_seq p) (pk_ts p) m
  | BodyCancelOrder m => encode_message out (pk_seq p) (pk_ts p) m
  | BodyModifyOrder m => encode_message out (pk_seq p) (pk_ts p) m
  | BodyTrade m => encode_message out (pk_seq p) (pk_ts p) m
  | BodySnapshot m => encode_message out (pk_seq p) (pk_ts p) m
  | BodyHeartbeat m => encode_message out (pk_seq p) (pk_ts p) m
  end.

(** The body decoder of a message type. *)
Definition decode_as (t : MsgType) (b : list byte) : outcome (option Body) :=
  match t with
  | MsgAddOrder => fmap (M := outcome) (option_map BodyAddOrder) (decode_AddOrder b)
  | MsgCancelOrder => fmap (M := outcome) (option_map BodyCancelOrder) (decode_CancelOrder b)
  | MsgModifyOrder => fmap (M := outcome) (option_map BodyModifyOrder) (decode_ModifyOrder b)
  | MsgTrade => fmap (M := outcome) (option_map BodyTrade) (decode_Trade b)
  | MsgBookSnapshot => fmap (M := outcome) (option_map BodySnapshot) (decode_BookSnapshot b)
  | MsgHeartbeat => fmap (M := outcome) (option_map BodyHeartbeat) (decode_Heartbeat b)
  end.

Lemma encode_packet_fits out p :
  packet_ok p -> (packet_size p <= length out)%nat ->
  encode_packet out p = Ok (packet_size p, packet_bytes p ++ drop (packet_size p) out).
Proof.
  destruct p as [seq ts []]; intros (_ & _ & Hm) Hlen; apply (encode_message_fits out seq ts _ Hm Hlen).
Qed.

Lemma encode_packet_small out p :
  (length out < packet_size p)%nat -> encode_packet out p = Ok (0%nat, out).
Proof. destruct p as [seq ts []]; exact (encode_message_small out seq ts m). Qed.

Lemma decode_packet_header p rest :
  packet_ok p -> decode_header (packet_bytes p ++ rest) = Ok (Some (packet_header p)).
Proof.
  destruct p as [seq ts []]; intros (Hs & Ht & _); unfold packet_bytes, message_bytes; cbn [pk_body pk_seq pk_ts];
    rewrite <- app_assoc; by apply decode_encode_header.
Qed.

Lemma decode_packet_header_take p :
  packet_ok p -> decode_header (take kHeaderWireSize (packet_bytes p)) = Ok (Some (packet_header p)).
Proof.
  destruct p as [seq ts []]; intros (Hs & Ht & _); unfold packet_bytes, message_bytes; cbn [pk_body pk_seq pk_ts];
    rewrite take_app_length' by (by rewrite length_fields_bytes);
    rewrite <- (app_nil_r (fields_bytes _)); by apply decode_encode_header.
Qed.

Lemma message_body {B} `{WireBodyLaws B} seq ts (m : B) rest :
  wire_ok m -> decode_body (drop kHeaderWireSize (message_bytes seq ts m ++ rest)) = Ok (Some m).
Proof.
  intros Hm. unfold message_bytes. rewrite <- app_assoc.
  rewrite drop_app_length' by (by rewrite length_fields_bytes). by apply decode_encode_body.
Qed.

Lemma decode_packet_body p rest :
  packet_ok p ->
  decode_as (body_type (pk_body p)) (drop kHeaderWireSize (packet_bytes p ++ rest)) = Ok (Some (pk_body p)).
Proof.
  destruct p as [seq ts b]. intros (_ & _ & Hm). cbn [pk_body] in *. unfold packet_bytes.
  destruct b as [m|m|m|m|m|m]; cbn [pk_body pk_seq pk_ts body_type decode_as] in *;
    pose proof (message_body seq ts m rest Hm) as E.
  - by rewrite (E : decode_AddOrder _ = _).
  - by rewrite (E : decode_CancelOrder _ = _).
  - by rewrite (E : decode_ModifyOrder _ = _).
  - by rewrite (E : decode_Trade _ = _).
  - by rewrite (E : decode_BookSnapshot _ = _).
  - by rewrite (E : decode_Heartbeat _ = _).
Qed.

(** A body decoder under its constructor of [Body]. *)
Lemma decode_total {B} `{WireBodyLaws B} (inj : B -> Body) buf :
  (forall m, body_type (inj m) = msg_type_of B) -> (forall m, wire_ok m -> body_ok (inj m)) ->
  exists r, fmap (M := outcome) (option_map inj) (decode_body buf) = Ok r /\
    (is_Some r <-> (body_size_for (msg_type_of B) <= length buf)%nat) /\
    forall b, r = Some b -> body_type b = msg_type_of B /\ body_ok b.
Proof.
  intros Ht Hok. destruct (decide (body_size_for (msg_type_of B) <= length buf)%nat) as [Hlen|Hlen].
  - destruct (decode_body_long buf Hlen) as (m & -> & Hm). exists (Some (inj m)).
    split; [done|]. split; [by split|]. intros b [= <-]. auto.
  - rewrite decode_body_short by lia. exists None. split; [done|].
    split; [|done]. split; [by intros []|lia].
Qed.

(** ** Theorems: encoding and decoding *)

Definition demo_snapshot : BookSnapshot :=
  mkBookSnapshot 7 1 0 (<[0%nat := mkSnapshotLevel (-5) 3]> (replicate 5 (mkSnapshotLevel 0 0)))
    (replicate 5 (mkSnapshotLevel 0 0)).

(** C6: encoding a message of any of the six types into a buffer either reports
    that it does not fit, leaving the buffer untouched, or writes exactly its
    frame, from which header and body decode to what was encoded; it never
    writes outside the buffer or past the frame, and
    [kMaxMessageSize] bytes always suffice. *)
Theorem encode_decode_message out p :
  packet_ok p ->
  if bool_decide (length out < packet_size p)%nat then encode_packet out p = Ok (0%nat, out)
  else exists out',
    encode_packet out p = Ok (packet_size p, out') /\
    length out' = length out /\ drop (packet_size p) out' = drop (packet_size p) out /\
    decode_header out' = Ok (Some (packet_header p)) /\
    decode_as (body_type (pk_body p)) (drop kHeaderWireSize out') = Ok (Some (pk_body p)) /\
    (packet_size p <= kMaxMessageSize)%nat.
Proof.
  intros Hp. case_bool_decide as Hlen; [by apply encode_packet_small|].
  pose proof (length_packet_bytes p Hp) as Hsize.
  exists (packet_bytes p ++ drop (packet_size p) out). split_and!.
  - apply encode_packet_fits; [done|lia].
  - rewrite length_app, length_drop. lia.
  - by rewrite drop_app_length' by done.
  - by apply decode_packet_header.
  - by apply decode_packet_body.
  - unfold packet_size, kMaxMessageSize.
    pose proof (body_size_for_max (body_type (pk_body p))). lia.
Qed.

Lemma encode_decode_message_witness :
  exists out',
    encode_packet (replicate 600 Byte.x00) (mkPacket 9 10 (BodySnapshot demo_snapshot)) =
      Ok (144%nat, out') /\
    decode_as MsgBookSnapshot (drop kHeaderWireSize out') = Ok (Some (BodySnapshot demo_snapshot)).
Proof.
  destruct (encode_decode_message (replicate 600 Byte.x00) (mkPacket 9 10 (BodySnapshot demo_snapshot)))
    as (out' & E & _ & _ & _ & Hb & _).
  - solve_ranges.
  - exists out'. split; [exact E|exact Hb].
Defined.

(** C35: the decoders are total on arbitrary bytes: [decode_header] accepts
    exactly the buffers of at least 16 bytes whose first byte is one of the
    six type codes, each body decoder exactly the buffers of at least its
    body size, nothing is read out of bounds, and what is decoded is in the
    range of the C++ types. *)
Theorem decoders_total buf t :
  (exists r, decode_header buf = Ok r /\
     (is_Some r <-> (kHeaderWireSize <= length buf)%nat /\
        exists b, buf !! 0%nat = Some b /\ is_Some (MsgType_of_u8 (Z_of_byte b))) /\
     forall h, r = Some h -> MessageHeader_ok h) /\
  (exists r, decode_as t buf = Ok r /\
     (is_Some r <-> (body_size_for t <= length buf)%nat) /\
     forall b, r = Some b -> body_type b = t /\ body_ok b).
Proof.
  split.
  - destruct (decode_header_cases buf) as [(h & E & Hh & Hlen & b & Hb & Ht)|[E Hn]].
    + exists (Some h). split; [done|]. split; [|by intros ? [= <-]].
      split; [|done]. intros _. split; [done|]. exists b. by rewrite Ht.
    + exists None. split; [done|]. split; [|done]. split; [by intros []|].
      intros [Hlen (b & Hb & t' & Ht')]. destruct Hn as [Hn|(b' & Hb' & Ht)]; [lia|congruence].
  - destruct t.
    + exists (Some (BodyHeartbeat mkHeartbeat)). split; [done|].
      split; [split; [intros _; cbn; unfold_sizes; lia|done]|]. by intros ? [= <-].
    + exact (decode_total BodyAddOrder buf (fun _ => eq_refl) (fun _ H => H)).
    + exact (decode_total BodyCancelOrder buf (fun _ => eq_refl) (fun _ H => H)).
    + exact (decode_total BodyModifyOrder buf (fun _ => eq_refl) (fun _ H => H)).
    + exact (decode_total BodyTrade buf (fun _ => eq_refl) (fun _ H => H)).
    + exact (decode_total BodySnapshot buf (fun _ => eq_refl) (fun _ H => H)).
Qed.

(** *** Bytes to message and back *)

(** A decoded header whose version and size are right has one encoding. *)
Lemma header_canonical buf h :
  decode_header buf = Ok (Some h) ->
  hdr_version h = kProtocolVersion -> hdr_body_size h = Z.of_nat (body_size_for (hdr_type h)) ->
  fields_bytes (header_fields (hdr_type h) (hdr_sequence h) (hdr_timestamp h)) = take kHeaderWireSize buf.
Proof.
  unfold decode_header. case_bool_decide as Hlen; [discriminate|]. unfold_sizes.
  rewrite (load_le_spec 1 buf 0), bind_ok by lia.
  destruct (is_valid_msg_type _); [cbn [negb]|discriminate].
  destruct (MsgType_of_u8 (le_val (take 1 (drop 0 buf)))) as [t|] eqn:Et; [|discriminate].
  cbn [of_option]. rewrite bind_ok.
  rewrite (load_le_spec 1 buf 1), bind_ok by lia. rewrite (load_le_spec 2 buf 2), bind_ok by lia.
  rewrite (load_le_spec 4 buf 4), bind_ok by lia. rewrite (load_le_spec 8 buf 8), bind_ok by lia.
  intros [= <-]. cbn [hdr_version hdr_body_size hdr_type hdr_sequence hdr_timestamp]. intros Hv Hb.
  apply MsgType_to_of_u8 in Et.
  unfold header_fields. cbn [fields_bytes]. rewrite Et, <- Hv, <- Hb.
  cbn [fst snd]. rewrite !le_bytes_slice by lia.
  do 16 (destruct buf as [|? buf]; [cbn in Hlen; lia|]). reflexivity.
Qed.

Lemma reencode_body {B} `{WireCanonical B} (inj : B -> Body) h buf b :
  (forall seq ts m, packet_bytes (mkPacket seq ts (inj m)) = message_bytes seq ts m) ->
  hdr_type h = msg_type_of B ->
  decode_header buf = Ok (Some h) -> hdr_version h = kProtocolVersion ->
  hdr_body_size h = Z.of_nat (body_size_for (hdr_type h)) ->
  length buf = (kHeaderWireSize + body_size_for (hdr_type h))%nat ->
  fmap (M := outcome) (option_map inj) (decode_body (drop kHeaderWireSize buf)) = Ok (Some b) ->
  packet_bytes (mkPacket (hdr_sequence h) (hdr_timestamp h) b) =
  take kHeaderWireSize buf ++ zero_reserved (hdr_type h) (drop kHeaderWireSize buf).
Proof.
  intros Hinj Ht Hh Hv Hs Hlen Hb.
  destruct (decode_body (drop kHeaderWireSize buf)) as [[m|]| | |] eqn:E; try discriminate.
  injection Hb as <-. rewrite Hinj. unfold message_bytes. rewrite <- Ht.
  rewrite (header_canonical buf h Hh Hv Hs).
  rewrite (wire_canonical (drop kHeaderWireSize buf) m); [by rewrite <- Ht| |done].
  rewrite length_drop, <- Ht. lia.
Qed.

(** C36: decoding loses nothing but reserved bytes: the message that a frame of
    the right version and size decodes to encodes to that frame again, with the
    two reserved bytes set to zero in a snapshot and otherwise to the very same
    bytes. *)
Theorem decode_reencode_message buf h b :
  decode_header buf = Ok (Some h) -> hdr_version h = kProtocolVersion ->
  hdr_body_size h = Z.of_nat (body_size_for (hdr_type h)) ->
  length buf = (kHeaderWireSize + body_size_for (hdr_type h))%nat ->
  decode_as (hdr_type h) (drop kHeaderWireSize buf) = Ok (Some b) ->
  let again := packet_bytes (mkPacket (hdr_sequence h) (hdr_timestamp h) b) in
  again = take kHeaderWireSize buf ++ zero_reserved (hdr_type h) (drop kHeaderWireSize buf) /\
  (hdr_type h <> MsgBookSnapshot -> again = buf).
Proof.
  intros Hh Hv Hs Hlen Hb. cbv zeta.
  assert (packet_bytes (mkPacket (hdr_sequence h) (hdr_timestamp h) b) =
    take kHeaderWireSize buf ++ zero_reserved (hdr_type h) (drop kHeaderWireSize buf)) as ->.
  { destruct (hdr_type h) eqn:Ht; cbn [decode_as] in Hb; rewrite <- Ht in Hs, Hlen |- *.
    - by apply (reencode_body BodyHeartbeat h).
    - by apply (reencode_body BodyAddOrder h).
    - by apply (reencode_body BodyCancelOrder h).
    - by apply (reencode_body BodyModifyOrder h).
    - by apply (reencode_body BodyTrade h).
    - by apply (reencode_body BodySnapshot h). }
  split; [done|]. intros Hne. destruct (hdr_type h); try done; apply take_drop.
Qed.

(** A cancel frame, written out. *)
Definition demo_cancel_frame : list byte :=
  map byte_of_Z [2; 1; 12; 0; 5; 0; 0; 0; 6; 0; 0; 0; 0; 0; 0; 0; 7; 0; 0; 0; 9; 0; 0; 0; 0; 0; 0; 0].

Lemma decode_reencode_message_witness :
  packet_bytes (mkPacket 5 6 (BodyCancelOrder (mkCancelOrder 7 9))) = demo_cancel_frame.
Proof.
  apply (decode_reencode_message demo_cancel_frame (mkMessageHeader MsgCancelOrder 1 12 5 6)
    (BodyCancelOrder (mkCancelOrder 7 9))); try reflexivity. discriminate.
Defined.

(** ** Theorems: the parser *)

(** C5: for every buffer and every sink, [parse] terminates, reads inside the
    buffer, and calls back exactly the events the reference scanner finds, in
    order, each with values in range; the bytes consumed never exceed the
    buffer, and the counts are the numbers of good and malformed messages.
    Only a failing callback can make it fail. *)
Theorem parse_delivers_scanned_events {H} `{HandlerLike H} buf (h : H) :
  let s := scan_at 0 buf in
  parse buf h = (h' ← deliver_all (sc_events s) h; Ok (h', scan_result s)) /\
  Forall event_ok (sc_events s) /\ (bytes_consumed (scan_result s) <= length buf)%nat /\
  (pr_messages (scan_result s) + pr_malformed (scan_result s) = length (sc_events s))%nat.
Proof.
  cbn zeta. split; [apply parse_scan|]. split; [apply scan_events_ok|].
  split; [apply scan_consumed_le|]. unfold scan_result. cbn [pr_messages pr_malformed].
  induction (sc_events (scan_at 0 buf)) as [|ev evs IH]; [done|]. rewrite !filter_cons.
  destruct (is_malformed ev); repeat case_decide; try done; cbn [length]; lia.
Qed.

(** The sink that records its events. *)
Definition Recorder : Type := list Event.
#[export] Instance Recorder_like : HandlerLike Recorder := {|
  on_add_order := fun hdr m r => Ok (r ++ [EvAddOrder hdr m]);
  on_cancel_order := fun hdr m r => Ok (r ++ [EvCancelOrder hdr m]);
  on_modify_order := fun hdr m r => Ok (r ++ [EvModifyOrder hdr m]);
  on_trade := fun hdr m r => Ok (r ++ [EvTrade hdr m]);
  on_snapshot := fun hdr m r => Ok (r ++ [EvSnapshot hdr m]);
  on_heartbeat := fun hdr r => Ok (r ++ [EvHeartbeat hdr]);
  on_malformed := fun off r => Ok (r ++ [EvMalformed off])
|}.

Lemma deliver_all_recorder evs (r : Recorder) : deliver_all evs r = Ok (r ++ evs).
Proof.
  revert r; induction evs as [|ev evs IH]; intros r; [by rewrite app_nil_r|].
  cbn [deliver_all]. assert (deliver ev r = Ok (r ++ [ev])) as -> by (by destruct ev).
  by rewrite bind_ok, IH, <- app_assoc.
Qed.

(** A message cut short. *)
Lemma classify_tail p tail off :
  packet_ok p -> tail `prefix_of` packet_bytes p -> (length tail < packet_size p)%nat ->
  classify off tail = if bool_decide (kHeaderWireSize <= length tail)%nat then FrontPartial else FrontShort.
Proof.
  intros Hp [rest Hrest] Hlen. unfold classify. cbn zeta.
  case_bool_decide as Hshort; [by rewrite bool_decide_eq_false_2 by lia|].
  rewrite (bool_decide_eq_true_2 (kHeaderWireSize <= length tail)%nat) by lia.
  pose proof (decode_packet_header_take p Hp) as Hh. rewrite Hrest, take_app_le in Hh by lia.
  rewrite Hh. unfold packet_size in Hlen. cbn [packet_header hdr_body_size hdr_type].
  rewrite Nat2Z.id. by rewrite bool_decide_eq_true_2.
Qed.

(** A buffer of encoded messages followed by an incomplete one is parsed
    into exactly those messages, in order and with their headers; everything
    before the incomplete message is consumed and nothing is malformed.  The
    flag [needs_more] is raised only if the incomplete message's header is
    complete: a tail shorter than a header leaves it down, although bytes
    remain. *)
Theorem parse_stream ps p tail :
  Forall packet_ok ps -> packet_ok p -> tail `prefix_of` packet_bytes p ->
  (length tail < packet_size p)%nat ->
  parse (stream_bytes ps ++ tail) ([] : Recorder) =
  Ok (map packet_event ps,
      mkParseResult (length (stream_bytes ps)) (length ps) 0
        (bool_decide (kHeaderWireSize <= length tail)%nat)).
Proof.
  intros Hps Hp Hpre Hlen. rewrite parse_scan, scan_stream by done. cbn zeta.
  rewrite scan_at_eq, (classify_tail p) by done.
  destruct (bool_decide (kHeaderWireSize <= length tail)%nat) eqn:Et;
    cbn [sc_events sc_consumed sc_stop]; rewrite deliver_all_recorder, bind_ok, app_nil_r, Nat.add_0_r;
    by rewrite packet_scan_result.
Qed.

Lemma parse_stream_witness :
  parse (stream_bytes [mkPacket 5 6 (BodyCancelOrder (mkCancelOrder 7 9))] ++ take 10 demo_cancel_frame)
    ([] : Recorder) =
  Ok ([EvCancelOrder (mkMessageHeader MsgCancelOrder 1 12 5 6) (mkCancelOrder 7 9)],
      mkParseResult 28 1 0 false).
Proof.
  apply (parse_stream [mkPacket 5 6 (BodyCancelOrder (mkCancelOrder 7 9))]
    (mkPacket 5 6 (BodyCancelOrder (mkCancelOrder 7 9))) (take 10 demo_cancel_frame)).
  - solve_ranges.
  - solve_ranges.
  - exists (drop 10 demo_cancel_frame). reflexivity.
  - vm_compute. lia.
Defined.

(** C37: a message whose version or body size is wrong is skipped by its stated
    length and reported once; parsing resumes with the next message.  A header
    with an unknown type byte is reported and ends the parse after its 16
    bytes, whatever follows. *)
Theorem parse_malformed frame rest h b junk :
  decode_header (take kHeaderWireSize frame) = Ok (Some h) ->
  length frame = (kHeaderWireSize + Z.to_nat (hdr_body_size h))%nat ->
  hdr_version h <> kProtocolVersion \/ hdr_body_size h <> Z.of_nat (body_size_for (hdr_type h)) ->
  MsgType_of_u8 (Z_of_byte b) = None -> (15 <= length junk)%nat ->
  parse (frame ++ b :: junk) ([] : Recorder) =
    Ok ([EvMalformed 0; EvMalformed (length frame)],
        mkParseResult (length frame + kHeaderWireSize) 0 2 false) /\
  parse (frame ++ rest) ([] : Recorder) =
    (let s := scan_at (length frame) rest in
     Ok (EvMalformed 0 :: sc_events s,
         scan_result (mkScanned (EvMalformed 0 :: sc_events s) (length frame + sc_consumed s) (sc_stop s)))).
Proof.
  intros Hh Hlen Hbad Hb Hjunk.
  assert (forall rest, scan_at 0 (frame ++ rest) =
    let s := scan_at (length frame) rest in
    mkScanned (EvMalformed 0 :: sc_events s) (length frame + sc_consumed s) (sc_stop s)) as Hscan.
  { intros rest'. rewrite scan_at_eq.
    assert (classify 0 (frame ++ rest') = FrontFrame (EvMalformed 0) (length frame)) as ->.
    2:{ cbn zeta. by rewrite drop_app_length. }
    apply classify_app. unfold classify. cbn zeta. rewrite bool_decide_eq_false_2 by lia.
    rewrite Hh. rewrite (bool_decide_eq_false_2 (length frame < _)%nat) by lia.
    destruct (_ || _) eqn:E; [by rewrite Hlen|].
    apply orb_false_iff in E as [E1%bool_decide_eq_false E2%bool_decide_eq_false]. tauto. }
  split; [|by rewrite parse_scan, Hscan, deliver_all_recorder].
  rewrite parse_scan, Hscan, deliver_all_recorder. cbn zeta.
  rewrite scan_at_eq.
  assert (classify (length frame) (b :: junk) = FrontBadHeader) as ->; [|done].
  unfold classify. cbn zeta. rewrite bool_decide_eq_false_2 by (cbn; unfold_sizes; lia).
  destruct (decode_header_cases (take kHeaderWireSize (b :: junk)))
    as [(h' & _ & _ & _ & b' & Hb' & Ht)|[-> _]]; [|done].
  injection Hb' as <-. congruence.
Qed.

Lemma parse_malformed_witness :
  parse (<[1%nat := Byte.x02]> demo_cancel_frame ++ Byte.xff :: replicate 20 Byte.x00) ([] : Recorder) =
    Ok ([EvMalformed 0; EvMalformed 28], mkParseResult 44 0 2 false).
Proof.
  refine (proj1 (parse_malformed (<[1%nat := Byte.x02]> demo_cancel_frame) []
    (mkMessageHeader MsgCancelOrder 2 12 5 6) Byte.xff (replicate 20 Byte.x00) _ _ _ _ _)).
  - reflexivity.
  - reflexivity.
  - left. discriminate.
  - reflexivity.
  - vm_compute. lia.
Defined.
