(* ===== verification/FeedTheorems.v ===== *)
(** The theorems about the feed handler: reassembly does not depend on how a
    stream is cut, sequence numbers are forwarded at most once and every
    message is accounted for, and where the handler's behaviour departs from
    what its comments say. *)
From stdpp Require Import sorting.
From S2P Require Import Prelude ByteOrder Protocol Serialization Parser SequenceTracker.
From S2P Require Import FeedHandler OrderedMap OrderBook BookSpec BookTheorems BookBuilder.
From S2P Require Import EndToEnd WireTheorems.

Local Open Scope Z_scope.

(** ** Accounting *)

Lemma observe_all_length seqs t : length (observe_all seqs t).1 = length seqs.
Proof. revert t; induction seqs as [|s seqs IH]; intros t; cbn; [done|by rewrite IH]. Qed.

Lemma count_split sts : (count_accepted sts + count_rejected sts)%nat = length sts.
Proof.
  unfold count_accepted, count_rejected. induction sts as [|st sts IH]; [done|].
  rewrite !filter_cons. destruct (accepted st); repeat case_decide; try done; cbn [length]; lia.
Qed.

Lemma length_event_seqs evs :
  length (event_seqs evs) = length (filter (fun ev => is_malformed ev = false) evs).
Proof.
  induction evs as [|ev evs IH]; [done|]. rewrite event_seqs_cons, filter_cons.
  destruct ev; cbn [event_header is_malformed]; case_decide; cbn [length]; congruence.
Qed.

(** ** The theorems *)

(** A feed with a loss, a late message and a repetition. *)
Definition lossy_packets : list Packet :=
  [mkPacket 5 6 (BodyHeartbeat mkHeartbeat); mkPacket 8 6 (BodyHeartbeat mkHeartbeat);
   mkPacket 7 6 (BodyHeartbeat mkHeartbeat); mkPacket 8 6 (BodyHeartbeat mkHeartbeat)].

(** C4: reassembly: a stream that holds no unknown type byte reaches the same
    state of the handler, of the sink behind it and of every counter, however
    it is cut into segments. *)
Theorem reassembly_independent_of_segments {Down} `{OffsetInsensitive Down} (d : Down) chunks :
  well_framed (concat chunks) ->
  consume_all chunks (new_feed d) =
  (pr ← consume (concat chunks) (new_feed d); Ok (pr.1, (pr_messages pr.2, pr_malformed pr.2))).
Proof.
  intros Hw. apply consume_all_concat; [apply quiescent_new|apply counters_new|done].
Qed.

Lemma reassembly_independent_of_segments_witness :
  let bytes := stream_bytes demo_packets in
  consume_all [take 3 bytes; take 40 (drop 3 bytes); drop 43 bytes] (new_feed (new_builder true)) =
  (pr ← consume bytes (new_feed (new_builder true)); Ok (pr.1, (pr_messages pr.2, pr_malformed pr.2))).
Proof.
  cbn zeta.
  exact (reassembly_independent_of_segments (new_builder true)
    [take 3 (stream_bytes demo_packets); take 40 (drop 3 (stream_bytes demo_packets));
     drop 43 (stream_bytes demo_packets)] ltac:(vm_compute; discriminate)).
Defined.

(** C29: what goes downstream: from any state of the handler, [consume] reports
    to the sink every malformed message and exactly the messages the sequence
    tracker accepts, in order; every message is counted as forwarded or as
    dropped, and the unconsumed tail of the stream is kept for the next
    call. *)
Theorem consume_forwards_accepted {Down} `{HandlerLike Down} bytes (fh : FeedHandler Down) :
  counters_ok fh ->
  let s := scan_at 0 (fh_residual fh ++ bytes) in
  let sts := (observe_all (event_seqs (sc_events s)) (fh_seq fh)).1 in
  consume bytes fh =
  (d ← deliver_all (forwarded_events (sc_events s) (fh_seq fh)) (fh_down fh);
   Ok (mkFeedHandler d (observe_all (event_seqs (sc_events s)) (fh_seq fh)).2
         (drop (sc_consumed s) (fh_residual fh ++ bytes))
         (add64 (fh_forwarded fh) (Z.of_nat (count_accepted sts)))
         (add64 (fh_dropped fh) (Z.of_nat (count_rejected sts)))
         (add64 (fh_malformed fh) (Z.of_nat (pr_malformed (scan_result s)))), scan_result s)) /\
  (count_accepted sts + count_rejected sts = pr_messages (scan_result s))%nat.
Proof.
  intros Hc. cbn zeta. rewrite consume_spec. cbn zeta. rewrite deliver_all_feed by done.
  rewrite bind_assoc. split; [by apply bind_ext; intros d|].
  rewrite count_split, observe_all_length. apply length_event_seqs.
Qed.

Lemma consume_forwards_accepted_witness :
  exists fh r, consume (stream_bytes lossy_packets) (new_feed ([] : Recorder)) = Ok (fh, r) /\
    length (fh_down fh) = 2%nat /\ fh_forwarded fh = 2 /\ fh_dropped fh = 2.
Proof.
  destruct (consume_forwards_accepted (stream_bytes lossy_packets)
    (new_feed ([] : Recorder)) (counters_new [])) as [E _].
  rewrite E, deliver_all_recorder, bind_ok. eexists _, _. split; [reflexivity|].
  vm_compute. repeat split.
Defined.

(** No message is applied twice: on a stream that stays below the last
    sequence number, the sequence numbers that reach the sink are strictly
    increasing, whatever was lost, repeated or reordered on the way. *)
Theorem forwarded_strictly_increasing bytes fh r :
  consume bytes (new_feed ([] : Recorder)) = Ok (fh, r) ->
  Forall no_wrap (event_seqs (sc_events (scan_at 0 bytes))) ->
  StronglySorted Z.lt (event_seqs (fh_down fh)).
Proof.
  intros E Hw. rewrite consume_spec in E. cbn zeta in E.
  change (fh_residual (new_feed ([] : Recorder)) ++ bytes) with bytes in E.
  rewrite deliver_all_feed in E by apply counters_new.
  rewrite deliver_all_recorder, !bind_ok in E. injection E as <- _.
  cbn [fh_down accumulate set_residual after_events new_feed app].
  change (fh_seq (new_feed ([] : Recorder))) with new_tracker. rewrite forwarded_event_seqs.
  destruct (event_seqs (sc_events (scan_at 0 bytes))) as [|first hist]; [constructor|].
  apply Forall_cons in Hw as [Hf Hh]. by destruct (accepted_seqs_bounds first hist Hf Hh).
Qed.

Definition lossy_result : FeedHandler Recorder * ParseResult :=
  match consume (stream_bytes lossy_packets) (new_feed ([] : Recorder)) with
  | Ok pr => pr
  | _ => (new_feed [], empty_result)
  end.

Lemma forwarded_strictly_increasing_witness :
  event_seqs (fh_down lossy_result.1) = [5; 8] /\
  StronglySorted Z.lt (event_seqs (fh_down lossy_result.1)).
Proof.
  split; [vm_compute; reflexivity|].
  apply (forwarded_strictly_increasing (stream_bytes lossy_packets) lossy_result.1 lossy_result.2).
  - vm_compute. reflexivity.
  - replace (event_seqs (sc_events (scan_at 0 (stream_bytes lossy_packets)))) with [5; 8; 7; 8]
      by (vm_compute; reflexivity).
    solve_ranges.
Defined.

(** A datagram is independent of its neighbours: nothing is carried over,
    its events alone are reported, and the handler's pending bytes stay. *)
Theorem datagrams_are_independent {Down} `{HandlerLike Down} bytes (fh fh' : FeedHandler Down) r :
  consume_datagram bytes fh = Ok (fh', r) ->
  fh_residual fh' = fh_residual fh /\ r = scan_result (scan_at 0 bytes) /\
  exists fh1, deliver_all (sc_events (scan_at 0 bytes)) fh = Ok fh1 /\
    fh_down fh' = fh_down fh1 /\ fh_seq fh' = fh_seq fh1.
Proof.
  rewrite consume_datagram_spec. intros (fh1 & E & [= <- <-])%bind_Ok_inv.
  split; [|split; [done|by exists fh1]].
  apply deliver_all_keeps in E. by rewrite E.
Qed.

Definition datagram_result : FeedHandler Recorder * ParseResult :=
  match consume_datagram (stream_bytes demo_packets) (new_feed ([] : Recorder)) with
  | Ok pr => pr
  | _ => (new_feed [], empty_result)
  end.

Lemma datagrams_are_independent_witness :
  fh_residual datagram_result.1 = [] /\ datagram_result.2 = mkParseResult 123 3 0 false.
Proof.
  destruct (datagrams_are_independent (stream_bytes demo_packets) (new_feed ([] : Recorder))
    datagram_result.1 datagram_result.2) as (Hres & Hr & _).
  - vm_compute. reflexivity.
  - split; [exact Hres|]. rewrite Hr. vm_compute. reflexivity.
Defined.

(** *** Departures from the comments *)

(** A truncated datagram is not counted as malformed: a cancel message cut
    after 20 of its 28 bytes leaves every counter and the sink untouched. *)
Theorem truncated_datagram_not_malformed :
  exists r, consume_datagram (take 20 demo_cancel_frame) (new_feed ([] : Recorder)) =
    Ok (new_feed [], r) /\ pr_malformed r = 0%nat /\ needs_more r = true.
Proof. eexists. split; [vm_compute; reflexivity|]. by vm_compute. Qed.

(** After an unknown type byte the result depends on how the stream was
    cut: 16 bytes of garbage and a cancel message in one segment leave the
    message waiting unparsed, in two segments the message is delivered. *)
Theorem bad_header_depends_on_segments :
  let garbage := replicate 16 Byte.xff in
  (exists fh counts, consume_all [garbage ++ demo_cancel_frame] (new_feed ([] : Recorder)) = Ok (fh, counts) /\
     fh_forwarded fh = 0 /\ pending_bytes fh = 28%nat) /\
  (exists fh counts, consume_all [garbage; demo_cancel_frame] (new_feed ([] : Recorder)) = Ok (fh, counts) /\
     fh_forwarded fh = 1 /\ pending_bytes fh = 0%nat).
Proof.
  split; (eexists _, _; split; [vm_compute; reflexivity|split; reflexivity]).
Qed.
