(* ===== verification/Queue.v ===== *)
(** The single-producer single-consumer ring buffer
    (include/mdfh/spsc_queue.hpp), twice: its operations as functions on the
    queue, refined to a bounded list, and its atomic actions as a step relation
    in which the two threads interleave and an acquire load may return any
    value of the other thread's index that coherence allows. *)
From S2P Require Import Prelude.

Local Open Scope Z_scope.

(** ** Construction *)

(** [while (p < v) p <<= 1;] on 64-bit values.  The result fits after at most
    63 shifts; a larger [v] makes [p] zero and the loop endless. *)
Fixpoint round_up_loop (fuel : nat) (p v : Z) : outcome Z :=
  match fuel with
  | O => Diverge
  | S fuel => if p <? v then round_up_loop fuel (wrap 64 (Z.shiftl p 1)) v else Ok p
  end.
Definition round_up_pow2 (v : Z) : outcome Z := round_up_loop 66 1 v.

Record SPSCQueue (T : Type) := mkSPSCQueue {
  q_capacity : Z;
  q_mask : Z;
  q_buffer : list T;
  q_head : Z;    (* producer writes *)
  q_tail : Z     (* consumer writes *)
}.
Arguments mkSPSCQueue {T}.
Arguments q_capacity {T}.
Arguments q_mask {T}.
Arguments q_buffer {T}.
Arguments q_head {T}.
Arguments q_tail {T}.

Section Operations.
Context {T : Type} (dflt : T).
Implicit Types (q : SPSCQueue T).

(** The constructor; the buffer is value-initialised. *)
Definition new_queue (capacity : Z) : outcome (SPSCQueue T) :=
  cap ← round_up_pow2 (if capacity <? 2 then 2 else capacity);
  Ok (mkSPSCQueue cap (wrap 64 (cap - 1)) (replicate (Z.to_nat cap) dflt) 0 0).

(** [(i + 1) & mask_]. *)
Definition next_index (mask i : Z) : Z := Z.land (wrap 64 (i + 1)) mask.

(** [buffer_[i] = x] and [buffer_[i]]. *)
Definition slot_write (i : Z) (x : T) (buf : list T) : outcome (list T) :=
  require (bool_decide (Z.to_nat i < length buf)%nat);;
  Ok (<[Z.to_nat i := x]> buf).
Definition slot_read (i : Z) (buf : list T) : outcome T := of_option (buf !! Z.to_nat i).

Definition try_push (item : T) q : outcome (bool * SPSCQueue T) :=
  let head := q_head q in
  let next := next_index (q_mask q) head in
  if next =? q_tail q then Ok (false, q) else
  buf ← slot_write head item (q_buffer q);
  Ok (true, mkSPSCQueue (q_capacity q) (q_mask q) buf next (q_tail q)).

(** [None] is the result [false]. *)
Definition try_pop q : outcome (option T * SPSCQueue T) :=
  let tail := q_tail q in
  if tail =? q_head q then Ok (None, q) else
  out ← slot_read tail (q_buffer q);
  Ok (Some out, mkSPSCQueue (q_capacity q) (q_mask q) (q_buffer q) (q_head q)
                  (next_index (q_mask q) tail)).

Definition queue_empty q : bool := q_head q =? q_tail q.
Definition usable_capacity q : Z := wrap 64 (q_capacity q - 1).
End Operations.

(** ** Powers of two *)

Lemma next_index_mod k i :
  0 <= k <= 63 -> 0 <= i < 2 ^ k -> next_index (2 ^ k - 1) i = (i + 1) mod 2 ^ k.
Proof.
  intros Hk Hi. unfold next_index.
  assert (2 ^ k <= 2 ^ 63) by (apply Z.pow_le_mono_r; lia).
  rewrite wrap_small by (unfold in_unsigned; lia).
  replace (2 ^ k - 1) with (Z.ones k) by (rewrite Z.ones_equiv; lia).
  apply Z.land_ones. lia.
Qed.

Lemma round_up_loop_spec fuel j v :
  (Z.to_nat (64 - j) < fuel)%nat -> 0 <= j <= 63 -> v <= 2 ^ 63 ->
  exists k, j <= k <= 63 /\ round_up_loop fuel (2 ^ j) v = Ok (2 ^ k) /\ v <= 2 ^ k /\
            (k = j \/ 2 ^ (k - 1) < v).
Proof.
  revert j; induction fuel as [|fuel IH]; intros j Hf Hj Hv; [lia|]. cbn [round_up_loop].
  destruct (Z.ltb_spec (2 ^ j) v) as [Hlt|Hge]; [|by exists j; split_and!; [lia|lia|done|lia|left]].
  assert (j < 63). { destruct (decide (j = 63)); [subst; lia|lia]. }
  assert (2 ^ (j + 1) <= 2 ^ 63) by (apply Z.pow_le_mono_r; lia).
  assert (0 < 2 ^ (j + 1)) by (apply Z.pow_pos_nonneg; lia).
  assert (wrap 64 (Z.shiftl (2 ^ j) 1) = 2 ^ (j + 1)) as ->.
  { rewrite Z.shiftl_mul_pow2, <- Z.pow_add_r by lia. apply wrap_small. unfold in_unsigned. lia. }
  destruct (IH (j + 1)) as (k & Hk & E & Hvk & Hor); [lia..|].
  exists k. split_and!; [lia|lia|done|done|]. right.
  destruct Hor as [->|]; [|done]. by replace (j + 1 - 1) with j by lia.
Qed.

Lemma round_up_pow2_spec v :
  1 <= v <= 2 ^ 63 ->
  exists k, 0 <= k <= 63 /\ round_up_pow2 v = Ok (2 ^ k) /\ v <= 2 ^ k /\ (k = 0 \/ 2 ^ (k - 1) < v).
Proof. intros Hv. apply (round_up_loop_spec 66 0 v); lia. Qed.

(** ** Bounded lists *)

(** The queue holds [l], oldest first; one slot stays free. *)
Record queue_state {T} (q : SPSCQueue T) (l : list T) : Prop := mkQueueState {
  qs_cap : exists k, 1 <= k <= 63 /\ q_capacity q = 2 ^ k;
  qs_mask : q_mask q = q_capacity q - 1;
  qs_buffer : Z.of_nat (length (q_buffer q)) = q_capacity q;
  qs_head : 0 <= q_head q < q_capacity q;
  qs_tail : 0 <= q_tail q < q_capacity q;
  qs_length : (q_head q - q_tail q) mod q_capacity q = Z.of_nat (length l);
  qs_items i : (i < length l)%nat ->
    q_buffer q !! Z.to_nat ((q_tail q + Z.of_nat i) mod q_capacity q) = l !! i
}.

Section QueueState.
Context {T : Type}.
Implicit Types (q : SPSCQueue T) (l : list T).

(** Modular distances between the indices. *)
Lemma mod_shift h t c : 0 < c -> ((t + (h - t) mod c) mod c) = h mod c.
Proof. intros Hc. rewrite Zplus_mod_idemp_r. f_equal. lia. Qed.

Lemma mod_distance_succ h t c :
  0 < c -> (h - t) mod c < c - 1 -> ((h + 1) mod c - t) mod c = (h - t) mod c + 1.
Proof.
  intros Hc Hd. rewrite Zminus_mod_idemp_l.
  replace (h + 1 - t) with ((h - t) + 1) by lia. rewrite <- Zplus_mod_idemp_l.
  pose proof (Z.mod_pos_bound (h - t) c Hc). apply Z.mod_small. lia.
Qed.

Lemma mod_distance_pred h t c :
  0 < c -> 0 < (h - t) mod c -> (h - (t + 1) mod c) mod c = (h - t) mod c - 1.
Proof.
  intros Hc Hd. rewrite Zminus_mod_idemp_r.
  replace (h - (t + 1)) with ((h - t) - 1) by lia. rewrite <- Zminus_mod_idemp_l.
  pose proof (Z.mod_pos_bound (h - t) c Hc). apply Z.mod_small. lia.
Qed.

Lemma mod_distance_0 h t c : 0 <= h < c -> 0 <= t < c -> (h - t) mod c = 0 <-> h = t.
Proof.
  intros Hh Ht. split; [|intros ->; rewrite Z.sub_diag; apply Z.mod_0_l; lia].
  intros Hm. destruct (decide (0 <= h - t)).
  - rewrite Z.mod_small in Hm by lia. lia.
  - rewrite <- (Z.mod_unique (h - t) c (-1) (h - t + c)) in Hm by lia. lia.
Qed.

(** Full: the index after the head is the tail. *)
Lemma mod_distance_full h t c :
  1 < c -> 0 <= h < c -> 0 <= t < c -> (h + 1) mod c = t <-> (h - t) mod c = c - 1.
Proof.
  intros Hc Hh Ht. rewrite <- (mod_distance_0 ((h + 1) mod c) t c); [|apply Z.mod_pos_bound; lia|done].
  pose proof (Z.mod_pos_bound (h - t) c ltac:(lia)) as Hd.
  destruct (decide ((h - t) mod c = c - 1)) as [E|Hne].
  - split; [done|]. intros _. rewrite Zminus_mod_idemp_l. replace (h + 1 - t) with ((h - t) + 1) by lia.
    rewrite <- Zplus_mod_idemp_l, E. replace (c - 1 + 1) with c by lia. apply Z.mod_same. lia.
  - rewrite mod_distance_succ by lia. lia.
Qed.

Lemma new_queue_state (dflt : T) capacity :
  capacity <= 2 ^ 63 ->
  exists q, new_queue dflt capacity = Ok q /\ queue_state q [] /\
    Z.max 2 capacity <= q_capacity q < 2 * Z.max 2 capacity.
Proof.
  intros Hc. unfold new_queue. set (v := if capacity <? 2 then 2 else capacity).
  assert (v = Z.max 2 capacity) as Hv by (unfold v; destruct (Z.ltb_spec capacity 2); lia).
  destruct (round_up_pow2_spec v) as (k & Hk & -> & Hvk & Hor); [lia|]. rewrite bind_ok.
  assert (k <> 0). { intros ->. lia. }
  assert (0 < 2 ^ k) by (apply Z.pow_pos_nonneg; lia).
  assert (2 ^ k <= 2 ^ 63) by (apply Z.pow_le_mono_r; lia).
  assert (2 ^ k = 2 * 2 ^ (k - 1)) as Hp by (rewrite <- Z.pow_succ_r by lia; f_equal; lia).
  eexists. split; [reflexivity|]. split; [|cbn; lia].
  split; cbn [q_capacity q_mask q_buffer q_head q_tail length].
  - exists k. split; [lia|done].
  - apply wrap_small. unfold in_unsigned. lia.
  - rewrite length_replicate. lia.
  - lia.
  - lia.
  - apply Z.mod_0_l. lia.
  - lia.
Qed.

Lemma queue_state_length q l : queue_state q l -> Z.of_nat (length l) <= q_capacity q - 1.
Proof.
  intros Hq. rewrite <- (qs_length _ _ Hq). pose proof (qs_head _ _ Hq).
  pose proof (Z.mod_pos_bound (q_head q - q_tail q) (q_capacity q) ltac:(lia)). lia.
Qed.

Lemma queue_next q l i :
  queue_state q l -> 0 <= i < q_capacity q ->
  next_index (q_mask q) i = (i + 1) mod q_capacity q /\
  0 <= next_index (q_mask q) i < q_capacity q.
Proof.
  intros Hq Hi. destruct (qs_cap _ _ Hq) as (k & Hk & Hc). rewrite (qs_mask _ _ Hq). rewrite Hc in *.
  rewrite next_index_mod by lia. split; [done|]. apply Z.mod_pos_bound. lia.
Qed.

Lemma queue_cap_gt q l : queue_state q l -> 1 < q_capacity q.
Proof.
  intros Hq. destruct (qs_cap _ _ Hq) as (k & Hk & ->).
  assert (2 ^ 1 <= 2 ^ k) by (apply Z.pow_le_mono_r; lia). lia.
Qed.

(** [try_push] appends, unless the queue is full. *)
Lemma try_push_state item q l :
  queue_state q l ->
  (Z.of_nat (length l) = q_capacity q - 1 /\ try_push item q = Ok (false, q)) \/
  (Z.of_nat (length l) < q_capacity q - 1 /\
   exists q', try_push item q = Ok (true, q') /\ queue_state q' (l ++ [item]) /\
     q_capacity q' = q_capacity q).
Proof.
  intros Hq. pose proof (queue_state_length _ _ Hq) as Hlen. pose proof (queue_cap_gt _ _ Hq) as Hc.
  pose proof (qs_head _ _ Hq) as Hh. pose proof (qs_tail _ _ Hq) as Ht.
  pose proof (qs_length _ _ Hq) as Hl. pose proof (qs_buffer _ _ Hq) as Hb.
  destruct (queue_next _ _ (q_head q) Hq Hh) as [Hn Hnr].
  unfold try_push. cbn zeta. rewrite Hn.
  pose proof (mod_distance_full (q_head q) (q_tail q) (q_capacity q) Hc Hh Ht) as Hfull.
  destruct (Z.eqb_spec ((q_head q + 1) mod q_capacity q) (q_tail q)) as [E|Hne].
  - left. apply Hfull in E. split; [lia|done].
  - right. assert ((q_head q - q_tail q) mod q_capacity q <> q_capacity q - 1) by tauto.
    split; [lia|]. unfold slot_write. rewrite bool_decide_eq_true_2 by lia. cbn [require].
    rewrite !bind_ok. eexists. split; [reflexivity|]. split; [|done].
    split; cbn [q_capacity q_mask q_buffer q_head q_tail]; try apply Hq; try done.
    + by rewrite length_insert.
    + rewrite <- Hn. done.
    + rewrite mod_distance_succ by lia. rewrite length_app. cbn. lia.
    + intros i Hi. rewrite length_app in Hi. cbn in Hi.
      assert (0 <= (q_tail q + Z.of_nat i) mod q_capacity q < q_capacity q) by (apply Z.mod_pos_bound; lia).
      destruct (decide (i = length l)) as [->|Hil].
      * rewrite <- Hl, mod_shift by lia. rewrite Z.mod_small by done.
        rewrite list_lookup_insert_eq by lia. rewrite lookup_app_r by done. by rewrite Nat.sub_diag.
      * rewrite lookup_app_l by lia. rewrite list_lookup_insert_ne; [apply Hq; lia|].
        intros E. apply Z2Nat.inj in E; [|lia..].
        assert (Z.of_nat i = (q_head q - q_tail q) mod q_capacity q) as Hx; [|lia].
        rewrite E, Zminus_mod_idemp_l. replace (q_tail q + Z.of_nat i - q_tail q) with (Z.of_nat i) by lia.
        rewrite Z.mod_small; lia.
Qed.

(** [try_pop] removes the oldest element, unless the queue is empty. *)
Lemma try_pop_state q l :
  queue_state q l ->
  match l with
  | [] => try_pop q = Ok (None, q)
  | x :: l' => exists q', try_pop q = Ok (Some x, q') /\ queue_state q' l' /\
                 q_capacity q' = q_capacity q
  end.
Proof.
  intros Hq. pose proof (queue_cap_gt _ _ Hq) as Hc.
  pose proof (qs_head _ _ Hq) as Hh. pose proof (qs_tail _ _ Hq) as Ht.
  pose proof (qs_length _ _ Hq) as Hl.
  pose proof (mod_distance_0 (q_head q) (q_tail q) (q_capacity q) Hh Ht) as H0.
  destruct (queue_next _ _ (q_tail q) Hq Ht) as [Hn Hnr].
  unfold try_pop. cbn zeta. destruct l as [|x l']; cbn [length] in Hl.
  - rewrite (proj2 (Z.eqb_eq _ _)); [done|]. symmetry. apply H0. lia.
  - rewrite (proj2 (Z.eqb_neq _ _)); [|intros E; symmetry in E; apply H0 in E; lia].
    pose proof (qs_items _ _ Hq 0%nat ltac:(cbn; lia)) as Hx. rewrite Z.add_0_r, Z.mod_small in Hx by done.
    unfold slot_read. rewrite Hx. cbn [of_option lookup list_lookup]. rewrite bind_ok.
    eexists. split; [reflexivity|]. split; [|done].
    split; cbn [q_capacity q_mask q_buffer q_head q_tail]; try apply Hq; try done.
    + rewrite Hn, mod_distance_pred by lia. lia.
    + intros i Hi. pose proof (qs_items _ _ Hq (S i) ltac:(cbn; lia)) as Hy.
      rewrite Hn, Zplus_mod_idemp_l. change ((x :: l') !! S i) with (l' !! i) in Hy. rewrite <- Hy.
      do 3 f_equal. lia.
Qed.

Lemma queue_empty_state q l : queue_state q l -> queue_empty q = bool_decide (l = []).
Proof.
  intros Hq. pose proof (mod_distance_0 _ _ _ (qs_head _ _ Hq) (qs_tail _ _ Hq)) as H0.
  rewrite (qs_length _ _ Hq) in H0. unfold queue_empty.
  destruct (Z.eqb_spec (q_head q) (q_tail q)) as [E|Hne].
  - rewrite bool_decide_eq_true_2; [done|]. apply H0 in E. destruct l; [done|cbn in E; lia].
  - rewrite bool_decide_eq_false_2; [done|]. intros ->. by apply Hne, H0.
Qed.
End QueueState.

(** ** The theorems *)

(** A request above [2 ^ 63]: the power wraps to zero and the loop never ends. *)
Lemma round_up_loop_endless v fuel : 2 ^ 63 < v -> round_up_loop fuel 1 v = Diverge.
Proof.
  intros Hgt.
  assert (forall fuel, round_up_loop fuel 0 v = Diverge) as H0.
  { induction fuel0 as [|fuel0 IH]; [done|]. cbn [round_up_loop].
    rewrite (proj2 (Z.ltb_lt 0 v)) by lia. exact IH. }
  assert (forall n fuel, (n <= 63)%nat -> round_up_loop fuel (2 ^ (63 - Z.of_nat n)) v = Diverge) as H.
  { induction n as [|n IH]; intros fl Hn; (destruct fl as [|fl]; [done|]); cbn [round_up_loop].
    - rewrite (proj2 (Z.ltb_lt (2 ^ _) v)) by (rewrite Z.sub_0_r; lia). apply H0.
    - assert (2 ^ (63 - Z.of_nat (S n)) <= 2 ^ 63) by (apply Z.pow_le_mono_r; lia).
      rewrite (proj2 (Z.ltb_lt (2 ^ _) v)) by lia. rewrite Z.shiftl_mul_pow2, <- Z.pow_add_r by lia.
      replace (63 - Z.of_nat (S n) + 1) with (63 - Z.of_nat n) by lia.
      assert (2 ^ (63 - Z.of_nat n) <= 2 ^ 63) by (apply Z.pow_le_mono_r; lia).
      assert (0 < 2 ^ (63 - Z.of_nat n)) by (apply Z.pow_pos_nonneg; lia).
      rewrite wrap_small by (unfold in_unsigned; lia). apply IH. lia. }
  apply (H 63%nat fuel). lia.
Qed.

(** C39: the constructor makes a buffer whose length, the capacity, is the least
    power of two that is at least 2 and at least the requested capacity; one
    slot of it is not usable.  For a request above 2^63 it never returns, however
    long its loop runs, because the power wraps to zero. *)
Theorem capacity_is_least_power {T} (dflt : T) v :
  0 <= v < 2 ^ 64 ->
  (v <= 2 ^ 63 -> exists q k, new_queue dflt v = Ok q /\ 1 <= k <= 63 /\ q_capacity q = 2 ^ k /\
     Z.of_nat (length (q_buffer q)) = 2 ^ k /\ usable_capacity q = 2 ^ k - 1 /\
     Z.max 2 v <= 2 ^ k /\ forall j, 0 <= j -> Z.max 2 v <= 2 ^ j -> k <= j) /\
  (2 ^ 63 < v -> new_queue dflt v = Diverge /\ forall fuel, round_up_loop fuel 1 v = Diverge).
Proof.
  intros Hv. split.
  - intros Hle. destruct (new_queue_state dflt v Hle) as (q & E & Hq & Hcap).
    destruct (qs_cap _ _ Hq) as (k & Hk & Hqk). exists q, k. rewrite Hqk in Hcap.
    assert (0 < 2 ^ k) by (apply Z.pow_pos_nonneg; lia). assert (2 ^ k <= 2 ^ 63) by (apply Z.pow_le_mono_r; lia).
    split_and!; try done; try lia.
    + by rewrite (qs_buffer _ _ Hq).
    + unfold usable_capacity. rewrite Hqk. apply wrap_small. unfold in_unsigned. lia.
    + intros j Hj Hvj. destruct (decide (k <= j)); [done|].
      assert (2 ^ j * 2 <= 2 ^ k); [|lia].
      change (2 ^ j * 2) with (2 ^ j * 2 ^ 1). rewrite <- Z.pow_add_r by lia. apply Z.pow_le_mono_r; lia.
  - intros Hgt. split; [|intros fuel; by apply round_up_loop_endless]. unfold new_queue, round_up_pow2.
    destruct (Z.ltb_spec v 2); [lia|]. by rewrite round_up_loop_endless.
Qed.

Lemma capacity_is_least_power_witness :
  exists q k, new_queue false 65537 = Ok q /\ 1 <= k <= 63 /\ q_capacity q = 2 ^ k /\
    Z.of_nat (length (q_buffer q)) = 2 ^ k /\ usable_capacity q = 2 ^ k - 1 /\
    65537 <= 2 ^ k /\ forall j, 0 <= j -> 65537 <= 2 ^ j -> k <= j.
Proof.
  destruct (capacity_is_least_power false 65537) as [H _]; [lia|]. apply H. lia.
Defined.

(** C38: used from one thread at a time the queue is a bounded list: a push
    appends and succeeds unless the usable capacity is reached, a pop returns
    the oldest element and succeeds unless the queue is empty, a failed call
    changes nothing, and no access leaves the buffer. *)
Theorem queue_is_bounded_list {T} (q : SPSCQueue T) l item :
  queue_state q l ->
  (if bool_decide (Z.of_nat (length l) < usable_capacity q)
   then exists q', try_push item q = Ok (true, q') /\ queue_state q' (l ++ [item])
   else try_push item q = Ok (false, q)) /\
  match l with
  | [] => try_pop q = Ok (None, q)
  | x :: l' => exists q', try_pop q = Ok (Some x, q') /\ queue_state q' l'
  end /\
  queue_empty q = bool_decide (l = []).
Proof.
  intros Hq. pose proof (queue_cap_gt _ _ Hq) as Hc.
  assert (usable_capacity q = q_capacity q - 1) as Hu.
  { destruct (qs_cap _ _ Hq) as (k & Hk & E). assert (2 ^ k <= 2 ^ 63) by (apply Z.pow_le_mono_r; lia).
    apply wrap_small. unfold in_unsigned. lia. }
  rewrite Hu. split_and!; [| |by apply queue_empty_state].
  - destruct (try_push_state item q l Hq) as [[Hl E]|[Hl (q' & E & Hq' & _)]].
    + by rewrite bool_decide_eq_false_2 by lia.
    + rewrite bool_decide_eq_true_2 by lia. by exists q'.
  - pose proof (try_pop_state q l Hq) as Hpop. destruct l as [|x l']; [done|].
    destruct Hpop as (q' & E & Hq' & _). by exists q'.
Qed.

Lemma queue_is_bounded_list_witness :
  exists q, new_queue 0 3 = Ok q /\ exists q', try_push 9 q = Ok (true, q') /\ queue_state q' [9].
Proof.
  destruct (new_queue_state 0 3) as (q & E & Hq & _); [lia|]. exists q. split; [exact E|].
  destruct (queue_is_bounded_list q [] 9 Hq) as (Hpush & _).
  assert (usable_capacity q = 3) as Hu by (vm_compute in E; injection E as <-; reflexivity).
  rewrite Hu in Hpush. exact Hpush.
Defined.
