(* ===== verification/QueueThreads.v ===== *)
(** The ring buffer under concurrency (include/mdfh/spsc_queue.hpp): the atomic
    actions of [try_push] and [try_pop] as two step relations whose union
    interleaves the threads.  An atomic index is its modification order; a
    thread's acquire load returns any value of the other thread's index that is
    not older than the last one it saw, as C++ coherence allows.  The relaxed
    load of a thread's own index returns the value it stored last. *)
From S2P Require Import Prelude Queue.

Local Open Scope Z_scope.

(** ** Configurations *)

(** Where the producer is in [try_push]: between calls, after loading [head_],
    after finding the slot free, after writing it. *)
Inductive Producer (T : Type) :=
  | PIdle
  | PHead (item : T) (head : Z)
  | PFree (item : T) (head next : Z)
  | PWritten (item : T) (next : Z).
Arguments PIdle {T}.
Arguments PHead {T}.
Arguments PFree {T}.
Arguments PWritten {T}.

(** Where the consumer is in [try_pop]: between calls, after loading [tail_],
    after finding the queue non-empty, after copying the slot out. *)
Inductive Consumer (T : Type) :=
  | CIdle
  | CTail (tail : Z)
  | CReady (tail : Z)
  | CRead (tail : Z) (out : T).
Arguments CIdle {T}.
Arguments CTail {T}.
Arguments CReady {T}.
Arguments CRead {T}.

(** [head_] and [tail_] are given by their modification orders, oldest first;
    [cf_pview] and [cf_cview] are the positions of the last values of the other
    index the producer and the consumer saw.  [cf_pushed] and [cf_popped]
    record the completed calls. *)
Record Config (T : Type) := mkConfig {
  cf_buffer : list T;
  cf_head : list Z;
  cf_tail : list Z;
  cf_prod : Producer T;
  cf_pview : nat;
  cf_cons : Consumer T;
  cf_cview : nat;
  cf_pushed : list T;
  cf_popped : list T
}.
Arguments mkConfig {T}.
Arguments cf_buffer {T}.
Arguments cf_head {T}.
Arguments cf_tail {T}.
Arguments cf_prod {T}.
Arguments cf_pview {T}.
Arguments cf_cons {T}.
Arguments cf_cview {T}.
Arguments cf_pushed {T}.
Arguments cf_popped {T}.

Section Steps.
Context {T : Type} (mask : Z).
Implicit Types (cf : Config T).

(** [try_push(item)], one atomic action at a time. *)
Inductive producer_step : Config T -> Config T -> Prop :=
  | push_load_head item head buf hd tl pv c cv pu po :
      last hd = Some head ->
      producer_step (mkConfig buf hd tl PIdle pv c cv pu po)
                    (mkConfig buf hd tl (PHead item head) pv c cv pu po)
  | push_full item head j tail buf hd tl pv c cv pu po :
      (pv <= j)%nat -> tl !! j = Some tail -> next_index mask head = tail ->
      producer_step (mkConfig buf hd tl (PHead item head) pv c cv pu po)
                    (mkConfig buf hd tl PIdle j c cv pu po)
  | push_free item head j tail buf hd tl pv c cv pu po :
      (pv <= j)%nat -> tl !! j = Some tail -> next_index mask head <> tail ->
      producer_step (mkConfig buf hd tl (PHead item head) pv c cv pu po)
                    (mkConfig buf hd tl (PFree item head (next_index mask head)) j c cv pu po)
  | push_write item head next buf buf' hd tl pv c cv pu po :
      slot_write head item buf = Ok buf' ->
      producer_step (mkConfig buf hd tl (PFree item head next) pv c cv pu po)
                    (mkConfig buf' hd tl (PWritten item next) pv c cv pu po)
  | push_publish item next buf hd tl pv c cv pu po :
      producer_step (mkConfig buf hd tl (PWritten item next) pv c cv pu po)
                    (mkConfig buf (hd ++ [next]) tl PIdle pv c cv (pu ++ [item]) po).

(** [try_pop(out)], one atomic action at a time. *)
Inductive consumer_step : Config T -> Config T -> Prop :=
  | pop_load_tail tail buf hd tl p pv cv pu po :
      last tl = Some tail ->
      consumer_step (mkConfig buf hd tl p pv CIdle cv pu po)
                    (mkConfig buf hd tl p pv (CTail tail) cv pu po)
  | pop_empty tail j head buf hd tl p pv cv pu po :
      (cv <= j)%nat -> hd !! j = Some head -> tail = head ->
      consumer_step (mkConfig buf hd tl p pv (CTail tail) cv pu po)
                    (mkConfig buf hd tl p pv CIdle j pu po)
  | pop_ready tail j head buf hd tl p pv cv pu po :
      (cv <= j)%nat -> hd !! j = Some head -> tail <> head ->
      consumer_step (mkConfig buf hd tl p pv (CTail tail) cv pu po)
                    (mkConfig buf hd tl p pv (CReady tail) j pu po)
  | pop_read tail out buf hd tl p pv cv pu po :
      slot_read tail buf = Ok out ->
      consumer_step (mkConfig buf hd tl p pv (CReady tail) cv pu po)
                    (mkConfig buf hd tl p pv (CRead tail out) cv pu po)
  | pop_release tail out buf hd tl p pv cv pu po :
      consumer_step (mkConfig buf hd tl p pv (CRead tail out) cv pu po)
                    (mkConfig buf hd (tl ++ [next_index mask tail]) p pv CIdle cv pu (po ++ [out])).

Definition step cf cf' : Prop := producer_step cf cf' \/ consumer_step cf cf'.
End Steps.

(** The queue as its constructor leaves it, both threads between calls. *)
Definition initial {T} (q : SPSCQueue T) : Config T :=
  mkConfig (q_buffer q) [q_head q] [q_tail q] PIdle 0 CIdle 0 [] [].

Definition reachable {T} (q : SPSCQueue T) (cf : Config T) : Prop :=
  rtc (step (q_mask q)) (initial q) cf.

(** ** The invariant *)

(** The first [n + 1] values an index takes. *)
Definition index_history (c : Z) (n : nat) : list Z := map (fun i => Z.of_nat i mod c) (seq 0 (S n)).

Section Invariant.
Context {T : Type} (c : Z).
Hypothesis Hpow : exists k, 1 <= k <= 63 /\ c = 2 ^ k.
Implicit Types (cf : Config T).

Definition producer_ok cf : Prop :=
  let n := length (cf_pushed cf) in
  match cf_prod cf with
  | PIdle => True
  | PHead _ head => head = Z.of_nat n mod c
  | PFree _ head next =>
      head = Z.of_nat n mod c /\ next = Z.of_nat (S n) mod c /\
      Z.of_nat (S n) <= Z.of_nat (cf_pview cf) + c - 1
  | PWritten item next =>
      next = Z.of_nat (S n) mod c /\ Z.of_nat (S n) <= Z.of_nat (cf_pview cf) + c - 1 /\
      cf_buffer cf !! Z.to_nat (Z.of_nat n mod c) = Some item
  end.

Definition consumer_ok cf : Prop :=
  let m := length (cf_popped cf) in
  match cf_cons cf with
  | CIdle => True
  | CTail tail => tail = Z.of_nat m mod c
  | CReady tail => tail = Z.of_nat m mod c /\ (m < cf_cview cf)%nat
  | CRead tail out =>
      tail = Z.of_nat m mod c /\ (m < cf_cview cf)%nat /\ cf_pushed cf !! m = Some out
  end.

Record inv cf : Prop := mkInv {
  inv_buffer : Z.of_nat (length (cf_buffer cf)) = c;
  inv_head : cf_head cf = index_history c (length (cf_pushed cf));
  inv_tail : cf_tail cf = index_history c (length (cf_popped cf));
  inv_fifo : cf_popped cf `prefix_of` cf_pushed cf;
  inv_pview : (cf_pview cf <= length (cf_popped cf))%nat;
  inv_space : Z.of_nat (length (cf_pushed cf)) <= Z.of_nat (cf_pview cf) + c - 1;
  inv_cview : (length (cf_popped cf) <= cf_cview cf <= length (cf_pushed cf))%nat;
  inv_items i : (length (cf_popped cf) <= i < length (cf_pushed cf))%nat ->
    cf_buffer cf !! Z.to_nat (Z.of_nat i mod c) = cf_pushed cf !! i;
  inv_producer : producer_ok cf;
  inv_consumer : consumer_ok cf
}.

Lemma cap_pos : 1 < c.
Proof.
  destruct Hpow as (k & Hk & ->). assert (2 ^ 1 <= 2 ^ k) by (apply Z.pow_le_mono_r; lia). lia.
Qed.

Lemma next_mod n : next_index (c - 1) (Z.of_nat n mod c) = Z.of_nat (S n) mod c.
Proof.
  pose proof cap_pos. pose proof (Z.mod_pos_bound (Z.of_nat n) c ltac:(lia)).
  destruct Hpow as (k & Hk & Hc). rewrite Hc in *. rewrite next_index_mod by lia.
  rewrite Zplus_mod_idemp_l. f_equal. lia.
Qed.

Lemma history_last n : last (index_history c n) = Some (Z.of_nat n mod c).
Proof. unfold index_history. rewrite seq_S, map_app. cbn [map]. by rewrite last_snoc. Qed.

Lemma history_lookup n j : (j <= n)%nat -> index_history c n !! j = Some (Z.of_nat j mod c).
Proof.
  intros Hj. etransitivity; [exact (list_lookup_fmap (fun i => Z.of_nat i mod c) (seq 0 (S n)) j)|].
  by rewrite lookup_seq_lt by lia.
Qed.

Lemma history_lookup_inv n j v :
  index_history c n !! j = Some v -> (j <= n)%nat /\ v = Z.of_nat j mod c.
Proof.
  intros E. assert (j < length (index_history c n))%nat as Hj by by eapply lookup_lt_Some.
  unfold index_history in Hj. rewrite length_map, length_seq in Hj.
  rewrite history_lookup in E by lia. injection E as <-. split; [lia|done].
Qed.

Lemma history_snoc n : index_history c n ++ [Z.of_nat (S n) mod c] = index_history c (S n).
Proof. unfold index_history. by rewrite (seq_S (S n)), map_app. Qed.

(** Indices less than [c] apart are in different slots. *)
Lemma slots_differ i j : (i < j)%nat -> Z.of_nat j - Z.of_nat i < c -> Z.of_nat i mod c <> Z.of_nat j mod c.
Proof.
  intros Hij Hd E. pose proof cap_pos.
  assert ((Z.of_nat j - Z.of_nat i) mod c = 0) as H0.
  { rewrite <- Zminus_mod_idemp_l, <- E, Zminus_mod_idemp_l, Z.sub_diag. apply Z.mod_0_l. lia. }
  rewrite Z.mod_small in H0 by lia. lia.
Qed.

Lemma slot_range i : 0 <= Z.of_nat i mod c < c.
Proof. pose proof cap_pos. apply Z.mod_pos_bound. lia. Qed.

Lemma inv_initial q : queue_state q [] -> q_capacity q = c -> q_head q = 0 -> q_tail q = 0 ->
  inv (initial q : Config T).
Proof.
  intros Hq Hc Hh Ht. pose proof cap_pos. unfold initial. rewrite Hh, Ht.
  split; cbn [cf_buffer cf_head cf_tail cf_prod cf_pview cf_cons cf_cview cf_pushed cf_popped length];
    try done; try lia.
  rewrite <- Hc. apply Hq.
Qed.

Ltac unfold_config := cbn [cf_buffer cf_head cf_tail cf_prod cf_pview cf_cons cf_cview cf_pushed cf_popped] in *.

Lemma inv_producer_step cf cf' : producer_step (c - 1) cf cf' -> inv cf -> inv cf'.
Proof.
  pose proof cap_pos as Hc.
  intros Hstep [Hb Hhd Htl Hfifo Hpv Hsp Hcv Hit Hp Hk]. destruct Hstep as
    [item head buf hd tl pv k cv pu po Hlast
    |item head j tail buf hd tl pv k cv pu po Hj Htail Hnext
    |item head j tail buf hd tl pv k cv pu po Hj Htail Hnext
    |item head next buf buf' hd tl pv k cv pu po Hw
    |item next buf hd tl pv k cv pu po]; unfold_config; unfold producer_ok in Hp; unfold_config.
  - split; unfold_config; try done. unfold producer_ok. unfold_config.
    rewrite Hhd, history_last in Hlast. by injection Hlast as <-.
  - rewrite Htl in Htail. apply history_lookup_inv in Htail as [Hjm ->].
    split; unfold_config; try done. lia.
  - rewrite Htl in Htail. apply history_lookup_inv in Htail as [Hjm ->]. subst head.
    rewrite next_mod in *. split; unfold_config; try done; [lia|].
    unfold producer_ok. unfold_config. split_and!; [done..|].
    destruct (decide (Z.of_nat (S (length pu)) = Z.of_nat j + c)) as [E|]; [|lia].
    exfalso. apply Hnext. rewrite E. replace (Z.of_nat j + c) with (Z.of_nat j + 1 * c) by lia.
    apply Z_mod_plus_full.
  - destruct Hp as (-> & -> & Hspace). unfold slot_write in Hw.
    destruct (bool_decide _) eqn:Hlen; [|discriminate]. cbn [require] in Hw. rewrite bind_ok in Hw.
    injection Hw as <-. pose proof (slot_range (length pu)).
    split; unfold_config; try done; [by rewrite length_insert| |].
    + intros i Hi. rewrite list_lookup_insert_ne; [by apply Hit|].
      pose proof (slot_range i). intros E. apply Z2Nat.inj in E; [|lia..].
      symmetry in E. revert E. apply slots_differ; lia.
    + unfold producer_ok. unfold_config. split_and!; [done..|].
      apply list_lookup_insert_eq. apply bool_decide_eq_true in Hlen. done.
  - destruct Hp as (-> & Hspace & Hslot).
    split; unfold_config; try done; rewrite ?length_app; cbn [length]; rewrite ?Nat.add_1_r.
    + rewrite Hhd. apply history_snoc.
    + by apply prefix_app_r.
    + lia.
    + lia.
    + intros i Hi. destruct (decide (i = length pu)) as [->|Hne].
      * rewrite Hslot, lookup_app_r by lia. by rewrite Nat.sub_diag.
      * rewrite lookup_app_l by lia. apply Hit. lia.
    + unfold consumer_ok in *. unfold_config. destruct k; try done.
      destruct Hk as (? & ? & Hout). split_and!; [done..|].
      rewrite lookup_app_l; [done|]. by eapply lookup_lt_Some.
Qed.

Lemma inv_consumer_step cf cf' : consumer_step (c - 1) cf cf' -> inv cf -> inv cf'.
Proof.
  pose proof cap_pos as Hc.
  intros Hstep [Hb Hhd Htl Hfifo Hpv Hsp Hcv Hit Hp Hk]. destruct Hstep as
    [tail buf hd tl p pv cv pu po Hlast
    |tail j head buf hd tl p pv cv pu po Hj Hhead Heq
    |tail j head buf hd tl p pv cv pu po Hj Hhead Hne
    |tail out buf hd tl p pv cv pu po Hr
    |tail out buf hd tl p pv cv pu po]; unfold_config; unfold consumer_ok in Hk; unfold_config.
  - split; unfold_config; try done. unfold consumer_ok. unfold_config.
    rewrite Htl, history_last in Hlast. by injection Hlast as <-.
  - rewrite Hhd in Hhead. apply history_lookup_inv in Hhead as [Hjn _].
    split; unfold_config; try done. lia.
  - rewrite Hhd in Hhead. apply history_lookup_inv in Hhead as [Hjn ->]. subst tail.
    split; unfold_config; try done; [lia|]. unfold consumer_ok. unfold_config. split; [done|].
    destruct (decide (j = length po)) as [->|]; [done|lia].
  - destruct Hk as [-> Hlt]. split; unfold_config; try done. unfold consumer_ok. unfold_config.
    split_and!; [done..|]. unfold slot_read in Hr. rewrite Hit in Hr by lia.
    by destruct (pu !! length po); [injection Hr as ->|].
  - destruct Hk as (-> & Hlt & Hout). rewrite next_mod.
    split; unfold_config; try done; rewrite ?length_app; cbn [length]; rewrite ?Nat.add_1_r.
    + rewrite Htl. apply history_snoc.
    + destruct Hfifo as [rest ->]. rewrite lookup_app_r, Nat.sub_diag in Hout by lia.
      destruct rest as [|x rest]; [done|]. injection Hout as ->. exists rest. by rewrite <- app_assoc.
    + lia.
    + lia.
    + intros i Hi. apply Hit. lia.
Qed.
End Invariant.

(** ** Reachable configurations *)

Section Reachable.
Context {T : Type} (dflt : T) (capacity : Z) (q : SPSCQueue T).
Hypothesis Hnew : new_queue dflt capacity = Ok q.
Hypothesis Hcap : capacity <= 2 ^ 63.

Lemma new_queue_inv :
  (exists k, 1 <= k <= 63 /\ q_capacity q = 2 ^ k) /\ q_mask q = q_capacity q - 1 /\
  inv (q_capacity q) (initial q).
Proof.
  destruct (new_queue_state dflt capacity Hcap) as (q' & E & Hq & _).
  rewrite Hnew in E. injection E as <-. pose proof (qs_cap _ _ Hq) as Hp.
  split; [done|]. split; [apply Hq|]. apply inv_initial; try done.
  - unfold new_queue in Hnew. apply bind_Ok_inv in Hnew as (cap & _ & [= <-]). done.
  - unfold new_queue in Hnew. apply bind_Ok_inv in Hnew as (cap & _ & [= <-]). done.
Qed.

Lemma reachable_inv cf : reachable q cf -> inv (q_capacity q) cf.
Proof.
  destruct new_queue_inv as (Hp & Hmask & Hinit). unfold reachable. rewrite Hmask.
  intros Hr. revert Hinit. induction Hr as [|cf1 cf2 cf3 [Hs|Hs] _ IH]; intros Hinv; [done|..].
  - by apply IH, (inv_producer_step _ Hp cf1).
  - by apply IH, (inv_consumer_step _ Hp cf1).
Qed.

(** Neither thread is ever stuck. *)
Lemma producer_enabled cf : reachable q cf -> exists cf', producer_step (q_mask q) cf cf'.
Proof.
  intros Hr. destruct new_queue_inv as (Hp & Hmask & _). pose proof (reachable_inv cf Hr) as Hinv.
  destruct Hinv as [Hb Hhd Htl _ Hpv _ _ _ Hprod _]. rewrite Hmask.
  destruct cf as [buf hd tl p pv k cv pu po]. unfold producer_ok in Hprod.
  cbn [cf_buffer cf_head cf_tail cf_prod cf_pview cf_cons cf_cview cf_pushed cf_popped] in *.
  destruct p as [|item head|item head next|item next].
  - eexists. apply (push_load_head _ dflt). by rewrite Hhd, history_last.
  - pose proof (history_lookup (q_capacity q) (length po) pv Hpv) as Hl. rewrite <- Htl in Hl.
    destruct (decide (next_index (q_capacity q - 1) head = Z.of_nat pv mod q_capacity q)).
    + eexists. eapply (push_full _ _ _ pv); [lia|exact Hl|done].
    + eexists. eapply (push_free _ _ _ pv); [lia|exact Hl|done].
  - destruct Hprod as (-> & _ & _). eexists. eapply push_write. unfold slot_write.
    pose proof (slot_range _ Hp (length pu)).
    rewrite bool_decide_eq_true_2 by lia. reflexivity.
  - eexists. apply push_publish.
Qed.

Lemma consumer_enabled cf : reachable q cf -> exists cf', consumer_step (q_mask q) cf cf'.
Proof.
  intros Hr. destruct new_queue_inv as (Hp & Hmask & _). pose proof (reachable_inv cf Hr) as Hinv.
  destruct Hinv as [Hb Hhd Htl _ _ _ Hcv Hit _ Hcons]. rewrite Hmask.
  destruct cf as [buf hd tl p pv k cv pu po]. unfold consumer_ok in Hcons.
  cbn [cf_buffer cf_head cf_tail cf_prod cf_pview cf_cons cf_cview cf_pushed cf_popped] in *.
  destruct k as [|tail|tail|tail out].
  - eexists. apply pop_load_tail. by rewrite Htl, history_last.
  - pose proof (history_lookup (q_capacity q) (length pu) cv (proj2 Hcv)) as Hl. rewrite <- Hhd in Hl.
    destruct (decide (tail = Z.of_nat cv mod q_capacity q)).
    + eexists. eapply (pop_empty _ _ cv); [lia|exact Hl|done].
    + eexists. eapply (pop_ready _ _ cv); [lia|exact Hl|done].
  - destruct Hcons as [-> Hlt]. destruct (lookup_lt_is_Some_2 pu (length po)) as [x Hx]; [lia|].
    eexists. eapply pop_read. unfold slot_read. rewrite Hit by lia. by rewrite Hx.
  - eexists. apply pop_release.
Qed.
End Reachable.

(** The actions left of the producer's call, and of the consumer's. *)
Definition producer_rank {T} (cf : Config T) : nat :=
  match cf_prod cf with PIdle => 0 | PHead _ _ => 3 | PFree _ _ _ => 2 | PWritten _ _ => 1 end.
Definition consumer_rank {T} (cf : Config T) : nat :=
  match cf_cons cf with CIdle => 0 | CTail _ => 3 | CReady _ => 2 | CRead _ _ => 1 end.

(** The slots the threads are about to access without synchronisation of
    their own. *)
Definition about_to_write {T} (cf : Config T) : option Z :=
  match cf_prod cf with PFree _ head _ => Some head | _ => None end.
Definition about_to_read {T} (cf : Config T) : option Z :=
  match cf_cons cf with CReady tail => Some tail | _ => None end.

(** ** The theorems *)

(** First in, first out under every interleaving and every value the memory
    model lets the loads return: what was popped is a prefix of what was
    pushed, and no more than the usable capacity is ever in the queue. *)
Theorem spsc_fifo {T} (dflt : T) capacity q (cf : Config T) :
  new_queue dflt capacity = Ok q -> capacity <= 2 ^ 63 -> reachable q cf ->
  cf_popped cf `prefix_of` cf_pushed cf /\
  Z.of_nat (length (cf_pushed cf)) <= Z.of_nat (length (cf_popped cf)) + usable_capacity q.
Proof.
  intros Hnew Hcap Hr. pose proof (reachable_inv dflt capacity q Hnew Hcap cf Hr) as Hinv.
  destruct (new_queue_inv dflt capacity q Hnew Hcap) as ((k & Hk & Hc) & _ & _).
  split; [apply Hinv|]. unfold usable_capacity.
  assert (2 ^ k <= 2 ^ 63) by (apply Z.pow_le_mono_r; lia).
  assert (0 < 2 ^ k) by (apply Z.pow_pos_nonneg; lia).
  rewrite wrap_small by (unfold in_unsigned; lia).
  pose proof (inv_space _ _ Hinv). pose proof (inv_pview _ _ Hinv). lia.
Qed.

(** A run of the threads: one item pushed, a second one on its way, the
    consumer about to read the first. *)
Definition demo_queue : SPSCQueue Z := mkSPSCQueue 4 3 [0; 0; 0; 0] 0 0.
Definition demo_config : Config Z :=
  mkConfig [7; 0; 0; 0] [0; 1] [0] (PFree 8 1 2) 0 (CReady 0) 1 [7] [].

Lemma demo_reachable : reachable demo_queue demo_config.
Proof.
  unfold reachable, initial, demo_config. cbn [q_mask q_buffer q_head q_tail demo_queue].
  eapply rtc_l; [left; apply (push_load_head _ 7); reflexivity|].
  eapply rtc_l; [left; eapply (push_free _ _ _ 0); [lia|reflexivity|discriminate]|].
  eapply rtc_l; [left; eapply push_write; reflexivity|].
  eapply rtc_l; [left; apply push_publish|].
  eapply rtc_l; [right; eapply pop_load_tail; reflexivity|].
  eapply rtc_l; [left; apply (push_load_head _ 8); reflexivity|].
  eapply rtc_l; [right; eapply (pop_ready _ _ 1); [lia|reflexivity|discriminate]|].
  eapply rtc_l; [left; eapply (push_free _ _ _ 0); [lia|reflexivity|discriminate]|].
  apply rtc_refl.
Qed.

Lemma spsc_fifo_witness :
  cf_popped demo_config `prefix_of` cf_pushed demo_config /\
  Z.of_nat (length (cf_pushed demo_config)) <=
  Z.of_nat (length (cf_popped demo_config)) + usable_capacity demo_queue.
Proof.
  apply (spsc_fifo 0 3 demo_queue demo_config); [reflexivity|lia|apply demo_reachable].
Defined.

(** C22: no data race on the slots: in no reachable configuration are the
    producer about to write and the consumer about to read the same slot; and
    each access is ordered after the one it depends on, for the consumer's view
    of [head_] includes the store that published its slot, and the producer's
    view of [tail_] the store that released its slot. *)
Theorem spsc_race_free {T} (dflt : T) capacity q (cf : Config T) :
  new_queue dflt capacity = Ok q -> capacity <= 2 ^ 63 -> reachable q cf ->
  (forall i j, about_to_write cf = Some i -> about_to_read cf = Some j -> i <> j) /\
  (forall j, about_to_read cf = Some j -> (length (cf_popped cf) < cf_cview cf)%nat) /\
  (forall i, about_to_write cf = Some i ->
     Z.of_nat (length (cf_pushed cf)) - q_capacity q < Z.of_nat (cf_pview cf)).
Proof.
  intros Hnew Hcap Hr. pose proof (reachable_inv dflt capacity q Hnew Hcap cf Hr) as Hinv.
  destruct (new_queue_inv dflt capacity q Hnew Hcap) as (Hp & _ & _).
  pose proof (inv_producer _ _ Hinv) as Hprod. pose proof (inv_consumer _ _ Hinv) as Hcons.
  pose proof (inv_pview _ _ Hinv) as Hpv. pose proof (inv_cview _ _ Hinv) as Hcv.
  unfold producer_ok, consumer_ok, about_to_write, about_to_read in *.
  split_and!.
  - destruct (cf_prod cf), (cf_cons cf); try discriminate. intros i j [= <-] [= <-].
    destruct Hprod as (-> & _ & Hsp). destruct Hcons as [-> Hlt].
    intros E. symmetry in E. revert E. apply (slots_differ _ Hp); lia.
  - destruct (cf_cons cf); try discriminate. by destruct Hcons.
  - destruct (cf_prod cf); try discriminate. destruct Hprod as (_ & _ & Hsp). lia.
Qed.

Lemma spsc_race_free_witness : 1 <> 0 /\ (0 < cf_cview demo_config)%nat.
Proof.
  destruct (spsc_race_free 0 3 demo_queue demo_config) as (Hr & Hc & _);
    [reflexivity|lia|apply demo_reachable|].
  split; [exact (Hr 1 0 eq_refl eq_refl)|exact (Hc 0 eq_refl)].
Defined.

(** Both calls are wait-free: in every reachable configuration each thread
    can take its next action, whatever the other thread is doing, every action
    of a call in progress brings it closer to its end, and the other thread's
    actions do not set it back. *)
Theorem spsc_wait_free {T} (dflt : T) capacity q (cf : Config T) :
  new_queue dflt capacity = Ok q -> capacity <= 2 ^ 63 -> reachable q cf ->
  (exists cf', producer_step (q_mask q) cf cf') /\ (exists cf', consumer_step (q_mask q) cf cf') /\
  (forall cf', producer_step (q_mask q) cf cf' ->
     (cf_prod cf <> PIdle -> (producer_rank cf' < producer_rank cf)%nat) /\ cf_cons cf' = cf_cons cf) /\
  (forall cf', consumer_step (q_mask q) cf cf' ->
     (cf_cons cf <> CIdle -> (consumer_rank cf' < consumer_rank cf)%nat) /\ cf_prod cf' = cf_prod cf).
Proof.
  intros Hnew Hcap Hr. split_and!.
  - by eapply producer_enabled.
  - by eapply consumer_enabled.
  - intros cf' Hs. destruct Hs; cbn; (split; [intros Hi; try done; lia|done]).
  - intros cf' Hs. destruct Hs; cbn; (split; [intros Hi; try done; lia|done]).
Qed.

Lemma spsc_wait_free_witness :
  (exists cf', producer_step 3 demo_config cf') /\ (exists cf', consumer_step 3 demo_config cf').
Proof.
  destruct (spsc_wait_free 0 3 demo_queue demo_config) as (Hp & Hc & _);
    [reflexivity|lia|apply demo_reachable|].
  split; [exact Hp|exact Hc].
Defined.
