(* ===== verification/QueueCalls.v ===== *)
(** Calls on the ring buffer, action by action (include/mdfh/spsc_queue.hpp),
    against calls as functions.  [push_action] and [pop_action] say what the
    next atomic action of a [try_push] or [try_pop] in progress does and whether
    the call returns with it; [holds] relates a ring in the middle of such calls
    to the queue of Queue.v, and each call takes effect on that queue at one of
    its actions: a push when it publishes the new head, a pop when it releases
    the slot. *)
From S2P Require Import Prelude Queue QueueThreads.

Local Open Scope Z_scope.

(** ** Rings *)

Record Ring (T : Type) := mkRing { rg_mask : Z; rg_config : Config T }.
Arguments mkRing {T}.
Arguments rg_mask {T}.
Arguments rg_config {T}.

Section Calls.
Context {T : Type}.
Implicit Types (r : Ring T) (cf : Config T) (x : T).

Definition new_ring (dflt : T) (capacity : Z) : outcome (Ring T) :=
  q ← new_queue dflt capacity;
  Ok (mkRing (q_mask q) (initial q)).

(** The producer is in the middle of [try_push(x)]. *)
Definition in_push x (p : Producer T) : Prop :=
  match p with
  | PIdle => False
  | PHead y _ | PFree y _ _ | PWritten y _ => y = x
  end.

(** The next action of [try_push(x)], with the result if the call returns. *)
Inductive push_action x : Ring T -> Ring T -> option bool -> Prop :=
  | push_goes_on mask cf cf' :
      producer_step mask cf cf' -> in_push x (cf_prod cf') ->
      push_action x (mkRing mask cf) (mkRing mask cf') None
  | push_returns_false mask cf cf' :
      producer_step mask cf cf' -> cf_prod cf' = PIdle -> cf_pushed cf' = cf_pushed cf ->
      push_action x (mkRing mask cf) (mkRing mask cf') (Some false)
  | push_returns_true mask cf cf' :
      producer_step mask cf cf' -> cf_prod cf' = PIdle -> cf_pushed cf' = cf_pushed cf ++ [x] ->
      push_action x (mkRing mask cf) (mkRing mask cf') (Some true).

(** The next action of [try_pop(out)]; a call that returns true has set
    [out]. *)
Inductive pop_action : Ring T -> Ring T -> option (option T) -> Prop :=
  | pop_goes_on mask cf cf' :
      consumer_step mask cf cf' -> cf_cons cf' <> CIdle ->
      pop_action (mkRing mask cf) (mkRing mask cf') None
  | pop_returns_false mask cf cf' :
      consumer_step mask cf cf' -> cf_cons cf' = CIdle -> cf_popped cf' = cf_popped cf ->
      pop_action (mkRing mask cf) (mkRing mask cf') (Some None)
  | pop_returns_true mask cf cf' out :
      consumer_step mask cf cf' -> cf_cons cf' = CIdle -> cf_popped cf' = cf_popped cf ++ [out] ->
      pop_action (mkRing mask cf) (mkRing mask cf') (Some (Some out)).

(** [empty()] called by the consumer: it knows its own index, and may see any
    value of the producer's that is not older than the last one it saw. *)
Inductive empty_test : Ring T -> Ring T -> bool -> Prop :=
  | empty_loads mask j head tail buf hd tl p pv cv pu po :
      (cv <= j)%nat -> hd !! j = Some head -> last tl = Some tail ->
      empty_test (mkRing mask (mkConfig buf hd tl p pv CIdle cv pu po))
                 (mkRing mask (mkConfig buf hd tl p pv CIdle j pu po)) (head =? tail).

(** The position of the producer's last store to [head_]: what a release store
    of the producer's makes visible to who acquires it. *)
Definition published r : nat := pred (length (cf_head (rg_config r))).

(** The same for the consumer. *)
Definition released r : nat := pred (length (cf_tail (rg_config r))).

(** The consumer has acquired a store that makes position [v] visible. *)
Definition see (v : nat) r : Ring T :=
  let cf := rg_config r in
  mkRing (rg_mask r)
    (mkConfig (cf_buffer cf) (cf_head cf) (cf_tail cf) (cf_prod cf) (cf_pview cf) (cf_cons cf)
       (Nat.max (cf_cview cf) v) (cf_pushed cf) (cf_popped cf)).
End Calls.

(** ** The queue a ring stands for *)

(** The ring [r], whatever calls are in progress, stands for the queue [q]: the
    indices are the last ones stored, and the slots agree but for the one the
    producer has written and not yet published. *)
Record holds {T} (r : Ring T) (q : SPSCQueue T) : Prop := mkHolds {
  ho_cap : exists k, 1 <= k <= 63 /\ q_capacity q = 2 ^ k;
  ho_mask : q_mask q = q_capacity q - 1;
  ho_ring : rg_mask r = q_mask q;
  ho_inv : inv (q_capacity q) (rg_config r);
  ho_head : q_head q = Z.of_nat (length (cf_pushed (rg_config r))) mod q_capacity q;
  ho_tail : q_tail q = Z.of_nat (length (cf_popped (rg_config r))) mod q_capacity q;
  ho_slots : cf_buffer (rg_config r) =
    match cf_prod (rg_config r) with
    | PWritten x _ => <[Z.to_nat (q_head q) := x]> (q_buffer q)
    | _ => q_buffer q
    end
}.

Section Holds.
Context {T : Type}.
Implicit Types (r : Ring T) (q : SPSCQueue T) (x : T).

Ltac unfold_ring :=
  cbn [rg_mask rg_config cf_buffer cf_head cf_tail cf_prod cf_pview cf_cons cf_cview cf_pushed cf_popped
       q_capacity q_mask q_buffer q_head q_tail] in *.

Lemma new_ring_holds (dflt : T) capacity :
  capacity <= 2 ^ 63 ->
  exists r q, new_ring dflt capacity = Ok r /\ new_queue dflt capacity = Ok q /\ holds r q.
Proof.
  intros Hcap. destruct (new_queue_state dflt capacity Hcap) as (q & E & Hq & _).
  destruct (new_queue_inv dflt capacity q E Hcap) as (Hp & Hmask & Hinv).
  unfold new_ring. rewrite E, bind_ok. eexists _, q. split; [reflexivity|]. split; [done|].
  unfold new_queue in E. apply bind_Ok_inv in E as (cap & _ & [= <-]).
  split; unfold_ring; try done.
Qed.

(** *** Pushes *)

Lemma push_step_holds cf cf' q mask :
  holds (mkRing mask cf) q -> producer_step mask cf cf' ->
  (holds (mkRing mask cf') q /\ cf_pushed cf' = cf_pushed cf) \/
  (exists x q', cf_prod cf' = PIdle /\ cf_pushed cf' = cf_pushed cf ++ [x] /\
     try_push x q = Ok (true, q') /\ holds (mkRing mask cf') q').
Proof.
  intros [Hpow Hmask Hring Hinv Hhead Htail Hslots] Hstep. unfold_ring. subst mask. rewrite Hmask in Hstep.
  pose proof (inv_producer_step _ Hpow _ _ Hstep Hinv) as Hinv'.
  destruct Hstep as
    [item head buf hd tl pv k cv pu po Hlast
    |item head j tail buf hd tl pv k cv pu po Hj Htl Hnext
    |item head j tail buf hd tl pv k cv pu po Hj Htl Hnext
    |item head next buf buf' hd tl pv k cv pu po Hw
    |item next buf hd tl pv k cv pu po]; unfold_ring.
  1-3: left; split; [by split|done].
  - left. split; [|done]. split; try done; unfold_ring. subst buf.
    pose proof (inv_producer _ _ Hinv) as (Hh & _). unfold_ring. unfold slot_write in Hw.
    destruct (bool_decide _); [|discriminate]. cbn [require] in Hw. rewrite bind_ok in Hw.
    injection Hw as <-. by rewrite Hhead, Hh.
  - right. exists item. pose proof (inv_producer _ _ Hinv) as (Hn & Hsp & _). unfold_ring.
    pose proof (inv_pview _ _ Hinv) as Hpv. pose proof (inv_buffer _ _ Hinv) as Hb. unfold_ring.
    destruct (inv_fifo _ _ Hinv) as [rest Hrest]. unfold_ring.
    apply (f_equal length) in Hrest. rewrite length_app in Hrest.
    pose proof (slot_range _ Hpow (length pu)).
    assert (try_push item q = Ok (true, mkSPSCQueue (q_capacity q) (q_mask q) buf next (q_tail q))) as E.
    { unfold try_push. cbn zeta. rewrite Hmask, Hhead, (next_mod _ Hpow), Htail, (proj2 (Z.eqb_neq _ _)).
      2:{ intros E. symmetry in E. revert E. apply slots_differ; [done|lia..]. }
      unfold slot_write. rewrite Hslots, length_insert in Hb.
      rewrite bool_decide_eq_true_2 by lia. cbn [require]. rewrite !bind_ok.
      by rewrite Hslots, Hn, Hhead. }
    eexists. split_and!; [done|done|exact E|]. split; unfold_ring; try done.
    by rewrite Hn, length_app, Nat.add_1_r.
Qed.

(** A push that goes on or is refused leaves the queue alone; one that returns
    true is the function's. *)
Lemma push_action_holds x r r' res q :
  holds r q -> push_action x r r' res ->
  match res with
  | Some true => exists q', try_push x q = Ok (true, q') /\ holds r' q'
  | _ => holds r' q
  end.
Proof.
  intros Hr Hpush. destruct Hpush as [mask cf cf' Hs Hin|mask cf cf' Hs Hi Hpu|mask cf cf' Hs Hi Hpu];
    destruct (push_step_holds _ _ _ _ Hr Hs) as [[Hr' Hsame]|(y & q' & Hidle & Hy & E & Hr')]; try done.
  - by rewrite Hidle in Hin.
  - exfalso. rewrite Hpu in Hy. apply (f_equal length) in Hy. rewrite length_app in Hy. cbn in Hy. lia.
  - exfalso. rewrite Hpu in Hsame. apply (f_equal length) in Hsame. rewrite length_app in Hsame. cbn in Hsame. lia.
  - rewrite Hpu in Hy. apply app_inj_tail in Hy as [_ ->]. by exists q'.
Qed.

(** *** Pops *)

Lemma pop_step_holds cf cf' q mask :
  holds (mkRing mask cf) q -> consumer_step mask cf cf' ->
  (holds (mkRing mask cf') q /\ cf_popped cf' = cf_popped cf) \/
  (exists x q', cf_cons cf' = CIdle /\ cf_popped cf' = cf_popped cf ++ [x] /\
     try_pop q = Ok (Some x, q') /\ holds (mkRing mask cf') q').
Proof.
  intros [Hpow Hmask Hring Hinv Hhead Htail Hslots] Hstep. unfold_ring. subst mask. rewrite Hmask in Hstep.
  pose proof (inv_consumer_step _ Hpow _ _ Hstep Hinv) as Hinv'.
  destruct Hstep as
    [tail buf hd tl p pv cv pu po Hlast
    |tail j head buf hd tl p pv cv pu po Hj Hhd Heq
    |tail j head buf hd tl p pv cv pu po Hj Hhd Hne
    |tail out buf hd tl p pv cv pu po Hrd
    |tail out buf hd tl p pv cv pu po]; unfold_ring.
  1-4: left; split; [by split|done].
  right. exists out. pose proof (inv_consumer _ _ Hinv) as (Ht & Hlt & Hout). unfold_ring. subst tail.
  pose proof (inv_space _ _ Hinv) as Hsp. pose proof (inv_pview _ _ Hinv) as Hpv.
  pose proof (inv_cview _ _ Hinv) as Hcv. unfold_ring.
  assert (Z.of_nat (length po) mod q_capacity q <> Z.of_nat (length pu) mod q_capacity q) as Hdiff
    by (apply slots_differ; [done|lia..]).
  assert (q_buffer q !! Z.to_nat (Z.of_nat (length po) mod q_capacity q) = Some out) as Hslot.
  { rewrite <- Hout, <- (inv_items _ _ Hinv) by (unfold_ring; lia). unfold_ring. rewrite Hslots.
    destruct p; try done. rewrite list_lookup_insert_ne; [done|].
    pose proof (slot_range _ Hpow (length po)). pose proof (slot_range _ Hpow (length pu)).
    rewrite Hhead. intros E. apply Z2Nat.inj in E; [|lia..]. by symmetry in E. }
  eexists. split_and!; [done|done| |].
  - unfold try_pop. cbn zeta. rewrite Htail, Hhead, (proj2 (Z.eqb_neq _ _)) by done.
    unfold slot_read. rewrite Hslot. cbn [of_option]. rewrite bind_ok. reflexivity.
  - split; unfold_ring; try done; [by rewrite Hmask, (next_mod _ Hpow), length_app, Nat.add_1_r|by rewrite <- Hhead].
Qed.

Lemma pop_action_holds r r' res q :
  holds r q -> pop_action r r' res ->
  match res with
  | Some (Some x) => exists q', try_pop q = Ok (Some x, q') /\ holds r' q'
  | _ => holds r' q
  end.
Proof.
  intros Hr Hpop. destruct Hpop as [mask cf cf' Hs Hin|mask cf cf' Hs Hi Hpo|mask cf cf' out Hs Hi Hpo];
    destruct (pop_step_holds _ _ _ _ Hr Hs) as [[Hr' Hsame]|(y & q' & Hidle & Hy & E & Hr')]; try done.
  - exfalso. rewrite Hpo in Hy. apply (f_equal length) in Hy. rewrite length_app in Hy. cbn in Hy. lia.
  - exfalso. rewrite Hpo in Hsame. apply (f_equal length) in Hsame. rewrite length_app in Hsame. cbn in Hsame. lia.
  - rewrite Hpo in Hy. apply app_inj_tail in Hy as [_ ->]. by exists q'.
Qed.

(** *** The emptiness test and acquired views *)

Lemma published_pushed r q : holds r q -> published r = length (cf_pushed (rg_config r)).
Proof.
  intros [_ _ _ Hinv _ _ _]. unfold published. rewrite (inv_head _ _ Hinv). unfold index_history.
  by rewrite length_map, length_seq.
Qed.

Lemma see_holds v r q : holds r q -> (v <= published r)%nat -> holds (see v r) q.
Proof.
  intros Hr Hv. rewrite (published_pushed _ _ Hr) in Hv. destruct Hr as [Hpow Hmask Hring Hinv Hhead Htail Hslots].
  split; try done. destruct Hinv. split; try done; cbn [see rg_config cf_cview cf_popped cf_pushed]; [lia|].
  unfold consumer_ok in *. cbn [see rg_config cf_cons cf_cview cf_popped cf_pushed].
  destruct (cf_cons (rg_config r)); try done; intuition lia.
Qed.

(** What a load returns when it sees the last store: the test is right, a pop
    finds nothing only in an empty ring, a push is refused only by a full one. *)
Lemma empty_test_holds r r' b q :
  holds r q -> empty_test r r' b ->
  holds r' q /\ (cf_cview (rg_config r) <= cf_cview (rg_config r'))%nat /\
  ((published r <= cf_cview (rg_config r'))%nat -> b = queue_empty q).
Proof.
  intros Hr Htest. pose proof (published_pushed _ _ Hr) as Hpub.
  destruct Hr as [Hpow Hmask Hring Hinv Hhead Htail Hslots].
  destruct Htest as [mask j head tail buf hd tl p pv cv pu po Hj Hhd Htl]. unfold_ring.
  pose proof (inv_head _ _ Hinv) as Eh. pose proof (inv_tail _ _ Hinv) as Et.
  pose proof (inv_cview _ _ Hinv) as Hcv. unfold_ring. subst hd tl.
  apply history_lookup_inv in Hhd as [Hjn ->]. rewrite history_last in Htl. injection Htl as <-. split; [|split; [done|]].
  - split; try done. destruct Hinv. unfold_ring. split; try done; unfold_ring. lia.
  - rewrite Hpub. intros Hle. unfold queue_empty. rewrite Hhead, Htail. by replace j with (length pu) by lia.
Qed.

(** The same for the producer: its last view of the consumer's index. *)
Lemma released_popped r q : holds r q -> released r = length (cf_popped (rg_config r)).
Proof.
  intros [_ _ _ Hinv _ _ _]. unfold released. rewrite (inv_tail _ _ Hinv). unfold index_history.
  by rewrite length_map, length_seq.
Qed.

Lemma holds_sizes r q :
  holds r q -> (released r <= published r)%nat /\
  Z.of_nat (published r) <= Z.of_nat (released r) + q_capacity q - 1.
Proof.
  intros Hr. rewrite (published_pushed _ _ Hr), (released_popped _ _ Hr). destruct Hr as [_ _ _ Hinv _ _ _].
  pose proof (inv_cview _ _ Hinv). pose proof (inv_space _ _ Hinv). pose proof (inv_pview _ _ Hinv). lia.
Qed.

Lemma queue_empty_sizes r q : holds r q -> queue_empty q = bool_decide (published r = released r).
Proof.
  intros Hr. pose proof (holds_sizes _ _ Hr) as [Hle Hlt]. unfold queue_empty.
  rewrite (ho_head _ _ Hr), (ho_tail _ _ Hr), <- (published_pushed _ _ Hr), <- (released_popped _ _ Hr).
  case_bool_decide as E; [rewrite E; apply Z.eqb_refl|]. apply Z.eqb_neq. intros Em. symmetry in Em. revert Em.
  apply (slots_differ _ (ho_cap _ _ Hr)); lia.
Qed.

Lemma push_refused_full x r r' q :
  holds r q -> push_action x r r' (Some false) -> (released r <= cf_pview (rg_config r'))%nat ->
  Z.of_nat (published r) = Z.of_nat (released r) + q_capacity q - 1.
Proof.
  intros Hr Ha Hview. pose proof (holds_sizes _ _ Hr) as [Hle Hlt].
  rewrite (published_pushed _ _ Hr), (released_popped _ _ Hr) in *.
  inversion Ha as [|mask cf cf' Hs Hidle Hsame|]; subst; clear Ha. destruct Hr as [Hpow Hmask Hring Hinv _ _ _]. unfold_ring.
  subst mask. rewrite Hmask in Hs. destruct Hs as
    [| item head j tail buf hd tl pv k cv pu po Hj Htl Hnext| | |item next buf hd tl pv k cv pu po]; unfold_ring; try done.
  2:{ apply (f_equal length) in Hsame. rewrite length_app in Hsame. cbn in Hsame. lia. }
  pose proof (inv_producer _ _ Hinv) as Hhead. pose proof (inv_tail _ _ Hinv) as Et.
  unfold producer_ok in Hhead. unfold_ring. subst head tl. apply history_lookup_inv in Htl as [Hjm ->].
  rewrite (next_mod _ Hpow) in Hnext. replace j with (length po) in * by lia.
  destruct (decide (Z.of_nat (S (length pu)) - Z.of_nat (length po) < q_capacity q)) as [Hd|]; [|lia].
  symmetry in Hnext. exfalso. revert Hnext. apply slots_differ; [done|lia..].
Qed.

Lemma pop_finds_empty r r' q :
  holds r q -> pop_action r r' (Some None) -> (published r <= cf_cview (rg_config r'))%nat ->
  published r = released r.
Proof.
  intros Hr Ha Hview. pose proof (holds_sizes _ _ Hr) as [Hle Hlt].
  rewrite (published_pushed _ _ Hr), (released_popped _ _ Hr) in *.
  inversion Ha as [|mask cf cf' Hs Hidle Hsame|]; subst; clear Ha. destruct Hr as [Hpow Hmask Hring Hinv _ _ _]. unfold_ring.
  destruct Hs as [|tail j head buf hd tl p pv cv pu po Hj Hhd Heq| | |tail out buf hd tl p pv cv pu po]; unfold_ring; try done.
  2:{ apply (f_equal length) in Hsame. rewrite length_app in Hsame. cbn in Hsame. lia. }
  pose proof (inv_consumer _ _ Hinv) as Htail. pose proof (inv_head _ _ Hinv) as Eh.
  unfold consumer_ok in Htail. unfold_ring. rewrite Htail in Heq. subst hd. apply history_lookup_inv in Hhd as [Hjn ->].
  replace j with (length pu) in * by lia.
  destruct (decide (length pu = length po)) as [|Hne]; [done|]. exfalso. revert Heq. apply slots_differ; [done|lia..].
Qed.

(** A test that sees the last store says whether the ring is empty. *)
Lemma empty_test_exact r r' b q :
  holds r q -> empty_test r r' b -> (published r <= cf_cview (rg_config r'))%nat ->
  b = bool_decide (published r = released r).
Proof.
  intros Hr Ht Hv. destruct (empty_test_holds _ _ _ _ Hr Ht) as (_ & _ & H). rewrite (H Hv). by apply queue_empty_sizes.
Qed.

(** *** Calls in progress end *)

(** The actions left of a push, and of a pop. *)
Definition push_rank r : nat :=
  match cf_prod (rg_config r) with PIdle => 4 | PHead _ _ => 3 | PFree _ _ _ => 2 | PWritten _ _ => 1 end.
Definition pop_rank r : nat :=
  match cf_cons (rg_config r) with CIdle => 4 | CTail _ => 3 | CReady _ => 2 | CRead _ _ => 1 end.

Lemma pop_rank_le r : (pop_rank r <= 4)%nat.
Proof. unfold pop_rank. destruct (cf_cons (rg_config r)); lia. Qed.

Lemma push_action_rank x r r' : push_action x r r' None -> (push_rank r' < push_rank r)%nat.
Proof. intros Ha. inversion Ha as [mask cf cf' Hs Hin| |]; subst. destruct Hs; cbn in *; by try lia. Qed.

Lemma pop_action_rank r r' : pop_action r r' None -> (pop_rank r' < pop_rank r)%nat.
Proof. intros Ha. inversion Ha as [mask cf cf' Hs Hin| |]; subst. destruct Hs; cbn in *; by try lia. Qed.

(** An action leaves the other thread's part alone, and its own index too until
    the call succeeds. *)
Lemma push_action_frame x r r' res :
  push_action x r r' res ->
  cf_cons (rg_config r') = cf_cons (rg_config r) /\ cf_cview (rg_config r') = cf_cview (rg_config r) /\
  released r' = released r /\ (res <> Some true -> published r' = published r).
Proof.
  intros Ha. destruct Ha as [mask cf cf' Hs Hin|mask cf cf' Hs Hi Hpu|mask cf cf' Hs Hi Hpu]; destruct Hs; try done.
  exfalso. unfold_ring. apply (f_equal length) in Hpu. rewrite length_app in Hpu. cbn in Hpu. lia.
Qed.

Lemma pop_action_frame r r' res :
  pop_action r r' res ->
  cf_prod (rg_config r') = cf_prod (rg_config r) /\ cf_pview (rg_config r') = cf_pview (rg_config r) /\
  published r' = published r /\ (res = None \/ res = Some None -> released r' = released r).
Proof.
  intros Ha. destruct Ha as [mask cf cf' Hs Hin|mask cf cf' Hs Hi Hpo|mask cf cf' x Hs Hi Hpo]; destruct Hs;
    split_and!; try done; try (by intros []).
  exfalso. unfold_ring. apply (f_equal length) in Hpo. rewrite length_app in Hpo. cbn in Hpo. lia.
Qed.

(** A pop that returns an item makes room for one. *)
Lemma pop_takes_released r r' x q :
  holds r q -> pop_action r r' (Some (Some x)) ->
  released r' = S (released r) /\ (released r < published r)%nat.
Proof.
  intros Hr Ha. pose proof (pop_action_holds _ _ _ _ Hr Ha) as (q' & _ & Hr').
  pose proof (pop_action_frame _ _ _ Ha) as (_ & _ & Hpub & _).
  pose proof (holds_sizes _ _ Hr') as [Hle _]. rewrite Hpub in Hle.
  rewrite (released_popped _ _ Hr') in *. rewrite (released_popped _ _ Hr) in *.
  inversion Ha as [| |mask cf cf' out Hs Hidle Hpo]; subst. unfold_ring. rewrite Hpo, length_app in *. cbn [length] in *. lia.
Qed.

Lemma empty_test_frame r r' b :
  empty_test r r' b ->
  cf_prod (rg_config r') = cf_prod (rg_config r) /\ cf_cons (rg_config r') = CIdle /\
  published r' = published r /\ released r' = released r /\ rg_mask r' = rg_mask r.
Proof. by intros []. Qed.
Lemma push_refused_rank x r r' : push_action x r r' (Some false) -> push_rank r = 3%nat.
Proof.
  intros Ha. inversion Ha as [|mask cf cf' Hs Hidle Hsame|]; subst. destruct Hs; unfold_ring; try done.
  apply (f_equal length) in Hsame. rewrite length_app in Hsame. cbn in Hsame. lia.
Qed.
Lemma pop_found_none_rank r r' : pop_action r r' (Some None) -> pop_rank r = 3%nat.
Proof.
  intros Ha. inversion Ha as [|mask cf cf' Hs Hidle Hsame|]; subst. destruct Hs; unfold_ring; try done.
  apply (f_equal length) in Hsame. rewrite length_app in Hsame. cbn in Hsame. lia.
Qed.
Lemma push_action_mask x r r' res : push_action x r r' res -> rg_mask r' = rg_mask r.
Proof. by intros []. Qed.
Lemma pop_action_mask r r' res : pop_action r r' res -> rg_mask r' = rg_mask r.
Proof. by intros []. Qed.
Lemma push_action_goes_on x r r' : push_action x r r' None -> in_push x (cf_prod (rg_config r')).
Proof. by inversion 1. Qed.
Lemma push_action_returns x r r' b : push_action x r r' (Some b) -> cf_prod (rg_config r') = PIdle.
Proof. by inversion 1. Qed.
Lemma pop_action_returns r r' o : pop_action r r' (Some o) -> cf_cons (rg_config r') = CIdle.
Proof. by inversion 1. Qed.

(** *** The actions as functions, every load returning the last store *)

Definition push_next x r : Ring T * option bool :=
  let 'mkConfig buf hd tl p pv k cv pu po := rg_config r in
  let at_ p := mkRing (rg_mask r) (mkConfig buf hd tl p pv k cv pu po) in
  match p with
  | PIdle => (at_ (PHead x (default 0 (last hd))), None)
  | PHead y head =>
      let next := next_index (rg_mask r) head in
      let seen p := mkRing (rg_mask r) (mkConfig buf hd tl p (released r) k cv pu po) in
      if next =? default 0 (last tl) then (seen PIdle, Some false) else (seen (PFree y head next), None)
  | PFree y head next =>
      (mkRing (rg_mask r) (mkConfig (<[Z.to_nat head := y]> buf) hd tl (PWritten y next) pv k cv pu po), None)
  | PWritten y next => (mkRing (rg_mask r) (mkConfig buf (hd ++ [next]) tl PIdle pv k cv (pu ++ [y]) po), Some true)
  end.

Definition pop_next r : Ring T * option (option T) :=
  let 'mkConfig buf hd tl p pv k cv pu po := rg_config r in
  let at_ k := mkRing (rg_mask r) (mkConfig buf hd tl p pv k cv pu po) in
  match k with
  | CIdle => (at_ (CTail (default 0 (last tl))), None)
  | CTail tail =>
      let seen k := mkRing (rg_mask r) (mkConfig buf hd tl p pv k (published r) pu po) in
      if tail =? default 0 (last hd) then (seen CIdle, Some None) else (seen (CReady tail), None)
  | CReady tail => match buf !! Z.to_nat tail with Some out => (at_ (CRead tail out), None) | None => (r, None) end
  | CRead tail out =>
      (mkRing (rg_mask r) (mkConfig buf hd (tl ++ [next_index (rg_mask r) tail]) p pv CIdle cv pu (po ++ [out])),
       Some (Some out))
  end.

Definition test_next r : Ring T * bool :=
  let 'mkConfig buf hd tl p pv k cv pu po := rg_config r in
  (mkRing (rg_mask r) (mkConfig buf hd tl p pv k (published r) pu po), default 0 (last hd) =? default 0 (last tl)).

(** They are actions. *)
Lemma push_next_action x r q :
  holds r q -> cf_prod (rg_config r) = PIdle \/ in_push x (cf_prod (rg_config r)) ->
  push_action x r (push_next x r).1 (push_next x r).2 /\
  (push_rank r = 3%nat -> released r = cf_pview (rg_config (push_next x r).1)).
Proof.
  intros Hr Hp. pose proof (released_popped _ _ Hr) as Hrel. destruct Hr as [Hpow Hmask Hring Hinv _ _ _].
  destruct r as [mask [buf hd tl p pv k cv pu po]]. unfold push_next, push_rank. unfold_ring.
  pose proof (inv_head _ _ Hinv) as Eh. pose proof (inv_tail _ _ Hinv) as Et. pose proof (inv_pview _ _ Hinv) as Hpv.
  pose proof (inv_producer _ _ Hinv) as Hprod. pose proof (inv_buffer _ _ Hinv) as Hbuf.
  unfold producer_ok in Hprod. unfold_ring. rewrite Hrel.
  assert (last hd = Some (Z.of_nat (length pu) mod q_capacity q)) as Hlast by (rewrite Eh; apply history_last).
  assert (tl !! length po = Some (Z.of_nat (length po) mod q_capacity q)) as Htl by (rewrite Et; by apply history_lookup).
  assert (last tl = Some (Z.of_nat (length po) mod q_capacity q)) as Hlast' by (rewrite Et; apply history_last).
  destruct p as [|y head|y head next|y next]; cbn [in_push fst snd] in *;
    try (destruct Hp as [Hp| ->]; [discriminate|]); split; try done; rewrite ?Hlast, ?Hlast'; cbn [default from_option id].
  - apply push_goes_on; [by apply push_load_head|done].
  - destruct (Z.eqb_spec (next_index mask head) (Z.of_nat (length po) mod q_capacity q)) as [E|E]; cbv beta iota zeta; cbn [fst snd].
    + apply push_returns_false; [|done..]. by eapply push_full.
    + apply push_goes_on; [|done]. by eapply push_free.
  - by destruct (Z.eqb _ _).
  - apply push_goes_on; [|done]. apply push_write. unfold slot_write. destruct Hprod as (-> & _ & _).
    pose proof (slot_range _ Hpow (length pu)). by rewrite bool_decide_eq_true_2 by lia.
  - apply push_returns_true; [|done..]. apply push_publish.
Qed.

Lemma pop_next_action r q :
  holds r q ->
  pop_action r (pop_next r).1 (pop_next r).2 /\
  (pop_rank r = 3%nat -> published r = cf_cview (rg_config (pop_next r).1)).
Proof.
  intros Hr. pose proof (published_pushed _ _ Hr) as Hpub. destruct Hr as [Hpow Hmask Hring Hinv _ _ _].
  destruct r as [mask [buf hd tl p pv k cv pu po]]. unfold pop_next, pop_rank. unfold_ring.
  pose proof (inv_head _ _ Hinv) as Eh. pose proof (inv_tail _ _ Hinv) as Et. pose proof (inv_cview _ _ Hinv) as Hcv.
  pose proof (inv_consumer _ _ Hinv) as Hcons. unfold consumer_ok in Hcons. unfold_ring. rewrite Hpub.
  assert (last tl = Some (Z.of_nat (length po) mod q_capacity q)) as Hlast by (rewrite Et; apply history_last).
  assert (hd !! length pu = Some (Z.of_nat (length pu) mod q_capacity q)) as Hhd by (rewrite Eh; by apply history_lookup).
  assert (last hd = Some (Z.of_nat (length pu) mod q_capacity q)) as Hlast' by (rewrite Eh; apply history_last).
  destruct k as [|tail|tail|tail out]; cbn [fst snd] in *; rewrite ?Hlast, ?Hlast'; cbn [default from_option id].
  - split; [|done]. apply pop_goes_on; [by apply pop_load_tail|done].
  - destruct (Z.eqb_spec tail (Z.of_nat (length pu) mod q_capacity q)) as [E|E]; cbv beta iota zeta; cbn [fst snd]; (split; [|done]).
    + apply pop_returns_false; [|done..]. eapply pop_empty; [|done..]. lia.
    + apply pop_goes_on; [|done]. eapply pop_ready; [|done..]. lia.
  - destruct Hcons as [-> Hlt]. pose proof (inv_items _ _ Hinv (length po)) as Hit. unfold_ring.
    destruct (lookup_lt_is_Some_2 pu (length po)) as [out Hout]; [lia|]. rewrite Hit, Hout by lia. split; [|done].
    apply pop_goes_on; [|done]. apply pop_read. unfold slot_read. by rewrite Hit, Hout by lia.
  - split; [|done]. apply pop_returns_true; [|done..]. apply pop_release.
Qed.

Lemma test_next_action r q :
  holds r q -> cf_cons (rg_config r) = CIdle ->
  empty_test r (test_next r).1 (test_next r).2 /\ published r = cf_cview (rg_config (test_next r).1).
Proof.
  intros Hr Hidle. pose proof (published_pushed _ _ Hr) as Hpub. destruct Hr as [_ _ _ Hinv _ _ _].
  destruct r as [mask [buf hd tl p pv k cv pu po]]. unfold test_next. unfold_ring. subst k. cbn [fst snd].
  pose proof (inv_head _ _ Hinv) as Eh. pose proof (inv_tail _ _ Hinv) as Et. pose proof (inv_cview _ _ Hinv) as Hcv.
  unfold_ring. split; [|done]. rewrite Hpub.
  assert (last tl = Some (Z.of_nat (length po) mod q_capacity q)) as Hlast by (rewrite Et; apply history_last).
  assert (hd !! length pu = Some (Z.of_nat (length pu) mod q_capacity q)) as Hhd by (rewrite Eh; by apply history_lookup).
  assert (last hd = Some (Z.of_nat (length pu) mod q_capacity q)) as Hlast' by (rewrite Eh; apply history_last).
  rewrite Hlast, Hlast'. cbn [default from_option id]. apply empty_loads; [lia|done..].
Qed.

(** Indices only grow. *)
Lemma push_action_published x r r' res : push_action x r r' res -> (published r <= published r')%nat.
Proof.
  intros Ha. destruct Ha as [mask cf cf' Hs Hin|mask cf cf' Hs Hi Hpu|mask cf cf' Hs Hi Hpu]; destruct Hs;
    unfold published; unfold_ring; rewrite ?length_app; cbn; lia.
Qed.
Lemma pop_action_released r r' res : pop_action r r' res -> (released r <= released r')%nat.
Proof.
  intros Ha. destruct Ha as [mask cf cf' Hs Hin|mask cf cf' Hs Hi Hpo|mask cf cf' x Hs Hi Hpo]; destruct Hs;
    unfold released; unfold_ring; rewrite ?length_app; cbn; lia.
Qed.
End Holds.

(** ** Linearizability *)

(** The calls that took effect. *)
Inductive Call (T : Type) :=
  | Pushed (x : T)
  | Popped (x : T).
Arguments Pushed {T}.
Arguments Popped {T}.

(** Any interleaving of the two threads' actions, with the calls that took
    effect in the order of the actions they returned with. *)
Inductive concurrent {T} : Ring T -> list (Call T) -> Ring T -> Prop :=
  | concurrent_nil r : concurrent r [] r
  | concurrent_push x res r1 r2 l r3 :
      push_action x r1 r2 res -> concurrent r2 l r3 ->
      concurrent r1 (match res with Some true => Pushed x :: l | _ => l end) r3
  | concurrent_pop res r1 r2 l r3 :
      pop_action r1 r2 res -> concurrent r2 l r3 ->
      concurrent r1 (match res with Some (Some x) => Popped x :: l | _ => l end) r3
  | concurrent_test b r1 r2 l r3 :
      empty_test r1 r2 b -> concurrent r2 l r3 -> concurrent r1 l r3.

(** The same calls one after the other, with the same results. *)
Inductive sequential {T} : SPSCQueue T -> list (Call T) -> SPSCQueue T -> Prop :=
  | sequential_nil q : sequential q [] q
  | sequential_push x q1 q2 l q3 :
      try_push x q1 = Ok (true, q2) -> sequential q2 l q3 -> sequential q1 (Pushed x :: l) q3
  | sequential_pop x q1 q2 l q3 :
      try_pop q1 = Ok (Some x, q2) -> sequential q2 l q3 -> sequential q1 (Popped x :: l) q3.

Lemma concurrent_sequential {T} (r r' : Ring T) l q :
  holds r q -> concurrent r l r' -> exists q', sequential q l q' /\ holds r' q'.
Proof.
  intros Hr Hrun. revert q Hr. induction Hrun as
    [r|x res r1 r2 l r3 Ha _ IH|res r1 r2 l r3 Ha _ IH|b r1 r2 l r3 Ha _ IH]; intros q Hr.
  - exists q. split; [constructor|done].
  - pose proof (push_action_holds _ _ _ _ _ Hr Ha) as H. destruct res as [[|]|]; try by apply IH.
    destruct H as (q' & E & Hr'). destruct (IH q' Hr') as (q'' & Hs & Hr''). exists q''. split; [|done].
    by eapply sequential_push.
  - pose proof (pop_action_holds _ _ _ _ Hr Ha) as H. destruct res as [[x|]|]; try by apply IH.
    destruct H as (q' & E & Hr'). destruct (IH q' Hr') as (q'' & Hs & Hr''). exists q''. split; [|done].
    by eapply sequential_pop.
  - destruct (empty_test_holds _ _ _ _ Hr Ha) as (Hr' & _). by apply IH.
Qed.

(** C21: linearizability.  However the atomic actions of two threads interleave
    and whatever their loads return, the calls that return true behave as if
    each happened at once, at the action it returns with: the same calls made
    one after the other on the queue as functions succeed with the same items,
    and end in the queue the ring stands for. *)
Theorem spsc_linearizable {T} (dflt : T) capacity r l r' :
  capacity <= 2 ^ 63 -> new_ring dflt capacity = Ok r -> concurrent r l r' ->
  exists q q', new_queue dflt capacity = Ok q /\ sequential q l q' /\ holds r' q'.
Proof.
  intros Hcap E Hrun. destruct (new_ring_holds dflt capacity Hcap) as (r0 & q & E0 & Eq & Hr).
  rewrite E in E0. injection E0 as <-. destruct (concurrent_sequential _ _ _ _ Hr Hrun) as (q' & Hs & Hr').
  by exists q, q'.
Qed.

(** A push, a second one whose slot is written, a pop, the second push
    published. *)
Definition demo_ring (cf : Config Z) : Ring Z := mkRing 3 cf.
Definition demo_end : Config Z :=
  mkConfig [7; 8; 0; 0] [0; 1; 2] [0; 1] PIdle 0 CIdle 1 [7; 8] [7].

Lemma demo_concurrent :
  concurrent (demo_ring (initial demo_queue)) [Pushed 7; Popped 7; Pushed 8] (demo_ring demo_end).
Proof.
  unfold demo_ring, initial, demo_end. cbn [q_buffer q_head q_tail demo_queue].
  eapply (concurrent_push 7 None); [apply push_goes_on; [by apply (push_load_head _ 7)|done]|].
  eapply (concurrent_push 7 None);
    [apply push_goes_on; [eapply (push_free _ _ _ 0); [lia|reflexivity|discriminate]|done]|].
  eapply (concurrent_push 7 None); [apply push_goes_on; [by eapply push_write|done]|].
  eapply (concurrent_push 7 (Some true)); [apply push_returns_true; [apply push_publish|done|done]|].
  eapply (concurrent_pop None); [apply pop_goes_on; [by eapply pop_load_tail|done]|].
  eapply (concurrent_push 8 None); [apply push_goes_on; [by apply (push_load_head _ 8)|done]|].
  eapply (concurrent_pop None);
    [apply pop_goes_on; [eapply (pop_ready _ _ 1); [lia|reflexivity|discriminate]|done]|].
  eapply (concurrent_push 8 None);
    [apply push_goes_on; [eapply (push_free _ _ _ 0); [lia|reflexivity|discriminate]|done]|].
  eapply (concurrent_push 8 None); [apply push_goes_on; [by eapply push_write|done]|].
  eapply (concurrent_pop None); [apply pop_goes_on; [by eapply pop_read|done]|].
  eapply (concurrent_pop (Some (Some 7))); [apply pop_returns_true; [apply pop_release|done|done]|].
  eapply (concurrent_push 8 (Some true)); [apply push_returns_true; [apply push_publish|done|done]|].
  apply concurrent_nil.
Qed.

Lemma spsc_linearizable_witness :
  exists q q', new_queue 0 3 = Ok q /\ sequential q [Pushed 7; Popped 7; Pushed 8] q' /\ holds (demo_ring demo_end) q'.
Proof.
  apply (spsc_linearizable 0 3 (demo_ring (initial demo_queue))); [lia|reflexivity|exact demo_concurrent].
Defined.
