(* ===== verification/Pipeline.v ===== *)
(** The concurrent pipeline (include/mdfh/pipeline.hpp): the ingestion, book
    and analytics threads as deterministic state machines over two rings and
    two flags, interleaved by an arbitrary schedule.

    One step of a thread is one of its calls on shared state.  That [try_push]
    and [try_pop] may be taken as single steps is what QueueCalls and
    ThreadsProofs show; a step of a schedule may be marked stale, and then the
    call sees an old index or flag: a push or pop fails, a done flag reads
    false.  The emptiness test after a set flag is never stale: the flag is
    stored with release after the last push and loaded with acquire, so the
    test sees that push. *)
From Stdlib Require Import SpecFloat.
From S2P Require Import Prelude Doubles ByteOrder Protocol Serialization Parser SequenceTracker.
From S2P Require Import FeedHandler.
From S2P Require Import OrderedMap OrderBook BookSpec BookProofs BookQueries BookTheorems.
From S2P Require Import BookBuilder.
From S2P Require Import EndToEnd Replay Queue.

Local Open Scope Z_scope.

Record Frame := mkFrame {
  fr_len : Z;              (* u16 *)
  fr_data : list byte      (* kMaxMessageSize bytes *)
}.
Definition empty_frame : Frame := mkFrame 0 (replicate kMaxMessageSize Byte.x00).

Record Tick := mkTick { tk_sym : SymbolId; tk_bid : Price; tk_ask : Price }.
Definition empty_tick : Tick := mkTick 0 0 0.

Record PipelineConfig := mkPipelineConfig {
  frame_queue_capacity : Z;
  tick_queue_capacity : Z;
  analytics_every : Z
}.

(** A default-constructed [Config]. *)
Definition default_pipeline_config : PipelineConfig := mkPipelineConfig 65536 65536 512.

Record PipelineResult := mkPipelineResult {
  plr_messages_parsed : Z;    (* u64 *)
  plr_malformed : Z;          (* u64 *)
  plr_analytics_events : Z;   (* u64 *)
  plr_wall_seconds : spec_float
}.

(** [(t1 - t0).count()] for two readings of the steady clock, which counts
    nanoseconds, and [duration<double>(t1 - t0).count()]. *)
Definition elapsed (t0 t1 : Z) : outcome Z := require (in_signedb 64 (t1 - t0));; Ok (t1 - t0).
Definition seconds_between (t0 t1 : Z) : outcome spec_float :=
  d ← elapsed t0 t1;
  Ok (double_div (double_of_Z d) (double_of_Z 1000000000)).

(** Where the ingestion thread is: at the head of its loop, retrying a push
    before moving on to an offset, about to set its flag, finished. *)
Inductive IngestPc :=
  | IngLoop (off : nat)
  | IngPush (off : nat) (f : Frame)
  | IngFlag
  | IngDone.

(** Where the book thread is: at its [try_pop], after a failed pop, after
    seeing the flag, emitting ticks (finally or not), storing the results,
    about to set its flag, finished. *)
Inductive BookPc :=
  | BookPop
  | BookCheckDone
  | BookCheckEmpty
  | BookEmit (ts : list Tick) (final : bool)
  | BookStore
  | BookFlag
  | BookDone.

Inductive AnalyticsPc := AnaPop | AnaCheckDone | AnaCheckEmpty | AnaDone.

(** ** The state

    What the threads own, and what they share: two rings and two flags, whose
    representation is a parameter, so that the code the threads run between
    their calls is written once, here for rings that are queues and flags that
    are booleans, in PipelineThreads.v for their atomic actions. *)
Section State.
Context {ndebug : bool} {FrameRing TickRing Flag : Type}.

Record PipelineState := mkPipeline {
  pl_frames : FrameRing;
  pl_ticks : TickRing;
  pl_ingest_done : Flag;
  pl_book_done : Flag;
  pl_ingest : IngestPc;
  pl_book : BookPc;
  pl_feed : FeedHandler (BookBuilder ndebug);
  pl_processed : Z;          (* u64 *)
  pl_messages_parsed : Z;    (* u64 *)
  pl_malformed : Z;          (* u64 *)
  pl_final : option (Z * nat * BookStats);  (* fingerprint_, final_symbol_count_, book_stats_ *)
  pl_analytics : AnalyticsPc;
  pl_analytics_events : Z;   (* u64 *)
  pl_last_tick : Tick
}.
Implicit Types (p : PipelineState).

Definition set_ingest (pc : IngestPc) p : PipelineState :=
  mkPipeline (pl_frames p) (pl_ticks p) (pl_ingest_done p) (pl_book_done p) pc (pl_book p) (pl_feed p)
    (pl_processed p) (pl_messages_parsed p) (pl_malformed p) (pl_final p) (pl_analytics p)
    (pl_analytics_events p) (pl_last_tick p).
Definition set_frames (q : FrameRing) p : PipelineState :=
  mkPipeline q (pl_ticks p) (pl_ingest_done p) (pl_book_done p) (pl_ingest p) (pl_book p) (pl_feed p)
    (pl_processed p) (pl_messages_parsed p) (pl_malformed p) (pl_final p) (pl_analytics p)
    (pl_analytics_events p) (pl_last_tick p).
Definition set_ingest_done (v : Flag) p : PipelineState :=
  mkPipeline (pl_frames p) (pl_ticks p) v (pl_book_done p) (pl_ingest p) (pl_book p) (pl_feed p)
    (pl_processed p) (pl_messages_parsed p) (pl_malformed p) (pl_final p) (pl_analytics p)
    (pl_analytics_events p) (pl_last_tick p).
Definition set_book (pc : BookPc) p : PipelineState :=
  mkPipeline (pl_frames p) (pl_ticks p) (pl_ingest_done p) (pl_book_done p) (pl_ingest p) pc (pl_feed p)
    (pl_processed p) (pl_messages_parsed p) (pl_malformed p) (pl_final p) (pl_analytics p)
    (pl_analytics_events p) (pl_last_tick p).
Definition set_ticks (q : TickRing) p : PipelineState :=
  mkPipeline (pl_frames p) q (pl_ingest_done p) (pl_book_done p) (pl_ingest p) (pl_book p) (pl_feed p)
    (pl_processed p) (pl_messages_parsed p) (pl_malformed p) (pl_final p) (pl_analytics p)
    (pl_analytics_events p) (pl_last_tick p).
Definition set_book_done (v : Flag) p : PipelineState :=
  mkPipeline (pl_frames p) (pl_ticks p) (pl_ingest_done p) v (pl_ingest p) (pl_book p) (pl_feed p)
    (pl_processed p) (pl_messages_parsed p) (pl_malformed p) (pl_final p) (pl_analytics p)
    (pl_analytics_events p) (pl_last_tick p).
Definition set_processed (fh : FeedHandler (BookBuilder ndebug)) (r : ParseResult) p : PipelineState :=
  mkPipeline (pl_frames p) (pl_ticks p) (pl_ingest_done p) (pl_book_done p) (pl_ingest p) (pl_book p) fh
    (incr64 (pl_processed p)) (add64 (pl_messages_parsed p) (Z.of_nat (pr_messages r)))
    (add64 (pl_malformed p) (Z.of_nat (pr_malformed r))) (pl_final p) (pl_analytics p)
    (pl_analytics_events p) (pl_last_tick p).
Definition set_final (r : Z * nat * BookStats) p : PipelineState :=
  mkPipeline (pl_frames p) (pl_ticks p) (pl_ingest_done p) (pl_book_done p) (pl_ingest p) (pl_book p)
    (pl_feed p) (pl_processed p) (pl_messages_parsed p) (pl_malformed p) (Some r) (pl_analytics p)
    (pl_analytics_events p) (pl_last_tick p).
Definition set_analytics (pc : AnalyticsPc) p : PipelineState :=
  mkPipeline (pl_frames p) (pl_ticks p) (pl_ingest_done p) (pl_book_done p) (pl_ingest p) (pl_book p)
    (pl_feed p) (pl_processed p) (pl_messages_parsed p) (pl_malformed p) (pl_final p) pc
    (pl_analytics_events p) (pl_last_tick p).
Definition set_tick (t : Tick) p : PipelineState :=
  mkPipeline (pl_frames p) (pl_ticks p) (pl_ingest_done p) (pl_book_done p) (pl_ingest p) (pl_book p)
    (pl_feed p) (pl_processed p) (pl_messages_parsed p) (pl_malformed p) (pl_final p) (pl_analytics p)
    (incr64 (pl_analytics_events p)) t.

(** All three threads have returned, so [run] joins them. *)
Definition finished p : bool :=
  match pl_ingest p, pl_book p, pl_analytics p with
  | IngDone, BookDone, AnaDone => true
  | _, _, _ => false
  end.

(** [fingerprint()]. *)
Definition pipeline_fingerprint p : Z := default 0 ((fun r => r.1.1) <$> pl_final p).
End State.
Arguments PipelineState : clear implicits.

(** Rings as queues, flags as booleans: a call is one step. *)
Definition Pipeline (ndebug : bool) : Type := PipelineState ndebug (SPSCQueue Frame) (SPSCQueue Tick) bool.

Section Pipeline.
Context {ndebug : bool}.
Context (hash_order : gmap Z OrderBook -> list (Z * OrderBook)).
Context (cfg : PipelineConfig) (messages : list byte).
Notation pipeline := (Pipeline ndebug).

(** The start of [run]. *)
Definition start : outcome pipeline :=
  frames ← new_queue empty_frame (frame_queue_capacity cfg);
  ticks ← new_queue empty_tick (tick_queue_capacity cfg);
  Ok (mkPipeline frames ticks false false (IngLoop 0) BookPop
        (new_feed (set_verify false (new_builder ndebug))) 0 0 0 None AnaPop 0 empty_tick).

(** [std::copy_n(messages.data() + off, n, f.data.data())]. *)
Definition copy_into (off n : nat) (data : list byte) : outcome (list byte) :=
  bytes ← subspan messages off n;
  require (bool_decide (n <= length data)%nat);;
  Ok (bytes ++ drop n data).

(** From the head of the ingestion loop to its next call: where the thread is
    after framing the message at [off]. *)
Definition ingest_frame (off : nat) : outcome IngestPc :=
  if bool_decide (off + kHeaderWireSize <= length messages)%nat then
    header_span ← subspan messages off kHeaderWireSize;
    ohdr ← decode_header header_span;
    match ohdr with
    | None => Ok IngFlag
    | Some hdr =>
        let frame_len := (kHeaderWireSize + Z.to_nat (hdr_body_size hdr))%nat in
        if bool_decide (length messages < off + frame_len)%nat then Ok IngFlag
        else if bool_decide (kMaxMessageSize < frame_len)%nat then Ok (IngLoop (off + frame_len))
        else
          data ← copy_into off frame_len (fr_data empty_frame);
          Ok (IngPush (off + frame_len) (mkFrame (wrap 16 (Z.of_nat frame_len)) data))
    end
  else Ok IngFlag.

Definition ingest_step (stale : bool) (p : pipeline) : outcome pipeline :=
  match pl_ingest p with
  | IngLoop off => pc ← ingest_frame off; Ok (set_ingest pc p)
  | IngPush off f =>
      if stale then Ok p else
      r ← try_push f (pl_frames p);
      let '(ok, q) := (r : bool * SPSCQueue Frame) in
      Ok (if ok then set_ingest (IngLoop off) (set_frames q p) else p)
  | IngFlag => Ok (set_ingest IngDone (set_ingest_done true p))
  | IngDone => Ok p
  end.

(** The ticks [emit_tick] pushes, in the order of the hash table. *)
Definition book_tick (sym : SymbolId) (bk : OrderBook) : Tick :=
  mkTick sym (default 0 (lv_price <$> best_bid bk)) (default 0 (lv_price <$> best_ask bk)).
Definition emit_ticks (b : BookBuilder ndebug) : list Tick :=
  map (fun e => book_tick e.1 e.2) (hash_order (bb_manager b)).

(** Parse one frame and update the books; [++processed % analytics_every] is
    undefined when the divisor is zero. *)
Definition process_frame {F T B} (f : Frame) (p : PipelineState ndebug F T B) : outcome (PipelineState ndebug F T B) :=
  span ← subspan (fr_data f) 0 (Z.to_nat (fr_len f));
  pr ← consume_datagram span (pl_feed p);
  let '(fh, r) := pr in
  let p := set_processed fh r p in
  require (negb (analytics_every cfg =? 0));;
  if pl_processed p mod analytics_every cfg =? 0
  then Ok (set_book (BookEmit (emit_ticks (fh_down fh)) false) p)
  else Ok (set_book BookPop p).

(** The results the book thread stores before it raises its flag. *)
Definition store_results {F T B} (p : PipelineState ndebug F T B) : outcome (PipelineState ndebug F T B) :=
  let b := fh_down (pl_feed p) in
  fingerprint ← book_fingerprint hash_order (bb_manager b);
  Ok (set_book BookFlag (set_final (fingerprint, symbol_count (bb_manager b), bb_stats b) p)).

Definition book_step (stale : bool) (p : pipeline) : outcome pipeline :=
  match pl_book p with
  | BookPop =>
      if stale then Ok (set_book BookCheckDone p) else
      r ← try_pop (pl_frames p);
      let '(item, q) := (r : option Frame * SPSCQueue Frame) in
      match item with
      | Some f => process_frame f (set_frames q p)
      | None => Ok (set_book BookCheckDone p)
      end
  | BookCheckDone =>
      if negb stale && pl_ingest_done p then Ok (set_book BookCheckEmpty p)
      else Ok (set_book BookPop p)
  | BookCheckEmpty =>
      if queue_empty (pl_frames p)
      then Ok (set_book (BookEmit (emit_ticks (fh_down (pl_feed p))) true) p)
      else Ok (set_book BookPop p)
  | BookEmit (t :: ts) final =>
      if stale then Ok (set_book (BookEmit ts final) p) else
      r ← try_push t (pl_ticks p);
      Ok (set_book (BookEmit ts final) (set_ticks r.2 p))
  | BookEmit [] final => Ok (set_book (if final then BookStore else BookPop) p)
  | BookStore => store_results p
  | BookFlag => Ok (set_book BookDone (set_book_done true p))
  | BookDone => Ok p
  end.

Definition analytics_step (stale : bool) (p : pipeline) : outcome pipeline :=
  match pl_analytics p with
  | AnaPop =>
      if stale then Ok (set_analytics AnaCheckDone p) else
      r ← try_pop (pl_ticks p);
      let '(item, q) := (r : option Tick * SPSCQueue Tick) in
      match item with
      | Some t => Ok (set_tick t (set_ticks q p))
      | None => Ok (set_analytics AnaCheckDone p)
      end
  | AnaCheckDone =>
      if negb stale && pl_book_done p then Ok (set_analytics AnaCheckEmpty p)
      else Ok (set_analytics AnaPop p)
  | AnaCheckEmpty =>
      if queue_empty (pl_ticks p) then Ok (set_analytics AnaDone p) else Ok (set_analytics AnaPop p)
  | AnaDone => Ok p
  end.

Inductive ThreadId := Ingest | Book | Analytics.

Definition thread_step (t : ThreadId) : bool -> pipeline -> outcome pipeline :=
  match t with Ingest => ingest_step | Book => book_step | Analytics => analytics_step end.

(** A schedule: which thread moves next, and whether its call sees old values. *)
Fixpoint run_schedule (sched : list (ThreadId * bool)) (p : pipeline) : outcome pipeline :=
  match sched with
  | [] => Ok p
  | (t, stale) :: sched' => p ← thread_step t stale p; run_schedule sched' p
  end.

(** [run]: the queues, the three threads to their ends in the order of the
    schedule, and the time between two readings of the clock. *)
Definition pipeline_run (sched : list (ThreadId * bool)) (t0 t1 : Z) : outcome (PipelineResult * pipeline) :=
  p ← start;
  p ← run_schedule sched p;
  if negb (finished p) then Diverge else
  wall ← seconds_between t0 t1;
  Ok (mkPipelineResult (pl_messages_parsed p) (pl_malformed p) (pl_analytics_events p) wall, p).
End Pipeline.
