(* ===== verification/PipelineProofs.v ===== *)
(** The concurrent pipeline computes what the single-threaded path computes:
    under every schedule no step fails, and when all threads have returned the
    books, the fingerprint and the counts are those of the frames in order. *)
From S2P Require Import Prelude ByteOrder Protocol Serialization Parser SequenceTracker.
From S2P Require Import FeedHandler.
From S2P Require Import OrderedMap OrderBook BookSpec BookProofs BookQueries BookTheorems.
From S2P Require Import BookBuilder.
From S2P Require Import EndToEnd Replay Queue Pipeline.

Local Open Scope Z_scope.

(** ** The frames the ingestion thread pushes *)

(** The complete frames of a buffer that fit a [Frame], with their events. *)
Fixpoint pushed_fuel (fuel : nat) (buf : list byte) : list (list byte * Event) :=
  match fuel with
  | O => []
  | S fuel =>
      match classify 0 buf with
      | FrontFrame ev len =>
          (if bool_decide (kMaxMessageSize < len)%nat then [] else [(take len buf, ev)])
          ++ pushed_fuel fuel (drop len buf)
      | _ => []
      end
  end.
Definition pushed_frames (buf : list byte) : list (list byte * Event) := pushed_fuel (S (length buf)) buf.

(** A [Frame] as the ingestion thread fills it. *)
Definition frame_of (bytes : list byte) : Frame :=
  mkFrame (wrap 16 (Z.of_nat (length bytes))) (bytes ++ drop (length bytes) (fr_data empty_frame)).

Lemma pushed_fuel_irrel f1 f2 buf :
  (length buf < f1)%nat -> (length buf < f2)%nat -> pushed_fuel f1 buf = pushed_fuel f2 buf.
Proof.
  revert f2 buf; induction f1 as [|f1 IH]; intros f2 buf H1 H2; [lia|].
  destruct f2 as [|f2]; [lia|]. cbn [pushed_fuel].
  destruct (classify 0 buf) as [| | |ev len] eqn:E; [done..|].
  apply classify_frame in E as (Hlen & _). unfold_sizes.
  rewrite (IH f2) by (rewrite length_drop; lia). done.
Qed.

Lemma pushed_frames_eq buf :
  pushed_frames buf =
  match classify 0 buf with
  | FrontFrame ev len =>
      (if bool_decide (kMaxMessageSize < len)%nat then [] else [(take len buf, ev)])
      ++ pushed_frames (drop len buf)
  | _ => []
  end.
Proof.
  unfold pushed_frames at 1. cbn [pushed_fuel].
  destruct (classify 0 buf) as [| | |ev len] eqn:E; [done..|].
  apply classify_frame in E as (Hlen & _). unfold_sizes. f_equal.
  apply pushed_fuel_irrel; rewrite length_drop; lia.
Qed.

(** A frame on its own holds exactly its event. *)
Definition frame_ok (x : list byte * Event) : Prop :=
  scan_at 0 x.1 = mkScanned [x.2] (length x.1) StopShort /\ event_ok x.2 /\
  (length x.1 <= kMaxMessageSize)%nat.

Lemma pushed_frames_ok buf : Forall frame_ok (pushed_frames buf).
Proof.
  revert buf. apply frames_walk. intros b IH. rewrite pushed_frames_eq.
  destruct (classify 0 b) as [| | |ev len] eqn:E; [constructor..|].
  apply Forall_app. split; [|by apply (IH ev)].
  case_bool_decide; [constructor|]. pose proof (classify_frame _ _ _ _ E) as (Hlen & Hev & _).
  apply Forall_singleton. unfold frame_ok. cbn [fst snd]. rewrite length_take, Nat.min_l by lia.
  split; [by apply scan_single|]. split; [done|lia].
Qed.

(** A frame too long for its type is malformed: skipping it loses no message. *)
Lemma classify_long off buf ev len :
  classify off buf = FrontFrame ev len -> (kMaxMessageSize < len)%nat -> is_malformed ev = true.
Proof.
  unfold classify. cbn zeta. case_bool_decide; [discriminate|].
  destruct (decode_header _) as [[hdr|]| | |]; [|discriminate..].
  case_bool_decide; [discriminate|]. destruct (_ || _) eqn:E; intros [= <- <-] Hlong; [done|].
  apply orb_false_iff in E as [E1%bool_decide_eq_false _].
  pose proof (body_size_for_max (hdr_type hdr)). unfold kMaxMessageSize in Hlong. unfold_sizes. lia.
Qed.

(** ** Messages among events *)

Definition good_events (evs : list Event) : list Event := filter (fun ev => is_malformed ev = false) evs.

Lemma good_events_pushed buf : good_events (pushed_frames buf).*2 = good_events (frames buf).*2.
Proof.
  revert buf. apply frames_walk. intros b IH. rewrite pushed_frames_eq, frames_eq.
  destruct (classify 0 b) as [| | |ev len] eqn:E; [done..|]. specialize (IH _ _ eq_refl).
  unfold good_events in *. rewrite fmap_app, filter_app, IH, fmap_cons. cbn [snd]. rewrite filter_cons.
  case_bool_decide as Hl.
  - pose proof (classify_long _ _ _ _ E Hl) as Hm. by rewrite decide_False by (rewrite Hm; discriminate).
  - cbn [fmap list_fmap snd]. rewrite filter_cons, filter_nil. by case_decide.
Qed.

Lemma good_events_erase evs1 evs2 :
  erase_offset <$> evs1 = erase_offset <$> evs2 -> good_events evs1 = good_events evs2.
Proof.
  unfold good_events. revert evs2; induction evs1 as [|e1 evs1 IH]; intros [|e2 evs2] E; try discriminate; [done|].
  injection E as E Es. rewrite !filter_cons, (IH _ Es).
  destruct e1, e2; try discriminate E; cbn [erase_offset is_malformed] in *; repeat case_decide; try done; congruence.
Qed.

Lemma good_events_scan buf : good_events (sc_events (scan_at 0 buf)) = good_events (frames buf).*2.
Proof.
  rewrite (good_events_erase _ ((frames buf).*2 ++ stop_events (sc_stop (scan_at 0 buf)))).
  - unfold good_events. rewrite filter_app. destruct (sc_stop (scan_at 0 buf)); cbn; by rewrite ?app_nil_r.
  - rewrite (frames_scan 0 buf), fmap_app. f_equal. by destruct (sc_stop (scan_at 0 buf)).
Qed.

Lemma forwarded_good evs t :
  good_events (forwarded_events evs t) = forwarded_events (good_events evs) t.
Proof.
  unfold good_events. revert t; induction evs as [|ev evs IH]; intros t; [done|].
  rewrite filter_cons. cbn [forwarded_events]. destruct ev as [h m|h m|h m|h m|h m|h|off];
    cbn [event_header is_malformed]; [..|by rewrite filter_cons_False, decide_False by discriminate].
  all: rewrite filter_app, IH, decide_True by done; cbn [forwarded_events event_header];
    f_equal; destruct (accepted _); [by rewrite filter_cons_True|done].
Qed.

(** Only the messages count for the books and the other counters. *)
Definition clear_malformed (st : BookStats) : BookStats :=
  mkBookStats (st_adds st) (st_cancels st) (st_modifies st) (st_trades st) (st_snapshots st)
    (st_heartbeats st) 0 (st_rejected st).

Definition same_but_malformed (s s' : Books * BookStats) : Prop :=
  s.1 = s'.1 /\ clear_malformed s.2 = clear_malformed s'.2.

Lemma spec_event_same ev s s' :
  same_but_malformed s s' -> same_but_malformed (spec_event ev s) (spec_event ev s').
Proof.
  destruct s as [S []], s' as [S' []]. unfold same_but_malformed, spec_event, clear_malformed.
  cbn [fst snd]. intros [-> [=]]. subst.
  destruct ev; cbn [event_op]; cbn [fst snd]; try destruct (spec_op _ _).1; done.
Qed.

Lemma spec_event_malformed ev s : is_malformed ev = true -> same_but_malformed (spec_event ev s) s.
Proof. by destruct ev. Qed.

Lemma spec_events_good evs s s' :
  same_but_malformed s s' ->
  same_but_malformed (spec_events evs s) (spec_events (good_events evs) s').
Proof.
  unfold good_events. revert s s'; induction evs as [|ev evs IH]; intros s s' E; [done|].
  rewrite filter_cons. cbn [spec_events]. destruct (is_malformed ev) eqn:Em.
  - rewrite decide_False by discriminate. apply IH.
    destruct (spec_event_malformed ev s Em) as [E1 E2]. destruct E. split; congruence.
  - rewrite decide_True by done. cbn [spec_events]. by apply IH, spec_event_same.
Qed.

(** ** The invariant *)

Section Invariant.
Context {ndebug : bool}.
Context (hash_order : gmap Z OrderBook -> list (Z * OrderBook)).
Context (cfg : PipelineConfig) (messages : list byte).
Hypothesis Hevery : analytics_every cfg <> 0.

Notation pipeline := (Pipeline ndebug).
Notation entries := (list (list byte * Event)).
Implicit Types (p : pipeline).

Definition first_feed : FeedHandler (BookBuilder ndebug) :=
  new_feed (set_verify false (new_builder ndebug)).

(** The frames the ingestion thread has still to push. *)
Inductive to_push : IngestPc -> entries -> Prop :=
  | to_push_loop off :
      (off <= length messages)%nat -> to_push (IngLoop off) (pushed_frames (drop off messages))
  | to_push_frame off x :
      (off <= length messages)%nat -> frame_ok x ->
      to_push (IngPush off (frame_of x.1)) (x :: pushed_frames (drop off messages))
  | to_push_flag : to_push IngFlag []
  | to_push_done : to_push IngDone [].

(** The feed handler after the frames [dn]. *)
Definition fed (dn : entries) (fh : FeedHandler (BookBuilder ndebug)) : Prop :=
  exists fh' mal, deliver_all dn.*2 first_feed = Ok fh' /\ fh = set_pending [] mal fh'.

Definition stored p : Prop :=
  let b := fh_down (pl_feed p) in
  exists fp, book_fingerprint hash_order (bb_manager b) = Ok fp /\
    pl_final p = Some (fp, symbol_count (bb_manager b), bb_stats b).

Definition book_ok p (qs : entries) : Prop :=
  match pl_book p with
  | BookPop | BookCheckDone | BookEmit _ false => True
  | BookCheckEmpty => pl_ingest_done p = true
  | BookEmit _ true | BookStore => pl_ingest_done p = true /\ qs = []
  | BookFlag | BookDone => pl_ingest_done p = true /\ qs = [] /\ stored p
  end.

(** The flags say which threads have returned. *)
Definition ingest_returned (pc : IngestPc) : bool := match pc with IngDone => true | _ => false end.
Definition book_returned (pc : BookPc) : bool := match pc with BookDone => true | _ => false end.

(** *** Ticks *)

(** The builder after some events, and the ticks sampled while they are
    processed: after every [analytics_every]-th, and once more at the end. *)
Definition builder_after (evs : list Event) : BookBuilder ndebug :=
  match deliver_all evs first_feed with Ok fh => fh_down fh | _ => fh_down first_feed end.
Definition sample_at (evs : list Event) (k : nat) : list Tick :=
  if wrap 64 (Z.of_nat k) mod analytics_every cfg =? 0 then emit_ticks hash_order (builder_after (take k evs)) else [].
Definition sampled (evs : list Event) : list Tick := concat (map (sample_at evs) (seq 1 (length evs))).
Definition all_ticks : list Tick :=
  let evs := (pushed_frames messages).*2 in sampled evs ++ emit_ticks hash_order (builder_after evs).

Lemma fed_builder dn fh : fed dn fh -> fh_down fh = builder_after dn.*2.
Proof. intros (fh' & mal & E & ->). unfold builder_after. by rewrite E. Qed.

Lemma sampled_snoc evs ev :
  sampled (evs ++ [ev]) =
  sampled evs ++ (if wrap 64 (Z.of_nat (length evs) + 1) mod analytics_every cfg =? 0
                  then emit_ticks hash_order (builder_after (evs ++ [ev])) else []).
Proof.
  unfold sampled. rewrite length_app, seq_app, map_app, concat_app. f_equal.
  - f_equal. apply map_ext_in. intros k Hk%in_seq. unfold sample_at. by rewrite take_app_le by lia.
  - cbn [length seq map concat]. rewrite app_nil_r. unfold sample_at.
    rewrite firstn_all2 by (rewrite length_app; cbn; lia). by rewrite Nat2Z.inj_succ.
Qed.

(** The ticks the book thread has sampled but not yet offered to the ring, and
    those of its last sample. *)
Definition pending_ticks (pc : BookPc) : list Tick := match pc with BookEmit tks _ => tks | _ => [] end.
Definition last_sample p : list Tick :=
  match pl_book p with
  | BookEmit _ true | BookStore | BookFlag | BookDone => emit_ticks hash_order (fh_down (pl_feed p))
  | _ => []
  end.

(** The analytics thread has popped, in order, some of the ticks offered; those
    in the ring come next. *)
Definition saw p (ts offered : list Tick) : Prop :=
  exists popped, popped ++ ts `sublist_of` offered /\
    pl_analytics_events p = wrap 64 (Z.of_nat (length popped)) /\ pl_last_tick p = default empty_tick (last popped).
Definition analytics_at p (ts : list Tick) : Prop :=
  match pl_analytics p with
  | AnaPop | AnaCheckDone => True
  | AnaCheckEmpty => pl_book p = BookDone
  | AnaDone => pl_book p = BookDone /\ ts = []
  end.
Definition analytics_inv p (dn : entries) (ts : list Tick) : Prop :=
  pl_processed p = wrap 64 (Z.of_nat (length dn)) /\
  (exists offered, sampled dn.*2 ++ last_sample p = offered ++ pending_ticks (pl_book p) /\ saw p ts offered) /\
  analytics_at p ts.

(** The frames of the capture are those processed, those in the ring and those
    still to push. *)
Record pinv p (dn qs rest : entries) (ts : list Tick) : Prop := mkPinv {
  pi_split : pushed_frames messages = dn ++ qs ++ rest;
  pi_ingest : to_push (pl_ingest p) rest;
  pi_frames : queue_state (pl_frames p) (map (fun x => frame_of x.1) qs);
  pi_ticks : queue_state (pl_ticks p) ts;
  pi_ingest_done : pl_ingest_done p = ingest_returned (pl_ingest p);
  pi_book_done : pl_book_done p = book_returned (pl_book p);
  pi_feed : fed dn (pl_feed p);
  pi_parsed : pl_messages_parsed p = add64 0 (Z.of_nat (good_count dn.*2));
  pi_malformed : pl_malformed p = add64 0 (Z.of_nat (bad_count dn.*2));
  pi_book : book_ok p qs;
  pi_analytics : analytics_inv p dn ts
}.

Definition pipeline_ok p : Prop := exists dn qs rest ts, pinv p dn qs rest ts.

Ltac unfold_pipeline :=
  cbn [pl_frames pl_ticks pl_ingest_done pl_book_done pl_ingest pl_book pl_feed pl_processed
       pl_messages_parsed pl_malformed pl_final pl_analytics pl_analytics_events pl_last_tick
       set_ingest set_frames set_ingest_done set_book set_ticks set_book_done set_processed set_final
       set_analytics set_tick] in *.

(** Changes outside the part the invariant is about. *)
Lemma pinv_book pc p dn qs rest ts :
  pinv p dn qs rest ts -> book_returned pc = book_returned (pl_book p) ->
  book_ok (set_book pc p) qs -> analytics_inv (set_book pc p) dn ts -> pinv (set_book pc p) dn qs rest ts.
Proof. intros [] Hpc Hb Ha. split; unfold_pipeline; congruence. Qed.

Lemma start_ok :
  frame_queue_capacity cfg <= 2 ^ 63 -> tick_queue_capacity cfg <= 2 ^ 63 ->
  exists p, start cfg = Ok p /\ pipeline_ok p.
Proof.
  intros Hf Ht. unfold start.
  destruct (new_queue_state empty_frame _ Hf) as (qf & -> & Hqf & _).
  destruct (new_queue_state empty_tick _ Ht) as (qt & -> & Hqt & _). rewrite !bind_ok.
  eexists. split; [reflexivity|]. exists [], [], (pushed_frames messages), [].
  split; unfold_pipeline; try done.
  - apply (to_push_loop 0). lia.
  - exists first_feed, 0. split; [done|]. done.
  - split_and!; [done| |done]. exists []. split; [done|]. by exists [].
Qed.

(** *** Ingestion *)

Lemma copy_into_ok off n :
  (off + n <= length messages)%nat -> (n <= kMaxMessageSize)%nat ->
  copy_into messages off n (fr_data empty_frame) =
  Ok (take n (drop off messages) ++ drop n (fr_data empty_frame)).
Proof.
  intros H1 H2. unfold copy_into. rewrite subspan_ok, bind_ok by done.
  cbn [fr_data empty_frame]. by rewrite bool_decide_eq_true_2 by by rewrite length_replicate.
Qed.

Lemma ingest_frame_eq off :
  (off <= length messages)%nat ->
  ingest_frame messages off =
  Ok match classify 0 (drop off messages) with
     | FrontFrame _ len =>
         if bool_decide (kMaxMessageSize < len)%nat then IngLoop (off + len)
         else IngPush (off + len) (frame_of (take len (drop off messages)))
     | _ => IngFlag
     end.
Proof.
  intros Hoff. unfold ingest_frame. unfold classify. cbn zeta. rewrite length_drop.
  case_bool_decide as Hlen; [|by rewrite bool_decide_eq_true_2 by lia].
  rewrite (bool_decide_eq_false_2 (_ - _ < kHeaderWireSize)%nat) by lia.
  rewrite (subspan_ok messages off kHeaderWireSize), bind_ok by lia.
  destruct (decode_header_cases (take kHeaderWireSize (drop off messages)))
    as [(hdr & E & Hhdr & _)|[E _]]; rewrite E, bind_ok; [|done].
  case_bool_decide as Hframe.
  { by rewrite (bool_decide_eq_true_2 (length messages - off < _)%nat) by (unfold_sizes; lia). }
  rewrite (bool_decide_eq_false_2 (length messages - off < _)%nat) by (unfold_sizes; lia).
  assert (forall ev, match (if bool_decide (hdr_body_size hdr <> Z.of_nat (body_size_for (hdr_type hdr)))
      || bool_decide (hdr_version hdr <> kProtocolVersion)
      then FrontFrame (EvMalformed 0) (kHeaderWireSize + Z.to_nat (hdr_body_size hdr))
      else FrontFrame ev (kHeaderWireSize + Z.to_nat (hdr_body_size hdr))) with
    | FrontFrame _ len => if bool_decide (kMaxMessageSize < len)%nat then IngLoop (off + len)
        else IngPush (off + len) (frame_of (take len (drop off messages)))
    | _ => IngFlag end =
    let len := (kHeaderWireSize + Z.to_nat (hdr_body_size hdr))%nat in
    if bool_decide (kMaxMessageSize < len)%nat then IngLoop (off + len)
        else IngPush (off + len) (frame_of (take len (drop off messages)))) as Hm.
  { intros ev. by destruct (_ || _). }
  rewrite Hm. cbn zeta.
  destruct (decide (kMaxMessageSize < kHeaderWireSize + Z.to_nat (hdr_body_size hdr))%nat) as [Hmax|Hmax];
    [by rewrite !(bool_decide_eq_true_2 _ Hmax)|rewrite !(bool_decide_eq_false_2 _ Hmax)].
  rewrite copy_into_ok, bind_ok by (unfold_sizes; lia). unfold frame_of.
  rewrite length_take, length_drop, Nat.min_l by (unfold_sizes; lia). done.
Qed.

Lemma ingest_loop_step off stale p :
  pl_ingest p = IngLoop off -> (off <= length messages)%nat ->
  ingest_step messages stale p =
  Ok (set_ingest
        match classify 0 (drop off messages) with
        | FrontFrame _ len =>
            if bool_decide (kMaxMessageSize < len)%nat then IngLoop (off + len)
            else IngPush (off + len) (frame_of (take len (drop off messages)))
        | _ => IngFlag
        end p).
Proof. intros Hpc Hoff. unfold ingest_step. rewrite Hpc. by rewrite ingest_frame_eq. Qed.

Lemma ingest_ok stale p dn qs rest ts :
  pinv p dn qs rest ts ->
  exists p', ingest_step messages stale p = Ok p' /\ pipeline_ok p'.
Proof.
  intros Hp. pose proof (pi_ingest _ _ _ _ _ Hp) as Hi. inversion Hi as [off Hoff Epc Er|off x Hoff Hx Epc Er|Epc Er|Epc Er];
    symmetry in Epc; subst rest.
  - rewrite (ingest_loop_step off) by done. eexists. split; [reflexivity|].
    rewrite pushed_frames_eq in Hp. pose proof (pushed_frames_ok (drop off messages)) as Hok.
    rewrite pushed_frames_eq in Hok.
    assert (pl_ingest_done p = false) as Hflag by (rewrite (pi_ingest_done _ _ _ _ _ Hp), Epc; done).
    destruct (classify 0 (drop off messages)) as [| | |ev len] eqn:Ec.
    1-3: exists dn, qs, [], ts; destruct Hp; split; unfold_pipeline; try done; constructor.
    pose proof (classify_frame _ _ _ _ Ec) as (Hlen & _). rewrite length_drop in Hlen. unfold_sizes.
    rewrite drop_drop in *. case_bool_decide.
    + exists dn, qs, (pushed_frames (drop (off + len) messages)), ts.
      destruct Hp; split; unfold_pipeline; try done; constructor; lia.
    + exists dn, qs, ((take len (drop off messages), ev) :: pushed_frames (drop (off + len) messages)), ts.
      apply Forall_app in Hok as [Hok _]. rewrite Forall_singleton in Hok.
      destruct Hp; split; unfold_pipeline; try done.
      apply (to_push_frame (off + len) (take len (drop off messages), ev)); [lia|done].
  - unfold ingest_step. rewrite Epc. destruct stale; [exists p; split; [done|by eexists _, _, _, _]|].
    destruct (try_push_state (frame_of x.1) _ _ (pi_frames _ _ _ _ _ Hp)) as [[_ E]|[_ (q & E & Hq & _)]];
      rewrite E, bind_ok; [exists p; split; [done|by eexists _, _, _, _]|].
    eexists. split; [reflexivity|]. exists dn, (qs ++ [x]), (pushed_frames (drop off messages)), ts.
    assert (pl_ingest_done p = false) as Hflag by (rewrite (pi_ingest_done _ _ _ _ _ Hp), Epc; done).
    destruct Hp as [Hs _ _ Ht _ Hbd Hfd Hpa Hma Hb]. split; unfold_pipeline; try done.
    + rewrite Hs. by rewrite <- app_assoc.
    + by constructor.
    + by rewrite map_app.
    + unfold book_ok in *. unfold_pipeline.
      destruct (pl_book p) as [| | |? []| | |]; try done; try congruence; destruct Hb; congruence.
  - unfold ingest_step. rewrite Epc. eexists. split; [reflexivity|]. exists dn, qs, [], ts.
    destruct Hp as [Hs _ Hf Ht Hflag Hbd Hfd Hpa Hma Hb]. split; unfold_pipeline; try done; [constructor|].
    unfold book_ok, stored in *. unfold_pipeline. destruct (pl_book p) as [| | |? []| | |]; tauto.
  - unfold ingest_step. rewrite Epc. exists p. split; [done|by eexists _, _, _, _].
Qed.

(** *** Book updates *)

Lemma fed_safe dn fh :
  Forall frame_ok dn -> fed dn fh ->
  (exists s, builder_state (fh_down fh) s) /\ checked (fh_down fh) = false.
Proof.
  intros Hok (fh' & mal & E & ->). cbn [fh_down set_pending].
  pose proof (FeedHandler_safe (fun bb : BookBuilder ndebug =>
    (exists s, builder_state bb s) /\ checked bb = false)) as Hsafe.
  destruct (@deliver_all_safe _ _ _ Hsafe dn.*2 first_feed) as (fh2 & E2 & H2).
  - apply Forall_fmap. eapply Forall_impl; [exact Hok|]. by intros x (_ & ? & _).
  - split; [|done]. exists (∅, no_stats). destruct (builder_state_new (ndebug := ndebug)) as [Hm Hst].
    split; [exact Hm|exact Hst].
  - rewrite E in E2. by injection E2 as <-.
Qed.

(** One frame more. *)
Lemma consume_datagram_frame dn fh x :
  Forall frame_ok dn -> fed dn fh -> frame_ok x ->
  exists fh', consume_datagram x.1 fh =
    Ok (fh', mkParseResult (length x.1) (good_count [x.2]) (bad_count [x.2]) false) /\
    fed (dn ++ [x]) fh'.
Proof.
  intros Hok Hfed (Hscan & Hev & _). pose proof (fed_safe dn fh Hok Hfed) as Hsafe.
  destruct Hfed as (fh1 & mal & E & ->). rewrite consume_datagram_spec, Hscan. cbn [sc_events].
  rewrite deliver_all_pending. cbn [deliver_all].
  pose proof (FeedHandler_safe (fun bb : BookBuilder ndebug =>
    (exists s, builder_state bb s) /\ checked bb = false)) as Hinst.
  destruct (@deliver_safe _ _ _ Hinst x.2 fh1 Hev Hsafe) as (fh2 & E2 & _).
  rewrite E2, !bind_ok. eexists. split; [reflexivity|].
  exists fh2, (add64 mal (Z.of_nat (bad_count [x.2]))). split; [|done].
  rewrite fmap_app, deliver_all_app, E, bind_ok. cbn. by rewrite E2, bind_ok.
Qed.

Lemma frame_of_bytes x :
  frame_ok x -> subspan (fr_data (frame_of x.1)) 0 (Z.to_nat (fr_len (frame_of x.1))) = Ok x.1.
Proof.
  intros (_ & _ & Hlen). unfold frame_of. cbn [fr_len fr_data].
  rewrite wrap_small by (unfold in_unsigned; unfold_sizes; lia). rewrite Nat2Z.id.
  rewrite subspan_ok by (rewrite length_app; lia). by rewrite drop_0, take_app_length.
Qed.

Lemma split_ok dn qs rest : pushed_frames messages = dn ++ qs ++ rest -> Forall frame_ok dn /\ Forall frame_ok qs.
Proof.
  intros E. pose proof (pushed_frames_ok messages) as Hok. rewrite E in Hok.
  apply Forall_app in Hok as [? [? _]%Forall_app]. done.
Qed.

(** A thread that has seen the book thread's flag finds it returned. *)
Lemma analytics_at_book p p' ts :
  analytics_at p ts -> pl_book p <> BookDone -> pl_analytics p' = pl_analytics p -> analytics_at p' ts.
Proof. unfold analytics_at. intros Hat Hne ->. destruct (pl_analytics p); tauto. Qed.

(** The samples after one frame more. *)
Lemma analytics_process p p1 pc dn x ts :
  analytics_inv p dn ts -> pl_book p = BookPop -> fed (dn ++ [x]) (pl_feed p1) ->
  pl_processed p1 = incr64 (pl_processed p) -> pl_analytics p1 = pl_analytics p ->
  pl_analytics_events p1 = pl_analytics_events p -> pl_last_tick p1 = pl_last_tick p ->
  pc = (if pl_processed p1 mod analytics_every cfg =? 0
        then BookEmit (emit_ticks hash_order (fh_down (pl_feed p1))) false else BookPop) ->
  analytics_inv (set_book pc p1) (dn ++ [x]) ts.
Proof.
  intros (Hpr & (offered & Heq & popped & Hsub & Hev & Hlast) & Hat) Hpc Hfed Hpr1 Hana Hev1 Hlast1 ->.
  assert (pl_processed p1 = wrap 64 (Z.of_nat (length dn) + 1)) as Hn
    by (rewrite Hpr1, Hpr; unfold incr64; apply wrap_add_l).
  split_and!; unfold_pipeline.
  - rewrite Hn, length_app. f_equal. cbn. lia.
  - exists offered. unfold last_sample in *. rewrite Hpc in Heq. unfold_pipeline. cbn [pending_ticks] in Heq.
    rewrite !app_nil_r in Heq. split; [|exists popped; unfold_pipeline; by rewrite Hev1, Hlast1].
    rewrite fmap_app. cbn [fmap list_fmap]. rewrite sampled_snoc, length_fmap, <- Hn, Heq.
    apply fed_builder in Hfed. rewrite fmap_app in Hfed. cbn [fmap list_fmap] in Hfed. rewrite <- Hfed.
    destruct (_ mod _ =? 0); cbn [pending_ticks]; by rewrite !app_nil_r.
  - eapply analytics_at_book; [exact Hat|by rewrite Hpc|exact Hana].
Qed.

Lemma process_ok x q p dn qs rest ts :
  pinv p dn (x :: qs) rest ts -> pl_book p = BookPop ->
  queue_state q (map (fun x => frame_of x.1) qs) ->
  exists p', process_frame hash_order cfg (frame_of x.1) (set_frames q p) = Ok p' /\
    pinv p' (dn ++ [x]) qs rest ts /\ pl_ingest p' = pl_ingest p /\ pl_frames p' = q /\
    (pl_book p' = BookPop \/ exists tks, pl_book p' = BookEmit tks false).
Proof.
  intros Hp Hpc Hq. destruct (split_ok _ _ _ (pi_split _ _ _ _ _ Hp)) as [Hdn Hqs].
  apply Forall_cons in Hqs as [Hx Hqs]. unfold process_frame. rewrite frame_of_bytes, bind_ok by done.
  destruct (consume_datagram_frame dn (pl_feed p) x Hdn (pi_feed _ _ _ _ _ Hp) Hx) as (fh & E & Hfed).
  unfold_pipeline. rewrite E, bind_ok. rewrite (proj2 (Z.eqb_neq _ 0) Hevery). cbn [negb require].
  rewrite bind_ok.
  set (p1 := set_processed fh _ (set_frames q p)).
  assert (forall pc, (pc = BookPop \/ exists ts, pc = BookEmit ts false) ->
    pc = (if pl_processed p1 mod analytics_every cfg =? 0
          then BookEmit (emit_ticks hash_order (fh_down (pl_feed p1))) false else BookPop) ->
    pinv (set_book pc p1) (dn ++ [x]) qs rest ts) as Hnext.
  { intros pc Hcase Epc. destruct Hp as [Hs Hi Hf Ht Hd Hbd Hfd Hpa Hma Hb Han]. split; unfold p1; unfold_pipeline; try done.
    - rewrite Hs. by rewrite <- app_assoc.
    - rewrite Hbd, Hpc. by destruct Hcase as [->|[? ->]].
    - rewrite Hpa, add64_add, fmap_app. unfold good_count. rewrite filter_length_app. f_equal. cbn. lia.
    - rewrite Hma, add64_add, fmap_app. unfold bad_count. rewrite filter_length_app. f_equal. cbn. lia.
    - unfold book_ok. unfold_pipeline. destruct Hcase as [->|[? ->]]; done.
    - by apply (analytics_process p). }
  change (incr64 (pl_processed p)) with (pl_processed p1). change (fh_down fh) with (fh_down (pl_feed p1)).
  destruct (pl_processed p1 mod _ =? 0) eqn:Em; (eexists; split; [reflexivity|]);
    (split_and!; [apply Hnext; eauto|done|done|cbn; eauto]).
Qed.

(** A step of the book thread that offers no tick. *)
Lemma analytics_quiet pc p dn ts :
  analytics_inv p dn ts -> pl_book p <> BookDone ->
  last_sample (set_book pc p) = last_sample p -> pending_ticks pc = pending_ticks (pl_book p) ->
  analytics_inv (set_book pc p) dn ts.
Proof.
  intros (Hpr & (offered & Heq & Hsaw) & Hat) Hne Hl Hpend. split_and!; [done| |].
  - exists offered. split; [|done]. rewrite Hl. unfold_pipeline. by rewrite Hpend.
  - by eapply analytics_at_book.
Qed.

(** The last sample. *)
Lemma analytics_last p dn ts :
  analytics_inv p dn ts -> pl_book p = BookCheckEmpty ->
  analytics_inv (set_book (BookEmit (emit_ticks hash_order (fh_down (pl_feed p))) true) p) dn ts.
Proof.
  intros (Hpr & (offered & Heq & Hsaw) & Hat) Hpc. split_and!; [done| |].
  - exists offered. split; [|done]. unfold last_sample in *. rewrite Hpc in Heq. unfold_pipeline.
    cbn [pending_ticks] in *. rewrite !app_nil_r in Heq. by rewrite Heq.
  - eapply analytics_at_book; [exact Hat|by rewrite Hpc|done].
Qed.

(** A tick offered to the ring, which takes it or not. *)
Lemma analytics_offer p q dn ts ts' t tks final :
  analytics_inv p dn ts -> pl_book p = BookEmit (t :: tks) final -> ts' = ts \/ ts' = ts ++ [t] ->
  analytics_inv (set_book (BookEmit tks final) (set_ticks q p)) dn ts'.
Proof.
  intros (Hpr & (offered & Heq & popped & Hsub & Hev & Hlast) & Hat) Hpc Hts. split_and!; [done| |].
  - exists (offered ++ [t]). unfold last_sample in *. rewrite Hpc in Heq. unfold_pipeline. cbn [pending_ticks] in *.
    split; [by rewrite Heq, <- app_assoc|]. exists popped. split; [|done].
    destruct Hts as [->| ->]; [by apply sublist_inserts_r|]. rewrite app_assoc. by apply sublist_app.
  - assert (analytics_at p ts') as Hat'.
    { unfold analytics_at in *. rewrite Hpc in *. destruct (pl_analytics p); try done. by destruct Hat. }
    eapply analytics_at_book; [exact Hat'|by rewrite Hpc|done].
Qed.

(** A step of the book thread pops at most one frame. *)
Lemma book_ok_step stale p dn qs rest ts :
  pinv p dn qs rest ts ->
  exists p' dn' qs' ts', book_step hash_order cfg stale p = Ok p' /\ pinv p' dn' qs' rest ts' /\
    pl_ingest p' = pl_ingest p /\ (length qs' <= length qs)%nat /\
    q_capacity (pl_frames p') = q_capacity (pl_frames p).
Proof.
  intros Hp. pose proof (pi_book _ _ _ _ _ Hp) as Hb. pose proof (pi_analytics _ _ _ _ _ Hp) as Ha. unfold book_step.
  assert (forall pc, book_returned pc = book_returned (pl_book p) ->
    book_ok (set_book pc p) qs -> analytics_inv (set_book pc p) dn ts ->
    exists p' dn' qs' ts', Ok (set_book pc p) = Ok p' /\ pinv p' dn' qs' rest ts' /\
    pl_ingest p' = pl_ingest p /\ (length qs' <= length qs)%nat /\
    q_capacity (pl_frames p') = q_capacity (pl_frames p)) as Hnext.
  { intros pc Hret Hpc Han. exists (set_book pc p), dn, qs, ts. split_and!; [done|by apply pinv_book|done..]. }
  pose proof (pi_book_done _ _ _ _ _ Hp) as Hbd.
  assert (forall pc, pl_book p <> BookDone -> last_sample (set_book pc p) = last_sample p ->
    pending_ticks pc = pending_ticks (pl_book p) -> analytics_inv (set_book pc p) dn ts) as Hquiet
    by (intros pc; by apply analytics_quiet).
  unfold last_sample in Hquiet. unfold_pipeline. unfold book_ok in Hb.
  destruct (pl_book p) as [| | |[|t tks] final| | |] eqn:Epc.
  - destruct stale; [by apply Hnext, Hquiet|].
    pose proof (try_pop_state _ _ (pi_frames _ _ _ _ _ Hp)) as Hpop.
    destruct qs as [|x qs]; cbn [map] in Hpop.
    + rewrite Hpop, bind_ok. by apply Hnext, Hquiet.
    + destruct Hpop as (q & -> & Hq & Hcap). rewrite bind_ok.
      destruct (process_ok x q p dn qs rest ts Hp Epc Hq) as (p' & E & Hp' & Hi & Hf & _).
      exists p', (dn ++ [x]), qs, ts. split_and!; [exact E|done|done|cbn; lia|by rewrite Hf].
  - destruct (negb stale && pl_ingest_done p) eqn:E; apply Hnext; try done; try by apply Hquiet.
    apply andb_true_iff in E as [_ E]. exact E.
  - rewrite (queue_empty_state _ _ (pi_frames _ _ _ _ _ Hp)).
    case_bool_decide as E; apply Hnext; try done; [|by apply analytics_last|by apply Hquiet].
    split; [exact Hb|]. by apply map_eq_nil in E.
  - destruct final; by apply Hnext, Hquiet.
  - destruct stale; [apply Hnext; [done|by destruct final|]|].
    { destruct p. by apply (analytics_offer (mkPipeline _ _ _ _ _ _ _ _ _ _ _ _ _ _) _ dn ts ts t tks final Ha Epc (or_introl eq_refl)). }
    assert (exists r q ts', try_push t (pl_ticks p) = Ok (r, q) /\ queue_state q ts' /\ (ts' = ts \/ ts' = ts ++ [t]))
      as (r & q & ts' & -> & Hq & Hts).
    { destruct (try_push_state t _ _ (pi_ticks _ _ _ _ _ Hp)) as [[_ E]|[_ (q & E & Hq & _)]].
      - exists false, (pl_ticks p), ts. split; [done|]. split; [apply Hp|by left].
      - exists true, q, (ts ++ [t]). by auto. }
    rewrite bind_ok. eexists _, dn, qs, ts'. split; [reflexivity|]. split; [|done].
    pose proof (analytics_offer p q dn ts ts' t tks final Ha Epc Hts). destruct Hp. by split.
  - unfold store_results. rewrite book_fingerprint_sum, bind_ok. eexists _, dn, qs, ts. split; [reflexivity|]. split; [|done].
    assert (analytics_inv (set_book BookFlag p) dn ts) as Ha' by by apply Hquiet.
    destruct Hp. split; unfold_pipeline; try done.
    unfold book_ok, stored. unfold_pipeline. destruct Hb as [Hd Hq]. split_and!; try done.
    eexists. split; [apply book_fingerprint_sum|done].
  - assert (analytics_inv (set_book BookDone p) dn ts) as Ha' by by apply Hquiet.
    eexists _, dn, qs, ts. split; [reflexivity|]. split; [|done]. destruct Hp. split; unfold_pipeline; done.
  - by exists p, dn, qs, ts.
Qed.

(** *** Analytics *)

(** The analytics thread moves on without a tick, or with one. *)
Lemma analytics_moves pc p dn ts :
  analytics_inv p dn ts -> analytics_at (set_analytics pc p) ts -> analytics_inv (set_analytics pc p) dn ts.
Proof. by intros (Hpr & Hticks & _) Hat. Qed.

Lemma analytics_takes_tick t q p dn ts :
  analytics_inv p dn (t :: ts) -> pl_analytics p = AnaPop -> analytics_inv (set_tick t (set_ticks q p)) dn ts.
Proof.
  intros (Hpr & (offered & Heq & popped & Hsub & Hev & Hlast) & _) Hpc. split_and!; [done| |].
  - exists offered. split; [exact Heq|]. exists (popped ++ [t]). unfold_pipeline.
    rewrite <- app_assoc, last_snoc, length_app, Hev. split_and!; [done| |done].
    unfold incr64. rewrite wrap_add_l. f_equal. cbn. lia.
  - unfold analytics_at. unfold_pipeline. by rewrite Hpc.
Qed.

(** A step of the analytics thread touches nothing but the ticks. *)
Lemma analytics_ok stale p dn qs rest ts :
  pinv p dn qs rest ts ->
  exists p' ts', analytics_step stale p = Ok p' /\ pinv p' dn qs rest ts' /\
    pl_ingest p' = pl_ingest p /\ pl_book p' = pl_book p /\ pl_frames p' = pl_frames p /\
    (length ts' <= length ts)%nat.
Proof.
  intros Hp. unfold analytics_step. pose proof (pi_analytics _ _ _ _ _ Hp) as Ha.
  assert (forall pc, analytics_at (set_analytics pc p) ts ->
    exists p' ts', Ok (set_analytics pc p) = Ok p' /\ pinv p' dn qs rest ts' /\
    pl_ingest p' = pl_ingest p /\ pl_book p' = pl_book p /\ pl_frames p' = pl_frames p /\
    (length ts' <= length ts)%nat) as Hnext.
  { intros pc Hat. exists (set_analytics pc p), ts. split_and!; try done.
    pose proof (analytics_moves pc p dn ts Ha Hat). destruct Hp. by split. }
  pose proof (proj2 (proj2 Ha)) as Hat. unfold analytics_at in Hat, Hnext. unfold_pipeline.
  destruct (pl_analytics p) eqn:Epc.
  - destruct stale; [by apply Hnext|].
    pose proof (try_pop_state _ _ (pi_ticks _ _ _ _ _ Hp)) as Hpop. destruct ts as [|t ts].
    + rewrite Hpop, bind_ok. by apply Hnext.
    + destruct Hpop as (q & -> & Hq & _). rewrite bind_ok. eexists _, ts. split; [reflexivity|].
      pose proof (analytics_takes_tick t q p dn ts Ha Epc).
      split; [destruct Hp; by split|]. split_and!; [done..|cbn; lia].
  - destruct (_ && _) eqn:E; apply Hnext; [|done]. apply andb_true_iff in E as [_ E].
    rewrite (pi_book_done _ _ _ _ _ Hp) in E. by destruct (pl_book p).
  - rewrite (queue_empty_state _ _ (pi_ticks _ _ _ _ _ Hp)). case_bool_decide; by apply Hnext.
  - by exists p, ts.
Qed.

Lemma thread_step_ok t stale p :
  pipeline_ok p -> exists p', thread_step hash_order cfg messages t stale p = Ok p' /\ pipeline_ok p'.
Proof.
  intros (dn & qs & rest & ts & Hp). destruct t; cbn [thread_step]; [by eapply ingest_ok|..].
  - destruct (book_ok_step stale p dn qs rest ts Hp) as (p' & dn' & qs' & ts' & E & Hp' & _).
    exists p'. split; [done|by eexists _, _, _, _].
  - destruct (analytics_ok stale p dn qs rest ts Hp) as (p' & ts' & E & Hp' & _).
    exists p'. split; [done|by eexists _, _, _, _].
Qed.

Lemma run_schedule_ok sched p :
  pipeline_ok p ->
  exists p', run_schedule hash_order cfg messages sched p = Ok p' /\ pipeline_ok p'.
Proof.
  revert p; induction sched as [|[t stale] sched IH]; intros p Hp; [by exists p|].
  cbn [run_schedule]. destruct (thread_step_ok t stale p Hp) as (p' & -> & Hp').
  rewrite bind_ok. by apply IH.
Qed.
End Invariant.
