(* ===== verification/PipelineProgress.v ===== *)
(** Termination of the pipeline under fair scheduling.  A schedule is fair when
    each thread moves again and again and every store becomes visible: from
    some point on no call sees old values.  [leads] is the leads-to relation of
    temporal logic along such a schedule, [ensures] its one rule: one thread
    establishes the goal and the others leave its premise alone. *)
From S2P Require Import Prelude ByteOrder Protocol Serialization Parser SequenceTracker.
From S2P Require Import FeedHandler.
From S2P Require Import OrderedMap OrderBook BookSpec BookProofs BookQueries BookTheorems.
From S2P Require Import BookBuilder.
From S2P Require Import EndToEnd Replay Queue Pipeline PipelineProofs.

Local Open Scope Z_scope.

(** ** Fair schedules *)

#[export] Instance ThreadId_eq_dec : EqDecision ThreadId.
Proof. solve_decision. Defined.

Record fair (schedule : nat -> ThreadId * bool) : Prop := mkFair {
  fair_moves t n : exists m, (n <= m)%nat /\ (schedule m).1 = t;
  fair_visible : exists n, forall m, (n <= m)%nat -> (schedule m).2 = false
}.

(** Its first [n] steps. *)
Definition steps (schedule : nat -> ThreadId * bool) (n : nat) : list (ThreadId * bool) :=
  map schedule (seq 0 n).

Lemma steps_succ schedule n : steps schedule (S n) = steps schedule n ++ [schedule n].
Proof. unfold steps. by rewrite seq_S, map_app. Qed.

Section Progress.
Context {ndebug : bool}.
Context (hash_order : gmap Z OrderBook -> list (Z * OrderBook)).
Context (cfg : PipelineConfig) (messages : list byte).
Hypothesis Hevery : analytics_every cfg <> 0.

Notation pipeline := (Pipeline ndebug).
Notation entries := (list (list byte * Event)).
Notation pinv := (pinv hash_order cfg messages).
Notation pipeline_ok := (pipeline_ok hash_order cfg messages).
Notation run := (run_schedule hash_order cfg messages).
Notation tstep := (thread_step hash_order cfg messages).
Implicit Types (p : pipeline) (P Q R : pipeline -> Prop).

Lemma run_schedule_app s1 s2 p : run (s1 ++ s2) p = (p' ← run s1 p; run s2 p').
Proof.
  revert p; induction s1 as [|[t stale] s1 IH]; intros p; [done|]. cbn [app run_schedule].
  rewrite bind_assoc. destruct (tstep t stale p); [|done..]. by rewrite !bind_ok.
Qed.

Section Fair.
Context (schedule : nat -> ThreadId * bool) (p0 : pipeline) (settled : nat).
Hypothesis Hmoves : forall t n, exists m, (n <= m)%nat /\ (schedule m).1 = t.
Hypothesis Hvisible : forall m, (settled <= m)%nat -> (schedule m).2 = false.

Definition at_time (n : nat) p : Prop := run (steps schedule n) p0 = Ok p.

Lemma at_time_succ n p p' :
  at_time n p -> tstep (schedule n).1 (schedule n).2 p = Ok p' -> at_time (S n) p'.
Proof.
  unfold at_time. intros E Es. rewrite steps_succ, run_schedule_app, E, bind_ok.
  destruct (schedule n). cbn [run_schedule fst snd] in *. by rewrite Es.
Qed.

(** Wherever [P] holds once stores are visible, [Q] holds later. *)
Definition leads P Q : Prop := forall n p, (settled <= n)%nat -> at_time n p -> P p ->
  exists m p', (n <= m)%nat /\ at_time m p' /\ Q p'.

Lemma leads_now P Q : (forall p, P p -> Q p) -> leads P Q.
Proof. intros H n p _ Hat HP. exists n, p. auto. Qed.

Lemma leads_trans P Q R : leads P Q -> leads Q R -> leads P R.
Proof.
  intros H1 H2 n p Hn Hat HP. destruct (H1 n p Hn Hat HP) as (m & p1 & Hm & Hat1 & HQ).
  destruct (H2 m p1 ltac:(lia) Hat1 HQ) as (k & p2 & Hk & Hat2 & HR). exists k, p2. split; [lia|done].
Qed.

(** Case analysis on the state. *)
Lemma leads_cases P Q : (forall p, P p -> exists R, R p /\ leads R Q) -> leads P Q.
Proof. intros H n p Hn Hat HP. destruct (H p HP) as (R & HR & HRQ). by apply (HRQ n p). Qed.

Lemma leads_or P Q R : leads P R -> leads Q R -> leads (fun p => P p \/ Q p) R.
Proof. intros HP HQ. apply leads_cases. intros p [H|H]; [by exists P|by exists Q]. Qed.

Lemma ensures t P Q :
  (forall p, P p -> pipeline_ok p) ->
  (forall u p p', P p -> tstep u false p = Ok p' -> Q p' \/ (P p' /\ u <> t)) ->
  leads P Q.
Proof.
  intros Hok Hstep n p Hn. destruct (Hmoves t n) as (m & Hm & Ht). revert n p Hn Hm.
  enough (forall d n p, (settled <= n)%nat -> (n + d = m)%nat -> at_time n p -> P p ->
    exists m p', (n <= m)%nat /\ at_time m p' /\ Q p') as H.
  { intros n p Hn Hm. apply (H (m - n)%nat); lia. }
  induction d as [|d IH]; intros n p Hn Hd Hat HP;
    destruct (thread_step_ok hash_order cfg messages Hevery (schedule n).1 false p (Hok p HP)) as (p' & E & _);
    (assert (at_time (S n) p') as Hat' by (apply (at_time_succ n p); [done|by rewrite Hvisible]));
    destruct (Hstep _ p p' HP E) as [HQ|[HP' Hne]]; try (exists (S n), p'; split; [lia|done]).
  - destruct Hne. rewrite <- Ht. f_equal. f_equal. lia.
  - destruct (IH (S n) p') as (m' & p2 & Hm' & ?); [lia|lia|done|done|]. exists m', p2. split; [lia|done].
Qed.

(** ** Ingestion *)

(** What the ingestion thread has left to do. *)
Definition ingest_weight (pc : IngestPc) : nat :=
  match pc with
  | IngLoop off => 2 * (length messages - off) + 2
  | IngPush off _ => 2 * (length messages - off) + 3
  | IngFlag => 1
  | IngDone => 0
  end.
Definition pushing (pc : IngestPc) : Prop := match pc with IngPush _ _ => True | _ => False end.
#[local] Instance pushing_dec pc : Decision (pushing pc).
Proof. destruct pc; apply _. Defined.

(** At [pc] with room for a push, and waiting for the book thread to make
    room. *)
Definition ready (pc : IngestPc) p : Prop := pl_ingest p = pc /\ exists dn qs rest ts,
  pinv p dn qs rest ts /\ (pushing pc -> Z.of_nat (length qs) < q_capacity (pl_frames p) - 1).
Definition waiting (pc : IngestPc) (b : BookPc) p : Prop := pl_ingest p = pc /\ pl_book p = b /\ exists dn qs rest ts,
  pinv p dn qs rest ts /\ Z.of_nat (length qs) = q_capacity (pl_frames p) - 1.

Lemma ready_step pc p p' :
  ready pc p -> pc <> IngDone -> tstep Ingest false p = Ok p' ->
  pipeline_ok p' /\ (ingest_weight (pl_ingest p') < ingest_weight pc)%nat.
Proof.
  intros (<- & dn & qs & rest & ts & Hp & Hroom) Hne E. split.
  { destruct (ingest_ok hash_order cfg messages false p _ _ _ _ Hp) as (p2 & E' & Hp2). cbn [thread_step] in E.
    rewrite E in E'. by injection E' as <-. }
  cbn [thread_step] in E. pose proof (pi_ingest _ _ _ _ _ _ _ _ Hp) as Hi.
  inversion Hi as [off Hoff Epc Er|off x Hoff Hx Epc Er|Epc Er|Epc Er]; symmetry in Epc.
  - rewrite (ingest_loop_step messages off) in E by done. injection E as <-. cbn [pl_ingest set_ingest].
    destruct (classify 0 (drop off messages)) as [| | |ev len] eqn:Ec; rewrite ?Epc; cbn [ingest_weight]; [lia..|].
    pose proof (classify_frame _ _ _ _ Ec) as (Hlen & _). rewrite length_drop in Hlen. unfold_sizes.
    case_bool_decide; cbn [ingest_weight]; lia.
  - unfold ingest_step in E. rewrite Epc in *.
    destruct (try_push_state (frame_of x.1) _ _ (pi_frames _ _ _ _ _ _ _ _ Hp)) as [[Hfull _]|(_ & q & Eq & _)].
    { rewrite length_map in Hfull. specialize (Hroom I). lia. }
    rewrite Eq, bind_ok in E. injection E as <-. cbn. lia.
  - unfold ingest_step in E. rewrite Epc in *. injection E as <-. cbn. lia.
  - congruence.
Qed.

(** The other threads leave the ingestion thread where it is and take no
    room. *)
Lemma ready_other pc u p p' : ready pc p -> u <> Ingest -> tstep u false p = Ok p' -> ready pc p'.
Proof.
  intros (<- & dn & qs & rest & ts & Hp & Hroom) Hu E. destruct u; [done|..]; cbn [thread_step] in E.
  - destruct (book_ok_step hash_order cfg messages Hevery false p _ _ _ _ Hp)
      as (p2 & dn' & qs' & ts' & E' & Hp2 & Hi & Hlen & Hcap).
    rewrite E in E'. injection E' as <-. split; [done|]. exists dn', qs', rest, ts'. split; [done|].
    rewrite Hcap. intros H%Hroom. lia.
  - destruct (analytics_ok hash_order cfg messages false p _ _ _ _ Hp) as (p2 & ts' & E' & Hp2 & Hi & _ & Hf & _).
    rewrite E in E'. injection E' as <-. split; [done|]. exists dn, qs, rest, ts'. by rewrite Hf.
Qed.

Lemma ready_ok pc p : ready pc p -> pipeline_ok p.
Proof. intros (_ & dn & qs & rest & ts & Hp & _). by exists dn, qs, rest, ts. Qed.

Lemma ready_leads pc :
  pc <> IngDone ->
  leads (ready pc) (fun p => pipeline_ok p /\ (ingest_weight (pl_ingest p) < ingest_weight pc)%nat).
Proof.
  intros Hne. apply (ensures Ingest); [apply ready_ok|]. intros u p p' HP E.
  destruct (decide (u = Ingest)) as [->|Hu]; [left; by apply (ready_step pc p)|right].
  split; [by eapply ready_other|done].
Qed.

(** *** Waiting for room *)

Lemma waiting_ok pc b p : waiting pc b p -> pipeline_ok p.
Proof. intros (_ & _ & dn & qs & rest & ts & Hp & _). by exists dn, qs, rest, ts. Qed.

Lemma waiting_other pc b u p p' :
  waiting pc b p -> pushing pc -> u <> Book -> tstep u false p = Ok p' -> waiting pc b p'.
Proof.
  intros (<- & <- & dn & qs & rest & ts & Hp & Hfull) Hpush Hu E. destruct u; [|done|]; cbn [thread_step] in E.
  - pose proof (pi_ingest _ _ _ _ _ _ _ _ Hp) as Hi. unfold ingest_step in E.
    destruct (pl_ingest p) as [|off f| |] eqn:Epc; try done.
    destruct (try_push_state f _ _ (pi_frames _ _ _ _ _ _ _ _ Hp)) as [[_ Eq]|(Hroom & _)].
    + rewrite Eq, bind_ok in E. injection E as <-. split; [done|]. split; [done|]. by exists dn, qs, rest, ts.
    + rewrite length_map in Hroom. lia.
  - destruct (analytics_ok hash_order cfg messages false p _ _ _ _ Hp) as (p2 & ts' & E' & Hp2 & Hi & Hb & Hf & _).
    rewrite E in E'. injection E' as <-. split; [done|]. split; [done|]. exists dn, qs, rest, ts'. by rewrite Hf.
Qed.

(** A step of the book thread makes room or goes on. *)
Lemma waiting_book pc b p p' :
  waiting pc b p -> tstep Book false p = Ok p' -> ready pc p' \/ waiting pc (pl_book p') p'.
Proof.
  intros (<- & _ & dn & qs & rest & ts & Hp & Hfull) E. cbn [thread_step] in E.
  destruct (book_ok_step hash_order cfg messages Hevery false p _ _ _ _ Hp)
    as (p2 & dn' & qs' & ts' & E' & Hp2 & Hi & Hlen & Hcap).
  rewrite E in E'. injection E' as <-.
  destruct (decide (Z.of_nat (length qs') = q_capacity (pl_frames p') - 1)).
  - right. split; [done|]. split; [done|]. by exists dn', qs', rest, ts'.
  - left. split; [done|]. exists dn', qs', rest, ts'. split; [done|]. intros _. lia.
Qed.

Lemma waiting_pop pc p p' : waiting pc BookPop p -> tstep Book false p = Ok p' -> ready pc p'.
Proof.
  intros (<- & Epc & dn & qs & rest & ts & Hp & Hfull) E.
  pose proof (queue_cap_gt _ _ (pi_frames _ _ _ _ _ _ _ _ Hp)).
  destruct qs as [|x qs]; [cbn in Hfull; lia|].
  destruct (try_pop_state _ _ (pi_frames _ _ _ _ _ _ _ _ Hp)) as (q & Eq & Hq & Hcap).
  destruct (process_ok hash_order cfg messages Hevery x q p dn qs rest ts Hp Epc Hq) as (p2 & E2 & Hp2 & Hi & Hf & _).
  cbn [thread_step] in E. unfold book_step in E. rewrite Epc, Eq, bind_ok in E. rewrite E in E2. injection E2 as <-.
  split; [done|]. exists (dn ++ [x]), qs, rest, ts. split; [done|]. rewrite Hf, Hcap. cbn [length] in Hfull. lia.
Qed.

Lemma waiting_next pc b b' :
  pushing pc ->
  (forall p p', waiting pc b p -> tstep Book false p = Ok p' -> pl_book p' = b') ->
  leads (waiting pc b') (ready pc) -> leads (waiting pc b) (ready pc).
Proof.
  intros Hpush Hb Hnext. apply (leads_trans _ (fun p => ready pc p \/ waiting pc b' p)).
  - apply (ensures Book); [apply waiting_ok|]. intros u p p' HP E.
    destruct (decide (u = Book)) as [->|Hu]; [left|right; split; [by eapply waiting_other|done]].
    rewrite <- (Hb p p' HP E). by eapply waiting_book.
  - apply leads_or; [by apply leads_now|done].
Qed.

(** While a frame waits the book thread is in its loop. *)
Lemma waiting_live pc b p :
  waiting pc b p -> pushing pc -> match b with BookPop | BookCheckDone | BookEmit _ false => True | _ => False end.
Proof.
  intros (<- & <- & dn & qs & rest & ts & Hp & _) Hpush. pose proof (pi_book _ _ _ _ _ _ _ _ Hp) as Hb.
  pose proof (pi_ingest_done _ _ _ _ _ _ _ _ Hp) as Hd. unfold book_ok in Hb.
  destruct (pl_ingest p); try done. cbn [ingest_returned] in Hd.
  destruct (pl_book p) as [| | |? []| | |]; try done; try congruence; destruct Hb; congruence.
Qed.

Lemma waiting_leads pc b : pushing pc -> leads (waiting pc b) (ready pc).
Proof.
  intros Hpush. assert (leads (waiting pc BookPop) (ready pc)) as Hpop.
  { apply (ensures Book); [apply waiting_ok|]. intros u p p' HP E.
    destruct (decide (u = Book)) as [->|Hu]; [left; by eapply waiting_pop|right; split; [by eapply waiting_other|done]]. }
  destruct b as [| | |tks []| | |]; try (intros n p _ _ HP; by destruct (waiting_live _ _ _ HP Hpush)).
  - exact Hpop.
  - apply (waiting_next _ _ BookPop); [done| |exact Hpop].
    intros p p' (<- & Epc & dn & qs & rest & ts & Hp & _) E. cbn [thread_step] in E. unfold book_step in E.
    rewrite Epc, (pi_ingest_done _ _ _ _ _ _ _ _ Hp) in E. destruct (pl_ingest p); try done. by injection E as <-.
  - induction tks as [|t tks IH].
    + apply (waiting_next _ _ BookPop); [done| |exact Hpop]. intros p p' (_ & Epc & _) E. cbn [thread_step] in E.
      unfold book_step in E. rewrite Epc in E. by injection E as <-.
    + apply (waiting_next _ _ (BookEmit tks false)); [done| |exact IH]. intros p p' (_ & Epc & _) E.
      cbn [thread_step] in E. unfold book_step in E. rewrite Epc in E.
      destruct (try_push _ _); [|discriminate..]. rewrite bind_ok in E. by injection E as <-.
Qed.

Lemma ingest_leads : leads pipeline_ok (fun p => pipeline_ok p /\ pl_ingest p = IngDone).
Proof.
  assert (forall w, leads (fun p => pipeline_ok p /\ ingest_weight (pl_ingest p) = w)
    (fun p => pipeline_ok p /\ pl_ingest p = IngDone)) as H.
  { induction w as [w IH] using lt_wf_ind. apply leads_cases. intros p [Hok <-].
    destruct (ingest_returned (pl_ingest p)) eqn:Er.
    { exists (fun p => pipeline_ok p /\ pl_ingest p = IngDone). split; [|by apply leads_now].
      split; [done|]. by destruct (pl_ingest p). }
    assert (pl_ingest p <> IngDone) as Hne by (intros E; by rewrite E in Er).
    assert (leads (ready (pl_ingest p)) (fun p => pipeline_ok p /\ pl_ingest p = IngDone)) as Hready.
    { eapply leads_trans; [by apply ready_leads|]. apply leads_cases. intros p1 [Hok1 Hlt].
      eexists. split; [|apply (IH _ Hlt)]. by split. }
    destruct Hok as (dn & qs & rest & ts & Hp).
    pose proof (queue_state_length _ _ (pi_frames _ _ _ _ _ _ _ _ Hp)) as Hlen. rewrite length_map in Hlen.
    destruct (decide (pushing (pl_ingest p) /\ Z.of_nat (length qs) = q_capacity (pl_frames p) - 1)) as [[Hpush Hfull]|Hno].
    - exists (waiting (pl_ingest p) (pl_book p)). split; [|eapply leads_trans; [by apply waiting_leads|done]].
      split; [done|]. split; [done|]. by exists dn, qs, rest, ts.
    - exists (ready (pl_ingest p)). split; [|done]. split; [done|]. exists dn, qs, rest, ts. split; [done|].
      intros Hpush. assert (Z.of_nat (length qs) <> q_capacity (pl_frames p) - 1) by tauto. lia. }
  apply leads_cases. intros p Hok. eexists. split; [|apply (H (ingest_weight (pl_ingest p)))]. done.
Qed.

(** ** The book thread, once ingestion has returned *)

(** At [b], with at most [n] frames in the ring. *)
Definition draining (n : nat) (b : BookPc) p : Prop := pl_ingest p = IngDone /\ pl_book p = b /\
  exists dn qs rest ts, pinv p dn qs rest ts /\ (length qs <= n)%nat.

Lemma draining_ok n b p : draining n b p -> pipeline_ok p.
Proof. intros (_ & _ & dn & qs & rest & ts & Hp & _). by exists dn, qs, rest, ts. Qed.

Lemma draining_leads n b Q :
  (forall p p', draining n b p -> draining n (pl_book p') p' -> book_step hash_order cfg false p = Ok p' -> Q p') ->
  leads (draining n b) Q.
Proof.
  intros HQ. apply (ensures Book); [apply draining_ok|]. intros u p p' HP E.
  pose proof HP as (Hi & Hb & dn & qs & rest & ts & Hp & Hlen). destruct u; cbn [thread_step] in E.
  - right. unfold ingest_step in E. rewrite Hi in E. injection E as <-. done.
  - left. apply (HQ p); [done| |done].
    destruct (book_ok_step hash_order cfg messages Hevery false p _ _ _ _ Hp)
      as (p2 & dn' & qs' & ts' & E' & Hp2 & Hi' & Hlen' & _).
    rewrite E in E'. injection E' as <-. split; [congruence|]. split; [done|].
    exists dn', qs', rest, ts'. split; [done|lia].
  - right. split; [|done].
    destruct (analytics_ok hash_order cfg messages false p _ _ _ _ Hp) as (p2 & ts' & E' & Hp2 & Hi' & Hb' & _).
    rewrite E in E'. injection E' as <-. split; [congruence|]. split; [congruence|].
    by exists dn, qs, rest, ts'.
Qed.

(** The program counter after a step that does not depend on the ring. *)
Lemma draining_next n b b' Q :
  (forall p p', draining n b p -> book_step hash_order cfg false p = Ok p' -> pl_book p' = b') ->
  leads (draining n b') Q -> leads (draining n b) Q.
Proof.
  intros Hb. apply leads_trans, draining_leads. intros p p' HP HP' E. by rewrite <- (Hb p p' HP E).
Qed.

Notation book_ended := (fun p : pipeline => exists n, draining n BookDone p).

Lemma draining_flag n : leads (draining n BookFlag) book_ended.
Proof.
  apply draining_leads. intros p p' (_ & Epc & _) HP' E. exists n. unfold book_step in E. rewrite Epc in E.
  by injection E as <-.
Qed.
Lemma draining_store n : leads (draining n BookStore) book_ended.
Proof.
  apply (draining_next n BookStore BookFlag); [|apply draining_flag]. intros p p' (_ & Epc & _) E. unfold book_step in E.
  rewrite Epc in E. unfold store_results in E. rewrite book_fingerprint_sum, bind_ok in E. by injection E as <-.
Qed.

Lemma draining_emit n tks (final : bool) Q :
  leads (draining n (if final then BookStore else BookPop)) Q -> leads (draining n (BookEmit tks final)) Q.
Proof.
  intros HQ. induction tks as [|t tks IH]; [eapply draining_next, HQ|eapply draining_next, IH];
    intros p p' (_ & Epc & _) E; unfold book_step in E; rewrite Epc in E; [by injection E as <-|].
  destruct (try_push _ _); [|discriminate..]. rewrite bind_ok in E. by injection E as <-.
Qed.

(** The test for an empty ring, after the flag was seen. *)
Lemma draining_check_empty n :
  leads (draining n BookPop) book_ended \/ n = 0%nat -> leads (draining n BookCheckEmpty) book_ended.
Proof.
  intros Hpop. apply (leads_trans _ (fun p => (exists tks, draining n (BookEmit tks true) p) \/
    (draining n BookPop p /\ n <> 0%nat))).
  - apply draining_leads. intros p p' (_ & Epc & dn & qs & rest & ts & Hp & Hlen) HP' E. unfold book_step in E.
    rewrite Epc, (queue_empty_state _ _ (pi_frames _ _ _ _ _ _ _ _ Hp)) in E.
    case_bool_decide as Hq; injection E as <-; [left; eexists; exact HP'|right; split; [exact HP'|]].
    intros ->. destruct qs; [done|cbn in Hlen; lia].
  - apply leads_or.
    + apply leads_cases. intros p [tks HP]. exists (draining n (BookEmit tks true)). split; [done|].
      apply draining_emit, draining_store.
    + apply leads_cases. intros p [HP Hn]. exists (draining n BookPop). split; [done|]. by destruct Hpop.
Qed.

Lemma draining_check_done n :
  leads (draining n BookCheckEmpty) book_ended -> leads (draining n BookCheckDone) book_ended.
Proof.
  apply draining_next. intros p p' (Hi & Epc & dn & qs & rest & ts & Hp & _) E. unfold book_step in E.
  rewrite Epc, (pi_ingest_done _ _ _ _ _ _ _ _ Hp), Hi in E. by injection E as <-.
Qed.

(** A pop that fails saw an empty ring. *)
Lemma draining_pop n : leads (draining n BookPop) book_ended.
Proof.
  induction n as [n IH] using lt_wf_ind.
  apply (leads_trans _ (fun p => draining 0 BookCheckDone p \/ exists m b, draining m b p /\ (m < n)%nat /\
    (b = BookPop \/ exists tks, b = BookEmit tks false))).
  - apply draining_leads. intros p p' (Hi & Epc & dn & qs & rest & ts & Hp & Hlen) HP' E. unfold book_step in E.
    rewrite Epc in E. pose proof (try_pop_state _ _ (pi_frames _ _ _ _ _ _ _ _ Hp)) as Hpop.
    destruct qs as [|x qs]; cbn [map] in Hpop.
    + left. rewrite Hpop, bind_ok in E. injection E as <-. split; [done|]. split; [done|].
      exists dn, [], rest, ts. split; [|done]. apply pinv_book; [done|by rewrite Epc|done|].
      apply analytics_quiet; [apply Hp|by rewrite Epc|unfold last_sample; by rewrite Epc|by rewrite Epc].
    + right. destruct Hpop as (q & Eq & Hq & _). rewrite Eq, bind_ok in E.
      destruct (process_ok hash_order cfg messages Hevery x q p dn qs rest ts Hp Epc Hq)
        as (p2 & E2 & Hp2 & Hi2 & _ & Hb2).
      rewrite E in E2. injection E2 as <-. cbn [length] in Hlen. exists (length qs), (pl_book p').
      split; [|split; [lia|done]]. split; [congruence|]. split; [done|]. by exists (dn ++ [x]), qs, rest, ts.
  - apply leads_or.
    + apply draining_check_done, draining_check_empty. by right.
    + apply leads_cases. intros p (m & b & HP & Hm & Hb). exists (draining m b). split; [done|].
      destruct Hb as [->|[tks ->]]; [by apply IH|]. by apply draining_emit, IH.
Qed.

Lemma book_leads : leads (fun p => pipeline_ok p /\ pl_ingest p = IngDone) book_ended.
Proof.
  apply leads_cases. intros p ((dn & qs & rest & ts & Hp) & Hi). exists (draining (length qs) (pl_book p)).
  split; [split; [done|]; split; [done|]; by exists dn, qs, rest, ts|]. set (n := length qs).
  assert (leads (draining n BookCheckEmpty) book_ended) as Hempty by (apply draining_check_empty; left; apply draining_pop).
  destruct (pl_book p) as [| | |tks []| | |].
  - apply draining_pop.
  - by apply draining_check_done.
  - exact Hempty.
  - apply draining_emit, draining_store.
  - apply draining_emit, draining_pop.
  - apply draining_store.
  - apply draining_flag.
  - apply leads_now. intros p' HP. by exists n.
Qed.

(** ** Analytics, once the book thread has returned *)

(** At [a], with at most [n] ticks in the ring. *)
Definition closing (n : nat) (a : AnalyticsPc) p : Prop := pl_ingest p = IngDone /\ pl_book p = BookDone /\
  pl_analytics p = a /\ exists dn qs rest ts, pinv p dn qs rest ts /\ (length ts <= n)%nat.
Notation ended := (fun p : pipeline => pipeline_ok p /\ finished p = true).

Lemma closing_ok n a p : closing n a p -> pipeline_ok p.
Proof. intros (_ & _ & _ & dn & qs & rest & ts & Hp & _). by exists dn, qs, rest, ts. Qed.

Lemma closing_leads n a Q :
  (forall p p', closing n a p -> closing n (pl_analytics p') p' -> analytics_step false p = Ok p' -> Q p') ->
  leads (closing n a) Q.
Proof.
  intros HQ. apply (ensures Analytics); [apply closing_ok|]. intros u p p' HP E.
  pose proof HP as (Hi & Hb & Ha & dn & qs & rest & ts & Hp & Hlen). destruct u; cbn [thread_step] in E.
  - right. unfold ingest_step in E. rewrite Hi in E. injection E as <-. done.
  - right. unfold book_step in E. rewrite Hb in E. injection E as <-. done.
  - left. apply (HQ p); [done| |done].
    destruct (analytics_ok hash_order cfg messages false p _ _ _ _ Hp)
      as (p2 & ts' & E' & Hp2 & Hi' & Hb' & _ & Hlen').
    rewrite E in E'. injection E' as <-. split_and!; [congruence|congruence|done|].
    exists dn, qs, rest, ts'. split; [done|lia].
Qed.

Lemma closing_done n : leads (closing n AnaDone) ended.
Proof.
  apply leads_now. intros p HP. split; [by eapply closing_ok|]. destruct HP as (Hi & Hb & Ha & _).
  unfold finished. by rewrite Hi, Hb, Ha.
Qed.

Lemma closing_check_empty n :
  leads (closing n AnaPop) ended \/ n = 0%nat -> leads (closing n AnaCheckEmpty) ended.
Proof.
  intros Hpop. apply (leads_trans _ (fun p => closing n AnaDone p \/ (closing n AnaPop p /\ n <> 0%nat))).
  - apply closing_leads. intros p p' (_ & _ & Epc & dn & qs & rest & ts & Hp & Hlen) HP' E. unfold analytics_step in E.
    rewrite Epc, (queue_empty_state _ _ (pi_ticks _ _ _ _ _ _ _ _ Hp)) in E.
    case_bool_decide as Hq; injection E as <-; [left; exact HP'|right; split; [exact HP'|]].
    intros ->. destruct ts; [done|cbn in Hlen; lia].
  - apply leads_or; [apply closing_done|]. apply leads_cases. intros p [HP Hn].
    exists (closing n AnaPop). split; [done|]. by destruct Hpop.
Qed.

Lemma closing_check_done n : leads (closing n AnaCheckEmpty) ended -> leads (closing n AnaCheckDone) ended.
Proof.
  apply leads_trans, closing_leads. intros p p' (_ & Hb & Epc & dn & qs & rest & ts & Hp & _) HP' E.
  unfold analytics_step in E. rewrite Epc, (pi_book_done _ _ _ _ _ _ _ _ Hp), Hb in E. injection E as <-. exact HP'.
Qed.

Lemma closing_pop n : leads (closing n AnaPop) ended.
Proof.
  induction n as [n IH] using lt_wf_ind.
  apply (leads_trans _ (fun p => closing 0 AnaCheckDone p \/ exists m, closing m AnaPop p /\ (m < n)%nat)).
  - apply closing_leads. intros p p' (Hi & Hb & Epc & dn & qs & rest & ts & Hp & Hlen) HP' E. unfold analytics_step in E.
    rewrite Epc in E. pose proof (try_pop_state _ _ (pi_ticks _ _ _ _ _ _ _ _ Hp)) as Hpop. destruct ts as [|t ts].
    + left. rewrite Hpop, bind_ok in E. injection E as <-. split_and!; [done..|].
      pose proof (analytics_moves hash_order cfg AnaCheckDone _ _ _ (pi_analytics _ _ _ _ _ _ _ _ Hp) I).
      exists dn, qs, rest, []. split; [destruct Hp; by split|done].
    + right. destruct Hpop as (q & Eq & Hq & _). rewrite Eq, bind_ok in E. injection E as <-.
      cbn [length] in Hlen. exists (length ts). split; [|lia]. split_and!; [done..|].
      pose proof (analytics_takes_tick hash_order cfg t q _ _ _ (pi_analytics _ _ _ _ _ _ _ _ Hp) Epc).
      exists dn, qs, rest, ts. split; [destruct Hp; by split|done].
  - apply leads_or; [apply closing_check_done, closing_check_empty; by right|].
    apply leads_cases. intros p (m & HP & Hm). exists (closing m AnaPop). split; [done|by apply IH].
Qed.

Lemma analytics_leads : leads book_ended ended.
Proof.
  apply leads_cases. intros p (n & Hi & Hb & dn & qs & rest & ts & Hp & _).
  exists (closing (length ts) (pl_analytics p)). split.
  { split_and!; [done..|]. by exists dn, qs, rest, ts. }
  assert (leads (closing (length ts) AnaCheckEmpty) ended) as Hempty
    by (apply closing_check_empty; left; apply closing_pop).
  destruct (pl_analytics p); [apply closing_pop|by apply closing_check_done|exact Hempty|apply closing_done].
Qed.

Lemma pipeline_leads : leads pipeline_ok ended.
Proof. eapply leads_trans; [apply ingest_leads|]. eapply leads_trans; [apply book_leads|apply analytics_leads]. Qed.
End Fair.

(** ** Whole runs *)

Lemma finished_step t stale p : finished p = true -> tstep t stale p = Ok p.
Proof.
  unfold finished. destruct (pl_ingest p) eqn:Ei; try done. destruct (pl_book p) eqn:Eb; try done.
  destruct (pl_analytics p) eqn:Ea; try done. intros _.
  destruct t; cbn [thread_step]; [unfold ingest_step|unfold book_step|unfold analytics_step]; by rewrite ?Ei, ?Eb, ?Ea.
Qed.
Lemma finished_stays sched p : finished p = true -> run sched p = Ok p.
Proof.
  intros Hf. induction sched as [|[t stale] sched IH]; [done|]. cbn [run_schedule].
  by rewrite finished_step, bind_ok.
Qed.

(** A fair schedule runs all three threads to their ends. *)
Lemma fair_finishes schedule p :
  fair schedule -> pipeline_ok p ->
  exists N p', finished p' = true /\ forall n, (N <= n)%nat -> run (steps schedule n) p = Ok p'.
Proof.
  intros [Hmoves [settled Hvisible]] Hp.
  destruct (run_schedule_ok hash_order cfg messages Hevery (steps schedule settled) p Hp) as (p1 & E1 & Hp1).
  destruct (pipeline_leads schedule p settled Hmoves Hvisible settled p1 ltac:(lia) E1 Hp1)
    as (N & p' & _ & E & _ & Hfin).
  exists N, p'. split; [done|]. intros n Hn. unfold steps. replace n with (N + (n - N))%nat by lia.
  rewrite seq_app, map_app, run_schedule_app. unfold at_time, steps in E. rewrite E, bind_ok. by apply finished_stays.
Qed.

(** Taking turns is fair, so from any state some schedule ends the run. *)
Definition round_robin (n : nat) : ThreadId * bool :=
  (match (n mod 3)%nat with 0%nat => Ingest | 1%nat => Book | _ => Analytics end, false).

Lemma round_robin_fair : fair round_robin.
Proof.
  split; [|by exists 0%nat].
  assert (forall t, exists r, (r < 3)%nat /\ forall m, (m mod 3)%nat = r -> (round_robin m).1 = t) as H.
  { unfold round_robin. intros []; [exists 0%nat|exists 1%nat|exists 2%nat]; (split; [lia|]); by intros m ->. }
  intros t n. destruct (H t) as (r & Hr & Ht). exists (3 * n + r)%nat. split; [lia|]. apply Ht.
  rewrite Nat.add_comm, Nat.mul_comm, Nat.Div0.mod_add. by apply Nat.mod_small.
Qed.

Lemma pipeline_finishes p :
  pipeline_ok p -> exists sched p', run sched p = Ok p' /\ finished p' = true.
Proof.
  intros Hp. destruct (fair_finishes round_robin p round_robin_fair Hp) as (N & p' & Hfin & H).
  exists (steps round_robin N), p'. split; [by apply H|done].
Qed.
End Progress.
