(* ===== verification/PipelineTheorems.v ===== *)
(** What the concurrent pipeline guarantees: under every interleaving it
    computes what one thread computes, and under every fair one it ends. *)
From S2P Require Import Prelude ByteOrder Protocol Serialization Parser SequenceTracker.
From S2P Require Import FeedHandler.
From S2P Require Import OrderedMap OrderBook BookSpec BookProofs BookQueries BookTheorems.
From S2P Require Import BookBuilder.
From S2P Require Import EndToEnd Replay Queue Pipeline PipelineProofs PipelineProgress.

Local Open Scope Z_scope.

Section Outcome.
Context {ndebug : bool}.
Context (hash_order : gmap Z OrderBook -> list (Z * OrderBook)).
Context (cfg : PipelineConfig) (messages : list byte).
Hypothesis Hevery : analytics_every cfg <> 0.

Notation pipeline := (Pipeline ndebug).
Notation builder0 := (set_verify false (new_builder ndebug)).

Lemma builder0_state : builder_state builder0 (∅, no_stats).
Proof. exact builder_state_new. Qed.

Lemma fed_books dn (fh : FeedHandler (BookBuilder ndebug)) :
  Forall frame_ok dn -> fed dn fh ->
  builder_state (fh_down fh) (spec_events (forwarded_events dn.*2 new_tracker) (∅, no_stats)).
Proof.
  intros Hok (fh' & mal & E & ->). unfold first_feed in E. rewrite deliver_all_feed in E by apply counters_new.
  assert (Forall event_ok dn.*2) as Hev.
  { apply Forall_fmap. eapply Forall_impl; [exact Hok|]. by intros x (_ & ? & _). }
  destruct (deliver_all_unchecked (forwarded_events dn.*2 new_tracker) builder0 (∅, no_stats))
    as (bb & Eb & Hbb & _); [by apply forwarded_events_ok|apply builder0_state|done|].
  cbn [fh_down fh_seq new_feed] in E. rewrite Eb, bind_ok in E. injection E as <-. exact Hbb.
Qed.

(** The pushed frames and the scanned buffer carry the same messages. *)
Lemma pushed_good : good_events (pushed_frames messages).*2 = good_events (sc_events (scan_at 0 messages)).
Proof. by rewrite good_events_pushed, good_events_scan. Qed.

Lemma pushed_same :
  same_but_malformed
    (spec_events (forwarded_events (pushed_frames messages).*2 new_tracker) (∅, no_stats))
    (spec_events (forwarded_events (sc_events (scan_at 0 messages)) new_tracker) (∅, no_stats)).
Proof.
  assert (forall evs, same_but_malformed (spec_events (forwarded_events evs new_tracker) (∅, no_stats))
    (spec_events (forwarded_events (good_events evs) new_tracker) (∅, no_stats))) as H.
  { intros evs. rewrite <- forwarded_good. by apply spec_events_good. }
  destruct (H (pushed_frames messages).*2) as [H1 H2].
  destruct (H (sc_events (scan_at 0 messages))) as [H3 H4].
  rewrite pushed_good in H1, H2. split; congruence.
Qed.

(** All frames are processed once the book thread has returned. *)
Lemma finished_processed (p : pipeline) dn qs rest ts :
  pinv hash_order cfg messages p dn qs rest ts -> finished p = true ->
  dn = pushed_frames messages /\ stored hash_order p.
Proof.
  intros Hp Hfin. pose proof (pi_book _ _ _ _ _ _ _ _ Hp) as Hb.
  pose proof (pi_ingest _ _ _ _ _ _ _ _ Hp) as Hi. pose proof (pi_split _ _ _ _ _ _ _ _ Hp) as Hs.
  unfold finished, book_ok in *.
  destruct (pl_ingest p) eqn:Ei; try discriminate. destruct (pl_book p); try discriminate.
  destruct Hb as (_ & -> & Hst). inversion Hi; subst rest. split; [by rewrite Hs, !app_nil_r|done].
Qed.
End Outcome.

(** What the threads have computed once all have returned, [fh] being the feed
    handler, with [S] in its books, and [r] the result of one thread that
    consumes the whole buffer.  The analytics thread has seen, in order, the
    ticks that found room in the ring, out of those the book thread sampled. *)
Record computed {ndebug F T B} (hash_order : gmap Z OrderBook -> list (Z * OrderBook)) (cfg : PipelineConfig)
    (messages : list byte) (p : PipelineState ndebug F T B) (fh : FeedHandler (BookBuilder ndebug)) (r : ParseResult)
    (S : Books) : Prop := mkComputed {
  co_books : manager_state (bb_manager (fh_down (pl_feed p))) S;
  co_parsed : pl_messages_parsed p = wrap 64 (Z.of_nat (pr_messages r));
  co_malformed : pl_malformed p = wrap 64 (Z.of_nat (bad_count (pushed_frames messages).*2));
  co_final : exists fp st,
    book_fingerprint hash_order (bb_manager (fh_down fh)) = Ok fp /\
    pl_final p = Some (fp, symbol_count (bb_manager (fh_down fh)), st) /\
    clear_malformed st = clear_malformed (bb_stats (fh_down fh));
  co_ticks : exists accepted, accepted `sublist_of` all_ticks (ndebug := ndebug) hash_order cfg messages /\
    pl_analytics_events p = wrap 64 (Z.of_nat (length accepted)) /\
    pl_last_tick p = default empty_tick (last accepted)
}.

(** All ticks are seen or lost once the analytics thread has returned. *)
Lemma finished_ticks {ndebug} hash_order cfg messages (p : Pipeline ndebug) qs rest ts :
  pinv hash_order cfg messages p (pushed_frames messages) qs rest ts -> finished p = true ->
  exists accepted, accepted `sublist_of` all_ticks (ndebug := ndebug) hash_order cfg messages /\
    pl_analytics_events p = wrap 64 (Z.of_nat (length accepted)) /\
    pl_last_tick p = default empty_tick (last accepted).
Proof.
  intros Hp Hfin. pose proof (fed_builder _ _ (pi_feed _ _ _ _ _ _ _ _ Hp)) as Hb.
  destruct (pi_analytics _ _ _ _ _ _ _ _ Hp) as (_ & (offered & Heq & popped & Hsub & Hn & Hlast) & Hat).
  unfold finished, analytics_at, last_sample in *.
  destruct (pl_ingest p); try discriminate. destruct (pl_book p); try discriminate.
  destruct (pl_analytics p); try discriminate. destruct Hat as [_ ->].
  exists popped. split_and!; [|done..]. cbn [pending_ticks] in Heq. rewrite !app_nil_r in *.
  unfold all_ticks. by rewrite <- Hb, Heq.
Qed.

(** The outcome of a schedule, against one thread that consumes the buffer. *)
Lemma pipeline_outcome ndebug hash_order cfg messages sched :
  analytics_every cfg <> 0 ->
  frame_queue_capacity cfg <= 2 ^ 63 -> tick_queue_capacity cfg <= 2 ^ 63 ->
  (forall m, hash_order m ≡ₚ map_to_list m) ->
  exists (p0 p : Pipeline ndebug) fh r S,
    start cfg = Ok p0 /\ run_schedule hash_order cfg messages sched p0 = Ok p /\
    consume messages (new_feed (set_verify false (new_builder ndebug))) = Ok (fh, r) /\
    manager_state (bb_manager (fh_down fh)) S /\
    (finished p = true -> computed hash_order cfg messages p fh r S).
Proof.
  intros Hevery Hf Ht Hperm.
  destruct (start_ok (ndebug := ndebug) hash_order cfg messages Hf Ht) as (p0 & E0 & Hp0).
  destruct (run_schedule_ok hash_order cfg messages Hevery sched p0 Hp0) as (p & E & dn & qs & rest & ts & Hp).
  destruct (consume_books messages (new_feed (set_verify false (new_builder ndebug))) (∅, no_stats))
    as (bb & Es & [Hm Hst] & _); [apply counters_new|apply builder0_state|done|].
  cbn [fh_residual new_feed app fh_seq] in Es, Hm, Hst.
  eexists p0, p, _, _, _. split_and!; [exact E0|exact E|exact Es|exact Hm|].
  intros Hfin. destruct (finished_processed hash_order cfg messages p dn qs rest ts Hp Hfin) as [-> Hstored].
  destruct (pushed_same messages) as [Hbooks Hcounts].
  destruct (fed_books _ _ (pushed_frames_ok messages) (pi_feed _ _ _ _ _ _ _ _ Hp)) as [Hpm Hpst].
  rewrite Hbooks in Hpm. split; [exact Hpm|..].
  - rewrite (pi_parsed _ _ _ _ _ _ _ _ Hp). unfold add64. rewrite Z.add_0_l. do 2 f_equal.
    exact (f_equal length (pushed_good messages)).
  - exact (pi_malformed _ _ _ _ _ _ _ _ Hp).
  - destruct Hstored as (fp & Efp & Hfinal). rewrite (book_fingerprint_spec _ _ _ (Hperm _) Hpm) in Efp.
    injection Efp as <-. eexists _, _. split_and!; [exact (book_fingerprint_spec _ _ _ (Hperm _) Hm)| |].
    + rewrite Hfinal. unfold symbol_count.
      by rewrite (manager_size _ _ Hpm), <- (manager_size _ _ Hm).
    + rewrite Hpst. cbn -[spec_events]. rewrite Hst. exact Hcounts.
  - exact (finished_ticks _ _ _ _ _ _ _ Hp Hfin).
Qed.

(** The concurrent pipeline is equivalent to the single-threaded path.
    Whatever the bytes and however the three threads are interleaved, no step
    is undefined; and once all threads have returned, the stored fingerprint,
    symbol count, message count and book counters, all but the malformed one, are
    those of one thread that consumes the whole buffer, both hold the same live orders, and the analytics
    thread has seen, in order, some of the ticks sampled from the books. *)
Theorem pipeline_matches_single_thread ndebug hash_order cfg messages sched :
  analytics_every cfg <> 0 ->
  frame_queue_capacity cfg <= 2 ^ 63 -> tick_queue_capacity cfg <= 2 ^ 63 ->
  (forall m, hash_order m ≡ₚ map_to_list m) ->
  exists (p0 p : Pipeline ndebug) fh r S,
    start cfg = Ok p0 /\ run_schedule hash_order cfg messages sched p0 = Ok p /\
    consume messages (new_feed (set_verify false (new_builder ndebug))) = Ok (fh, r) /\
    manager_state (bb_manager (fh_down fh)) S /\
    (finished p = true -> computed hash_order cfg messages p fh r S).
Proof. apply pipeline_outcome. Qed.

Definition demo_config : PipelineConfig := mkPipelineConfig 2 2 1.
Definition demo_round : list (ThreadId * bool) :=
  [(Ingest, false); (Book, false); (Analytics, true); (Ingest, true); (Book, false); (Analytics, false)].
Definition demo_schedule : list (ThreadId * bool) := concat (replicate 30 demo_round).

Lemma pipeline_matches_single_thread_witness :
  exists (p0 p : Pipeline true) fh r S,
    start demo_config = Ok p0 /\
    run_schedule map_to_list demo_config (stream_bytes demo_packets) demo_schedule p0 = Ok p /\
    consume (stream_bytes demo_packets) (new_feed (set_verify false (new_builder true))) = Ok (fh, r) /\
    manager_state (bb_manager (fh_down fh)) S /\
    (finished p = true -> computed map_to_list demo_config (stream_bytes demo_packets) p fh r S).
Proof.
  apply (pipeline_matches_single_thread true map_to_list demo_config (stream_bytes demo_packets) demo_schedule).
  - discriminate.
  - vm_compute. discriminate.
  - vm_compute. discriminate.
  - reflexivity.
Defined.

(** The schedule of the witness does run to the end. *)
Definition run_demo : bool :=
  match p ← start demo_config; run_schedule map_to_list demo_config (stream_bytes demo_packets) demo_schedule p with
  | Ok p => finished (p : Pipeline true)
  | _ => false
  end.
Example demo_finishes : run_demo = true.
Proof. vm_compute. reflexivity. Qed.

(** The pipeline terminates, so that [run] returns: every fair schedule, one
    in which each thread moves again and again and every store becomes visible
    in the end, runs all three threads to their ends, through full rings,
    values seen late and ticks lost, and nothing changes afterwards. *)
Theorem pipeline_terminates ndebug hash_order cfg messages schedule :
  analytics_every cfg <> 0 ->
  frame_queue_capacity cfg <= 2 ^ 63 -> tick_queue_capacity cfg <= 2 ^ 63 ->
  fair schedule ->
  exists (p0 p : Pipeline ndebug) N, start cfg = Ok p0 /\ finished p = true /\
    forall n, (N <= n)%nat -> run_schedule hash_order cfg messages (steps schedule n) p0 = Ok p.
Proof.
  intros Hevery Hf Ht Hfair.
  destruct (start_ok (ndebug := ndebug) hash_order cfg messages Hf Ht) as (p0 & E0 & Hp0).
  destruct (fair_finishes hash_order cfg messages Hevery schedule p0 Hfair Hp0) as (N & p & Hfin & H).
  by exists p0, p, N.
Qed.

(** Turns by turns, after a while in which every value is seen late. *)
Definition late_start (n : nat) : ThreadId * bool :=
  if (n <? 20)%nat then ((round_robin n).1, true) else round_robin n.
Lemma late_start_fair : fair late_start.
Proof.
  split.
  - intros t n. destruct (fair_moves _ round_robin_fair t (n + 20)) as (m & Hm & E). exists m. split; [lia|].
    unfold late_start. by destruct (Nat.ltb_spec m 20); [lia|].
  - exists 20%nat. intros m Hm. unfold late_start. by destruct (Nat.ltb_spec m 20); [lia|].
Qed.

Lemma pipeline_terminates_witness :
  exists (p0 p : Pipeline true) N, start demo_config = Ok p0 /\ finished p = true /\
    forall n, (N <= n)%nat -> run_schedule map_to_list demo_config (stream_bytes demo_packets) (steps late_start n) p0 = Ok p.
Proof.
  apply (pipeline_terminates true map_to_list demo_config (stream_bytes demo_packets) late_start).
  - discriminate.
  - vm_compute. discriminate.
  - vm_compute. discriminate.
  - exact late_start_fair.
Defined.
