(* ===== verification/ThreadsProofs.v ===== *)
(** The threads of PipelineThreads.v refine the steps of Pipeline.v: each action
    is no step, or the one its call takes effect with.  A refused push and a
    failed pop are stale steps, a flag read as false too; the emptiness test
    after a flag read as true is exact, because the flag's release store
    published everything its thread had pushed. *)
From S2P Require Import Prelude ByteOrder Protocol Serialization Parser SequenceTracker.
From S2P Require Import FeedHandler.
From S2P Require Import OrderedMap OrderBook BookSpec BookProofs BookQueries BookTheorems.
From S2P Require Import BookBuilder.
From S2P Require Import EndToEnd Replay Queue QueueThreads QueueCalls.
From S2P Require Import Pipeline PipelineProofs PipelineProgress PipelineTheorems.
From S2P Require Import PipelineThreads.

Local Open Scope Z_scope.

Section Simulation.
Context {ndebug : bool}.
Context (hash_order : gmap Z OrderBook -> list (Z * OrderBook)).
Context (cfg : PipelineConfig) (messages : list byte).
Notation threads := (Threads ndebug).
Notation pipeline := (Pipeline ndebug).
Notation run := (run_schedule hash_order cfg messages).
Implicit Types (f : threads) (qf : SPSCQueue Frame) (qt : SPSCQueue Tick).

(** The state of Pipeline.v in which the threads are where they are in [f] and
    the rings are the queues [qf] and [qt]. *)
Definition as_steps f qf qt : pipeline :=
  mkPipeline qf qt (is_set (pl_ingest_done f)) (is_set (pl_book_done f)) (pl_ingest f) (pl_book f) (pl_feed f)
    (pl_processed f) (pl_messages_parsed f) (pl_malformed f) (pl_final f) (pl_analytics f)
    (pl_analytics_events f) (pl_last_tick f).

(** A set flag has published all its thread will ever push, and a thread that
    has read it sees that. *)
Record flags_ok f : Prop := mkFlagsOk {
  fo_ingest v : fg_set (pl_ingest_done f) = Some v -> pl_ingest f = IngDone /\ published (pl_frames f) = v;
  fo_book v : fg_set (pl_book_done f) = Some v -> pl_book f = BookDone /\ published (pl_ticks f) = v;
  fo_book_sees : pl_book f = BookCheckEmpty ->
    pl_ingest f = IngDone /\ (published (pl_frames f) <= cf_cview (rg_config (pl_frames f)))%nat;
  fo_analytics_sees : pl_analytics f = AnaCheckEmpty ->
    pl_book f = BookDone /\ (published (pl_ticks f) <= cf_cview (rg_config (pl_ticks f)))%nat
}.

Record simulates f qf qt : Prop := mkSimulates {
  si_frames : holds (pl_frames f) qf;
  si_ticks : holds (pl_ticks f) qt;
  si_flags : flags_ok f
}.

(** An outcome of the threads is an outcome of some steps. *)
Definition simulated (p : pipeline) (o : outcome threads) : Prop :=
  exists sched, match o with
  | Ok f => exists qf qt, run sched p = Ok (as_steps f qf qt) /\ simulates f qf qt
  | _ => forall p', run sched p <> Ok p'
  end.

Ltac unfold_threads :=
  cbn [pl_frames pl_ticks pl_ingest_done pl_book_done pl_ingest pl_book pl_feed pl_processed
       pl_messages_parsed pl_malformed pl_final pl_analytics pl_analytics_events pl_last_tick
       set_ingest set_frames set_ingest_done set_book set_ticks set_book_done set_processed set_final
       set_analytics set_tick as_steps raise acquired fg_set fg_seen is_set] in *.

Ltac flags := split; unfold_threads; naive_solver congruence.

(** No step, and one. *)
Lemma simulated_none f qf qt f' :
  as_steps f' qf qt = as_steps f qf qt -> simulates f' qf qt -> simulated (as_steps f qf qt) (Ok f').
Proof. intros E Hs. exists [], qf, qt. by rewrite E. Qed.

Lemma simulated_one t stale p f' qf' qt' :
  thread_step hash_order cfg messages t stale p = Ok (as_steps f' qf' qt') -> simulates f' qf' qt' ->
  simulated p (Ok f').
Proof. intros E Hs. exists [(t, stale)], qf', qt'. cbn [run_schedule]. by rewrite E, bind_ok. Qed.

(** Code that touches nothing shared does the same in both. *)
Lemma process_frame_simulated fr f qf qt :
  pl_book f = BookPop -> simulates f qf qt ->
  match process_frame hash_order cfg fr f with
  | Ok f' => process_frame hash_order cfg fr (as_steps f qf qt) = Ok (as_steps f' qf qt) /\ simulates f' qf qt
  | _ => forall p', process_frame hash_order cfg fr (as_steps f qf qt) <> Ok p'
  end.
Proof.
  intros Hpc [Hf Ht []]. unfold process_frame.
  destruct (subspan (fr_data fr) 0 (Z.to_nat (fr_len fr))); [rewrite !bind_ok|done..]. unfold_threads.
  destruct (consume_datagram _ (pl_feed f)) as [[fh r]| | |]; [rewrite !bind_ok|done..].
  destruct (negb (analytics_every cfg =? 0)); [cbn [require]; rewrite !bind_ok|done]. unfold_threads.
  destruct (_ mod _ =? 0); (split; [done|]); split; try done; flags.
Qed.

Lemma store_results_simulated f qf qt :
  pl_book f = BookStore -> simulates f qf qt ->
  match store_results hash_order f with
  | Ok f' => store_results hash_order (as_steps f qf qt) = Ok (as_steps f' qf qt) /\ simulates f' qf qt
  | _ => forall p', store_results hash_order (as_steps f qf qt) <> Ok p'
  end.
Proof.
  intros Hpc [Hf Ht []]. unfold store_results. unfold_threads.
  destruct (book_fingerprint _ _); [rewrite !bind_ok|done..].
  split; [done|]; split; try done; flags.
Qed.

Lemma ingest_simulated f o qf qt :
  simulates f qf qt -> ingest_action messages f o -> simulated (as_steps f qf qt) o.
Proof.
  intros [Hf Ht [Hi Hb Hbs Has]] Ha.
  destruct Ha as [f off Hpc|f off fr r Hpc Ha|f off fr r Hpc Ha|f off fr r Hpc Ha|f Hpc];
    try pose proof (push_action_holds _ _ _ _ _ Hf Ha) as Hr.
  - destruct (ingest_frame messages off) as [pc| | |] eqn:E.
    { apply (simulated_one Ingest false _ _ qf qt); [|split; [done..|flags]].
      cbn [thread_step]. unfold ingest_step. unfold_threads. by rewrite Hpc, E. }
    all: exists [(Ingest, false)]; intros p'; cbn [run_schedule thread_step]; unfold ingest_step; unfold_threads;
      by rewrite Hpc, E.
  - apply simulated_none; [done|]. split; [done..|flags].
  - apply simulated_none; [done|]. split; [done..|flags].
  - destruct Hr as (q' & E & Hr). apply (simulated_one Ingest false _ _ q' qt); [|split; [done..|flags]].
    cbn [thread_step]. unfold ingest_step. unfold_threads. by rewrite Hpc, E.
  - apply (simulated_one Ingest false _ _ qf qt); [|split; [done..|flags]].
    cbn [thread_step]. unfold ingest_step. unfold_threads. by rewrite Hpc.
Qed.

Lemma book_simulated f o qf qt :
  simulates f qf qt -> book_action hash_order cfg f o -> simulated (as_steps f qf qt) o.
Proof.
  intros Hsim Ha. pose proof Hsim as [Hf Ht Hflags].
  destruct Ha as [f r Hpc Ha|f r Hpc Ha|f r fr Hpc Ha|f Hpc Hfl|f v Hpc Hfl|f r b Hpc Ha
    |f t ts final r Hpc Ha|f t ts final r b Hpc Ha|f final Hpc|f Hpc|f Hpc].
  - apply simulated_none; [done|]. pose proof (pop_action_holds _ _ _ _ Hf Ha).
    pose proof (pop_action_frame _ _ _ Ha) as (_ & _ & ? & _). destruct Hflags. split; [done..|flags].
  - pose proof (pop_action_holds _ _ _ _ Hf Ha). pose proof (pop_action_frame _ _ _ Ha) as (_ & _ & ? & _). destruct Hflags.
    apply (simulated_one Book true _ _ qf qt); [|split; [done..|flags]].
    cbn [thread_step]. unfold book_step. unfold_threads. by rewrite Hpc.
  - pose proof (pop_action_holds _ _ _ _ Hf Ha) as (q' & E & Hr). pose proof (pop_action_frame _ _ _ Ha) as (_ & _ & ? & _).
    assert (simulates (set_frames r f) q' qt) as Hsim' by (destruct Hflags; split; [done..|flags]).
    pose proof (process_frame_simulated fr (set_frames r f) _ _ Hpc Hsim') as Hp.
    assert (book_step hash_order cfg false (as_steps f qf qt) =
      process_frame hash_order cfg fr (as_steps (set_frames r f) q' qt)) as Es.
    { unfold book_step. unfold_threads. by rewrite Hpc, E. }
    destruct (process_frame hash_order cfg fr (set_frames r f)) as [f'| | |].
    { destruct Hp as [Hp Hs]. apply (simulated_one Book false _ _ q' qt); [|done].
      cbn [thread_step]. by rewrite Es. }
    all: exists [(Book, false)]; intros p'; cbn [run_schedule thread_step]; rewrite Es;
      destruct (process_frame _ _ _ (as_steps _ _ _)) as [p2| | |]; try done; by destruct (Hp p2).
  - apply (simulated_one Book true _ _ qf qt); [|destruct Hflags; split; [done..|flags]].
    cbn [thread_step]. unfold book_step. unfold_threads. by rewrite Hpc.
  - destruct Hflags as [Hi Hb Hbs Has]. destruct (Hi v Hfl) as [Hdone Hpub].
    apply (simulated_one Book false _ _ qf qt).
    + cbn [thread_step]. unfold book_step. unfold_threads. rewrite Hpc. unfold is_set. by rewrite Hfl.
    + split; [|done|].
      * apply see_holds; [done|]. by rewrite Hpub.
      * split; unfold_threads; [exact Hi|intros w Hw; destruct (Hb w Hw); congruence| |
          intros Hc; destruct (Has Hc); congruence].
        intros _. split; [done|]. unfold published, see in *. cbn [rg_config cf_head cf_cview]. lia.
  - destruct (empty_test_holds _ _ _ _ Hf Ha) as (Hr & Hview & Htest). pose proof (empty_test_frame _ _ _ Ha) as (_ & _ & Hpub & _).
    destruct Hflags as [Hi Hb Hbs Has]. destruct (Hbs Hpc) as [Hdone Hsees]. specialize (Htest ltac:(lia)) as ->.
    apply (simulated_one Book false _ _ qf qt).
    + cbn [thread_step]. unfold book_step. unfold_threads. rewrite Hpc. by destruct (queue_empty qf).
    + split; [done..|]. destruct (queue_empty qf); flags.
  - pose proof (push_action_holds _ _ _ _ _ Ht Ha). destruct Hflags.
    apply simulated_none; [done|]. split; [done..|flags].
  - pose proof (push_action_holds _ _ _ _ _ Ht Ha) as Hr. destruct b.
    + destruct Hr as (q' & E & Hr). apply (simulated_one Book false _ _ qf q'); [|destruct Hflags; split; [done..|flags]].
      cbn [thread_step]. unfold book_step. unfold_threads. by rewrite Hpc, E.
    + apply (simulated_one Book true _ _ qf qt); [|destruct Hflags; split; [done..|flags]].
      cbn [thread_step]. unfold book_step. unfold_threads. by rewrite Hpc.
  - apply (simulated_one Book false _ _ qf qt); [|destruct Hflags; split; [done..|destruct final; flags]].
    cbn [thread_step]. unfold book_step. unfold_threads. by rewrite Hpc.
  - pose proof (store_results_simulated _ _ _ Hpc Hsim) as Hp.
    assert (book_step hash_order cfg false (as_steps f qf qt) = store_results hash_order (as_steps f qf qt)) as Es.
    { unfold book_step. unfold_threads. by rewrite Hpc. }
    destruct (store_results hash_order f) as [f'| | |].
    { destruct Hp as [Hp Hs]. apply (simulated_one Book false _ _ qf qt); [|done]. cbn [thread_step]. by rewrite Es. }
    all: exists [(Book, false)]; intros p'; cbn [run_schedule thread_step]; rewrite Es;
      destruct (store_results _ (as_steps _ _ _)) as [p2| | |]; try done; by destruct (Hp p2).
  - apply (simulated_one Book false _ _ qf qt); [|destruct Hflags; split; [done..|flags]].
    cbn [thread_step]. unfold book_step. unfold_threads. by rewrite Hpc.
Qed.

Lemma analytics_simulated f o qf qt :
  simulates f qf qt -> analytics_action f o -> simulated (as_steps f qf qt) o.
Proof.
  intros Hsim Ha. pose proof Hsim as [Hf Ht Hflags].
  destruct Ha as [f r Hpc Ha|f r Hpc Ha|f r t Hpc Ha|f Hpc Hfl|f v Hpc Hfl|f r b Hpc Ha].
  - apply simulated_none; [done|]. pose proof (pop_action_holds _ _ _ _ Ht Ha).
    pose proof (pop_action_frame _ _ _ Ha) as (_ & _ & ? & _). destruct Hflags. split; [done..|flags].
  - pose proof (pop_action_holds _ _ _ _ Ht Ha). pose proof (pop_action_frame _ _ _ Ha) as (_ & _ & ? & _). destruct Hflags.
    apply (simulated_one Analytics true _ _ qf qt); [|split; [done..|flags]].
    cbn [thread_step]. unfold analytics_step. unfold_threads. by rewrite Hpc.
  - pose proof (pop_action_holds _ _ _ _ Ht Ha) as (q' & E & Hr). pose proof (pop_action_frame _ _ _ Ha) as (_ & _ & ? & _).
    apply (simulated_one Analytics false _ _ qf q'); [|destruct Hflags; split; [done..|flags]].
    cbn [thread_step]. unfold analytics_step. unfold_threads. by rewrite Hpc, E.
  - apply (simulated_one Analytics true _ _ qf qt); [|destruct Hflags; split; [done..|flags]].
    cbn [thread_step]. unfold analytics_step. unfold_threads. by rewrite Hpc.
  - destruct Hflags as [Hi Hb Hbs Has]. destruct (Hb v Hfl) as [Hdone Hpub].
    apply (simulated_one Analytics false _ _ qf qt).
    + cbn [thread_step]. unfold analytics_step. unfold_threads. rewrite Hpc. unfold is_set. by rewrite Hfl.
    + split; [done| |].
      * apply see_holds; [done|]. by rewrite Hpub.
      * split; unfold_threads; [exact Hi|exact Hb|exact Hbs|].
        intros _. split; [done|]. unfold published, see in *. cbn [rg_config cf_head cf_cview]. lia.
  - destruct (empty_test_holds _ _ _ _ Ht Ha) as (Hr & Hview & Htest). pose proof (empty_test_frame _ _ _ Ha) as (_ & _ & Hpub & _).
    destruct Hflags as [Hi Hb Hbs Has]. destruct (Has Hpc) as [Hdone Hsees]. specialize (Htest ltac:(lia)) as ->.
    apply (simulated_one Analytics false _ _ qf qt).
    + cbn [thread_step]. unfold analytics_step. unfold_threads. rewrite Hpc. by destruct (queue_empty qt).
    + split; [done..|]. destruct (queue_empty qt); flags.
Qed.

Lemma thread_simulated t f o qf qt :
  simulates f qf qt -> thread_action hash_order cfg messages t f o -> simulated (as_steps f qf qt) o.
Proof.
  destruct t; [apply ingest_simulated|apply book_simulated|apply analytics_simulated].
Qed.

(** Whole runs. *)
Lemma threads_simulated f o qf qt :
  simulates f qf qt -> threads_run hash_order cfg messages f o -> simulated (as_steps f qf qt) o.
Proof.
  intros Hsim Hrun. revert qf qt Hsim. induction Hrun as [f|t f o Ha _|t f f' o Ha _ IH]; intros qf qt Hsim.
  - by apply simulated_none.
  - by eapply thread_simulated.
  - destruct (thread_simulated _ _ _ _ _ Hsim Ha) as (s1 & qf' & qt' & E1 & Hsim').
    destruct (IH qf' qt' Hsim') as (s2 & E2). exists (s1 ++ s2). destruct o.
    + destruct E2 as (qf2 & qt2 & E2 & Hsim2). exists qf2, qt2. by rewrite run_schedule_app, E1, bind_ok.
    + intros p'. by rewrite run_schedule_app, E1, bind_ok.
    + intros p'. by rewrite run_schedule_app, E1, bind_ok.
    + intros p'. by rewrite run_schedule_app, E1, bind_ok.
Qed.

Lemma start_simulated :
  frame_queue_capacity cfg <= 2 ^ 63 -> tick_queue_capacity cfg <= 2 ^ 63 ->
  exists f qf qt, start_threads cfg = Ok f /\ start cfg = Ok (as_steps f qf qt) /\ simulates f qf qt.
Proof.
  intros Hf Ht. unfold start_threads, start.
  destruct (new_ring_holds empty_frame _ Hf) as (rf & qf & -> & -> & Hrf).
  destruct (new_ring_holds empty_tick _ Ht) as (rt & qt & -> & -> & Hrt). rewrite !bind_ok.
  eexists _, qf, qt. split; [reflexivity|]. split; [done|]. split; [done..|]. by split.
Qed.
End Simulation.
