(* ===== verification/ThreadsProgress.v ===== *)
(** Termination of the pipeline at the level of its atomic actions.  A run is
    fair when each thread acts again and again and every store becomes visible
    to the other thread in finite time, as the C++ standard asks of
    implementations; loads may be late again after every new store.

    An action either makes progress, which a well-founded measure counts, or is
    one of a thread's actions while it waits ([spins]).  If no thread made
    progress any more, all stores would become visible and one of the waiting
    threads would find what it waits for. *)
From S2P Require Import Prelude ByteOrder Protocol Serialization Parser SequenceTracker.
From S2P Require Import FeedHandler.
From S2P Require Import OrderedMap OrderBook BookSpec BookProofs BookQueries BookTheorems.
From S2P Require Import BookBuilder.
From S2P Require Import EndToEnd Replay Queue QueueThreads QueueCalls.
From S2P Require Import Pipeline PipelineProofs PipelineProgress PipelineTheorems.
From S2P Require Import PipelineThreads ThreadsProofs.

Local Open Scope Z_scope.

(** ** Lexicographic order *)

Definition lex {B} (R : B -> B -> Prop) (x y : nat * B) : Prop :=
  (x.1 < y.1)%nat \/ (x.1 = y.1 /\ R x.2 y.2).

Lemma lex_wf {B} (R : B -> B -> Prop) : well_founded R -> well_founded (lex R).
Proof.
  intros HR [a b]. revert b. induction a as [a IHa] using lt_wf_ind. intros b.
  induction b as [b IHb] using (well_founded_ind HR). constructor. intros [a' b'] [Hlt|[Heq Hb]]; cbn in *.
  - by apply IHa.
  - subst a'. by apply IHb.
Qed.

Section Runs.
Context {ndebug : bool}.
Context (hash_order : gmap Z OrderBook -> list (Z * OrderBook)).
Context (cfg : PipelineConfig) (messages : list byte).
Notation threads := (Threads ndebug).
Notation action := (thread_action hash_order cfg messages).
Implicit Types (f : threads).

(** ** Fair runs *)

Definition analytics_returned (pc : AnalyticsPc) : bool := match pc with AnaDone => true | _ => false end.

Definition returned (t : ThreadId) f : bool :=
  match t with
  | Ingest => ingest_returned (pl_ingest f)
  | Book => book_returned (pl_book f)
  | Analytics => analytics_returned (pl_analytics f)
  end.

(** If the thread's action from [f] to [f'] loads what another thread stores, it
    sees a value at least as new as the one in [old]. *)
Definition sees (t : ThreadId) (old f f' : threads) : Prop :=
  match t with
  | Ingest =>
      push_rank (pl_frames f) = 3%nat ->
      (released (pl_frames old) <= cf_pview (rg_config (pl_frames f')))%nat
  | Book =>
      (pop_rank (pl_frames f) = 3%nat \/ pl_book f = BookCheckEmpty ->
       (published (pl_frames old) <= cf_cview (rg_config (pl_frames f')))%nat) /\
      (is_set (pl_ingest_done old) = true -> pl_book f = BookCheckDone -> pl_book f' = BookCheckEmpty) /\
      (push_rank (pl_ticks f) = 3%nat ->
       (released (pl_ticks old) <= cf_pview (rg_config (pl_ticks f')))%nat)
  | Analytics =>
      (pop_rank (pl_ticks f) = 3%nat \/ pl_analytics f = AnaCheckEmpty ->
       (published (pl_ticks old) <= cf_cview (rg_config (pl_ticks f')))%nat) /\
      (is_set (pl_book_done old) = true -> pl_analytics f = AnaCheckDone -> pl_analytics f' = AnaCheckEmpty)
  end.

(** The states [e] of a run in which thread [w n] acts at time [n]. *)
Record fair_run (e : nat -> threads) (w : nat -> ThreadId) : Prop := mkFairRun {
  fr_acts n : action (w n) (e n) (Ok (e (S n))) \/ (returned (w n) (e n) = true /\ e (S n) = e n);
  fr_moves t n : exists m, (n <= m)%nat /\ w m = t;
  fr_visible n : exists s, forall k, (s <= k)%nat -> sees (w k) (e n) (e k) (e (S k))
}.

(** ** Invariants of the threads *)

(** A call in progress is the one the thread is at. *)
Record calls_ok f : Prop := mkCallsOk {
  co_ingest :
    match pl_ingest f with
    | IngPush _ x => cf_prod (rg_config (pl_frames f)) = PIdle \/ in_push x (cf_prod (rg_config (pl_frames f)))
    | _ => cf_prod (rg_config (pl_frames f)) = PIdle
    end;
  co_book_pop : pl_book f <> BookPop -> cf_cons (rg_config (pl_frames f)) = CIdle;
  co_book_push :
    match pl_book f with
    | BookEmit (t :: _) _ => cf_prod (rg_config (pl_ticks f)) = PIdle \/ in_push t (cf_prod (rg_config (pl_ticks f)))
    | _ => cf_prod (rg_config (pl_ticks f)) = PIdle
    end;
  co_analytics : pl_analytics f <> AnaPop -> cf_cons (rg_config (pl_ticks f)) = CIdle;
  co_ingest_seen : fg_seen (pl_ingest_done f) = true -> is_set (pl_ingest_done f) = true;
  co_book_seen : fg_seen (pl_book_done f) = true -> is_set (pl_book_done f) = true
}.

Record good f : Prop := mkGoodThreads {
  gt_steps : exists qf qt, simulates f qf qt /\ pipeline_ok hash_order cfg messages (as_steps f qf qt);
  gt_calls : calls_ok f
}.

Ltac unfold_threads :=
  cbn [pl_frames pl_ticks pl_ingest_done pl_book_done pl_ingest pl_book pl_feed pl_processed
       pl_messages_parsed pl_malformed pl_final pl_analytics pl_analytics_events pl_last_tick
       set_ingest set_frames set_ingest_done set_book set_ticks set_book_done set_processed set_final
       set_analytics set_tick as_steps raise acquired fg_set fg_seen] in *.

(** What a frame's processing leaves alone. *)
Lemma process_frame_frame x f f' :
  process_frame hash_order cfg x f = Ok f' ->
  pl_frames f' = pl_frames f /\ pl_ticks f' = pl_ticks f /\ pl_ingest f' = pl_ingest f /\
  pl_analytics f' = pl_analytics f /\ pl_ingest_done f' = pl_ingest_done f /\ pl_book_done f' = pl_book_done f /\
  (pl_book f' = BookPop \/ exists ts, pl_book f' = BookEmit ts false).
Proof.
  unfold process_frame. intros E. apply bind_Ok_inv in E as (sp & _ & E). apply bind_Ok_inv in E as ([fh r] & _ & E).
  apply bind_Ok_inv in E as ([] & _ & E). destruct (_ mod _ =? 0); injection E as <-; unfold_threads; eauto 10.
Qed.

Lemma store_results_frame f f' :
  store_results hash_order f = Ok f' ->
  pl_frames f' = pl_frames f /\ pl_ticks f' = pl_ticks f /\ pl_ingest f' = pl_ingest f /\
  pl_analytics f' = pl_analytics f /\ pl_ingest_done f' = pl_ingest_done f /\ pl_book_done f' = pl_book_done f /\
  pl_book f' = BookFlag.
Proof. unfold store_results. intros E. apply bind_Ok_inv in E as (fp & _ & [= <-]). done. Qed.

Lemma ingest_calls f f' : calls_ok f -> ingest_action messages f (Ok f') -> calls_ok f'.
Proof.
  intros [Hi Hbp Hbe Ha Hsi Hsb] Hact. remember (Ok f') as o eqn:Eo.
  destruct Hact as [f off Hpc|f off x r Hpc Hp|f off x r Hpc Hp|f off x r Hpc Hp|f Hpc]; rewrite Hpc in Hi.
  - apply bind_Ok_inv in Eo as (pc & E & [= <-]). split; unfold_threads; try done.
    destruct pc; try done. by left.
  - injection Eo as <-. pose proof (push_action_frame _ _ _ _ Hp) as (Hc & _).
    pose proof (push_action_goes_on _ _ _ Hp). split; unfold_threads; try done; [rewrite Hpc; by right|by rewrite Hc].
  - injection Eo as <-. pose proof (push_action_frame _ _ _ _ Hp) as (Hc & _).
    pose proof (push_action_returns _ _ _ _ Hp). split; unfold_threads; try done; [rewrite Hpc; by left|by rewrite Hc].
  - injection Eo as <-. pose proof (push_action_frame _ _ _ _ Hp) as (Hc & _).
    pose proof (push_action_returns _ _ _ _ Hp). split; unfold_threads; try done; by rewrite Hc.
  - injection Eo as <-. by split.
Qed.

Lemma book_calls f f' : calls_ok f -> book_action hash_order cfg f (Ok f') -> calls_ok f'.
Proof.
  intros [Hi Hbp Hbe Ha Hsi Hsb] Hact. remember (Ok f') as o eqn:Eo.
  destruct Hact as [f r Hpc Hp|f r Hpc Hp|f r x Hpc Hp|f Hpc Hfl|f v Hpc Hfl|f r b Hpc Hp
    |f t ts final r Hpc Hp|f t ts final r b Hpc Hp|f final Hpc|f Hpc|f Hpc]; rewrite Hpc in Hbe; try rewrite Hpc in Hbp.
  - injection Eo as <-. pose proof (pop_action_frame _ _ _ Hp) as (Hc & _). split; unfold_threads; try done.
    + by rewrite Hc.
    + by rewrite Hpc.
  - injection Eo as <-. pose proof (pop_action_frame _ _ _ Hp) as (Hc & _). pose proof (pop_action_returns _ _ _ Hp).
    split; unfold_threads; try done. by rewrite Hc.
  - pose proof (pop_action_frame _ _ _ Hp) as (Hc & _). pose proof (pop_action_returns _ _ _ Hp).
    apply process_frame_frame in Eo as (Ef & Et & Ei & Ea & Efi & Efb & Eb). unfold_threads.
    split; rewrite ?Ef, ?Et, ?Ei, ?Ea, ?Efi, ?Efb; try done; [by rewrite Hc|].
    destruct Eb as [->|[[] ->]]; [done..|by left].
  - injection Eo as <-. split; unfold_threads; try done.
  - injection Eo as <-. split; unfold_threads; try done; [intros _; by apply Hbp|]. intros _. unfold is_set. cbn. by rewrite Hfl.
  - injection Eo as <-. pose proof (empty_test_frame _ _ _ Hp) as (Hc & Hidle & _).
    split; unfold_threads; try done; [by rewrite Hc|]. destruct b; [|done]. by destruct (emit_ticks _ _); [|left].
  - injection Eo as <-. pose proof (push_action_frame _ _ _ _ Hp) as (Hc & _).
    pose proof (push_action_goes_on _ _ _ Hp). split; unfold_threads; try done; [by rewrite Hpc|rewrite Hpc; by right|by rewrite Hc].
  - injection Eo as <-. pose proof (push_action_frame _ _ _ _ Hp) as (Hc & _).
    pose proof (push_action_returns _ _ _ _ Hp). split; unfold_threads; try done; [by intros _; apply Hbp| |by rewrite Hc].
    destruct ts; [done|by left].
  - injection Eo as <-. split; unfold_threads; try done; [by intros _; apply Hbp|by destruct final].
  - apply store_results_frame in Eo as (Ef & Et & Ei & Ea & Efi & Efb & Eb).
    split; rewrite ?Ef, ?Et, ?Ei, ?Ea, ?Efi, ?Efb, ?Eb; try done. intros _. by apply Hbp.
  - injection Eo as <-. split; unfold_threads; try done. intros _. by apply Hbp.
Qed.

Lemma analytics_calls f f' : calls_ok f -> analytics_action f (Ok f') -> calls_ok f'.
Proof.
  intros [Hi Hbp Hbe Ha Hsi Hsb] Hact. remember (Ok f') as o eqn:Eo.
  destruct Hact as [f r Hpc Hp|f r Hpc Hp|f r t Hpc Hp|f Hpc Hfl|f v Hpc Hfl|f r b Hpc Hp]; injection Eo as <-;
    try pose proof (pop_action_frame _ _ _ Hp) as (Hc & _); try pose proof (pop_action_returns _ _ _ Hp);
    try pose proof (empty_test_frame _ _ _ Hp) as (Hc & Hidle & _); split; unfold_threads; rewrite ?Hc, ?Hpc; try done.
  - intros _. apply Ha. by rewrite Hpc.
  - intros _. unfold is_set. cbn. by rewrite Hfl.
Qed.

Hypothesis Hevery : analytics_every cfg <> 0.

(** No action of a good state fails, and it leads to a good state. *)
Lemma action_good t f o : good f -> action t f o -> exists f', o = Ok f' /\ good f'.
Proof.
  intros [(qf & qt & Hsim & Hok) Hcalls] Ha.
  destruct (thread_simulated hash_order cfg messages t f o qf qt Hsim Ha) as (sched & Hs).
  destruct (run_schedule_ok hash_order cfg messages Hevery sched _ Hok) as (p & E & Hp).
  destruct o as [f'| | |]; try (by destruct (Hs p)). destruct Hs as (qf' & qt' & E' & Hsim').
  rewrite E in E'. injection E' as ->. exists f'. split; [done|]. split; [by exists qf', qt'|].
  destruct t; [by eapply ingest_calls|by eapply book_calls|by eapply analytics_calls].
Qed.

(** ** Progress *)

(** How far the book thread is from its end, leaving aside the frames: in its
    loop after emitting, in its loop, emitting for the last time, and after. *)
Definition book_phase (pc : BookPc) : nat * nat :=
  match pc with
  | BookPop | BookCheckDone | BookCheckEmpty => (2, 0)
  | BookEmit ts false => (2, S (length ts))
  | BookEmit ts true => (1, 3 + length ts)
  | BookStore => (1, 2)
  | BookFlag => (1, 1)
  | BookDone => (0, 0)
  end%nat.
Definition analytics_phase (pc : AnalyticsPc) : nat := match pc with AnaDone => 0 | _ => 1 end.
Definition occupancy {T} (r : Ring T) : nat := (published r - released r)%nat.

Definition measure f : nat * (nat * (nat * (nat * (nat * nat)))) :=
  (ingest_weight messages (pl_ingest f), (occupancy (pl_frames f),
    ((book_phase (pl_book f)).1, ((book_phase (pl_book f)).2,
      (occupancy (pl_ticks f), analytics_phase (pl_analytics f)))))).
Definition below := lex (lex (lex (lex (lex lt)))).
Definition advances f f' : Prop := below (measure f') (measure f).

Lemma below_wf : well_founded below.
Proof. repeat apply lex_wf. apply lt_wf. Qed.

(** What a waiting thread does. *)
Inductive spins : ThreadId -> threads -> threads -> Prop :=
  | spins_push f off x r b :
      pl_ingest f = IngPush off x -> push_action x (pl_frames f) r b -> b <> Some true ->
      spins Ingest f (set_frames r f)
  | spins_pop f r :
      pl_book f = BookPop -> pop_action (pl_frames f) r None -> spins Book f (set_frames r f)
  | spins_no_frame f r :
      pl_book f = BookPop -> pop_action (pl_frames f) r (Some None) ->
      spins Book f (set_book BookCheckDone (set_frames r f))
  | spins_ingest_flag f :
      pl_book f = BookCheckDone -> spins Book f (set_book BookPop f)
  | spins_ingest_done f v :
      pl_book f = BookCheckDone -> fg_set (pl_ingest_done f) = Some v ->
      spins Book f
        (set_book BookCheckEmpty (set_frames (see v (pl_frames f)) (set_ingest_done (acquired (pl_ingest_done f)) f)))
  | spins_frames f r :
      pl_book f = BookCheckEmpty -> empty_test (pl_frames f) r false ->
      spins Book f (set_book BookPop (set_frames r f))
  | spins_tick f t ts final r :
      pl_book f = BookEmit (t :: ts) final -> push_action t (pl_ticks f) r None -> spins Book f (set_ticks r f)
  | spins_pop_tick f r :
      pl_analytics f = AnaPop -> pop_action (pl_ticks f) r None -> spins Analytics f (set_ticks r f)
  | spins_no_tick f r :
      pl_analytics f = AnaPop -> pop_action (pl_ticks f) r (Some None) ->
      spins Analytics f (set_analytics AnaCheckDone (set_ticks r f))
  | spins_book_flag f :
      pl_analytics f = AnaCheckDone -> spins Analytics f (set_analytics AnaPop f)
  | spins_book_done f v :
      pl_analytics f = AnaCheckDone -> fg_set (pl_book_done f) = Some v ->
      spins Analytics f
        (set_analytics AnaCheckEmpty (set_ticks (see v (pl_ticks f)) (set_book_done (acquired (pl_book_done f)) f)))
  | spins_ticks f r :
      pl_analytics f = AnaCheckEmpty -> empty_test (pl_ticks f) r false ->
      spins Analytics f (set_analytics AnaPop (set_ticks r f)).

(** What other threads could notice. *)
Definition stores f :=
  ((published (pl_frames f), released (pl_frames f), rg_mask (pl_frames f)),
   (published (pl_ticks f), released (pl_ticks f)),
   (is_set (pl_ingest_done f), is_set (pl_book_done f))).

Lemma spins_same t f f' : spins t f f' -> measure f' = measure f /\ stores f' = stores f.
Proof.
  intros Hs. destruct Hs as [f off x r b Hpc Hp Hb|f r Hpc Hp|f r Hpc Hp|f Hpc|f v Hpc Hfl|f r Hpc Hp
    |f t ts final r Hpc Hp|f r Hpc Hp|f r Hpc Hp|f Hpc|f v Hpc Hfl|f r Hpc Hp].
  all: try pose proof (push_action_mask _ _ _ _ Hp) as Hm; try pose proof (pop_action_mask _ _ _ Hp) as Hm.
  all: try (pose proof (push_action_frame _ _ _ _ Hp) as (_ & _ & Hrel & Hpub); specialize (Hpub ltac:(done))).
  all: try (pose proof (pop_action_frame _ _ _ Hp) as (_ & _ & Hpub & Hrel); specialize (Hrel ltac:(auto))).
  all: try (pose proof (empty_test_frame _ _ _ Hp) as (_ & _ & Hpub & Hrel & Hm)).
  all: unfold measure, stores, occupancy; unfold_threads; rewrite ?Hpub, ?Hrel, ?Hm, ?Hpc; try done.
  all: unfold is_set; cbn; by rewrite Hfl.
Qed.

Lemma ingest_effect f f' :
  good f -> ingest_action messages f (Ok f') -> advances f f' \/ spins Ingest f f'.
Proof.
  intros [(qf & qt & [Hf Ht Hfl] & dn & qs & rest & ts & Hp) _] Ha. remember (Ok f') as o eqn:Eo.
  destruct Ha as [f off Hpc|f off x r Hpc Ha|f off x r Hpc Ha|f off x r Hpc Ha|f Hpc].
  - apply bind_Ok_inv in Eo as (pc & E & [= <-]). pose proof (pi_ingest _ _ _ _ _ _ _ _ Hp) as Hi. unfold_threads.
    rewrite Hpc in Hi. inversion Hi as [? Hoff| | |]; subst. rewrite ingest_frame_eq in E by done. injection E as <-.
    left. unfold advances, below, measure. unfold_threads. rewrite Hpc. left. cbn [fst].
    destruct (classify 0 (drop off messages)) as [| | |ev len] eqn:Ec; cbn [ingest_weight]; [lia..|].
    pose proof (classify_frame _ _ _ _ Ec) as (Hlen & _). rewrite length_drop in Hlen. unfold_sizes.
    case_bool_decide; cbn [ingest_weight]; lia.
  - injection Eo as <-. right. by eapply spins_push.
  - injection Eo as <-. right. by eapply spins_push.
  - injection Eo as <-. left. unfold advances, below, measure. unfold_threads. rewrite Hpc. left. cbn. lia.
  - injection Eo as <-. left. unfold advances, below, measure. unfold_threads. rewrite Hpc. left. cbn. lia.
Qed.

Lemma book_effect f f' :
  good f -> book_action hash_order cfg f (Ok f') -> advances f f' \/ spins Book f f'.
Proof.
  intros [(qf & qt & [Hf Ht Hfl] & _) _] Ha. remember (Ok f') as o eqn:Eo.
  destruct Ha as [f r Hpc Ha|f r Hpc Ha|f r x Hpc Ha|f Hpc Hs|f v Hpc Hs|f r b Hpc Ha
    |f t ts final r Hpc Ha|f t ts final r b Hpc Ha|f final Hpc|f Hpc|f Hpc].
  - injection Eo as <-. right. by apply spins_pop.
  - injection Eo as <-. right. by apply spins_no_frame.
  - pose proof (pop_takes_released _ _ _ _ Hf Ha) as [Hrel Hlt].
    pose proof (pop_action_frame _ _ _ Ha) as (_ & _ & Hpub & _).
    apply process_frame_frame in Eo as (Ef & _ & Ei & _). unfold_threads.
    left. unfold advances, below, measure. right. cbn [fst snd]. rewrite Ei. split; [done|]. left. cbn [fst snd].
    unfold occupancy. rewrite Ef, Hpub, Hrel. lia.
  - injection Eo as <-. right. by apply spins_ingest_flag.
  - injection Eo as <-. right. by apply spins_ingest_done.
  - injection Eo as <-. pose proof (empty_test_frame _ _ _ Ha) as (_ & _ & Hpub & Hrel & _). destruct b.
    + left. unfold advances, below, lex, measure, occupancy. unfold_threads. rewrite Hpc, Hpub, Hrel. cbn. lia.
    + right. by apply spins_frames.
  - injection Eo as <-. right. by eapply spins_tick.
  - injection Eo as <-. left. unfold advances, below, lex, measure, occupancy. unfold_threads. rewrite Hpc.
    destruct final; cbn; lia.
  - injection Eo as <-. left. unfold advances, below, lex, measure, occupancy. unfold_threads. rewrite Hpc.
    destruct final; cbn; lia.
  - apply store_results_frame in Eo as (Ef & _ & Ei & _ & _ & _ & Eb).
    left. unfold advances, below, lex, measure, occupancy. rewrite Ef, Ei, Eb, Hpc. cbn. lia.
  - injection Eo as <-. left. unfold advances, below, lex, measure, occupancy. unfold_threads. rewrite Hpc. cbn. lia.
Qed.

Lemma analytics_effect f f' :
  good f -> analytics_action f (Ok f') -> advances f f' \/ spins Analytics f f'.
Proof.
  intros [(qf & qt & [Hf Ht Hfl] & _) _] Ha. remember (Ok f') as o eqn:Eo.
  destruct Ha as [f r Hpc Ha|f r Hpc Ha|f r t Hpc Ha|f Hpc Hs|f v Hpc Hs|f r b Hpc Ha]; injection Eo as <-.
  - right. by apply spins_pop_tick.
  - right. by apply spins_no_tick.
  - pose proof (pop_takes_released _ _ _ _ Ht Ha) as [Hrel Hlt].
    pose proof (pop_action_frame _ _ _ Ha) as (_ & _ & Hpub & _).
    left. unfold advances, below, lex, measure, occupancy. unfold_threads. rewrite Hpub, Hrel. cbn. lia.
  - right. by apply spins_book_flag.
  - right. by apply spins_book_done.
  - pose proof (empty_test_frame _ _ _ Ha) as (_ & _ & Hpub & Hrel & _). destruct b.
    + left. unfold advances, below, lex, measure, occupancy. unfold_threads. rewrite Hpc, Hpub, Hrel. cbn. lia.
    + right. by apply spins_ticks.
Qed.

Lemma action_effect t f f' : good f -> action t f (Ok f') -> advances f f' \/ spins t f f'.
Proof. destruct t; [apply ingest_effect|apply book_effect|apply analytics_effect]. Qed.

(** Where a thread is in its code and in its calls. *)
Definition same_place (t : ThreadId) f f' : Prop :=
  match t with
  | Ingest => pl_ingest f' = pl_ingest f /\ cf_prod (rg_config (pl_frames f')) = cf_prod (rg_config (pl_frames f))
  | Book => pl_book f' = pl_book f /\ cf_cons (rg_config (pl_frames f')) = cf_cons (rg_config (pl_frames f)) /\
      cf_prod (rg_config (pl_ticks f')) = cf_prod (rg_config (pl_ticks f))
  | Analytics => pl_analytics f' = pl_analytics f /\
      cf_cons (rg_config (pl_ticks f')) = cf_cons (rg_config (pl_ticks f))
  end.

Lemma action_other t u f f' : u <> t -> action u f (Ok f') -> same_place t f f'.
Proof.
  intros Hne Ha. remember (Ok f') as o eqn:Eo. destruct u; cbn [thread_action] in Ha.
  - destruct Ha as [f off Hpc|f off x r Hpc Ha|f off x r Hpc Ha|f off x r Hpc Ha|f Hpc];
      [apply bind_Ok_inv in Eo as (pc & _ & [= <-])|injection Eo as <-..];
      try pose proof (push_action_frame _ _ _ _ Ha) as (Hc & _); destruct t; done.
  - destruct Ha as [f r Hpc Ha|f r Hpc Ha|f r x Hpc Ha|f Hpc Hs|f v Hpc Hs|f r b Hpc Ha
      |f t' ts final r Hpc Ha|f t' ts final r b Hpc Ha|f final Hpc|f Hpc|f Hpc];
      try (injection Eo as <-);
      try pose proof (pop_action_frame _ _ _ Ha) as (Hc & _); try pose proof (push_action_frame _ _ _ _ Ha) as (Hc & _);
      try pose proof (empty_test_frame _ _ _ Ha) as (Hc & _);
      try apply process_frame_frame in Eo as (Ef & Et & Ei & Ea & _); try apply store_results_frame in Eo as (Ef & Et & Ei & Ea & _);
      destruct t; try done; unfold same_place; unfold_threads; try done; rewrite ?Ef, ?Et, ?Ei, ?Ea; done.
  - destruct Ha as [f r Hpc Ha|f r Hpc Ha|f r x Hpc Ha|f Hpc Hs|f v Hpc Hs|f r b Hpc Ha]; injection Eo as <-;
      try pose proof (pop_action_frame _ _ _ Ha) as (Hc & _); try pose proof (empty_test_frame _ _ _ Ha) as (Hc & _);
      destruct t; done.
Qed.

Section Fair.
Context (e : nat -> threads) (w : nat -> ThreadId).
Hypothesis Hrun : fair_run e w.
Hypothesis Hstart : good (e 0%nat).

Lemma run_good n : good (e n).
Proof.
  induction n as [|n IH]; [done|]. destruct (fr_acts _ _ Hrun n) as [Ha|[_ ->]]; [|done].
  destruct (action_good _ _ _ IH Ha) as (f' & [= ->] & Hg). done.
Qed.

Section Settled.
(** From time [s] on, every load sees what had been stored by time [n]. *)
Context (n s : nat).
Hypothesis Hsees : forall k, (s <= k)%nat -> sees (w k) (e n) (e k) (e (S k)).

(** No progress since [n], so nothing new was stored. *)
Definition quiet (k : nat) : Prop := measure (e k) = measure (e n) /\ stores (e k) = stores (e n).

(** Where [P] holds, some thread makes progress later. *)
Definition ends (P : threads -> Prop) : Prop :=
  forall k, (s <= k)%nat -> quiet k -> P (e k) -> exists m, (k <= m)%nat /\ below (measure (e m)) (measure (e n)).

Lemma quiet_step k : quiet k -> advances (e k) (e (S k)) \/ quiet (S k).
Proof.
  intros [Hm Hst]. destruct (fr_acts _ _ Hrun k) as [Ha|[_ E]]; [|right; unfold quiet; by rewrite E].
  destruct (action_effect _ _ _ (run_good k) Ha) as [?|Hs]; [by left|right].
  destruct (spins_same _ _ _ Hs) as [Hm' Hst']. split; congruence.
Qed.

(** The rule: thread [t] waits at [P] only, and each of its actions there brings
    its turn closer to an end. *)
Lemma ends_rank t P (rank : threads -> nat) :
  (forall f, P f -> returned t f = false) ->
  (forall f f', same_place t f f' -> P f -> P f' /\ rank f' = rank f) ->
  (forall k, (s <= k)%nat -> quiet k -> w k = t -> P (e k) -> spins t (e k) (e (S k)) ->
     P (e (S k)) /\ (rank (e (S k)) < rank (e k))%nat) ->
  ends P.
Proof.
  intros Hlive Hplace Hact.
  enough (forall r k, rank (e k) = r -> (s <= k)%nat -> quiet k -> P (e k) ->
    exists m, (k <= m)%nat /\ below (measure (e m)) (measure (e n))) as H by (intros k; by apply (H (rank (e k)))).
  induction r as [r IHr] using lt_wf_ind.
  assert (forall k, rank (e k) = r -> (s <= k)%nat -> quiet k -> P (e k) -> w k = t ->
    exists m, (k <= m)%nat /\ below (measure (e m)) (measure (e n))) as Hturn.
  { intros k Hr Hk Hq HP Hw.
    destruct (fr_acts _ _ Hrun k) as [Ha|[Hret _]]; rewrite Hw in *; [|by rewrite (Hlive _ HP) in Hret].
    destruct (action_effect _ _ _ (run_good k) Ha) as [Hadv|Hspin].
    { exists (S k). split; [lia|]. unfold advances in Hadv. by rewrite <- (proj1 Hq). }
    destruct (Hact k Hk Hq Hw HP Hspin) as [HP' Hlt]. destruct (spins_same _ _ _ Hspin) as [Hm Hst].
    destruct (IHr (rank (e (S k))) ltac:(lia) (S k)) as (m & Hkm & Hb); [done|lia| |done|exists m; split; [lia|done]].
    destruct Hq. split; congruence. }
  intros k Hr Hk Hq HP. destruct (fr_moves _ _ Hrun t k) as (j & Hj & Hw).
  remember (j - k)%nat as d eqn:Hd. revert k Hr Hk Hq HP Hj Hd. induction d as [|d IHd]; intros k Hr Hk Hq HP Hj Hd.
  { apply Hturn; try done. by replace k with j by lia. }
  destruct (decide (w k = t)) as [Ht|Hne]; [by apply Hturn|].
  destruct (quiet_step k Hq) as [Hadv|Hq'].
  { exists (S k). split; [lia|]. unfold advances in Hadv. by rewrite <- (proj1 Hq). }
  assert (same_place t (e k) (e (S k))) as Hsame.
  { destruct (fr_acts _ _ Hrun k) as [Ha|[_ ->]]; [by eapply action_other|]. by destruct t. }
  destruct (Hplace _ _ Hsame HP) as [HP' Hr'].
  destruct (IHd (S k)) as (m & Hm & Hb); [congruence|lia|done|done|lia|lia|]. exists m. split; [lia|done].
Qed.

(** *** Ingestion *)

Lemma quiet_frames k :
  quiet k -> published (pl_frames (e k)) = published (pl_frames (e n)) /\
  released (pl_frames (e k)) = released (pl_frames (e n)) /\ rg_mask (pl_frames (e k)) = rg_mask (pl_frames (e n)).
Proof. intros [_ Hst]. unfold stores in Hst. by injection Hst. Qed.
Lemma quiet_ticks k :
  quiet k -> published (pl_ticks (e k)) = published (pl_ticks (e n)) /\
  released (pl_ticks (e k)) = released (pl_ticks (e n)).
Proof. intros [_ Hst]. unfold stores in Hst. by injection Hst. Qed.

Definition full {T} (r : Ring T) : Prop := Z.of_nat (published r) = Z.of_nat (released r) + rg_mask r.

(** Ingestion waits only for room in the ring. *)
Lemma ingest_ends :
  ends (fun f => match pl_ingest f with
                 | IngDone => False
                 | IngPush _ _ => ~ full (pl_frames (e n))
                 | _ => True
                 end).
Proof.
  apply (ends_rank Ingest _ (fun f => push_rank (pl_frames f))).
  - intros f HP. cbn. by destruct (pl_ingest f).
  - intros f f' [E Ep] HP. unfold push_rank. by rewrite E, Ep.
  - intros k Hk Hq Hw HP Hs. destruct (quiet_frames k Hq) as (Hpub & Hrel & Hmask).
    pose proof (Hsees k Hk) as Hv. rewrite Hw in Hv. cbn [sees] in Hv.
    destruct (run_good k) as [(qf & qt & [Hf _ _] & _) _].
    inversion Hs as [f off x r b Hpc Hp Hb Et Ef Ef'| | | | | | | | | | |]; subst f. rewrite <- Ef' in *.
    unfold_threads. rewrite Hpc in *. destruct b as [[]|]; [done| |by split; [|eapply push_action_rank]].
    exfalso. apply HP. specialize (Hv (push_refused_rank _ _ _ Hp)). rewrite <- Hrel in Hv.
    pose proof (push_refused_full _ _ _ _ Hf Hp Hv) as Hfull.
    unfold full. rewrite <- Hpub, <- Hrel, <- Hmask, (ho_ring _ _ Hf), (ho_mask _ _ Hf). lia.
Qed.

(** *** The book thread *)

(** It does not wait while it emits ticks and stores its results. *)
Lemma emit_ends :
  ends (fun f => match pl_book f with BookEmit _ _ | BookStore | BookFlag => True | _ => False end).
Proof.
  apply (ends_rank Book _ (fun f => push_rank (pl_ticks f))).
  - intros f HP. cbn. by destruct (pl_book f).
  - intros f f' (E & _ & Ep) HP. unfold push_rank. by rewrite E, Ep.
  - intros k Hk Hq Hw HP Hs. inversion Hs as [|f r Hpc|f r Hpc|f Hpc|f v Hpc|f r Hpc|f t ts final r Hpc Hp Et Ef Ef'| | | | |];
      subst; try (by rewrite Hpc in HP).
    unfold_threads. split; [done|by eapply push_action_rank].
Qed.

Definition in_loop (pc : BookPc) : Prop :=
  match pc with BookPop | BookCheckDone | BookCheckEmpty => True | _ => False end.
Definition loop_rank f : nat :=
  match pl_book f with
  | BookCheckDone => 6
  | BookCheckEmpty => 5
  | _ => pop_rank (pl_frames f)
  end%nat.

(** It does not wait while there is a frame. *)
Lemma take_ends :
  published (pl_frames (e n)) <> released (pl_frames (e n)) -> ends (fun f => in_loop (pl_book f)).
Proof.
  intros Hne. apply (ends_rank Book _ loop_rank).
  - intros f HP. cbn. by destruct (pl_book f).
  - intros f f' (E & Ec & _) HP. unfold loop_rank, pop_rank. by rewrite E, Ec.
  - intros k Hk Hq Hw HP Hs. destruct (quiet_frames k Hq) as (Hpub & Hrel & _).
    pose proof (Hsees k Hk) as Hv. rewrite Hw in Hv. destruct Hv as [Hv _].
    destruct (run_good k) as [(qf & qt & [Hf _ _] & _) [_ Hidle _ _ _ _]].
    unfold loop_rank. inversion Hs as [|f r Hpc Hp Et Ef Ef'|f r Hpc Hp Et Ef Ef'|f Hpc Et Ef Ef'
      |f v Hpc Hfl Et Ef Ef'|f r Hpc Hp Et Ef Ef'|f t ts final r Hpc Hp Et Ef Ef'| | | | |]; subst f; rewrite <- Ef' in *;
      unfold_threads; rewrite Hpc in *; try done.
    + split; [done|by eapply pop_action_rank].
    + exfalso. apply Hne. specialize (Hv (or_introl (pop_found_none_rank _ _ Hp))).
      rewrite <- Hpub, <- Hrel. rewrite <- Hpub in Hv. by eapply pop_finds_empty.
    + split; [done|]. pose proof (pop_rank_le (pl_frames (e k))). lia.
    + split; [done|lia].
    + split; [done|]. pose proof (pop_rank_le r). lia.
Qed.

Lemma quiet_flags k :
  quiet k -> is_set (pl_ingest_done (e k)) = is_set (pl_ingest_done (e n)) /\
  is_set (pl_book_done (e k)) = is_set (pl_book_done (e n)).
Proof. intros [_ Hst]. unfold stores in Hst. by injection Hst. Qed.

(** It does not wait once ingestion has returned and there is no frame left. *)
Definition drain_rank f : nat :=
  match pl_book f with
  | BookCheckDone => 2
  | BookCheckEmpty => 1
  | _ => 2 + pop_rank (pl_frames f)
  end%nat.

Lemma drain_ends :
  published (pl_frames (e n)) = released (pl_frames (e n)) -> is_set (pl_ingest_done (e n)) = true ->
  ends (fun f => in_loop (pl_book f)).
Proof.
  intros Hempty Hset. apply (ends_rank Book _ drain_rank).
  - intros f HP. cbn. by destruct (pl_book f).
  - intros f f' (E & Ec & _) HP. unfold drain_rank, pop_rank. by rewrite E, Ec.
  - intros k Hk Hq Hw HP Hs. destruct (quiet_frames k Hq) as (Hpub & Hrel & _).
    pose proof (Hsees k Hk) as Hv. rewrite Hw in Hv. destruct Hv as (Hv & Hflag & _).
    destruct (run_good k) as [(qf & qt & [Hf _ _] & _) _].
    unfold drain_rank. inversion Hs as [|f r Hpc Hp Et Ef Ef'|f r Hpc Hp Et Ef Ef'|f Hpc Et Ef Ef'
      |f v Hpc Hfl Et Ef Ef'|f r Hpc Hp Et Ef Ef'|f t ts final r Hpc Hp Et Ef Ef'| | | | |]; subst f; rewrite <- Ef' in *;
      unfold_threads; rewrite Hpc in *; try done.
    + split; [done|]. pose proof (pop_action_rank _ _ Hp). lia.
    + split; [done|]. rewrite (pop_found_none_rank _ _ Hp). lia.
    + by specialize (Hflag Hset eq_refl).
    + split; [done|lia].
    + exfalso. specialize (Hv (or_intror eq_refl)). rewrite <- Hpub in Hv.
      pose proof (empty_test_exact _ _ _ _ Hf Hp Hv) as Hb. rewrite bool_decide_eq_true_2 in Hb; [done|congruence].
Qed.

(** *** Analytics *)

Definition watching (pc : AnalyticsPc) : Prop := match pc with AnaDone => False | _ => True end.
Definition watch_rank f : nat :=
  match pl_analytics f with
  | AnaCheckDone => 6
  | AnaCheckEmpty => 5
  | _ => pop_rank (pl_ticks f)
  end%nat.
Definition close_rank f : nat :=
  match pl_analytics f with
  | AnaCheckDone => 2
  | AnaCheckEmpty => 1
  | _ => 2 + pop_rank (pl_ticks f)
  end%nat.

Lemma watch_ends :
  published (pl_ticks (e n)) <> released (pl_ticks (e n)) -> ends (fun f => watching (pl_analytics f)).
Proof.
  intros Hne. apply (ends_rank Analytics _ watch_rank).
  - intros f HP. cbn. by destruct (pl_analytics f).
  - intros f f' (E & Ec) HP. unfold watch_rank, pop_rank. by rewrite E, Ec.
  - intros k Hk Hq Hw HP Hs. destruct (quiet_ticks k Hq) as (Hpub & Hrel).
    pose proof (Hsees k Hk) as Hv. rewrite Hw in Hv. destruct Hv as [Hv _].
    destruct (run_good k) as [(qf & qt & [_ Ht _] & _) _].
    unfold watch_rank. inversion Hs as [| | | | | | |f r Hpc Hp Et Ef Ef'|f r Hpc Hp Et Ef Ef'|f Hpc Et Ef Ef'
      |f v Hpc Hfl Et Ef Ef'|f r Hpc Hp Et Ef Ef']; subst f; rewrite <- Ef' in *; unfold_threads; rewrite Hpc in *.
    + split; [done|by eapply pop_action_rank].
    + exfalso. apply Hne. specialize (Hv (or_introl (pop_found_none_rank _ _ Hp))).
      rewrite <- Hpub, <- Hrel. rewrite <- Hpub in Hv. by eapply pop_finds_empty.
    + split; [done|]. pose proof (pop_rank_le (pl_ticks (e k))). lia.
    + split; [done|lia].
    + split; [done|]. pose proof (pop_rank_le r). lia.
Qed.

Lemma close_ends :
  published (pl_ticks (e n)) = released (pl_ticks (e n)) -> is_set (pl_book_done (e n)) = true ->
  ends (fun f => watching (pl_analytics f)).
Proof.
  intros Hempty Hset. apply (ends_rank Analytics _ close_rank).
  - intros f HP. cbn. by destruct (pl_analytics f).
  - intros f f' (E & Ec) HP. unfold close_rank, pop_rank. by rewrite E, Ec.
  - intros k Hk Hq Hw HP Hs. destruct (quiet_ticks k Hq) as (Hpub & Hrel).
    pose proof (Hsees k Hk) as Hv. rewrite Hw in Hv. destruct Hv as (Hv & Hflag).
    destruct (run_good k) as [(qf & qt & [_ Ht _] & _) _].
    unfold close_rank. inversion Hs as [| | | | | | |f r Hpc Hp Et Ef Ef'|f r Hpc Hp Et Ef Ef'|f Hpc Et Ef Ef'
      |f v Hpc Hfl Et Ef Ef'|f r Hpc Hp Et Ef Ef']; subst f; rewrite <- Ef' in *; unfold_threads; rewrite Hpc in *.
    + split; [done|]. pose proof (pop_action_rank _ _ Hp). lia.
    + split; [done|]. rewrite (pop_found_none_rank _ _ Hp). lia.
    + by specialize (Hflag Hset eq_refl).
    + split; [done|lia].
    + exfalso. specialize (Hv (or_intror eq_refl)). rewrite <- Hpub in Hv.
      pose proof (empty_test_exact _ _ _ _ Ht Hp Hv) as Hb. rewrite bool_decide_eq_true_2 in Hb; [done|congruence].
Qed.

(** *** All threads *)

Lemma unfinished_ends : ends (fun f => finished f = false).
Proof.
  intros k Hk Hq Hfin. destruct (quiet_flags k Hq) as [Hfi Hfb].
  destruct (quiet_frames k Hq) as (Hpub & Hrel & Hmask).
  destruct (run_good k) as [(qf & qt & [Hf Ht [Hflag Hflag' _ _]] & dn & qs & rest & ts & Hp) _].
  pose proof (pi_ingest_done _ _ _ _ _ _ _ _ Hp) as Hid. pose proof (pi_book_done _ _ _ _ _ _ _ _ Hp) as Hbd.
  pose proof (pi_book _ _ _ _ _ _ _ _ Hp) as Hbok. unfold book_ok in Hbok. unfold_threads.
  assert (match pl_ingest (e k) with IngDone => False | IngPush _ _ => ~ full (pl_frames (e n)) | _ => True end \/
    pl_ingest (e k) = IngDone \/ full (pl_frames (e n))) as [Hing|Hing]
    by (unfold full; destruct (Z.eq_dec (Z.of_nat (published (pl_frames (e n))))
          (Z.of_nat (released (pl_frames (e n))) + rg_mask (pl_frames (e n)))); destruct (pl_ingest (e k)); auto);
    [by apply (ingest_ends k)|].
  assert (match pl_book (e k) with BookEmit _ _ | BookStore | BookFlag => True | _ => False end \/
    in_loop (pl_book (e k)) \/ pl_book (e k) = BookDone) as [Hb|[Hb|Hb]]
    by (destruct (pl_book (e k)); cbn; auto); [by apply (emit_ends k)| |].
  - destruct (decide (published (pl_frames (e n)) = released (pl_frames (e n)))) as [Hempty|Hne];
      [|by apply (take_ends Hne k)].
    apply (drain_ends Hempty) with (k := k); try done. rewrite <- Hfi, Hid. destruct Hing as [->|Hfull]; [done|]. exfalso.
    unfold full in Hfull. rewrite <- Hmask, (ho_ring _ _ Hf), (ho_mask _ _ Hf) in Hfull.
    destruct (ho_cap _ _ Hf) as (c & Hc & Ecap). assert (2 ^ 1 <= 2 ^ c) by (apply Z.pow_le_mono_r; lia). lia.
  - rewrite Hb in *. assert (pl_ingest (e k) = IngDone) as Hi 
      by (destruct Hbok as [Hd _]; rewrite Hid in Hd; by destruct (pl_ingest (e k))).
    assert (watching (pl_analytics (e k))) as Hw.
    { unfold finished in Hfin. rewrite Hi, Hb in Hfin. by destruct (pl_analytics (e k)). }
    destruct (decide (published (pl_ticks (e n)) = released (pl_ticks (e n)))) as [Hempty|Hne];
      [|by apply (watch_ends Hne k)].
    apply (close_ends Hempty) with (k := k); try done. by rewrite <- Hfb, Hbd.
Qed.
End Settled.

(** A fair run finishes. *)
Lemma fair_run_finishes : exists n, finished (e n) = true.
Proof.
  enough (forall m n, measure (e n) = m -> exists k, finished (e k) = true) as H by by apply (H (measure (e 0%nat)) 0%nat).
  induction m as [m IH] using (well_founded_ind below_wf). intros n Hm.
  destruct (fr_visible _ _ Hrun n) as [s0 Hs0]. set (s := Nat.max n s0).
  assert (forall k, (s <= k)%nat -> sees (w k) (e n) (e k) (e (S k))) as Hsees by (intros k Hk; apply Hs0; lia).
  assert (forall d, quiet n (n + d) \/ exists k, below (measure (e k)) (measure (e n))) as Hwindow.
  { induction d as [|d [Hq|?]]; [left; by rewrite Nat.add_0_r| |by right].
    destruct (quiet_step n (n + d) Hq) as [Hadv|Hq']; [|left; by rewrite Nat.add_succ_r].
    right. exists (S (n + d)). unfold advances in Hadv. by rewrite <- (proj1 Hq). }
  destruct (Hwindow (s - n)%nat) as [Hq|[k Hk]]; [|rewrite Hm in Hk; by apply (IH _ Hk k)].
  replace (n + (s - n))%nat with s in Hq by lia.
  destruct (finished (e s)) eqn:Efin; [by exists s|].
  destruct (unfinished_ends n s Hsees s ltac:(lia) Hq Efin) as (k & _ & Hk).
  rewrite Hm in Hk. by apply (IH _ Hk k).
Qed.

(** And stays finished. *)
Lemma finished_returned t f : finished f = true -> returned t f = true.
Proof. unfold finished. destruct t; cbn; destruct (pl_ingest f), (pl_book f), (pl_analytics f); done. Qed.

Lemma returned_no_action t f o : returned t f = true -> ~ action t f o.
Proof. 
  intros Hr Ha. destruct t; cbn in *; destruct Ha; match goal with H : _ = _ |- _ => by rewrite H in Hr end.
Qed.

Lemma finished_run n m : (n <= m)%nat -> finished (e n) = true -> e m = e n.
Proof.
  intros Hnm Hfin. induction Hnm as [|m Hm IH]; [done|].
  destruct (fr_acts _ _ Hrun m) as [Ha|[_ ->]]; [|done]. rewrite IH in Ha.
  destruct (returned_no_action _ _ _ (finished_returned _ _ Hfin) Ha).
Qed.
End Fair.
End Runs.
