(* ===== verification/ThreadsRun.v ===== *)
(** The threads of PipelineThreads.v as a program: [next_state] takes a
    thread's next action with every load returning the last store.  Taking turns
    with it is a fair run, so fair runs exist from every good state. *)
From S2P Require Import Prelude ByteOrder Protocol Serialization Parser SequenceTracker.
From S2P Require Import FeedHandler.
From S2P Require Import OrderedMap OrderBook BookSpec BookProofs BookQueries BookTheorems.
From S2P Require Import BookBuilder.
From S2P Require Import EndToEnd Replay Queue QueueThreads QueueCalls.
From S2P Require Import Pipeline PipelineProofs PipelineProgress PipelineTheorems.
From S2P Require Import PipelineThreads ThreadsProofs ThreadsProgress.

Local Open Scope Z_scope.

Section Run.
Context {ndebug : bool}.
Context (hash_order : gmap Z OrderBook -> list (Z * OrderBook)).
Context (cfg : PipelineConfig) (messages : list byte).
Notation threads := (Threads ndebug).
Notation action := (thread_action hash_order cfg messages).
Notation good := (good hash_order cfg messages).
Implicit Types (f : threads).

Definition ingest_next f : threads :=
  match pl_ingest f with
  | IngLoop off => match ingest_frame messages off with Ok pc => set_ingest pc f | _ => f end
  | IngPush off x =>
      let '(r, res) := push_next x (pl_frames f) in
      match res with
      | Some true => set_ingest (IngLoop off) (set_frames r f)
      | _ => set_frames r f
      end
  | IngFlag => set_ingest IngDone (set_ingest_done (raise (published (pl_frames f)) (pl_ingest_done f)) f)
  | IngDone => f
  end.

Definition book_next f : threads :=
  match pl_book f with
  | BookPop =>
      let '(r, res) := pop_next (pl_frames f) in
      match res with
      | None => set_frames r f
      | Some None => set_book BookCheckDone (set_frames r f)
      | Some (Some x) => match process_frame hash_order cfg x (set_frames r f) with Ok f' => f' | _ => f end
      end
  | BookCheckDone =>
      match fg_set (pl_ingest_done f) with
      | Some v =>
          set_book BookCheckEmpty (set_frames (see v (pl_frames f)) (set_ingest_done (acquired (pl_ingest_done f)) f))
      | None => set_book BookPop f
      end
  | BookCheckEmpty =>
      let '(r, b) := test_next (pl_frames f) in
      set_book (if b then BookEmit (emit_ticks hash_order (fh_down (pl_feed f))) true else BookPop) (set_frames r f)
  | BookEmit (t :: ts) final =>
      let '(r, res) := push_next t (pl_ticks f) in
      match res with
      | Some _ => set_book (BookEmit ts final) (set_ticks r f)
      | None => set_ticks r f
      end
  | BookEmit [] final => set_book (if final then BookStore else BookPop) f
  | BookStore => match store_results hash_order f with Ok f' => f' | _ => f end
  | BookFlag => set_book BookDone (set_book_done (raise (published (pl_ticks f)) (pl_book_done f)) f)
  | BookDone => f
  end.

Definition analytics_next f : threads :=
  match pl_analytics f with
  | AnaPop =>
      let '(r, res) := pop_next (pl_ticks f) in
      match res with
      | None => set_ticks r f
      | Some None => set_analytics AnaCheckDone (set_ticks r f)
      | Some (Some t) => set_tick t (set_ticks r f)
      end
  | AnaCheckDone =>
      match fg_set (pl_book_done f) with
      | Some v =>
          set_analytics AnaCheckEmpty (set_ticks (see v (pl_ticks f)) (set_book_done (acquired (pl_book_done f)) f))
      | None => set_analytics AnaPop f
      end
  | AnaCheckEmpty =>
      let '(r, b) := test_next (pl_ticks f) in
      set_analytics (if b then AnaDone else AnaPop) (set_ticks r f)
  | AnaDone => f
  end.

Definition next_state (t : ThreadId) : threads -> threads :=
  match t with Ingest => ingest_next | Book => book_next | Analytics => analytics_next end.

(** [n] actions, taking turns. *)
Fixpoint turns (n : nat) f : threads :=
  match n with O => f | S n => next_state (round_robin n).1 (turns n f) end.

Hypothesis Hevery : analytics_every cfg <> 0.

Ltac unfold_threads :=
  cbn [pl_frames pl_ticks pl_ingest_done pl_book_done pl_ingest pl_book pl_feed pl_processed
       pl_messages_parsed pl_malformed pl_final pl_analytics pl_analytics_events pl_last_tick
       set_ingest set_frames set_ingest_done set_book set_ticks set_book_done set_processed set_final
       set_analytics set_tick as_steps raise acquired fg_set fg_seen] in *.

(** An action of a good state does not fail, so what it computes is a state. *)
Lemma action_ok t f o : good f -> action t f o -> exists f', o = Ok f'.
Proof. intros Hg Ha. destruct (action_good _ _ _ Hevery t f o Hg Ha) as (f' & -> & _). by exists f'. Qed.

Lemma ingest_next_action f :
  good f -> ingest_returned (pl_ingest f) = false ->
  ingest_action messages f (Ok (ingest_next f)) /\ sees Ingest f f (ingest_next f).
Proof.
  intros Hg Hret. pose proof Hg as [(qf & qt & [Hf Ht _] & _) [Hci _ _ _ _ _]]. unfold ingest_next.
  destruct (pl_ingest f) as [off|off x| |] eqn:Hpc; [| | |done]; cbn [sees].
  - pose proof (ingest_frames messages f off Hpc) as Ha. destruct (action_ok Ingest f _ Hg Ha) as (f' & E).
    rewrite E in Ha. apply bind_Ok_inv in E as (pc & Epc & [= <-]). rewrite Epc. split; [done|].
    unfold push_rank. rewrite Hci. discriminate.
  - destruct (push_next_action x _ _ Hf Hci) as [Ha Hv]. destruct (push_next x (pl_frames f)) as [r res].
    cbn [fst snd] in *. destruct res as [[|]|]; unfold_threads; (split; [|intros E; by rewrite (Hv E)]).
    + by eapply ingest_pushed.
    + by eapply ingest_retries.
    + by eapply ingest_pushing.
  - split; [by apply ingest_raises|]. unfold push_rank. rewrite Hci. discriminate.
Qed.

Lemma book_next_action f :
  good f -> book_returned (pl_book f) = false ->
  book_action hash_order cfg f (Ok (book_next f)) /\ sees Book f f (book_next f).
Proof.
  intros Hg Hret. pose proof Hg as [(qf & qt & [Hf Ht _] & _) [_ Hcons Hprod _ Hseen _]]. unfold book_next.
  assert (pl_book f <> BookPop -> pop_rank (pl_frames f) <> 3%nat) as Hnopop
    by (intros Hne; unfold pop_rank; by rewrite Hcons).
  assert (match pl_book f with BookEmit (_ :: _) _ => True | _ => push_rank (pl_ticks f) <> 3%nat end) as Hnopush.
  { unfold push_rank. destruct (pl_book f) as [| | |[|? ?] ?| | |]; by rewrite ?Hprod. }
  destruct (pl_book f) as [| | |[|t ts] final| | |] eqn:Hpc; [| | | | | | |done]; cbn [sees]; rewrite ?Hpc; try specialize (Hnopop ltac:(done)).
  - destruct (pop_next_action _ _ Hf) as [Ha Hv]. destruct (pop_next (pl_frames f)) as [r res]. cbn [fst snd] in *.
    destruct res as [[x|]|]; unfold_threads; rewrite ?Hpc.
    + pose proof (book_takes hash_order cfg f r x Hpc Ha) as Hact. destruct (action_ok Book f _ Hg Hact) as (f' & E).
      rewrite E in *. split; [done|]. apply process_frame_frame in E as (Ef & _). unfold_threads. rewrite Ef.
      split_and!; try done. intros [E3|]; [by rewrite (Hv E3)|done].
    + split; [by apply book_finds_none|]. split_and!; try done. intros [E3|]; [by rewrite (Hv E3)|done].
    + split; [by apply book_popping|]. split_and!; try done. intros [E3|]; [by rewrite (Hv E3)|done].
  - destruct (fg_set (pl_ingest_done f)) as [v|] eqn:Hset; unfold_threads.
    + split; [by apply book_reads_true|]. split_and!; try done. by intros [?|?].
    + unfold is_set in Hseen. rewrite Hset in Hseen. split.
      * apply book_reads_false; [done|]. destruct (fg_seen (pl_ingest_done f)); [by specialize (Hseen eq_refl)|done].
      * split_and!; try done; [by intros [?|?]|]. unfold is_set. by rewrite Hset.
  - destruct (test_next_action _ _ Hf) as [Ha Hv]; [by apply Hcons|]. destruct (test_next (pl_frames f)) as [r b].
    cbn [fst snd] in *. split; [by apply book_tests|]. unfold_threads. split_and!; try done. intros _. by rewrite Hv.
  - split; [by apply book_emitted|]. split_and!; try done. by intros [?|?].
  - destruct (push_next_action t _ _ Ht Hprod) as [Ha Hv]. destruct (push_next t (pl_ticks f)) as [r res].
    cbn [fst snd] in *. destruct res as [b|]; unfold_threads; rewrite ?Hpc.
    + split; [by eapply book_pushed|]. split_and!; try done; [by intros [?|?]|]. intros E. by rewrite (Hv E).
    + split; [by eapply book_pushing|]. split_and!; try done; [by intros [?|?]|]. intros E. by rewrite (Hv E).
  - pose proof (book_stores hash_order cfg f Hpc) as Hact. destruct (action_ok Book f _ Hg Hact) as (f' & E).
    rewrite E in *. split; [done|]. split_and!; try done. by intros [?|?].
  - split; [by apply book_raises|]. split_and!; try done. by intros [?|?].
Qed.

Lemma analytics_next_action f :
  good f -> analytics_returned (pl_analytics f) = false ->
  analytics_action f (Ok (analytics_next f)) /\ sees Analytics f f (analytics_next f).
Proof.
  intros Hg Hret. pose proof Hg as [(qf & qt & [Hf Ht _] & _) [_ _ _ Hcons _ Hseen]]. unfold analytics_next.
  assert (pl_analytics f <> AnaPop -> pop_rank (pl_ticks f) <> 3%nat) as Hnopop
    by (intros Hne; unfold pop_rank; by rewrite Hcons).
  destruct (pl_analytics f) eqn:Hpc; [| | |done]; cbn [sees]; rewrite ?Hpc; try specialize (Hnopop ltac:(done)).
  - destruct (pop_next_action _ _ Ht) as [Ha Hv]. destruct (pop_next (pl_ticks f)) as [r res]. cbn [fst snd] in *.
    destruct res as [[x|]|]; unfold_threads; rewrite ?Hpc.
    + split; [by apply analytics_takes|]. split; [|done]. intros [E3|]; [by rewrite (Hv E3)|done].
    + split; [by apply analytics_finds_none|]. split; [|done]. intros [E3|]; [by rewrite (Hv E3)|done].
    + split; [by apply analytics_popping|]. split; [|done]. intros [E3|]; [by rewrite (Hv E3)|done].
  - destruct (fg_set (pl_book_done f)) as [v|] eqn:Hset; unfold_threads.
    + split; [by apply analytics_reads_true|]. split; [|done]. by intros [?|?].
    + unfold is_set in Hseen. rewrite Hset in Hseen. split.
      * apply analytics_reads_false; [done|]. destruct (fg_seen (pl_book_done f)); [by specialize (Hseen eq_refl)|done].
      * split; [by intros [?|?]|]. unfold is_set. by rewrite Hset.
  - destruct (test_next_action _ _ Ht) as [Ha Hv]; [by apply Hcons|]. destruct (test_next (pl_ticks f)) as [r b].
    cbn [fst snd] in *. split; [by apply analytics_tests|]. unfold_threads. split; [|done]. intros _. by rewrite Hv.
Qed.

(** A thread that has not returned has an action to take: no deadlock. *)
Lemma next_state_action t f :
  good f -> (action t f (Ok (next_state t f)) \/ (returned t f = true /\ next_state t f = f)) /\
  sees t f f (next_state t f).
Proof.
  intros Hg. destruct (returned t f) eqn:Hret.
  - pose proof Hg as [_ [Hci Hcp Hcb Hca _ _]]. destruct t; cbn [returned next_state sees] in *.
    + unfold ingest_next. destruct (pl_ingest f) eqn:E; try done. split; [by right|]. unfold push_rank. by rewrite Hci.
    + unfold book_next. destruct (pl_book f) eqn:E; try done. split; [by right|]. unfold pop_rank, push_rank.
      rewrite Hcp, Hcb, E by done. split_and!; try done. by intros [?|?].
    + unfold analytics_next. destruct (pl_analytics f) eqn:E; try done. split; [by right|]. unfold pop_rank.
      rewrite Hca, E by done. split_and!; try done. by intros [?|?].
  - destruct t; cbn [returned next_state] in *.
    + destruct (ingest_next_action f Hg Hret). split; [by left|done].
    + destruct (book_next_action f Hg Hret). split; [by left|done].
    + destruct (analytics_next_action f Hg Hret). split; [by left|done].
Qed.

(** Stores are not undone. *)
Definition older (f f' : threads) : Prop :=
  ((published (pl_frames f) <= published (pl_frames f'))%nat /\ (released (pl_frames f) <= released (pl_frames f'))%nat) /\
  ((published (pl_ticks f) <= published (pl_ticks f'))%nat /\ (released (pl_ticks f) <= released (pl_ticks f'))%nat) /\
  ((is_set (pl_ingest_done f) = true -> is_set (pl_ingest_done f') = true) /\
   (is_set (pl_book_done f) = true -> is_set (pl_book_done f') = true)).

#[local] Instance older_preorder : PreOrder older.
Proof.
  split; [intros f; unfold older; split_and!; auto|]. intros f1 f2 f3 ((? & ?) & (? & ?) & ? & ?) ((? & ?) & (? & ?) & ? & ?).
  unfold older. split_and!; try lia; auto.
Qed.

Lemma push_action_older {T} x (r r' : Ring T) res :
  push_action x r r' res -> (published r <= published r')%nat /\ (released r <= released r')%nat.
Proof.
  intros Ha. split; [by eapply push_action_published|]. destruct (push_action_frame _ _ _ _ Ha) as (_ & _ & -> & _). lia.
Qed.
Lemma pop_action_older {T} (r r' : Ring T) res :
  pop_action r r' res -> (published r <= published r')%nat /\ (released r <= released r')%nat.
Proof.
  intros Ha. split; [|by eapply pop_action_released]. destruct (pop_action_frame _ _ _ Ha) as (_ & _ & -> & _). lia.
Qed.
Lemma empty_test_older {T} (r r' : Ring T) b :
  empty_test r r' b -> (published r <= published r')%nat /\ (released r <= released r')%nat.
Proof. intros Ha. destruct (empty_test_frame _ _ _ Ha) as (_ & _ & -> & -> & _). lia. Qed.

#[local] Hint Resolve push_action_older pop_action_older empty_test_older : core.

Lemma action_older t f f' : action t f (Ok f') -> older f f'.
Proof.
  intros Ha. remember (Ok f') as o eqn:Eo. destruct t; cbn [thread_action] in Ha; destruct Ha;
    try (injection Eo as <-); try (apply bind_Ok_inv in Eo as (pc & _ & [= <-]));
    try apply process_frame_frame in Eo as (Ef & Et & Ei & Ea & Efi & Efb & _);
    try apply store_results_frame in Eo as (Ef & Et & Ei & Ea & Efi & Efb & _);
    unfold older; unfold_threads; rewrite ?Ef, ?Et, ?Efi, ?Efb;
    repeat match goal with |- _ /\ _ => split end; eauto; try done; try lia.
  all: try (match goal with H : push_action _ _ _ _ |- _ => apply push_action_older in H; lia end).
  all: try (match goal with H : pop_action _ _ _ |- _ => apply pop_action_older in H; lia end).
  all: try (match goal with H : empty_test _ _ _ |- _ => apply empty_test_older in H; lia end).
Qed.

Lemma sees_older t old f f' : older old f -> sees t f f f' -> sees t old f f'.
Proof.
  intros ((H1 & H2) & (H3 & H4) & H5 & H6). destruct t; cbn [sees].
  - intros H Hr. specialize (H Hr). lia.
  - intros (Ha & Hb & Hc). split_and!; [intros H; specialize (Ha H); lia|auto|intros H; specialize (Hc H); lia].
  - intros (Ha & Hb). split; [intros H; specialize (Ha H); lia|auto].
Qed.

(** Taking turns, with loads that return the last store, is fair. *)
Lemma turns_good f n : good f -> good (turns n f).
Proof.
  intros Hg. induction n as [|n IH]; [done|]. cbn [turns].
  destruct (next_state_action (round_robin n).1 _ IH) as [[Ha|[_ ->]] _]; [|done].
  by destruct (action_good _ _ _ Hevery _ _ _ IH Ha) as (f' & [= <-] & Hg').
Qed.

Lemma turns_older f n m : good f -> (n <= m)%nat -> older (turns n f) (turns m f).
Proof.
  intros Hg Hnm. induction Hnm as [|m Hm IH]; [done|]. etransitivity; [exact IH|]. cbn [turns].
  destruct (next_state_action (round_robin m).1 _ (turns_good f m Hg)) as [[Ha|[_ ->]] _]; [|done].
  by eapply action_older.
Qed.

Lemma turns_fair f : good f -> fair_run hash_order cfg messages (fun n => turns n f) (fun n => (round_robin n).1).
Proof.
  intros Hg. split.
  - intros n. destruct (next_state_action (round_robin n).1 _ (turns_good f n Hg)) as [H _]. exact H.
  - apply (fair_moves _ round_robin_fair).
  - intros n. exists n. intros k Hk. eapply sees_older; [by apply turns_older|].
    apply (next_state_action (round_robin k).1 _ (turns_good f k Hg)).
Qed.
End Run.

(** The start is a good state. *)
Lemma start_good {ndebug} hash_order cfg messages :
  frame_queue_capacity cfg <= 2 ^ 63 -> tick_queue_capacity cfg <= 2 ^ 63 ->
  exists f : Threads ndebug, start_threads cfg = Ok f /\ good hash_order cfg messages f.
Proof.
  intros Hf Ht. destruct (start_simulated (ndebug := ndebug) cfg Hf Ht) as (f & qf & qt & E & Es & Hsim).
  exists f. split; [exact E|]. split.
  - exists qf, qt. split; [done|]. destruct (start_ok (ndebug := ndebug) hash_order cfg messages Hf Ht) as (p & E' & Hp).
    rewrite Es in E'. by injection E' as <-.
  - unfold start_threads, new_ring in E. apply bind_Ok_inv in E as (rf & Ef & E). apply bind_Ok_inv in E as (rt & Et & [= <-]).
    apply bind_Ok_inv in Ef as (q1 & _ & [= <-]). apply bind_Ok_inv in Et as (q2 & _ & [= <-]). by split.
Qed.
