(* ===== verification/ThreadsTheorems.v ===== *)
(** What the pipeline guarantees at the level of its atomic actions. *)
From S2P Require Import Prelude ByteOrder Protocol Serialization Parser SequenceTracker.
From S2P Require Import FeedHandler.
From S2P Require Import OrderedMap OrderBook BookSpec BookProofs BookQueries BookTheorems.
From S2P Require Import BookBuilder.
From S2P Require Import EndToEnd Replay Queue QueueThreads QueueCalls.
From S2P Require Import Pipeline PipelineProofs PipelineProgress PipelineTheorems.
From S2P Require Import PipelineThreads ThreadsProofs ThreadsProgress ThreadsRun.

Local Open Scope Z_scope.

(** A run to the end, from the start: all of it is known in advance. *)
Lemma threads_outcome ndebug hash_order cfg messages :
  analytics_every cfg <> 0 ->
  frame_queue_capacity cfg <= 2 ^ 63 -> tick_queue_capacity cfg <= 2 ^ 63 ->
  (forall m, hash_order m ≡ₚ map_to_list m) ->
  exists (p0 : Threads ndebug) fh r,
    start_threads cfg = Ok p0 /\
    consume messages (new_feed (set_verify false (new_builder ndebug))) = Ok (fh, r) /\
    forall o, threads_run hash_order cfg messages p0 o ->
    exists p S, o = Ok p /\ manager_state (bb_manager (fh_down fh)) S /\
      (finished p = true -> computed hash_order cfg messages p fh r S).
Proof.
  intros Hevery Hf Ht Hperm.
  destruct (start_simulated (ndebug := ndebug) cfg Hf Ht) as (p0 & qf & qt & E0 & Es & Hsim).
  destruct (pipeline_outcome ndebug hash_order cfg messages [] Hevery Hf Ht Hperm)
    as (_ & _ & fh & r & _ & _ & _ & Ec & _).
  exists p0, fh, r. split; [exact E0|]. split; [exact Ec|]. intros o Hrun.
  destruct (threads_simulated hash_order cfg messages _ _ _ _ Hsim Hrun) as (sched & Hsched).
  destruct (pipeline_outcome ndebug hash_order cfg messages sched Hevery Hf Ht Hperm)
    as (s0 & s & fh' & r' & S & Es' & Er & Ec' & Hm & Hfin).
  rewrite Es in Es'. injection Es' as <-. rewrite Ec in Ec'. injection Ec' as <- <-.
  destruct o as [p| | |]; try (by destruct (Hsched s)).
  destruct Hsched as (qf' & qt' & Er' & _). rewrite Er in Er'. injection Er' as ->.
  exists p, S. split; [done|]. split; [exact Hm|]. intros H. by destruct (Hfin H).
Qed.

(** Every finite part of a fair run is a run. *)
Lemma fair_run_prefix {ndebug} hash_order cfg messages (e : nat -> Threads ndebug) w n :
  fair_run hash_order cfg messages e w -> threads_run hash_order cfg messages (e 0%nat) (Ok (e n)).
Proof.
  intros Hrun. induction n as [|n IH]; [apply run_stops|].
  destruct (fr_acts _ _ _ _ _ Hrun n) as [Ha|[_ E]]; [|by rewrite E].
  eapply run_app; [exact IH|]. eapply run_goes_on; [exact Ha|apply run_stops].
Qed.

(** A fair run has returned after some time, and stays as it is. *)
Lemma fair_run_ends {ndebug} hash_order cfg messages (e : nat -> Threads ndebug) w :
  analytics_every cfg <> 0 ->
  frame_queue_capacity cfg <= 2 ^ 63 -> tick_queue_capacity cfg <= 2 ^ 63 ->
  start_threads cfg = Ok (e 0%nat) -> fair_run hash_order cfg messages e w ->
  exists N, finished (e N) = true /\ forall n, (N <= n)%nat -> e n = e N.
Proof.
  intros Hevery Hf Ht E0 Hrun.
  destruct (start_good (ndebug := ndebug) hash_order cfg messages Hf Ht) as (p0 & E & Hg).
  rewrite E0 in E. injection E as <-.
  destruct (fair_run_finishes hash_order cfg messages Hevery e w Hrun Hg) as [N Hfin].
  exists N. split; [done|]. intros n Hn. by eapply finished_run.
Qed.

(** C20: the pipeline under the memory model.  However the atomic actions of the
    three threads interleave and whatever values coherence lets their loads
    return, no thread is led into undefined behaviour or fails an assertion;
    and once all have returned, the stored fingerprint, symbol count, message
    count and book counters, all but those of malformed messages, are those of
    one thread that consumes the whole buffer, and both hold the same live
    orders; the malformed count is that of the frames pushed, without oversized
    frames and unknown type bytes.  The analytics thread has counted, in order
    and up to the last, the ticks the ring had room for: some of those sampled
    from the books after every [analytics_every]-th event and at the end, each
    from the books of just the events before it.  Assumed are a sampling interval
    that is not zero, for the code divides by it, and capacities up to 2^63. *)
Theorem threads_match_single_thread ndebug hash_order cfg messages :
  analytics_every cfg <> 0 ->
  frame_queue_capacity cfg <= 2 ^ 63 -> tick_queue_capacity cfg <= 2 ^ 63 ->
  (forall m, hash_order m ≡ₚ map_to_list m) ->
  exists (p0 : Threads ndebug) fh r,
    start_threads cfg = Ok p0 /\
    consume messages (new_feed (set_verify false (new_builder ndebug))) = Ok (fh, r) /\
    forall o, threads_run hash_order cfg messages p0 o ->
    exists p S, o = Ok p /\ manager_state (bb_manager (fh_down fh)) S /\
      (finished p = true -> computed hash_order cfg messages p fh r S).
Proof. apply threads_outcome. Qed.

Lemma threads_match_single_thread_witness :
  exists (p0 : Threads true) fh r,
    start_threads demo_config = Ok p0 /\
    consume (stream_bytes demo_packets) (new_feed (set_verify false (new_builder true))) = Ok (fh, r) /\
    forall o, threads_run map_to_list demo_config (stream_bytes demo_packets) p0 o ->
    exists p S, o = Ok p /\ manager_state (bb_manager (fh_down fh)) S /\
      (finished p = true -> computed map_to_list demo_config (stream_bytes demo_packets) p fh r S).
Proof.
  apply (threads_match_single_thread true map_to_list demo_config (stream_bytes demo_packets)).
  - discriminate.
  - vm_compute. discriminate.
  - vm_compute. discriminate.
  - reflexivity.
Defined.



(** The threads taking turns on the demonstration stream, action by action: they
    return, with the fingerprint of the single-threaded path. *)
Definition turns_demo : option (Z * Z) :=
  match p ← start_threads demo_config;
        r ← consume (stream_bytes demo_packets) (new_feed (set_verify false (new_builder true)));
        fp ← book_fingerprint map_to_list (bb_manager (fh_down r.1));
        let p := turns map_to_list demo_config (stream_bytes demo_packets) 400 (p : Threads true) in
        require (finished p);;
        Ok (pipeline_fingerprint p, fp) with
  | Ok x => Some x
  | _ => None
  end.
Example turns_demo_agrees : match turns_demo with Some (a, b) => a =? b | None => false end = true.
Proof. vm_compute. reflexivity. Qed.
