(* ===== verification/Capture.v ===== *)
(** Capture files (include/mdfh/capture.hpp, src/capture.cpp): the writer that
    streams framed messages to a file and patches the message count on close,
    and the reader that loads a capture.

    Files are byte lists by path, a [FILE] a path with an offset and the bytes
    that wait in its buffer.  What the C library and the file system decide is a
    parameter: which paths can be created, how many bytes a file may hold, when
    a buffer is written out, where seeking works and how far a file can be
    read. *)
From stdpp Require Import strings.
From S2P Require Import Prelude ByteOrder Protocol Serialization Parser SequenceTracker.
From S2P Require Import FeedHandler.
From S2P Require Import OrderedMap OrderBook BookSpec BookProofs BookTheorems BookBuilder.
From S2P Require Import EndToEnd WireTheorems.

Local Open Scope Z_scope.

(** ** The C library's files *)

Local Notation Disk := (gmap string (list byte)).

(** [st_room] is the number of bytes a file can hold.  Of [n] bytes that wait at
    an offset, [st_holds_back] stay in the buffer when [fwrite] returns: all or
    some of them, or none for a stream without a buffer.  After a write that
    failed the bytes not written are dropped, or with [st_retains] still wait.
    [st_can_seek] and [st_can_tell] say at which offsets of a path [fseek] and
    [ftell] succeed, and [st_readable] how far it can be read without an
    error. *)
Record Stdio := mkStdio {
  st_can_create : string -> bool;
  st_room : nat;
  st_holds_back : nat -> nat -> nat;
  st_retains : bool;
  st_can_seek : string -> nat -> bool;
  st_can_tell : string -> nat -> bool;
  st_readable : string -> nat
}.

(** A [FILE]: its path, the offset at which the bytes of its buffer belong, and
    the buffer. *)
Record Stream := mkStream { fl_path : string; fl_pos : nat; fl_buf : list byte }.

Inductive Whence := SEEK_SET | SEEK_END.

Definition content (d : Disk) (path : string) : list byte := default [] (d !! path).

Section Files.
Context (sys : Stdio).
Implicit Types (d : Disk) (f : Stream).

(** [fopen(path, "wb")] and [fopen(path, "rb")]. *)
Definition fopen_wb (path : string) d : option (Stream * Disk) :=
  if st_can_create sys path then Some (mkStream path 0 [], <[path := []]> d) else None.
Definition fopen_rb (path : string) d : option Stream := (fun _ => mkStream path 0 []) <$> d !! path.

(** The first [n] bytes of the buffer go to the file, as many as it has room
    for; fewer than [n] are a write error. *)
Definition drain (n : nat) f d : bool * Stream * Disk :=
  let out := take n (fl_buf f) in
  let k := (length out `min` (st_room sys - fl_pos f))%nat in
  let failed := bool_decide (k < length out)%nat in
  let old := content d (fl_path f) in
  (negb failed,
   mkStream (fl_path f) (fl_pos f + k)
     (if negb failed then drop n (fl_buf f) else if st_retains sys then drop k (fl_buf f) else []),
   <[fl_path f := take (fl_pos f) old ++ take k out ++ drop (fl_pos f + k) old]> d).

(** [fwrite(p, 1, n, f)]: [n], or the fewer bytes written when there was a write
    error. *)
Definition fwrite (bytes : list byte) f d : nat * Stream * Disk :=
  let waiting := fl_buf f ++ bytes in
  let n := (length waiting - st_holds_back sys (fl_pos f) (length waiting))%nat in
  let '(ok, f', d) := drain n (mkStream (fl_path f) (fl_pos f) waiting) d in
  (if ok then length bytes else (fl_pos f' - fl_pos f - length (fl_buf f))%nat, f', d).

(** [fflush(f)], and whether it succeeded. *)
Definition fflush f d : bool * Stream * Disk :=
  if bool_decide (fl_buf f = []) then (true, f, d) else drain (length (fl_buf f)) f d.
(** [fclose(f)]: what the buffer holds is written, if it can be. *)
Definition fclose f d : Disk := (fflush f d).2.

Definition fread (n : nat) f d : list byte * Stream :=
  let got := take n (drop (fl_pos f) (take (st_readable sys (fl_path f)) (content d (fl_path f)))) in
  (got, mkStream (fl_path f) (fl_pos f + length got) (fl_buf f)).

(** [fseek(f, off, whence) == 0]: the buffer is written first. *)
Definition fseek (off : nat) (whence : Whence) f d : bool * Stream * Disk :=
  let '(ok, f, d) := fflush f d in
  if negb ok then (false, f, d) else
  let origin := match whence with SEEK_SET => 0%nat | SEEK_END => length (content d (fl_path f)) end in
  if st_can_seek sys (fl_path f) (origin + off)
  then (true, mkStream (fl_path f) (origin + off) [], d) else (false, f, d).
Definition ftell f : Z :=
  let pos := (fl_pos f + length (fl_buf f))%nat in
  if st_can_tell sys (fl_path f) pos then Z.of_nat pos else -1.

(** ** The header *)

Definition kCaptureMagic : list byte :=
  [Byte.x4d; Byte.x44; Byte.x46; Byte.x48; Byte.x43; Byte.x41; Byte.x50; Byte.x31].  (* "MDFHCAP1" *)
Definition kCaptureVersion : Z := 1.
Definition kCaptureHeaderSize : nat := 24.

(** [for (i = 0; i < magic.size(); ++i) p[i] = magic[i];] *)
Fixpoint write_magic (magic : list byte) (i : nat) (p : list byte) : outcome (list byte) :=
  match magic with
  | [] => Ok p
  | b :: magic' => p ← write_byte p i b; write_magic magic' (S i) p
  end.

Definition encode_capture_header (p : list byte) (count : Z) : outcome (list byte) :=
  p ← write_magic kCaptureMagic 0 p;
  q ← store_le 4 kCaptureVersion (p, 8%nat);
  q ← store_le 4 0 q;
  q ← store_le 8 count q;
  Ok q.1.

(** ** CaptureWriter *)

Record CaptureWriter := mkCaptureWriter { cw_file : option Stream; cw_count : Z }.
Definition new_writer : CaptureWriter := mkCaptureWriter None 0.

Definition cw_close (w : CaptureWriter) d : outcome (CaptureWriter * Disk) :=
  match cw_file w with
  | None => Ok (w, d)
  | Some f =>
      hdr ← encode_capture_header (replicate kCaptureHeaderSize Byte.x00) (cw_count w);
      let '(_, f, d) := fflush f d in
      let '(ok, f, d) := fseek 0 SEEK_SET f d in
      let '(f, d) := if ok then let '(_, f, d) := fwrite hdr f d in (f, d) else (f, d) in
      Ok (mkCaptureWriter None (cw_count w), fclose f d)
  end.

Definition cw_open (path : string) (w : CaptureWriter) d : outcome (bool * CaptureWriter * Disk) :=
  r ← cw_close w d;
  let '(w, d) := (r : CaptureWriter * Disk) in
  match fopen_wb path d with
  | None => Ok (false, mkCaptureWriter None (cw_count w), d)
  | Some (f, d) =>
      hdr ← encode_capture_header (replicate kCaptureHeaderSize Byte.x00) 0;
      let '(n, f, d) := fwrite hdr f d in
      Ok (bool_decide (n = length hdr), mkCaptureWriter (Some f) 0, d)
  end.

(** [fwrite] through a null [FILE] is undefined. *)
Definition write_raw (bytes : list byte) (w : CaptureWriter) d : outcome (bool * CaptureWriter * Disk) :=
  f ← of_option (cw_file w);
  let '(n, f, d) := fwrite bytes f d in
  Ok (bool_decide (n = length bytes), mkCaptureWriter (Some f) (cw_count w), d).

(** [write(seq, ts, body)] for a body of any type. *)
Definition cw_write (p : Packet) (w : CaptureWriter) d : outcome (bool * CaptureWriter * Disk) :=
  r ← encode_packet (replicate kMaxMessageSize Byte.x00) p;
  let '(n, buf) := (r : nat * list byte) in
  if bool_decide (n = 0)%nat then Ok (false, w, d) else
  bytes ← subspan buf 0 n;
  r ← write_raw bytes w d;
  let '(ok, w, d) := (r : bool * CaptureWriter * Disk) in
  Ok (if ok then (true, mkCaptureWriter (cw_file w) (incr64 (cw_count w)), d) else (false, w, d)).

Fixpoint cw_write_all (ps : list Packet) (w : CaptureWriter) d : outcome (list bool * CaptureWriter * Disk) :=
  match ps with
  | [] => Ok ([], w, d)
  | p :: ps' =>
      r ← cw_write p w d;
      r' ← cw_write_all ps' r.1.2 r.2;
      Ok (r.1.1 :: r'.1.1, r'.1.2, r'.2)
  end.

(** ** CaptureReader *)

Record CaptureReader := mkCaptureReader {
  cr_bytes : list byte;
  cr_count : Z;
  cr_valid : bool;
  cr_error : string
}.
Definition new_reader : CaptureReader := mkCaptureReader [] 0 false "".

Definition set_error (e : string) (r : CaptureReader) : CaptureReader :=
  mkCaptureReader (cr_bytes r) (cr_count r) false e.

(** [for (i...) if (hdr[i] != magic[i]) ...] *)
Fixpoint magic_matches (magic : list byte) (i : nat) (hdr : list byte) : outcome bool :=
  match magic with
  | [] => Ok true
  | m :: magic' =>
      b ← of_option (hdr !! i);
      if bool_decide (b <> m) then Ok false else magic_matches magic' (S i) hdr
  end.

(** [bytes_.resize(n)]. *)
Definition vector_resize (n : nat) (bytes : list byte) : list byte :=
  take n bytes ++ replicate (n - length bytes) Byte.x00.

Definition cr_open (path : string) (r : CaptureReader) d : outcome (bool * CaptureReader) :=
  match fopen_rb path d with
  | None => Ok (false, set_error "cannot open file" r)
  | Some f =>
      let '(hdr, f) := fread kCaptureHeaderSize f d in
      if bool_decide (length hdr <> kCaptureHeaderSize)
      then Ok (false, set_error "file smaller than header" r) else
      same ← magic_matches kCaptureMagic 0 hdr;
      if negb same then Ok (false, set_error "bad magic" r) else
      count ← load_le 8 hdr 16;
      let r := mkCaptureReader (cr_bytes r) count false "" in
      let '(sought, f, d) := fseek 0 SEEK_END f d in
      if negb sought then Ok (false, set_error "seek failed" r) else
      let stop := ftell f in
      if bool_decide (stop < Z.of_nat kCaptureHeaderSize) then Ok (false, set_error "truncated" r) else
      let body := (Z.to_nat stop - kCaptureHeaderSize)%nat in
      let '(_, f, d) := fseek kCaptureHeaderSize SEEK_SET f d in
      let '(got, _) := fread body f d in
      let r := mkCaptureReader (got ++ drop (length got) (vector_resize body (cr_bytes r))) count false "" in
      if bool_decide (length got <> body) then Ok (false, set_error "short read" r)
      else Ok (true, mkCaptureReader (cr_bytes r) count true "")
  end.
End Files.

(** ** The header's bytes *)

Definition header_bytes (count : Z) : list byte :=
  kCaptureMagic ++ fields_bytes [(4%nat, kCaptureVersion); (4%nat, 0); (8%nat, count)].

Lemma length_header_bytes count : length (header_bytes count) = kCaptureHeaderSize.
Proof. unfold header_bytes. by rewrite length_app, length_fields_bytes. Qed.

Lemma encode_capture_header_spec count :
  encode_capture_header (replicate kCaptureHeaderSize Byte.x00) count = Ok (header_bytes count).
Proof.
  unfold encode_capture_header.
  change (write_magic kCaptureMagic 0 (replicate kCaptureHeaderSize Byte.x00))
    with (Ok (kCaptureMagic ++ replicate 16 Byte.x00)). rewrite bind_ok.
  pose proof (stores_spec [(4%nat, kCaptureVersion); (4%nat, 0); (8%nat, count)]
    (kCaptureMagic ++ replicate 16 Byte.x00) 8 ltac:(done)) as E.
  cbn [stores fst snd] in E.
  destruct (store_le 4 kCaptureVersion _) as [q1| | |]; [|discriminate E..]. cbn [mbind outcome_bind] in E |- *.
  destruct (store_le 4 0 q1) as [q2| | |]; [|discriminate E..]. cbn [mbind outcome_bind] in E |- *.
  destruct (store_le 8 count q2); [|discriminate E..]. by injection E as ->.
Qed.

(** ** Appending to a file *)

Section Writing.
Context (sys : Stdio).
Implicit Types (d : Disk).

Notation room := (st_room sys).

Lemma content_insert path bytes d : content (<[path := bytes]> d) path = bytes.
Proof. unfold content. by rewrite lookup_insert_eq. Qed.

(** [data] has been handed to a new file [path] of the disk [d0].  Its beginning
    is in the file; the rest waits in the buffer, unless the device is full and
    bytes have been lost. *)
Record appended (path : string) (d0 : Disk) (data : list byte) (f : Stream) d : Prop := mkAppended {
  ap_path : fl_path f = path;
  ap_room : (fl_pos f <= room)%nat;
  ap_pos : (fl_pos f <= length data)%nat;
  ap_disk : d = <[path := take (fl_pos f) data]> d0;
  ap_buf : fl_buf f = drop (fl_pos f) data \/
           st_retains sys = false /\ fl_pos f = room /\ (room < length data)%nat
}.

(** What has been lost is lost for more data, too. *)
Lemma appended_more path d0 data bytes f d :
  appended path d0 data f d ->
  appended path d0 (data ++ bytes) (mkStream path (fl_pos f) (fl_buf f ++ bytes)) d.
Proof.
  intros [Hp Hr Hl Hd Hb]. split; cbn [fl_path fl_pos fl_buf]; [done|done|rewrite length_app; lia| |].
  - by rewrite take_app_le.
  - rewrite length_app. destruct Hb as [->|(? & ? & ?)]; [left; by rewrite drop_app_le|right; split_and!; try done; lia].
Qed.

(** Writing out a part of the buffer: it succeeds when all data fit. *)
Lemma drain_appended n path d0 data f d :
  appended path d0 data f d ->
  exists ok f' d', drain sys n f d = (ok, f', d') /\ appended path d0 data f' d' /\
    (fl_pos f <= fl_pos f')%nat /\
    (ok = true -> fl_pos f' = (fl_pos f + length (take n (fl_buf f)))%nat /\ fl_buf f' = drop n (fl_buf f)) /\
    (ok = false -> fl_pos f' = room /\ (room < fl_pos f + length (take n (fl_buf f)))%nat /\
       (room < length data)%nat /\ fl_buf f' = if st_retains sys then drop (room - fl_pos f) (fl_buf f) else []).
Proof.
  intros [<- Hr Hl -> Hb]. unfold drain. rewrite content_insert, insert_insert_eq.
  set (out := take n (fl_buf f)). set (k := (length out `min` (room - fl_pos f))%nat).
  assert (length (take (fl_pos f) data) = fl_pos f) as Hlen by (rewrite length_take; lia).
  assert (length out <= n /\ length out <= length (fl_buf f))%nat as [Hn Ho] by (unfold out; rewrite length_take; lia).
  rewrite (take_ge (take (fl_pos f) data)), (drop_ge (take (fl_pos f) data)), app_nil_r by lia.
  eexists _, _, _. split; [reflexivity|]. cbn [fl_path fl_pos fl_buf].
  assert (take k out = take k (fl_buf f)) as Hk.
  { unfold out. rewrite take_take. f_equal. unfold k. lia. }
  assert (fl_pos f = room -> k = 0%nat) as Hfull by (unfold k; lia).
  split; [split; cbn [fl_path fl_pos fl_buf]|].
  - done.
  - unfold k. lia.
  - destruct Hb as [Hb|(_ & Hpos & _)]; [|rewrite Hfull by done; lia].
    rewrite Hb, length_drop in Ho. unfold k. lia.
  - f_equal. destruct Hb as [Hb|(_ & Hpos & _)].
    + by rewrite Hk, Hb, take_take_drop.
    + rewrite Hfull by done. cbn [take]. by rewrite app_nil_r, Nat.add_0_r.
  - destruct Hb as [Hb|(Hret & Hpos & Hlt)]; [|right; rewrite Hfull by done; split_and!; try done; lia].
    case_bool_decide as Hfail; cbn [negb].
    + destruct (st_retains sys); [left; by rewrite Hb, drop_drop|].
      right. rewrite Hb, length_drop in Ho. split_and!; [done|unfold k in *; lia|unfold k in *; lia].
    + left. assert (k = length out) as -> by (unfold k in *; lia). rewrite Hb, <- drop_drop.
      unfold out. rewrite length_take, <- Hb. destruct (decide (n <= length (fl_buf f))%nat).
      * by rewrite Nat.min_l by lia.
      * rewrite Nat.min_r by lia. by rewrite !drop_ge by lia.
  - split; [lia|]. split.
    + intros Hok%negb_true_iff%bool_decide_eq_false. split; [unfold k in *; lia|].
      by rewrite bool_decide_eq_false_2 by lia.
    + intros Hok%negb_false_iff%bool_decide_eq_true. rewrite bool_decide_eq_true_2 by done. cbn [negb].
      split; [unfold k in *; lia|]. split; [unfold k in *; lia|]. split.
      * destruct Hb as [Hb|(_ & _ & ?)]; [|done]. rewrite Hb, length_drop in Ho. unfold k in *. lia.
      * destruct (st_retains sys); [|done]. f_equal. unfold k in *. lia.
Qed.

(** [fwrite] reports all bytes written at least as long as they fit. *)
Lemma fwrite_appended path d0 data bytes f d :
  appended path d0 data f d ->
  exists n f' d', fwrite sys bytes f d = (n, f', d') /\ appended path d0 (data ++ bytes) f' d' /\
    ((length (data ++ bytes) <= room)%nat -> n = length bytes).
Proof.
  intros Ha. pose proof (appended_more _ _ _ bytes _ _ Ha) as Ha'. unfold fwrite. cbn zeta.
  rewrite (ap_path _ _ _ _ _ Ha).
  destruct (drain_appended (length (fl_buf f ++ bytes) - st_holds_back sys (fl_pos f) (length (fl_buf f ++ bytes)))
    _ _ _ _ _ Ha') as (ok & f' & d' & -> & H & _ & _ & Hfail).
  eexists _, f', d'. split; [reflexivity|]. split; [done|]. intros Hfit.
  destruct ok; [done|]. destruct (Hfail eq_refl) as (_ & _ & ? & _). lia.
Qed.

(** After [fflush] what fits is in the file; it fails if bytes are left over,
    and with an empty buffer has nothing to do. *)
Lemma fflush_appended path d0 data f d :
  appended path d0 data f d ->
  exists ok f' d', fflush sys f d = (ok, f', d') /\ appended path d0 data f' d' /\
    fl_pos f' = (length data `min` room)%nat /\ (ok = true -> fl_buf f' = []) /\
    ((length data <= room)%nat -> ok = true) /\
    ((room < length data)%nat -> if st_retains sys then ok = false else fl_buf f' = []).
Proof.
  intros Ha. pose proof Ha as [Hp Hr Hl Hd Hb]. unfold fflush. case_bool_decide as Hempty.
  - eexists _, _, _. split; [reflexivity|]. split; [done|]. rewrite Hempty in *.
    assert (fl_pos f = (length data `min` room)%nat) as Hpos.
    { destruct Hb as [Hb|(_ & ? & ?)]; [|lia]. apply (f_equal length) in Hb. rewrite length_drop in Hb. cbn in Hb. lia. }
    split; [done|]. split; [done|]. split; [done|]. intros Hlt. destruct (st_retains sys); [|done].
    destruct Hb as [Hb|[? _]]; [|done]. apply (f_equal length) in Hb. rewrite length_drop in Hb. cbn in Hb. lia.
  - destruct (drain_appended (length (fl_buf f)) _ _ _ _ _ Ha) as (ok & f' & d' & E & Ha' & _ & Hok & Hfail).
    rewrite take_ge in Hok, Hfail by done. eexists _, _, _. split; [exact E|]. split; [done|].
    pose proof Ha' as [_ Hr' Hl' _ _].
    destruct ok.
    + destruct (Hok eq_refl) as [Hpos Hbuf]. rewrite drop_ge in Hbuf by done. split; [|split_and!; try done].
      * destruct Hb as [Hb|(_ & ? & ?)]; [|lia]. apply (f_equal length) in Hb. rewrite length_drop in Hb. lia.
      * intros Hlt. destruct (st_retains sys) eqn:Hret; [|done]. destruct Hb as [Hb|[? _]]; [|done].
        apply (f_equal length) in Hb. rewrite length_drop in Hb. lia.
    + destruct (Hfail eq_refl) as (Hpos & _ & Hlt & Hbuf). split; [lia|]. split; [done|]. split; [lia|].
      intros _. by destruct (st_retains sys).
Qed.

(** A stream on a new file, and a file closed. *)
Lemma appended_new path d : appended path d [] (mkStream path 0 []) (<[path := []]> d).
Proof. split; cbn; [done|lia|lia|done|by left]. Qed.

Lemma fclose_appended path d0 data f d :
  appended path d0 data f d -> fclose sys f d = <[path := take room data]> d0.
Proof.
  intros Ha. unfold fclose. destruct (fflush_appended _ _ _ _ _ Ha) as (ok & f' & d' & -> & Ha' & Hpos & _).
  cbn [snd]. rewrite (ap_disk _ _ _ _ _ Ha'), Hpos. f_equal.
  by rewrite <- take_take, take_ge by (rewrite length_take; lia).
Qed.

(** Overwriting: with room for the bytes, all of them are in the file after
    [fclose], however they were buffered. *)
Lemma overwrite bytes path d0 old k f d :
  (length bytes <= room)%nat -> fwrite sys bytes (mkStream path 0 []) (<[path := old]> d0) = (k, f, d) ->
  fclose sys f d = <[path := bytes ++ drop (length bytes) old]> d0.
Proof.
  intros Hfit. unfold fwrite, drain. cbn [fl_path fl_pos fl_buf app]. rewrite content_insert, Nat.sub_0_r.
  set (n := (length bytes - _)%nat). assert (n <= length bytes)%nat as Hn by lia.
  rewrite length_take, !Nat.min_l, bool_decide_eq_false_2 by lia. cbn [negb fst snd].
  rewrite take_0, app_nil_l, !Nat.add_0_l, take_take, Nat.min_id, insert_insert_eq.
  intros [= _ <- <-]. unfold fclose, fflush. cbn [fl_buf]. case_bool_decide as He; cbn [snd].
  - assert (n = length bytes) as -> by (apply (f_equal length) in He; rewrite length_drop in He; cbn in He; lia).
    by rewrite firstn_all.
  - unfold drain. cbn [fl_path fl_pos fl_buf snd]. rewrite content_insert, insert_insert_eq, length_drop. f_equal.
    rewrite (take_ge (drop n bytes)), length_drop, Nat.min_l by (rewrite ?length_drop; lia).
    rewrite (take_ge (drop n bytes)) by (rewrite length_drop; lia).
    rewrite take_app_length' by (rewrite length_take; lia). rewrite app_assoc, take_drop. f_equal.
    rewrite drop_app, length_take, drop_ge by (rewrite length_take; lia). rewrite app_nil_l, drop_drop.
    f_equal. lia.
Qed.
(** ** Writing messages *)

(** How many of the messages lie whole in the first [free] bytes. *)
Fixpoint fits (free : nat) (ps : list Packet) : nat :=
  match ps with
  | [] => 0
  | p :: ps' => if bool_decide (packet_size p <= free)%nat then S (fits (free - packet_size p) ps') else 0
  end.

(** How many calls reported success. *)
Definition reported (oks : list bool) : nat := length (List.filter (fun ok : bool => ok) oks).

Lemma packet_size_bounds p : (0 < packet_size p <= kMaxMessageSize)%nat.
Proof.
  unfold packet_size, kMaxMessageSize. pose proof (body_size_for_max (body_type (pk_body p))).
  unfold_sizes. lia.
Qed.

Lemma cw_write_spec path d0 p count data f d :
  packet_ok p -> appended path d0 data f d ->
  exists (ok : bool) f' d',
    cw_write sys p (mkCaptureWriter (Some f) count) d =
      Ok (ok, mkCaptureWriter (Some f') (if ok then incr64 count else count), d') /\
    appended path d0 (data ++ packet_bytes p) f' d' /\
    ((length data + packet_size p <= room)%nat -> ok = true).
Proof.
  intros Hp Ha. pose proof (packet_size_bounds p) as Hsz. unfold cw_write.
  rewrite encode_packet_fits, bind_ok by (done || (rewrite length_replicate; lia)).
  rewrite bool_decide_eq_false_2 by lia.
  rewrite subspan_ok, bind_ok by (rewrite length_app, length_packet_bytes by done; lia).
  rewrite drop_0, take_app_length' by (by rewrite length_packet_bytes).
  destruct (fwrite_appended path d0 data (packet_bytes p) f d Ha) as (n & f' & d' & E & Ha' & Hn).
  rewrite length_app, length_packet_bytes in Hn by done.
  eexists _, f', d'. split; [|split; [exact Ha'|]].
  - unfold write_raw. cbn [cw_file of_option]. rewrite bind_ok, E, bind_ok. cbn [cw_count].
    rewrite length_packet_bytes by done.
    instantiate (1 := bool_decide (n = packet_size p)). by case_bool_decide.
  - intros Hfit%Hn. by rewrite bool_decide_eq_true_2.
Qed.

Lemma cw_write_all_spec path d0 ps count data f d :
  Forall packet_ok ps -> in_unsigned 64 count -> appended path d0 data f d ->
  exists oks f' d',
    cw_write_all sys ps (mkCaptureWriter (Some f) count) d =
      Ok (oks, mkCaptureWriter (Some f') (add64 count (Z.of_nat (reported oks))), d') /\
    appended path d0 (data ++ stream_bytes ps) f' d' /\ length oks = length ps /\
    let n := fits (room - length data)%nat ps in take n oks = replicate n true.
Proof.
  cbv zeta. intros Hps. revert count data f d; induction Hps as [|p ps Hp _ IH]; intros count data f d Hc Ha.
  - exists [], f, d. unfold add64. cbn. by rewrite Z.add_0_r, wrap_small, app_nil_r.
  - destruct (cw_write_spec path d0 p count data f d Hp Ha) as (ok & f1 & d1 & E1 & Ha1 & Hok).
    cbn [cw_write_all]. rewrite E1, bind_ok. cbn [fst snd].
    edestruct (IH (if ok then incr64 count else count)) as (oks & f2 & d2 & E2 & Ha2 & Hlen & Hoks); [|exact Ha1|].
    { destruct ok; [apply wrap_range; lia|done]. }
    rewrite E2, bind_ok. cbn [fst snd]. exists (ok :: oks), f2, d2.
    rewrite length_app, length_packet_bytes, Nat.sub_add_distr in Hoks by done. split_and!.
    + unfold reported. destruct ok; cbn [List.filter]; [|done]. by rewrite add64_incr.
    + unfold stream_bytes in *. cbn [map concat]. by rewrite app_assoc.
    + cbn. by rewrite Hlen.
    + cbn [fits]. case_bool_decide as Hfit; [|done]. pose proof (packet_size_bounds p).
      cbn [take replicate]. by rewrite Hok, Hoks by lia.
Qed.

(** ** Closing *)

(** Whether [close] gets to patch the count into the header, [n] being the bytes
    handed to the file: the file can be sought in, and nothing waits that cannot
    be written. *)
Definition patches_header (path : string) (n : nat) : bool :=
  st_can_seek sys path 0 && (negb (st_retains sys) || bool_decide (n <= room)%nat).

Lemma seek_start path d0 data f d :
  appended path d0 data f d ->
  let r := fflush sys f d in
  exists f' d', fseek sys 0 SEEK_SET r.1.2 r.2 = (patches_header path (length data), f', d') /\
    if patches_header path (length data)
    then f' = mkStream path 0 [] /\ d' = <[path := take room data]> d0 else appended path d0 data f' d'.
Proof.
  intros Ha. cbv zeta. destruct (fflush_appended _ _ _ _ _ Ha) as (ok & f1 & d1 & -> & Ha1 & Hpos1 & Hbuf1 & Hfit1 & Hlost1).
  cbn [fst snd]. unfold fseek. destruct (fflush_appended _ _ _ _ _ Ha1) as (ok2 & f2 & d2 & E2 & Ha2 & Hpos2 & _ & Hfit2 & Hlost2).
  rewrite E2. unfold patches_header.
  assert (ok2 = negb (st_retains sys) || bool_decide (length data <= room)%nat) as ->.
  { case_bool_decide as Hfit; [rewrite orb_true_r; by apply Hfit2|]. rewrite orb_false_r.
    specialize (Hlost1 ltac:(lia)). specialize (Hlost2 ltac:(lia)). destruct (st_retains sys); [done|].
    unfold fflush in E2. rewrite bool_decide_eq_true_2 in E2 by done. by injection E2. }
  destruct (_ || _); cbn [negb]; [|rewrite andb_false_r; by eexists _, _].
  rewrite (ap_path _ _ _ _ _ Ha2), Nat.add_0_l, andb_true_r. destruct (st_can_seek sys path 0); [|by eexists _, _].
  eexists _, _. split; [done|]. split; [done|]. rewrite (ap_disk _ _ _ _ _ Ha2), Hpos2. f_equal.
  by rewrite <- take_take, take_ge by (rewrite length_take; lia).
Qed.
End Writing.

(** ** Reading *)

Lemma magic_matches_spec magic i hdr :
  (i + length magic <= length hdr)%nat ->
  magic_matches magic i hdr = Ok (bool_decide (take (length magic) (drop i hdr) = magic)).
Proof.
  revert i; induction magic as [|m magic IH]; intros i Hlen; [done|]. cbn [magic_matches length] in *.
  destruct (lookup_lt_is_Some_2 hdr i ltac:(lia)) as [b Hb]. rewrite Hb. cbn [of_option]. rewrite bind_ok.
  rewrite (drop_S _ _ _ Hb). cbn [take]. case_bool_decide as E.
  - by rewrite bool_decide_eq_false_2 by congruence.
  - rewrite IH by lia. f_equal. apply bool_decide_ext. split; [intros ->; f_equal; by destruct (decide (b = m))|congruence].
Qed.

(** What a file's bytes make of the reader. *)
Definition opened (bytes : list byte) : CaptureReader :=
  mkCaptureReader (drop kCaptureHeaderSize bytes) (le_val (take 8 (drop 16 bytes))) true "".

(** How many bytes of the message region are read: none when the stream is
    still at the end of the file. *)
Definition body_read (sys : Stdio) (path : string) (bytes : list byte) : nat :=
  if st_can_seek sys path kCaptureHeaderSize
  then ((length bytes `min` st_readable sys path) - kCaptureHeaderSize)%nat else 0%nat.

(** Why a file is refused, or [None]. *)
Definition open_error (sys : Stdio) (path : string) (file : option (list byte)) : option string :=
  match file with
  | None => Some "cannot open file"%string
  | Some bytes =>
      if bool_decide (length bytes `min` st_readable sys path < kCaptureHeaderSize)%nat
      then Some "file smaller than header"%string
      else if bool_decide (take 8 bytes <> kCaptureMagic) then Some "bad magic"%string
      else if negb (st_can_seek sys path (length bytes)) then Some "seek failed"%string
      else if negb (st_can_tell sys path (length bytes)) then Some "truncated"%string
      else if bool_decide (body_read sys path bytes <> length bytes - kCaptureHeaderSize)%nat
      then Some "short read"%string
      else None
  end.

(** Seeking with nothing in the buffer. *)
Lemma fseek_empty sys off whence path pos (d : Disk) :
  let target := match whence with SEEK_SET => off | SEEK_END => (length (content d path) + off)%nat end in
  fseek sys off whence (mkStream path pos []) d =
  (st_can_seek sys path target, mkStream path (if st_can_seek sys path target then target else pos) [], d).
Proof. destruct whence; unfold fseek, fflush; cbn; by destruct (st_can_seek _ _ _). Qed.

Lemma cr_open_spec sys path r (d : Disk) :
  exists r', cr_open sys path r d = Ok (bool_decide (open_error sys path (d !! path) = None), r') /\
    match open_error sys path (d !! path) with
    | Some e => cr_valid r' = false /\ cr_error r' = e
    | None => exists bytes, d !! path = Some bytes /\ r' = opened bytes
    end.
Proof.
  unfold cr_open, fopen_rb. destruct (d !! path) as [bytes|] eqn:Hd; [|by eexists].
  assert (content d path = bytes) as Hc by (unfold content; by rewrite Hd).
  cbn [fmap option_fmap option_map open_error]. unfold fread at 1. cbn [fl_path fl_pos fl_buf]. rewrite Hc, drop_0.
  set (limit := st_readable sys path). rewrite !length_take. unfold kCaptureHeaderSize.
  destruct (decide (length bytes `min` limit < 24)%nat) as [Hs|Hs].
  { rewrite (bool_decide_eq_true_2 (_ <> _)) by lia. rewrite (bool_decide_eq_true_2 (_ < 24)%nat) by lia. by eexists. }
  rewrite (bool_decide_eq_false_2 (_ <> 24%nat)) by lia. rewrite (bool_decide_eq_false_2 (_ < 24)%nat) by lia.
  assert (take 24 (take limit bytes) = take 24 bytes) as Hhdr by (rewrite take_take; f_equal; lia).
  rewrite Hhdr, magic_matches_spec by (rewrite length_take; change (length kCaptureMagic) with 8%nat; lia).
  rewrite bind_ok, drop_0, take_take. change (length kCaptureMagic `min` 24)%nat with 8%nat.
  destruct (decide (take 8 bytes = kCaptureMagic)) as [Hmagic|Hmagic].
  2:{ rewrite (bool_decide_eq_false_2 (_ = kCaptureMagic)), (bool_decide_eq_true_2 (_ <> kCaptureMagic)) by done.
      by eexists. }
  rewrite (bool_decide_eq_true_2 (_ = kCaptureMagic)), (bool_decide_eq_false_2 (_ <> kCaptureMagic)) by tauto.
  cbn [negb].
  rewrite load_le_spec by (rewrite length_take; lia). rewrite bind_ok.
  rewrite fseek_empty, Hc, !Nat.add_0_r.
  destruct (st_can_seek sys path (length bytes)); cbn [negb]; [|by eexists].
  unfold ftell. cbn [fl_buf fl_path fl_pos length]. rewrite Nat.add_0_r.
  destruct (st_can_tell sys path (length bytes)); cbn [negb]; [|by eexists].
  rewrite (bool_decide_eq_false_2 (_ < _)), Nat2Z.id, fseek_empty by lia. unfold fread, body_read, kCaptureHeaderSize.
  cbn [cr_bytes cr_count fl_path fl_pos]. fold limit. rewrite Hc, length_take, length_drop, length_take.
  destruct (st_can_seek sys path 24).
  - replace ((length bytes - 24) `min` (limit `min` length bytes - 24))%nat with (length bytes `min` limit - 24)%nat by lia.
    case_bool_decide as Hshort; [by eexists|]. eexists. split; [reflexivity|]. exists bytes. split; [done|].
    unfold opened. f_equal.
    + rewrite (take_ge bytes) by lia. rewrite (take_ge (drop 24 bytes)) by (rewrite length_drop; lia).
      rewrite (drop_ge (vector_resize _ _)), app_nil_r; [done|].
      unfold vector_resize. rewrite length_app, length_take, length_replicate. lia.
    + change 24%nat with (16 + 8)%nat. by rewrite <- take_drop_commute, take_take.
  - replace ((length bytes - 24) `min` (limit `min` length bytes - length bytes))%nat with 0%nat by lia.
    case_bool_decide as Hshort; [by eexists|]. eexists. split; [reflexivity|]. exists bytes. split; [done|].
    unfold opened. rewrite (drop_ge (take limit bytes)), take_nil by (rewrite length_take; lia). f_equal.
    + unfold vector_resize. replace (length bytes - 24)%nat with 0%nat by lia. by rewrite (drop_ge bytes) by (unfold kCaptureHeaderSize; lia).
    + change 24%nat with (16 + 8)%nat. by rewrite <- take_drop_commute, take_take.
Qed.

(** A file that can be read whole. *)
Definition intact (sys : Stdio) (path : string) (bytes : list byte) : Prop :=
  (length bytes <= st_readable sys path)%nat /\ st_can_seek sys path (length bytes) = true /\
  st_can_tell sys path (length bytes) = true /\ st_can_seek sys path kCaptureHeaderSize = true.

Lemma open_intact sys path bytes :
  intact sys path bytes -> (kCaptureHeaderSize <= length bytes)%nat -> take 8 bytes = kCaptureMagic ->
  open_error sys path (Some bytes) = None.
Proof.
  intros (Hread & Hend & Htell & Hstart) Hlen Hmagic. unfold open_error, body_read. rewrite Hend, Htell, Hstart.
  rewrite !bool_decide_eq_false_2; [done|lia|tauto|lia].
Qed.

(** ** A stream cut by a full device *)

Lemma scan_cut_stream free ps off :
  Forall packet_ok ps ->
  sc_events (scan_at off (take free (stream_bytes ps))) = map packet_event (take (fits free ps) ps).
Proof.
  intros Hps. revert free off; induction Hps as [|p ps Hp _ IH]; intros free off.
  { unfold stream_bytes. cbn [map concat]. by rewrite take_nil. }
  unfold stream_bytes in *. cbn [map concat fits]. case_bool_decide as Hfit.
  - rewrite take_app, length_packet_bytes, take_ge by (try rewrite length_packet_bytes; done).
    rewrite scan_at_eq, classify_packet by done. cbn zeta. cbn [sc_events take map].
    rewrite <- (length_packet_bytes p) at 2 by done. rewrite drop_app_length. by rewrite IH.
  - rewrite take_app_le by (rewrite length_packet_bytes by done; lia).
    rewrite scan_at_eq, (classify_tail p); [|done|apply prefix_take|rewrite length_take; lia].
    by case_bool_decide.
Qed.

(** ** The theorems *)

Section Session.
Context (sys : Stdio).
Implicit Types (d : Disk).
Notation room := (st_room sys).

(** Opening a path on a new writer. *)
Lemma cw_open_new path d :
  st_can_create sys path = true ->
  exists ok f d', cw_open sys path new_writer d = Ok (ok, mkCaptureWriter (Some f) 0, d') /\
    appended sys path d (header_bytes 0) f d' /\ ((kCaptureHeaderSize <= room)%nat -> ok = true).
Proof.
  intros Hcan. unfold cw_open, cw_close. cbn [cw_file new_writer]. rewrite bind_ok.
  unfold fopen_wb. rewrite Hcan. cbn zeta beta iota. rewrite encode_capture_header_spec, bind_ok.
  destruct (fwrite_appended sys path d [] (header_bytes 0) _ _ (appended_new sys path d)) as (n & f & d' & -> & Ha & Hn).
  eexists _, f, d'. split; [reflexivity|]. split; [exact Ha|]. intros Hroom. apply bool_decide_eq_true_2, Hn.
  cbn [app]. by rewrite length_header_bytes.
Qed.

(** Closing never fails and leaves no file open. *)
Lemma cw_close_total w d : exists w' d', cw_close sys w d = Ok (w', d') /\ cw_file w' = None.
Proof.
  unfold cw_close. destruct (cw_file w) as [f|] eqn:Hf; [|by exists w, d].
  rewrite encode_capture_header_spec, bind_ok.
  destruct (fflush sys f d) as [[? f1] d1]. destruct (fseek sys 0 SEEK_SET f1 d1) as [[ok f2] d2].
  destruct ok; [|by eexists _, _]. destruct (fwrite sys _ f2 d2) as [[? f3] d3]. by eexists _, _.
Qed.

(** Open, write, close: the file afterwards. *)
Lemma session_file path ps d :
  st_can_create sys path = true -> (kCaptureHeaderSize <= room)%nat -> Forall packet_ok ps ->
  let free := (room - kCaptureHeaderSize)%nat in
  exists w1 d1 oks w2 d2 d3,
    cw_open sys path new_writer d = Ok (true, w1, d1) /\
    cw_write_all sys ps w1 d1 = Ok (oks, w2, d2) /\
    length oks = length ps /\ take (fits free ps) oks = replicate (fits free ps) true /\
    let count := wrap 64 (Z.of_nat (reported oks)) in
    cw_close sys w2 d2 = Ok (mkCaptureWriter None count, d3) /\
    d3 = <[path := header_bytes
        (if patches_header sys path (kCaptureHeaderSize + length (stream_bytes ps)) then count else 0) ++
      take free (stream_bytes ps)]> d.
Proof.
  cbn zeta. intros Hcan Hroom Hps.
  destruct (cw_open_new path d Hcan) as (ok1 & f1 & d1 & E1 & Ha1 & Hok1). rewrite Hok1 in E1 by done.
  destruct (cw_write_all_spec sys path d ps 0 _ f1 d1 Hps ltac:(unfold in_unsigned; lia) Ha1)
    as (oks & f2 & d2 & E2 & Ha2 & Hlen & Hoks).
  rewrite length_header_bytes in Hoks.
  eexists _, d1, oks, _, d2, _. split; [exact E1|]. split; [exact E2|]. split; [done|]. split; [done|].
  cbv zeta. split; [|reflexivity]. unfold cw_close. cbn [cw_file cw_count]. rewrite encode_capture_header_spec, bind_ok.
  pose proof (seek_start sys path d _ f2 d2 Ha2) as Hseek.
  destruct (fflush sys f2 d2) as [[ok f3] d3]. cbn [fst snd] in Hseek. destruct Hseek as (f4 & d4 & -> & Hf4).
  rewrite length_app, length_header_bytes in *.
  assert (take room (header_bytes 0 ++ stream_bytes ps) =
    header_bytes 0 ++ take (room - kCaptureHeaderSize) (stream_bytes ps)) as Htake.
  { by rewrite take_app, length_header_bytes, take_ge by (by rewrite length_header_bytes). }
  destruct (patches_header _ _ _).
  - destruct Hf4 as [-> ->].
    match goal with |- context [fwrite ?a ?b ?c ?e] => destruct (fwrite a b c e) as [[n5 f5] d5] eqn:E5 end.
    rewrite (overwrite sys _ _ _ _ _ _ _ ltac:(by rewrite length_header_bytes) E5), Htake, length_header_bytes.
    by rewrite drop_app_length' by (by rewrite length_header_bytes).
  - by rewrite (fclose_appended _ _ _ _ _ _ Hf4), Htake.
Qed.

(** A session in any case: it opens or not, and then runs to its end. *)
Lemma session_runs path ps d :
  Forall packet_ok ps ->
  exists ok w1 d1, cw_open sys path new_writer d = Ok (ok, w1, d1) /\
    if ok then
      st_can_create sys path = true /\
      exists oks w2 d2 w3 d3, cw_write_all sys ps w1 d1 = Ok (oks, w2, d2) /\
        length oks = length ps /\ cw_close sys w2 d2 = Ok (w3, d3) /\ cw_file w3 = None /\
        ((kCaptureHeaderSize <= room)%nat ->
         let count := wrap 64 (Z.of_nat (reported oks)) in
         take (fits (room - kCaptureHeaderSize) ps) oks = replicate (fits (room - kCaptureHeaderSize) ps) true /\
         d3 = <[path := header_bytes
             (if patches_header sys path (kCaptureHeaderSize + length (stream_bytes ps)) then count else 0) ++
           take (room - kCaptureHeaderSize) (stream_bytes ps)]> d)
    else st_can_create sys path = false \/ (room < kCaptureHeaderSize)%nat.
Proof.
  intros Hps. destruct (st_can_create sys path) eqn:Hcan.
  2:{ unfold cw_open, fopen_wb. rewrite Hcan. cbn. eexists false, _, _. split; [reflexivity|by left]. }
  destruct (cw_open_new path d Hcan) as (ok & f1 & d1 & E1 & Ha1 & Hok1). exists ok, (mkCaptureWriter (Some f1) 0), d1.
  split; [exact E1|]. destruct ok.
  2:{ right. destruct (decide (kCaptureHeaderSize <= room)%nat) as [H|H]; [by apply Hok1 in H|lia]. }
  split; [done|].
  destruct (cw_write_all_spec sys path d ps 0 _ f1 d1 Hps ltac:(unfold in_unsigned; lia) Ha1)
    as (oks & f2 & d2 & E2 & _ & Hlen & Hoks).
  rewrite length_header_bytes in Hoks.
  destruct (cw_close_total (mkCaptureWriter (Some f2) (add64 0 (Z.of_nat (reported oks)))) d2) as (w3 & d3 & E3 & Hw3).
  eexists oks, _, d2, w3, d3. split; [exact E2|]. split; [exact Hlen|].
  split; [exact E3|]. split; [exact Hw3|]. intros Hroom.
  split; [exact Hoks|].
  destruct (session_file path ps d Hcan Hroom Hps) as (w1' & d1' & oks' & w2' & d2' & d3' & F1 & F2 & _ & _ & F3 & Hd3).
  rewrite E1 in F1. injection F1 as <- <-. rewrite E2 in F2. injection F2 as <- <- <-.
  rewrite E3 in F3. by injection F3 as _ ->.
Qed.
End Session.

(** A regular file on a working device: it can be sought in and read as far as
    the device holds it. *)
Definition regular (sys : Stdio) (path : string) : Prop :=
  (st_room sys <= st_readable sys path)%nat /\
  forall pos, (pos <= st_room sys)%nat -> st_can_seek sys path pos = true /\ st_can_tell sys path pos = true.

Lemma regular_intact sys path bytes :
  regular sys path -> (kCaptureHeaderSize <= length bytes <= st_room sys)%nat -> intact sys path bytes.
Proof.
  intros [Hread Hpos] Hlen. split; [lia|]. destruct (Hpos (length bytes)), (Hpos kCaptureHeaderSize); try done; lia.
Qed.

Lemma fits_all free ps :
  Forall packet_ok ps -> (length (stream_bytes ps) <= free)%nat -> fits free ps = length ps.
Proof.
  intros Hps Hfit. revert free Hfit; induction Hps as [|p ps Hp _ IH]; intros free Hfit; [done|].
  unfold stream_bytes in *. cbn [map concat fits length] in *. rewrite length_app, length_packet_bytes in Hfit by done.
  by rewrite bool_decide_eq_true_2, IH by lia.
Qed.

(** C40: a capture round trip through buffered files on a device with [st_room]
    bytes, whenever the C library writes its buffers out.  A session that opens
    a file, writes messages and closes it reports success at least for the
    messages that fit; the reader then accepts the file, its region is what
    fitted of the wire stream, and parsing the region delivers exactly the
    messages that fit: one cut by the full device is never delivered.  The count
    in the header is the number of messages reported written, which for a full
    device may be more than there are, or it is left at 0 where the C library
    keeps the bytes it cannot write.  If all messages fit, all are reported,
    counted and delivered.  No other file changes. *)
Theorem capture_roundtrip sys path ps r (d : Disk) :
  st_can_create sys path = true -> regular sys path -> (kCaptureHeaderSize <= st_room sys)%nat ->
  Forall packet_ok ps ->
  let free := (st_room sys - kCaptureHeaderSize)%nat in
  let n := fits free ps in
  let full := bool_decide (free < length (stream_bytes ps))%nat in
  exists w1 d1 oks w2 d2 w3 d3 r',
    cw_open sys path new_writer d = Ok (true, w1, d1) /\
    cw_write_all sys ps w1 d1 = Ok (oks, w2, d2) /\
    length oks = length ps /\ take n oks = replicate n true /\
    cw_close sys w2 d2 = Ok (w3, d3) /\
    cr_open sys path r d3 = Ok (true, r') /\
    cr_valid r' = true /\
    cr_count r' = (if st_retains sys && full then 0 else wrap 64 (Z.of_nat (reported oks))) /\
    cr_bytes r' = take free (stream_bytes ps) /\
    parse (cr_bytes r') ([] : Recorder) =
      Ok (map packet_event (take n ps), scan_result (scan_at 0 (cr_bytes r'))) /\
    (full = false -> n = length ps) /\
    forall path', path' <> path -> d3 !! path' = d !! path'.
Proof.
  cbn zeta. intros Hcan Hreg Hroom Hps.
  destruct (session_file sys path ps d Hcan Hroom Hps)
    as (w1 & d1 & oks & w2 & d2 & d3 & E1 & E2 & Hlen & Hoks & E3 & ->).
  set (free := (st_room sys - kCaptureHeaderSize)%nat) in *.
  set (count := if patches_header _ _ _ then _ else _) in E3 |- *.
  assert (length (header_bytes count ++ take free (stream_bytes ps)) <= st_room sys)%nat as Hsize.
  { rewrite length_app, length_header_bytes, length_take. unfold free. lia. }
  eexists w1, d1, oks, w2, d2, _, _, (opened (header_bytes count ++ take free (stream_bytes ps))).
  split; [exact E1|]. split; [exact E2|]. split; [exact Hlen|]. split; [exact Hoks|]. split; [exact E3|].
  match goal with |- context [cr_open _ _ _ ?d3] => destruct (cr_open_spec sys path r d3) as (r' & Er & Hr') end.
  rewrite lookup_insert_eq, open_intact in Er, Hr'; try done.
  2,4: apply regular_intact; [done|split; [rewrite length_app, length_header_bytes; lia|done]].
  2,3: rewrite length_app, length_header_bytes; lia.
  destruct Hr' as (bytes & [= <-] & ->). split; [exact Er|].
  unfold opened. cbn [cr_valid cr_count cr_bytes].
  rewrite (drop_app_length' _ _ kCaptureHeaderSize) by (by rewrite length_header_bytes).
  split; [done|]. split; [|split_and!; [done|..]].
  - assert (le_val (take 8 (drop 16 (header_bytes count ++ take free (stream_bytes ps)))) = wrap 64 count) as ->.
    { unfold header_bytes. rewrite <- app_assoc.
      change (drop 16 (kCaptureMagic ++ ?x)) with (drop 8 x). cbn [fields_bytes fst snd].
      rewrite app_nil_r, <- !app_assoc.
      change (drop 8 (le_bytes 4 kCaptureVersion ++ le_bytes 4 0 ++ ?x)) with x.
      rewrite take_app_length' by (by rewrite length_le_bytes). apply le_val_le_bytes. }
    unfold count, patches_header. rewrite (proj1 (proj2 Hreg 0%nat ltac:(lia))). cbn [andb].
    replace (bool_decide (kCaptureHeaderSize + length (stream_bytes ps) <= st_room sys)%nat)
      with (negb (bool_decide (free < length (stream_bytes ps))%nat))
      by (unfold free; repeat case_bool_decide; cbn; (done || lia)).
    rewrite <- negb_andb. destruct (st_retains sys && _); cbn [negb]; [done|apply wrap_wrap].
  - rewrite parse_scan, deliver_all_recorder, bind_ok. by rewrite scan_cut_stream.
  - intros Hall%bool_decide_eq_false. apply fits_all; [done|lia].
  - intros path' Hne. by rewrite lookup_insert_ne.
Qed.

(** A C library that lets up to [size] bytes wait in a buffer, on files that
    can be sought in and read. *)
Definition buffered (size room : nat) : Stdio :=
  mkStdio (fun _ => true) room (fun _ n => if (n <=? size)%nat then n else 0%nat) false
    (fun _ _ => true) (fun _ _ => true) (fun _ => room).
Lemma buffered_regular size room path : regular (buffered size room) path.
Proof. done. Qed.

Lemma capture_roundtrip_witness :
  exists w1 d1 oks w2 d2 w3 d3 r',
    cw_open (buffered 64 120) "a.cap" new_writer ∅ = Ok (true, w1, d1) /\
    cw_write_all (buffered 64 120) demo_packets w1 d1 = Ok (oks, w2, d2) /\
    length oks = 3%nat /\ take 2 oks = [true; true] /\
    cw_close (buffered 64 120) w2 d2 = Ok (w3, d3) /\
    cr_open (buffered 64 120) "a.cap" new_reader d3 = Ok (true, r') /\
    cr_valid r' = true /\ cr_count r' = wrap 64 (Z.of_nat (reported oks)) /\
    cr_bytes r' = take 96 (stream_bytes demo_packets) /\
    parse (cr_bytes r') ([] : Recorder) =
      Ok (map packet_event (take 2 demo_packets), scan_result (scan_at 0 (cr_bytes r'))) /\
    (bool_decide (96 < length (stream_bytes demo_packets))%nat = false -> 2%nat = length demo_packets) /\
    forall path', path' <> "a.cap"%string -> d3 !! path' = (∅ : Disk) !! path'.
Proof.
  apply (capture_roundtrip (buffered 64 120) "a.cap" demo_packets new_reader ∅).
  - reflexivity.
  - apply buffered_regular.
  - unfold kCaptureHeaderSize. cbn. lia.
  - solve_ranges.
Defined.

(** A full device goes unnoticed behind a buffer: the session on a device for two
    messages reports three written, and so does the header. *)
Definition full_device_demo : option (list bool * Z * nat) :=
  let sys := buffered 4096 120 in
  match r ← cw_open sys "a.cap" new_writer ∅;
        r ← cw_write_all sys demo_packets r.1.2 r.2;
        c ← cw_close sys r.1.2 r.2;
        o ← cr_open sys "a.cap" new_reader c.2;
        p ← parse (cr_bytes o.2) ([] : Recorder);
        Ok (r.1.1, cr_count o.2, length p.1) with
  | Ok x => Some x
  | _ => None
  end.
Example full_device_unnoticed : full_device_demo = Some ([true; true; true], 3, 2%nat).
Proof. vm_compute. reflexivity. Qed.

(** Opening any file for reading is safe: it is refused with the error of the
    first check that fails, and the reader stays invalid, or it is accepted with
    the count its header claims and the rest as messages, whatever its version
    field says. *)
Theorem capture_open_decides sys path r (d : Disk) :
  exists r', cr_open sys path r d = Ok (cr_valid r', r') /\
    match open_error sys path (d !! path) with
    | Some e => cr_valid r' = false /\ cr_error r' = e
    | None => exists bytes, d !! path = Some bytes /\ cr_valid r' = true /\
        cr_bytes r' = drop kCaptureHeaderSize bytes /\ cr_count r' = le_val (take 8 (drop 16 bytes))
    end.
Proof.
  destruct (cr_open_spec sys path r d) as (r' & E & H). exists r'. rewrite E. clear E.
  destruct (open_error _ _ _); [by destruct H as [-> ->]|]. by destruct H as (bytes & -> & ->); eauto 10.
Qed.
