(* ===== verification/UnitTests.v ===== *)
(** The repository's unit tests (src/tests/), run on the definitions of this
    library: one definition per test, with the test's inputs, its calls in their
    order and the conjunction of its expectations, and one evaluation of the
    whole suite.  The tests that need the Mersenne twister, a socket or a clock
    are not here; the theorems about the simulator, the sessions, the pipeline
    and the replay state for every input what those try on one. *)
From Stdlib Require Import String.
From stdpp Require Import strings.
From S2P Require Import Prelude ByteOrder Protocol Serialization Parser SequenceTracker.
From S2P Require Import OrderedMap OrderBook BookBuilder Queue Capture.

Local Open Scope Z_scope.

Definition px (whole : Z) : Price := whole * kPriceScale.

(** An expectation on a computation that must return. *)
Definition expect (l : list bool) : bool := forallb id l.
Definition passes (t : outcome bool) : bool := match t with Ok b => b | _ => false end.

(** ** test_order_book.cpp *)
Section OrderBookTests.
Notation Buy := Side_Buy.
Notation Sell := Side_Sell.
Notation price o := (lv_price <$> o).
Notation quantity o := (lv_quantity <$> o).

Definition EmptyBookHasNoBestOrSpread : outcome bool :=
  let b := new_book 1 in
  s ← spread b; ok ← check_invariants b;
  Ok (expect [empty b; bool_decide (price (best_bid b) = None); bool_decide (price (best_ask b) = None);
              bool_decide (s = None); ok]).

Definition AddSetsBestBidAskAndSpread : outcome bool :=
  '(r1, b) ← add 1 Buy (px 100) 5 (new_book 1);
  '(r2, b) ← add 2 Sell (px 101) 3 b;
  s ← spread b; ok ← check_invariants b;
  Ok (expect [r1; r2; bool_decide (price (best_bid b) = Some (px 100)); bool_decide (quantity (best_bid b) = Some 5);
              bool_decide (price (best_ask b) = Some (px 101)); bool_decide (s = Some (px 1)); ok]).

Definition DuplicateOrderIdRejected : outcome bool :=
  '(r1, b) ← add 1 Buy (px 100) 5 (new_book 1);
  '(r2, b) ← add 1 Buy (px 100) 9 b;
  Ok (expect [r1; negb r2; (order_count b =? 1)%nat]).

Definition PriceLevelAggregatesQuantityAndOrders : outcome bool :=
  '(_, b) ← add 1 Buy (px 100) 5 (new_book 1);
  '(_, b) ← add 2 Buy (px 100) 7 b;
  Ok (expect [bool_decide (quantity (best_bid b) = Some 12);
              bool_decide (lv_order_count <$> best_bid b = Some 2); (bid_levels b =? 1)%nat]).

Definition CancelRemovesOrderAndEmptiesLevel : outcome bool :=
  '(_, b) ← add 1 Buy (px 100) 5 (new_book 1);
  '(r1, b) ← cancel 1 b;
  let now_empty := empty b in
  let levels := bid_levels b in
  '(r2, b) ← cancel 1 b;
  '(r3, b) ← cancel 999 b;
  Ok (expect [r1; now_empty; (levels =? 0)%nat; negb r2; negb r3]).

Definition ModifyReduceKeepsLevelChangePriceMovesLevel : outcome bool :=
  '(_, b) ← add 1 Buy (px 100) 10 (new_book 1);
  '(r1, b1) ← modify 1 (px 100) 4 b;
  '(r2, b2) ← modify 1 (px 99) 4 b1;
  '(r3, b3) ← modify 1 (px 99) 0 b2;
  Ok (expect [r1; bool_decide (quantity (best_bid b1) = Some 4); (bid_levels b1 =? 1)%nat;
              r2; bool_decide (price (best_bid b2) = Some (px 99)); (bid_levels b2 =? 1)%nat; r3; empty b3]).

Definition ModifyUnknownReturnsFalse : outcome bool :=
  '(r, _) ← modify 42 (px 100) 1 (new_book 1); Ok (negb r).

Definition PartialAndFullExecution : outcome bool :=
  '(_, b) ← add 1 Sell (px 101) 10 (new_book 1);
  '(r1, b1) ← execute 1 4 b;
  '(r2, b2) ← execute 1 100 b1;
  '(r3, _) ← execute 1 1 b2;
  Ok (expect [r1; bool_decide (quantity (best_ask b1) = Some 6); (order_count b1 =? 1)%nat; r2; empty b2; negb r3]).

Definition FifoOrderPreservedAcrossExecutions : outcome bool :=
  '(_, b) ← add 1 Buy (px 100) 5 (new_book 1);
  '(_, b) ← add 2 Buy (px 100) 5 b;
  '(r, b) ← execute 1 5 b;
  ok ← check_invariants b;
  Ok (expect [r; bool_decide (lv_order_count <$> best_bid b = Some 1); bool_decide (quantity (best_bid b) = Some 5); ok]).

Definition DepthReportsBestFirst : outcome bool :=
  '(_, b) ← add 1 Buy (px 100) 1 (new_book 1);
  '(_, b) ← add 2 Buy (px 99) 2 b;
  '(_, b) ← add 3 Buy (px 101) 3 b;
  let bid_prices := lv_price <$> bids 3 b in
  '(_, b) ← add 4 Sell (px 105) 1 b;
  '(_, b) ← add 5 Sell (px 103) 1 b;
  Ok (expect [bool_decide (bid_prices = [px 101; px 100; px 99]);
              bool_decide (lv_price <$> asks 2 b = [px 103; px 105])]).

Definition CrossedBookFailsInvariant : outcome bool :=
  '(_, b) ← add 1 Buy (px 102) 5 (new_book 1);
  '(_, b) ← add 2 Sell (px 101) 5 b;
  ok ← check_invariants b; Ok (negb ok).

Definition SnapshotReflectsTopLevels : outcome bool :=
  '(_, b) ← add 1 Buy (px 100) 5 (new_book 7);
  '(_, b) ← add 2 Sell (px 101) 3 b;
  s ← snapshot b;
  Ok (expect [snap_symbol s =? 7; snap_num_bid_levels s =? 1; snap_num_ask_levels s =? 1;
              bool_decide (sl_price <$> snap_bids s !! 0%nat = Some (px 100));
              bool_decide (sl_price <$> snap_asks s !! 0%nat = Some (px 101))]).
End OrderBookTests.

(** ** test_sequence_tracker.cpp *)
Section TrackerTests.
#[local] Instance SeqStatus_eq_dec : EqDecision SeqStatus.
Proof. solve_decision. Defined.

(** The statuses of [seqs], and the tracker after them. *)
Fixpoint statuses (seqs : list Sequence) (t : SequenceTracker) : list SeqStatus * SequenceTracker :=
  match seqs with
  | [] => ([], t)
  | s :: seqs => let '(x, t) := observe s t in let '(xs, t) := statuses seqs t in (x :: xs, t)
  end.

Definition InOrderStream : bool :=
  let '(xs, t) := statuses (Z.of_nat <$> seq 100 10) new_tracker in
  expect [bool_decide (xs = replicate 10 InOrder); st_in_order (tr_stats t) =? 10;
          st_duplicates (tr_stats t) =? 0; st_missing (tr_stats t) =? 0; tr_next_expected t =? 110].
Definition DetectsDuplicate : bool :=
  let '(xs, t) := statuses [1; 2; 2] new_tracker in
  expect [bool_decide (xs = [InOrder; InOrder; Duplicate]); st_duplicates (tr_stats t) =? 1].
Definition DetectsGapAndCountsMissing : bool :=
  let '(xs, t) := statuses [1; 5] new_tracker in
  expect [bool_decide (xs = [InOrder; Gap]); st_gap_events (tr_stats t) =? 1; st_missing (tr_stats t) =? 3;
          tr_next_expected t =? 6].
Definition DetectsOutOfOrder : bool :=
  let '(xs, t) := statuses [1; 2; 4; 3] new_tracker in
  expect [bool_decide (last xs = Some OutOfOrder); st_out_of_order (tr_stats t) =? 1].
Definition FirstMessageInitializesRegardlessOfValue : bool :=
  let '(x, t) := observe 999999 new_tracker in
  expect [negb (tr_initialized new_tracker); bool_decide (x = InOrder); tr_initialized t; tr_next_expected t =? 1000000].
End TrackerTests.

(** ** test_util.hpp, test_parser.cpp *)
Section ParserTests.
Definition message {B} `{WireBody B} (s : Sequence) (ts : TimestampNs) (body : B) : outcome (list byte) :=
  '(n, tmp) ← encode_message (replicate kMaxMessageSize Byte.x00) s ts body;
  subspan tmp 0 n.

(** [FeedBuilder]: the bytes, the next sequence number and timestamp. *)
Record FeedBuilder := mkFeedBuilder { fbd_buf : list byte; fbd_seq : Sequence; fbd_ts : TimestampNs }.
Definition new_feed_builder : FeedBuilder := mkFeedBuilder [] 1 1000.
Definition fb_add_seq {B} `{WireBody B} (s : Sequence) (body : B) (fb : FeedBuilder) : outcome FeedBuilder :=
  bytes ← message s (fbd_ts fb) body;
  Ok (mkFeedBuilder (fbd_buf fb ++ bytes) (fbd_seq fb) (fbd_ts fb + 10)).
Definition fb_add {B} `{WireBody B} (body : B) (fb : FeedBuilder) : outcome FeedBuilder :=
  fb_add_seq (fbd_seq fb) body (mkFeedBuilder (fbd_buf fb) (wrap 32 (fbd_seq fb + 1)) (fbd_ts fb)).

Record TestRecorder := mkTestRecorder {
  rec_adds : list AddOrder;
  rec_cancels : nat; rec_modifies : nat; rec_trades : nat; rec_snaps : nat; rec_heartbeats : nat;
  rec_malformed : list nat
}.
Definition new_recorder : TestRecorder := mkTestRecorder [] 0 0 0 0 0 [].
#[local] Instance TestRecorder_like : HandlerLike TestRecorder := {|
  on_add_order := fun _ m '(mkTestRecorder a c m' t s h x) => Ok (mkTestRecorder (a ++ [m]) c m' t s h x);
  on_cancel_order := fun _ _ '(mkTestRecorder a c m t s h x) => Ok (mkTestRecorder a (S c) m t s h x);
  on_modify_order := fun _ _ '(mkTestRecorder a c m t s h x) => Ok (mkTestRecorder a c (S m) t s h x);
  on_trade := fun _ _ '(mkTestRecorder a c m t s h x) => Ok (mkTestRecorder a c m (S t) s h x);
  on_snapshot := fun _ _ '(mkTestRecorder a c m t s h x) => Ok (mkTestRecorder a c m t (S s) h x);
  on_heartbeat := fun _ '(mkTestRecorder a c m t s h x) => Ok (mkTestRecorder a c m t s (S h) x);
  on_malformed := fun off '(mkTestRecorder a c m t s h x) => Ok (mkTestRecorder a c m t s h (x ++ [off]))
|}.

Definition ParsesMixedStream : outcome bool :=
  fb ← fb_add (mkAddOrder 1 10 Side_Buy 1000000 5) new_feed_builder;
  fb ← fb_add (mkCancelOrder 1 10) fb;
  fb ← fb_add (mkTrade 1 11 1000000 2 Side_Sell) fb;
  fb ← fb_add mkHeartbeat fb;
  '(rec, r) ← parse (fbd_buf fb) new_recorder;
  Ok (expect [(pr_messages r =? 4)%nat; (pr_malformed r =? 0)%nat; (bytes_consumed r =? length (fbd_buf fb))%nat;
              bool_decide (add_order_id <$> rec_adds rec = [10]); (rec_cancels rec =? 1)%nat;
              (rec_trades rec =? 1)%nat; (rec_heartbeats rec =? 1)%nat]).

Definition LeavesPartialTailUnconsumed : outcome bool :=
  fb ← fb_add (mkAddOrder 1 10 Side_Buy 1000000 5) new_feed_builder;
  fb ← fb_add (mkAddOrder 1 11 Side_Buy 1000000 6) fb;
  '(_, r) ← parse (take (length (fbd_buf fb) - 5) (fbd_buf fb)) new_recorder;
  Ok (expect [(pr_messages r =? 1)%nat; needs_more r; (bytes_consumed r =? kHeaderWireSize + kAddOrderBodySize)%nat]).

Definition MalformedBodySizeIsSkippedAndResyncs : outcome bool :=
  first ← message 1 100 (mkAddOrder 1 10 Side_Buy 1 1);
  '(bad, _) ← encode_header MsgAddOrder 2 200 (replicate (kHeaderWireSize + 10) Byte.x00, 0%nat);
  let bad := <[3%nat := Byte.x00]> (<[2%nat := Byte.x0a]> bad) in
  heartbeat ← message 3 300 mkHeartbeat;
  '(rec, r) ← parse (first ++ bad ++ heartbeat) new_recorder;
  Ok (expect [(length (rec_adds rec) =? 1)%nat; (pr_malformed r =? 1)%nat; (rec_heartbeats rec =? 1)%nat]).

Definition InvalidTypeStopsParsing : outcome bool :=
  heartbeat ← message 1 100 mkHeartbeat;
  let junk := <[0%nat := Byte.xfa]> (replicate kHeaderWireSize Byte.x00) in
  '(rec, r) ← parse (heartbeat ++ junk) new_recorder;
  Ok (expect [(rec_heartbeats rec =? 1)%nat; (pr_malformed r =? 1)%nat]).

Definition VersionMismatchIsMalformed : outcome bool :=
  '(bad, _) ← encode_header MsgAddOrder 1 1 (replicate (kHeaderWireSize + kAddOrderBodySize) Byte.x00, 0%nat);
  '(rec, r) ← parse (<[1%nat := Byte.x63]> bad) new_recorder;
  Ok (expect [(pr_malformed r =? 1)%nat; (length (rec_adds rec) =? 0)%nat]).
End ParserTests.

(** ** test_serialization.cpp *)
Section SerializationTests.
#[local] Instance MsgType_decision : EqDecision MsgType.
Proof. solve_decision. Defined.

(** What [round_trip] checks on its way, and the body it returns. *)
Definition round_trip {B} `{WireBody B} (s : Sequence) (ts : TimestampNs) (body : B) : outcome (bool * option B) :=
  '(n, buf) ← encode_message (replicate kMaxMessageSize Byte.x00) s ts body;
  whole ← subspan buf 0 n;
  ohdr ← decode_header whole;
  rest ← subspan whole kHeaderWireSize (length whole - kHeaderWireSize);
  out ← decode_body rest;
  Ok (expect [(n =? kHeaderWireSize + body_size_for (msg_type_of B))%nat;
              match ohdr with
              | Some h => expect [hdr_sequence h =? s; hdr_timestamp h =? ts; bool_decide (hdr_type h = msg_type_of B)]
              | None => false
              end], out).

Definition AddOrderRoundTrip : outcome bool :=
  let m := mkAddOrder 42 1001 Side_Sell 1234500 250 in
  '(ok, out) ← round_trip 7 999000 m; Ok (expect [ok; bool_decide (out = Some m)]).

Definition CancelModifyTradeRoundTrip : outcome bool :=
  '(ok1, c) ← round_trip 1 2 (mkCancelOrder 3 55);
  '(ok2, m) ← round_trip 2 3 (mkModifyOrder 9 77 (-500) 10);
  '(ok3, t) ← round_trip 3 4 (mkTrade 4 88 9990000 33 Side_Buy);
  Ok (expect [ok1; bool_decide (cancel_symbol <$> c = Some 3); bool_decide (cancel_order_id <$> c = Some 55);
              ok2; bool_decide (mod_new_price <$> m = Some (-500)); bool_decide (mod_new_quantity <$> m = Some 10);
              ok3; bool_decide (trade_resting_order_id <$> t = Some 88); bool_decide (trade_price <$> t = Some 9990000);
              bool_decide (trade_aggressor_side <$> t = Some Side_Buy)]).

Definition SnapshotRoundTrip : outcome bool :=
  let lv p q := mkSnapshotLevel p q in
  let m := mkBookSnapshot 5 2 1 [lv 1000000 5; lv 990000 7; lv 0 0; lv 0 0; lv 0 0]
             [lv 1010000 3; lv 0 0; lv 0 0; lv 0 0; lv 0 0] in
  '(ok, out) ← round_trip 1 1 m;
  Ok (expect [ok; bool_decide (snap_num_bid_levels <$> out = Some 2); bool_decide (snap_num_ask_levels <$> out = Some 1);
              bool_decide (sl_price <$> (s ← out; snap_bids s !! 0%nat) = Some 1000000);
              bool_decide (sl_quantity <$> (s ← out; snap_bids s !! 1%nat) = Some 7);
              bool_decide (sl_price <$> (s ← out; snap_asks s !! 0%nat) = Some 1010000)]).

Definition HeartbeatHasNoBody : outcome bool :=
  '(n, buf) ← encode_message (replicate kMaxMessageSize Byte.x00) 11 22 mkHeartbeat;
  whole ← subspan buf 0 n;
  ohdr ← decode_header whole;
  Ok (expect [(n =? kHeaderWireSize)%nat; bool_decide (hdr_type <$> ohdr = Some MsgHeartbeat);
              bool_decide (hdr_body_size <$> ohdr = Some 0)]).

Definition EncodeFailsWhenBufferTooSmall : outcome bool :=
  '(n, _) ← encode_message (replicate 4 Byte.x00) 1 1 (mkAddOrder 0 0 Side_Buy 0 0); Ok (n =? 0)%nat.
Definition DecodeHeaderRejectsShortBuffer : outcome bool :=
  h ← decode_header (replicate 8 Byte.x00); Ok (bool_decide (h = None)).
Definition DecodeHeaderRejectsInvalidType : outcome bool :=
  h ← decode_header (<[0%nat := Byte.xc8]> (replicate kHeaderWireSize Byte.x00)); Ok (bool_decide (h = None)).
Definition LittleEndianByteLayout : outcome bool :=
  '(_, buf) ← encode_message (replicate kMaxMessageSize Byte.x00) 16909060 0 mkHeartbeat;
  Ok (bool_decide (take 4 (drop 4 buf) = [Byte.x04; Byte.x03; Byte.x02; Byte.x01])).
End SerializationTests.

(** ** test_spsc_queue.cpp, test_book_builder.cpp, test_capture_replay.cpp *)
Section OtherTests.
Definition SingleThreadFifoAndCapacity : outcome bool :=
  q ← new_queue 0 4;
  let e := queue_empty q in
  '(r1, q) ← try_push 1 q; '(r2, q) ← try_push 2 q; '(r3, q) ← try_push 3 q; '(r4, q) ← try_push 4 q;
  '(v1, q) ← try_pop q; '(v2, q) ← try_pop q; '(v3, q) ← try_pop q; '(v4, q) ← try_pop q;
  Ok (expect [e; r1; r2; r3; negb r4; bool_decide (v1 = Some 1); bool_decide (v2 = Some 2); bool_decide (v3 = Some 3);
              bool_decide (v4 = None)]).

(** [MessageHeader{}]; the builder is that of a debug build. *)
Definition kHdr : MessageHeader := mkMessageHeader MsgHeartbeat kProtocolVersion 0 0 0.
Notation bb0 := (new_builder false).

Definition AppliesEventsAcrossSymbols : outcome bool :=
  bb ← bb_on_add_order kHdr (mkAddOrder 1 10 Side_Buy (px 100) 5) (set_verify true bb0);
  bb ← bb_on_add_order kHdr (mkAddOrder 1 11 Side_Sell (px 101) 4) bb;
  bb ← bb_on_add_order kHdr (mkAddOrder 2 20 Side_Buy (px 50) 8) bb;
  ok ← check_all_invariants map_to_list (bb_manager bb);
  let b1 := find_book 1 (bb_manager bb) in
  Ok (expect [(symbol_count (bb_manager bb) =? 2)%nat;
              bool_decide (lv_price <$> (b ← b1; best_bid b) = Some (px 100));
              bool_decide (lv_price <$> (b ← b1; best_ask b) = Some (px 101)); ok; st_adds (bb_stats bb) =? 3]).

Definition CancelModifyTradeFlow : outcome bool :=
  bb ← bb_on_add_order kHdr (mkAddOrder 1 10 Side_Buy (px 100) 5) bb0;
  bb ← bb_on_modify_order kHdr (mkModifyOrder 1 10 (px 100) 3) bb;
  bb ← bb_on_trade kHdr (mkTrade 1 10 (px 100) 1 Side_Sell) bb;
  let left := lv_quantity <$> (b ← find_book 1 (bb_manager bb); best_bid b) in
  bb ← bb_on_cancel_order kHdr (mkCancelOrder 1 10) bb;
  Ok (expect [bool_decide (left = Some 2); bool_decide (empty <$> find_book 1 (bb_manager bb) = Some true);
              st_rejected (bb_stats bb) =? 0]).

Definition RejectsUnknownOrderReferences : outcome bool :=
  bb ← bb_on_cancel_order kHdr (mkCancelOrder 1 999) bb0;
  bb ← bb_on_modify_order kHdr (mkModifyOrder 1 999 (px 1) 1) bb;
  bb ← bb_on_trade kHdr (mkTrade 1 999 (px 1) 1 Side_Buy) bb;
  Ok (st_rejected (bb_stats bb) =? 3).

Definition CountsHeartbeatsAndMalformed : outcome bool :=
  bb ← bb_on_heartbeat kHdr bb0;
  bb ← bb_on_malformed 0 bb;
  Ok (expect [st_heartbeats (bb_stats bb) =? 1; st_malformed (bb_stats bb) =? 1]).

(** The array is written with its final NUL. *)
Definition junk : list byte := String.list_byte_of_string "NOTACAPTURE1234567890abcd" ++ [Byte.x00].
Definition RejectsMissingAndBadFiles : outcome bool :=
  let disk : gmap string (list byte) := {["mdfh_bad.cap"%string := junk]} in
  '(r1, _) ← cr_open (buffered 4096 65536) "does_not_exist.cap" new_reader disk;
  '(r2, reader) ← cr_open (buffered 4096 65536) "mdfh_bad.cap" new_reader disk;
  Ok (expect [negb r1; negb r2; negb (cr_valid reader)]).
End OtherTests.

(** ** The suite *)

Definition unit_tests : list (outcome bool) :=
  [EmptyBookHasNoBestOrSpread; AddSetsBestBidAskAndSpread; DuplicateOrderIdRejected;
   PriceLevelAggregatesQuantityAndOrders; CancelRemovesOrderAndEmptiesLevel;
   ModifyReduceKeepsLevelChangePriceMovesLevel; ModifyUnknownReturnsFalse; PartialAndFullExecution;
   FifoOrderPreservedAcrossExecutions; DepthReportsBestFirst; CrossedBookFailsInvariant;
   SnapshotReflectsTopLevels;
   Ok InOrderStream; Ok DetectsDuplicate; Ok DetectsGapAndCountsMissing; Ok DetectsOutOfOrder;
   Ok FirstMessageInitializesRegardlessOfValue;
   ParsesMixedStream; LeavesPartialTailUnconsumed; MalformedBodySizeIsSkippedAndResyncs;
   InvalidTypeStopsParsing; VersionMismatchIsMalformed;
   AddOrderRoundTrip; CancelModifyTradeRoundTrip; SnapshotRoundTrip; HeartbeatHasNoBody;
   EncodeFailsWhenBufferTooSmall; DecodeHeaderRejectsShortBuffer; DecodeHeaderRejectsInvalidType;
   LittleEndianByteLayout;
   SingleThreadFifoAndCapacity;
   AppliesEventsAcrossSymbols; CancelModifyTradeFlow; RejectsUnknownOrderReferences;
   CountsHeartbeatsAndMalformed; RejectsMissingAndBadFiles].

Example unit_tests_pass : forallb passes unit_tests = true.
Proof. vm_compute. reflexivity. Qed.
