(* ===== verification/Simulator.v ===== *)
(** The synthetic exchange feed (include/mdfh/simulator.hpp,
    src/simulator.cpp): a seeded generator that keeps its own resting orders
    and posts messages about them.

    The random engine and [std::uniform_int_distribution], whose algorithm the
    C++ standard leaves open, are the parameter [draw], which depends on the
    type, the bounds and the engine; a distribution whose bounds are reversed is
    undefined, as the standard says.  Prices are signed 64-bit: an operation that
    leaves the range is undefined. *)
From S2P Require Import Prelude ByteOrder Protocol Serialization Parser OrderedMap.

Local Open Scope Z_scope.

Record SimConfig := mkSimConfig {
  num_symbols : Z;           (* u32 *)
  num_messages : Z;          (* u64 *)
  start_price : Price;
  symbol_price_step : Price;
  tick : Price;
  band_levels : Z;           (* u32 *)
  min_qty : Quantity;
  max_qty : Quantity;
  ts_start : TimestampNs;
  ts_step_ns : TimestampNs;
  w_add : Z;                 (* int *)
  w_cancel : Z;              (* int *)
  w_modify : Z;              (* int *)
  w_trade : Z;               (* int *)
  snapshot_interval : Z;     (* u64 *)
  heartbeat_interval : Z     (* u64 *)
}.

(** The member initializers. *)
Definition default_sim_config : SimConfig :=
  mkSimConfig 4 1000000 (100 * kPriceScale) (5 * kPriceScale) (kPriceScale / 100) 10 1 500
    1000000000 1000 50 22 18 10 0 100000.

Record GeneratedMessage := mkGeneratedMessage {
  gm_type : MsgType;
  gm_seq : Sequence;
  gm_ts : TimestampNs;
  gm_add : AddOrder;
  gm_cancel : CancelOrder;
  gm_modify : ModifyOrder;
  gm_trade : Trade;
  gm_snap : BookSnapshot
}.

Definition blank_levels : list SnapshotLevel := replicate kMaxSnapshotLevels (mkSnapshotLevel 0 0).
(** [GeneratedMessage{}] with the sequence number and timestamp set. *)
Definition blank_message (seq : Sequence) (ts : TimestampNs) : GeneratedMessage :=
  mkGeneratedMessage MsgHeartbeat seq ts (mkAddOrder 0 0 Side_Buy 0 0) (mkCancelOrder 0 0)
    (mkModifyOrder 0 0 0 0) (mkTrade 0 0 0 0 Side_Buy) (mkBookSnapshot 0 0 0 blank_levels blank_levels).

Definition with_add (m : AddOrder) (out : GeneratedMessage) : GeneratedMessage :=
  mkGeneratedMessage MsgAddOrder (gm_seq out) (gm_ts out) m (gm_cancel out) (gm_modify out)
    (gm_trade out) (gm_snap out).
Definition with_cancel (m : CancelOrder) (out : GeneratedMessage) : GeneratedMessage :=
  mkGeneratedMessage MsgCancelOrder (gm_seq out) (gm_ts out) (gm_add out) m (gm_modify out)
    (gm_trade out) (gm_snap out).
Definition with_modify (m : ModifyOrder) (out : GeneratedMessage) : GeneratedMessage :=
  mkGeneratedMessage MsgModifyOrder (gm_seq out) (gm_ts out) (gm_add out) (gm_cancel out) m
    (gm_trade out) (gm_snap out).
Definition with_trade (m : Trade) (out : GeneratedMessage) : GeneratedMessage :=
  mkGeneratedMessage MsgTrade (gm_seq out) (gm_ts out) (gm_add out) (gm_cancel out) (gm_modify out)
    m (gm_snap out).
Definition with_snap (m : BookSnapshot) (out : GeneratedMessage) : GeneratedMessage :=
  mkGeneratedMessage MsgBookSnapshot (gm_seq out) (gm_ts out) (gm_add out) (gm_cancel out)
    (gm_modify out) (gm_trade out) m.

(** What [dispatch] hands to the sink. *)
Definition dispatch_message (m : GeneratedMessage) : Packet :=
  mkPacket (gm_seq m) (gm_ts m)
    match gm_type m with
    | MsgAddOrder => BodyAddOrder (gm_add m)
    | MsgCancelOrder => BodyCancelOrder (gm_cancel m)
    | MsgModifyOrder => BodyModifyOrder (gm_modify m)
    | MsgTrade => BodyTrade (gm_trade m)
    | MsgBookSnapshot => BodySnapshot (gm_snap m)
    | MsgHeartbeat => BodyHeartbeat mkHeartbeat
    end.

Record LiveOrder := mkLiveOrder { lo_side : Side; lo_price : Price; lo_qty : Quantity }.

Record SymbolState := mkSymbolState {
  ss_ref_mid : Price;
  ss_orders : gmap Z LiveOrder;
  ss_live_ids : list OrderId;
  ss_index : gmap Z nat;
  ss_bid_qty : list (Price * Quantity);   (* std::map, increasing *)
  ss_ask_qty : list (Price * Quantity)
}.

Definition with_orders (orders : gmap Z LiveOrder) (s : SymbolState) : SymbolState :=
  mkSymbolState (ss_ref_mid s) orders (ss_live_ids s) (ss_index s) (ss_bid_qty s) (ss_ask_qty s).
Definition with_ids (ids : list OrderId) (index : gmap Z nat) (s : SymbolState) : SymbolState :=
  mkSymbolState (ss_ref_mid s) (ss_orders s) ids index (ss_bid_qty s) (ss_ask_qty s).
(** The depth map of a side. *)
Definition depth (buy : bool) (s : SymbolState) : list (Price * Quantity) :=
  if buy then ss_bid_qty s else ss_ask_qty s.
Definition with_depth (buy : bool) (m : list (Price * Quantity)) (s : SymbolState) : SymbolState :=
  if buy then mkSymbolState (ss_ref_mid s) (ss_orders s) (ss_live_ids s) (ss_index s) m (ss_ask_qty s)
  else mkSymbolState (ss_ref_mid s) (ss_orders s) (ss_live_ids s) (ss_index s) (ss_bid_qty s) m.

(** A signed 64-bit result. *)
Definition s64 (z : Z) : outcome Z := require (in_signedb 64 z);; Ok z.
Definition s32 (z : Z) : outcome Z := require (in_signedb 32 z);; Ok z.

(** [m.emplace(k, v)] on a hash table. *)
Definition emplace {V} (k : Z) (v : V) (m : gmap Z V) : gmap Z V :=
  match m !! k with Some _ => m | None => <[k := v]> m end.

(** [m[p] += q]. *)
Definition add_depth (side : Side) (p : Price) (q : Quantity) (s : SymbolState) : outcome SymbolState :=
  let m := (om_try_emplace std_less p 0 (depth (is_buy side) s)).2 in
  old ← of_option (om_find std_less p m);
  Ok (with_depth (is_buy side) (om_assign std_less p (wrap 32 (old + q)) m) s).

Definition remove_depth (side : Side) (p : Price) (q : Quantity) (s : SymbolState) : SymbolState :=
  let m := depth (is_buy side) s in
  match om_find std_less p m with
  | None => s
  | Some v =>
      if v <=? q then with_depth (is_buy side) (om_erase std_less p m) s
      else with_depth (is_buy side) (om_assign std_less p (wrap 32 (v - q)) m) s
  end.

Definition register_order (id : OrderId) (side : Side) (p : Price) (q : Quantity) (s : SymbolState)
  : outcome SymbolState :=
  let s := with_orders (emplace id (mkLiveOrder side p q) (ss_orders s)) s in
  let s := with_ids (ss_live_ids s ++ [id]) (emplace id (length (ss_live_ids s)) (ss_index s)) s in
  add_depth side p q s.

(** [s.index[id]] inserts a zero when the key is absent. *)
Definition unregister_order (id : OrderId) (s : SymbolState) : outcome SymbolState :=
  match ss_orders s !! id with
  | None => Ok s
  | Some o =>
      let s := remove_depth (lo_side o) (lo_price o) (lo_qty o) s in
      let slot := default 0%nat (ss_index s !! id) in
      let index := <[id := slot]> (ss_index s) in
      lst ← of_option (last (ss_live_ids s));
      require (bool_decide (slot < length (ss_live_ids s))%nat);;
      let ids := <[slot := lst]> (ss_live_ids s) in
      let index := <[lst := slot]> index in
      let s := with_ids (take (length ids - 1) ids) (delete id index) s in
      Ok (with_orders (delete id (ss_orders s)) s)
  end.

(** The types the distributions are instantiated with: [std::size_t], the 32-bit
    unsigned integers of quantities, offsets and symbols, and [int]. *)
Inductive DistType := Dist_size | Dist_u32 | Dist_int.

Section Draws.
Context {Rng : Type} (draw : DistType -> Z -> Z -> Rng -> Z * Rng).
Context (cfg : SimConfig).
Implicit Types (s : SymbolState) (rng : Rng) (out : GeneratedMessage).

(** [std::uniform_int_distribution<T> d(a, b); d(rng_)]. *)
Definition uniform (t : DistType) (a b : Z) rng : outcome (Z * Rng) := require (a <=? b);; Ok (draw t a b rng).

Definition random_live s rng : outcome (OrderId * Rng) :=
  r ← uniform Dist_size 0 (wrap 64 (Z.of_nat (length (ss_live_ids s)) - 1)) rng;
  id ← of_option (ss_live_ids s !! Z.to_nat r.1);
  Ok (id, r.2).

Definition random_qty rng : outcome (Quantity * Rng) := uniform Dist_u32 (min_qty cfg) (max_qty cfg) rng.

Definition choose_price s (side : Side) rng : outcome (Price * Rng) :=
  let steps := wrap 32 (band_levels cfg - 1) in
  if is_buy side then
    ceil ← match head (ss_ask_qty s) with
           | None => s64 (ss_ref_mid s - tick cfg)
           | Some e => s64 (e.1 - tick cfg)
           end;
    anchor ← match last (ss_bid_qty s) with
             | None => Ok ceil
             | Some e => up ← s64 (e.1 + tick cfg); Ok (Z.min up ceil)
             end;
    r ← uniform Dist_u32 0 steps rng;
    off ← s64 (r.1 * tick cfg);
    price ← s64 (anchor - off);
    Ok (Z.max price (tick cfg), r.2)
  else
    floor ← match last (ss_bid_qty s) with
            | None => s64 (ss_ref_mid s + tick cfg)
            | Some e => s64 (e.1 + tick cfg)
            end;
    anchor ← match head (ss_ask_qty s) with
             | None => Ok floor
             | Some e => down ← s64 (e.1 - tick cfg); Ok (Z.max down floor)
             end;
    r ← uniform Dist_u32 0 steps rng;
    off ← s64 (r.1 * tick cfg);
    price ← s64 (anchor + off);
    Ok (price, r.2).

Definition fill_add (sym : SymbolId) out s rng (next_id : OrderId)
  : outcome (GeneratedMessage * SymbolState * Rng * OrderId) :=
  r ← uniform Dist_int 0 1 rng;
  let side := if r.1 =? 0 then Side_Buy else Side_Sell in
  p ← choose_price s side r.2;
  q ← random_qty p.2;
  s ← register_order next_id side p.1 q.1 s;
  Ok (with_add (mkAddOrder sym next_id side p.1 q.1) out, s, q.2, wrap 64 (next_id + 1)).

(** [None] is the result [false]: no order is live. *)
Definition fill_cancel (sym : SymbolId) out s rng : outcome (option (GeneratedMessage * SymbolState * Rng)) :=
  if bool_decide (ss_live_ids s = []) then Ok None else
  r ← random_live s rng;
  s ← unregister_order r.1 s;
  Ok (Some (with_cancel (mkCancelOrder sym r.1) out, s, r.2)).

(** [s.orders.at(id)] throws when the order is unknown. *)
Definition fill_modify (sym : SymbolId) out s rng : outcome (option (GeneratedMessage * SymbolState * Rng)) :=
  if bool_decide (ss_live_ids s = []) then Ok None else
  r ← random_live s rng;
  o ← of_option (ss_orders s !! r.1);
  let s := remove_depth (lo_side o) (lo_price o) (lo_qty o) s in
  p ← choose_price s (lo_side o) r.2;
  q ← random_qty p.2;
  let s := with_orders (<[r.1 := mkLiveOrder (lo_side o) p.1 q.1]> (ss_orders s)) s in
  s ← add_depth (lo_side o) p.1 q.1 s;
  Ok (Some (with_modify (mkModifyOrder sym r.1 p.1 q.1) out, s, q.2)).

Definition fill_trade (sym : SymbolId) out s rng : outcome (option (GeneratedMessage * SymbolState * Rng)) :=
  if bool_decide (ss_live_ids s = []) then Ok None else
  r ← random_live s rng;
  o ← of_option (ss_orders s !! r.1);
  f ← uniform Dist_u32 1 (lo_qty o) r.2;
  let out := with_trade (mkTrade sym r.1 (lo_price o) f.1 (opposite (lo_side o))) out in
  if lo_qty o <=? f.1 then
    s ← unregister_order r.1 s;
    Ok (Some (out, s, f.2))
  else
    let s := remove_depth (lo_side o) (lo_price o) f.1 s in
    let s := with_orders (<[r.1 := mkLiveOrder (lo_side o) (lo_price o) (wrap 32 (lo_qty o - f.1))]>
                           (ss_orders s)) s in
    Ok (Some (out, s, f.2)).

(** The first levels of a side, padded with zeros. *)
Definition snapshot_levels (levels : list (Price * Quantity)) : list SnapshotLevel :=
  let top := take kMaxSnapshotLevels levels in
  map (fun e => mkSnapshotLevel e.1 e.2) top
  ++ replicate (kMaxSnapshotLevels - length top) (mkSnapshotLevel 0 0).

Definition make_snapshot (sym : SymbolId) s : BookSnapshot :=
  let bids := rev (ss_bid_qty s) in
  let asks := ss_ask_qty s in
  mkBookSnapshot sym (wrap 8 (Z.of_nat (length (take kMaxSnapshotLevels bids))))
    (wrap 8 (Z.of_nat (length (take kMaxSnapshotLevels asks))))
    (snapshot_levels bids) (snapshot_levels asks).

Record MarketSimulator := mkMarketSimulator {
  ms_rng : Rng;
  ms_symbols : list SymbolState;
  ms_produced : Z;           (* u64 *)
  ms_next_seq : Sequence;
  ms_next_order_id : OrderId;
  ms_ts : TimestampNs
}.

(** The constructor, given the seeded engine. *)
Fixpoint ref_mids (n : nat) (i : Z) : outcome (list SymbolState) :=
  match n with
  | O => Ok []
  | S n =>
      step ← s64 (i * symbol_price_step cfg);
      mid ← s64 (start_price cfg + step);
      rest ← ref_mids n (i + 1);
      Ok (mkSymbolState mid ∅ [] ∅ [] [] :: rest)
  end.
Definition new_simulator rng : outcome MarketSimulator :=
  symbols ← ref_mids (Z.to_nat (num_symbols cfg)) 0;
  Ok (mkMarketSimulator rng symbols 0 1 1 (ts_start cfg)).

(** The action mix: which [fill_] function runs first, and the fall back to
    [fill_add] when it has no live order to act on. *)
Definition fill_action (sym : SymbolId) out s rng (next_id : OrderId)
  : outcome (GeneratedMessage * SymbolState * Rng * OrderId) :=
  r ← uniform Dist_int 0 99 rng;
  let rng := r.2 in
  if r.1 <? w_add cfg then fill_add sym out s rng next_id else
  w2 ← s32 (w_add cfg + w_cancel cfg);
  d ← (if r.1 <? w2 then fill_cancel sym out s rng else
       w3 ← s32 (w2 + w_modify cfg);
       if r.1 <? w3 then fill_modify sym out s rng else fill_trade sym out s rng);
  match d with
  | Some (out, s, rng) => Ok (out, s, rng, next_id)
  | None => fill_add sym out s rng next_id
  end.

Definition sim_next (sim : MarketSimulator) : outcome (option GeneratedMessage * MarketSimulator) :=
  if num_messages cfg <=? ms_produced sim then Ok (None, sim) else
  let out := blank_message (ms_next_seq sim) (ms_ts sim) in
  let seq' := wrap 32 (ms_next_seq sim + 1) in
  let ts' := wrap 64 (ms_ts sim + ts_step_ns cfg) in
  r ← uniform Dist_u32 0 (wrap 32 (num_symbols cfg - 1)) (ms_rng sim);
  let sym := r.1 in
  s ← of_option (ms_symbols sim !! Z.to_nat sym);
  let idx := wrap 64 (ms_produced sim + 1) in
  let produced' := wrap 64 (ms_produced sim + 1) in
  if negb (heartbeat_interval cfg =? 0) && (idx mod heartbeat_interval cfg =? 0) then
    Ok (Some out, mkMarketSimulator r.2 (ms_symbols sim) produced' seq' (ms_next_order_id sim) ts')
  else if negb (snapshot_interval cfg =? 0) && (idx mod snapshot_interval cfg =? 0) then
    Ok (Some (with_snap (make_snapshot sym s) out),
        mkMarketSimulator r.2 (ms_symbols sim) produced' seq' (ms_next_order_id sim) ts')
  else
    d ← fill_action sym out s r.2 (ms_next_order_id sim);
    let '(out, s, rng, next_id) := d in
    Ok (Some out, mkMarketSimulator rng (<[Z.to_nat sym := s]> (ms_symbols sim)) produced' seq' next_id ts').

(** [run]: every message up to [num_messages]. *)
Fixpoint sim_loop (fuel : nat) (sim : MarketSimulator) : outcome (list Packet * MarketSimulator) :=
  match fuel with
  | O => Diverge
  | S fuel =>
      r ← sim_next sim;
      match r.1 with
      | None => Ok ([], r.2)
      | Some m => rest ← sim_loop fuel r.2; Ok (dispatch_message m :: rest.1, rest.2)
      end
  end.
Definition sim_run (sim : MarketSimulator) : outcome (list Packet * MarketSimulator) :=
  sim_loop (S (Z.to_nat (num_messages cfg - ms_produced sim))) sim.
End Draws.
