(* ===== verification/SimulatorDepth.v ===== *)
(** The bookkeeping of the simulator's symbol states: live orders as a multiset,
    the depth maps as the totals of their levels, and the swap-remove of the
    list of live ids. *)
From S2P Require Import Prelude Protocol OrderedMap OrderBook BookSpec BookRep Simulator.

Local Open Scope Z_scope.

(** ** Live orders *)

Lemma find_order_Some id o l :
  NoDup (map o_id l) -> find_order id l = Some o <-> o ∈ l /\ o_id o = id.
Proof.
  induction l as [|o1 l IH]; intros Hnd; cbn; [split; [done|by intros [?%not_elem_of_nil _]]|].
  apply NoDup_cons in Hnd as [Hin Hnd]. rewrite elem_of_cons.
  destruct (Z.eqb_spec (o_id o1) id) as [Hid|Hne].
  - split; [intros [= <-]; auto|]. intros [[->|Ho] Ho']; [done|].
    destruct Hin. apply list_elem_of_fmap. exists o. split; [congruence|done].
  - rewrite IH by done. naive_solver.
Qed.

Lemma find_order_perm id l l' : l ≡ₚ l' -> NoDup (map o_id l) -> find_order id l = find_order id l'.
Proof.
  intros Hp Hnd. assert (NoDup (map o_id l')) as Hnd' by by rewrite <- Hp.
  apply option_eq. intros o. by rewrite !find_order_Some, Hp.
Qed.

Lemma remove_order_cons id o l :
  remove_order id (o :: l) = if o_id o =? id then remove_order id l else o :: remove_order id l.
Proof. unfold remove_order. rewrite filter_cons. destruct (Z.eqb_spec (o_id o) id); by case_decide. Qed.

Lemma find_order_remove id o l :
  NoDup (map o_id l) -> find_order id l = Some o -> l ≡ₚ o :: remove_order id l.
Proof.
  induction l as [|o1 l IH]; intros Hnd; [done|]. apply NoDup_cons in Hnd as [Hin Hnd].
  rewrite remove_order_cons. cbn [find_order]. destruct (Z.eqb_spec (o_id o1) id) as [Hid|Hne].
  - intros [= <-]. by rewrite remove_order_other by by rewrite <- Hid.
  - intros Hf. rewrite Permutation_swap. constructor. by apply IH.
Qed.

Lemma update_qty_perm id o q l :
  NoDup (map o_id l) -> find_order id l = Some o ->
  update_qty id q l ≡ₚ set_qty q o :: remove_order id l.
Proof.
  induction l as [|o1 l IH]; intros Hnd; [done|]. apply NoDup_cons in Hnd as [Hin Hnd].
  rewrite remove_order_cons. cbn [find_order update_qty map]. fold (update_qty id q l).
  destruct (Z.eqb_spec (o_id o1) id) as [Hid|Hne].
  - intros [= <-]. by rewrite remove_order_other, update_qty_other by by rewrite <- Hid.
  - intros Hf. rewrite Permutation_swap. constructor. by apply IH.
Qed.

(** ** Level totals *)

Definition level_total (buy : bool) (p : Price) (l : list Order) : Z := total_qty (queue buy p l).

Lemma total_qty_perm l l' : l ≡ₚ l' -> total_qty l = total_qty l'.
Proof. induction 1; cbn; lia. Qed.

Lemma level_total_perm buy p l l' : l ≡ₚ l' -> level_total buy p l = level_total buy p l'.
Proof. intros Hp. apply total_qty_perm. unfold queue. by rewrite Hp. Qed.

Lemma level_total_cons buy p o l :
  level_total buy p (o :: l) = (if decide (in_level buy p o) then o_qty o else 0) + level_total buy p l.
Proof. unfold level_total, queue. rewrite filter_cons. by case_decide. Qed.

(** Quantities between one and [bound]. *)
Definition qty_ok (bound : Z) (o : Order) : Prop := 1 <= o_qty o <= bound.

Lemma level_total_bounds bound buy p l :
  0 <= bound -> Forall (qty_ok bound) l ->
  0 <= level_total buy p l <= bound * Z.of_nat (length l) /\
  (level_total buy p l = 0 <-> forall o, o ∈ l -> ~ in_level buy p o).
Proof.
  intros Hb. induction 1 as [|o l Ho _ [IH1 IH2]].
  { unfold level_total. cbn. split; [lia|]. split; [|done]. by intros _ o ?%not_elem_of_nil. }
  rewrite level_total_cons. cbn [length]. unfold qty_ok in Ho. case_decide as Hin.
  - split; [lia|]. split; [lia|]. intros H. destruct (H o); [left|done].
  - split; [lia|]. rewrite Z.add_0_l, IH2. setoid_rewrite elem_of_cons. naive_solver.
Qed.

(** ** Depth maps *)

(** The map of a side holds the total of every occupied price. *)
Definition depth_ok (buy : bool) (m : list (Price * Quantity)) (l : list Order) : Prop :=
  om_sorted std_less m /\
  forall p, om_find std_less p m = let t := level_total buy p l in if t =? 0 then None else Some t.

Lemma depth_ok_perm buy m l l' : l ≡ₚ l' -> depth_ok buy m l -> depth_ok buy m l'.
Proof.
  intros Hp [Hs Hf]. split; [done|]. intros p. rewrite Hf. by rewrite (level_total_perm _ _ _ _ Hp).
Qed.

Lemma depth_ok_nil buy : depth_ok buy [] [].
Proof. split; [constructor|done]. Qed.

(** The keys of a depth map are the prices with live orders. *)
Lemma depth_key bound buy m l p :
  0 <= bound -> Forall (qty_ok bound) l -> depth_ok buy m l ->
  p ∈ om_keys m <-> exists o, o ∈ l /\ in_level buy p o.
Proof.
  intros Hb Hl [Hs Hf]. rewrite (om_keys_elem std_less) by done. rewrite Hf. cbn zeta.
  destruct (level_total_bounds bound buy p l Hb Hl) as [_ H0].
  destruct (Z.eqb_spec (level_total buy p l) 0) as [E|Hne].
  - split; [by intros []|]. intros (o & Ho & Hin). by destruct (proj1 H0 E o Ho).
  - split; [intros _|by eexists]. clear Hf Hs H0. induction l as [|o l IH]; [done|].
    rewrite level_total_cons in Hne. apply Forall_cons in Hl as [_ Hl].
    destruct (decide (in_level buy p o)) as [Hin|Hnin]; [exists o; split; [left|done]|].
    rewrite Z.add_0_l in Hne. destruct (IH Hl Hne) as (o' & Ho' & Hin').
    exists o'. split; [by right|done].
Qed.

(** [begin] is the least and [rbegin] the greatest price. *)
Lemma depth_head (m : list (Price * Quantity)) :
  om_sorted std_less m ->
  match head m with
  | None => m = []
  | Some e => e.1 ∈ om_keys m /\ forall p, p ∈ om_keys m -> e.1 <= p
  end.
Proof.
  destruct m as [|[p q] m]; [done|]. intros [_ Hlt]%om_sorted_cons. cbn. split; [left|].
  intros p' [->|Hp]%elem_of_cons; [done|]. apply Hlt in Hp. unfold std_less in Hp. lia.
Qed.

Lemma depth_last (m : list (Price * Quantity)) :
  om_sorted std_less m ->
  match last m with
  | None => m = []
  | Some e => e.1 ∈ om_keys m /\ forall p, p ∈ om_keys m -> p <= e.1
  end.
Proof.
  induction m as [|[p q] m IH]; intros Hs; [done|]. apply om_sorted_cons in Hs as [Hs Hlt].
  specialize (IH Hs). rewrite last_cons. destruct (last m) as [e|] eqn:E; cbn.
  - destruct IH as [Hin Hmax]. split; [by right|]. intros p' [->|Hp]%elem_of_cons; [|by apply Hmax].
    apply Hlt in Hin. unfold std_less in Hin. lia.
  - subst m. split; [left|]. by intros p' ->%list_elem_of_singleton.
Qed.

(** *** Updates *)

Lemma level_total_other buy buy' p p' o l :
  is_buy (o_side o) = buy -> o_price o = p -> (buy', p') <> (buy, p) ->
  level_total buy' p' (o :: l) = level_total buy' p' l.
Proof.
  intros <- <- Hne. rewrite level_total_cons, decide_False; [done|]. intros [<- <-]. congruence.
Qed.

Lemma level_total_same o l :
  level_total (is_buy (o_side o)) (o_price o) (o :: l) =
  o_qty o + level_total (is_buy (o_side o)) (o_price o) l.
Proof. rewrite level_total_cons, decide_True by done. done. Qed.

Lemma depth_other buy buy' m s : buy' <> buy -> depth buy' (with_depth buy m s) = depth buy' s.
Proof. by destruct buy, buy'. Qed.
Lemma depth_same buy m s : depth buy (with_depth buy m s) = m.
Proof. by destruct buy. Qed.

Definition depths_ok (s : SymbolState) (l : list Order) : Prop := forall buy, depth_ok buy (depth buy s) l.

Lemma add_depth_ok bound o s l :
  0 <= bound -> Forall (qty_ok bound) (o :: l) -> bound * Z.of_nat (length (o :: l)) < 2 ^ 32 ->
  depths_ok s l ->
  exists m, add_depth (o_side o) (o_price o) (o_qty o) s = Ok (with_depth (is_buy (o_side o)) m s) /\
    depths_ok (with_depth (is_buy (o_side o)) m s) (o :: l).
Proof.
  intros Hb Hl Hlen Hd. pose proof Hl as [Ho Hl']%Forall_cons. unfold qty_ok in Ho.
  set (buy := is_buy (o_side o)) in *. set (p := o_price o) in *. unfold add_depth. fold buy p.
  destruct (Hd buy) as [Hs Hf]. set (m := (om_try_emplace std_less p 0 (depth buy s)).2).
  assert (om_sorted std_less m) as Hsm by by apply (om_sorted_try_emplace std_less).
  assert (om_find std_less p m = Some (level_total buy p l)) as Hm.
  { unfold m. rewrite (om_find_try_emplace std_less), decide_True, Hf by done. cbn zeta.
    by destruct (Z.eqb_spec (level_total buy p l) 0) as [->|]. }
  cbn zeta. fold m. rewrite Hm. cbn [of_option]. rewrite bind_ok.
  pose proof (level_total_bounds bound buy p (o :: l) Hb Hl) as [Hb1 _].
  pose proof (level_total_bounds bound buy p l Hb Hl') as [Hb0 _].
  pose proof (level_total_same o l) as Ht. fold buy p in Ht.
  rewrite wrap_small by (unfold in_unsigned; lia).
  eexists. split; [reflexivity|]. intros buy'. destruct (decide (buy' = buy)) as [->|Hne].
  - rewrite depth_same. split; [by apply (om_sorted_assign std_less)|]. intros p'. cbn zeta.
    rewrite (om_find_assign std_less) by (try rewrite Hm; done). case_decide as Hp; [subst p'|].
    + rewrite Ht. rewrite (proj2 (Z.eqb_neq _ 0)) by lia. f_equal. lia.
    + unfold m. rewrite (om_find_try_emplace std_less), decide_False, Hf by done. cbn zeta.
      by rewrite (level_total_other buy buy p p' o l) by (congruence || done).
  - rewrite depth_other by done. destruct (Hd buy') as [Hs' Hf']. split; [done|]. intros p'. rewrite Hf'.
    cbn zeta. by rewrite (level_total_other buy buy' p p' o l) by (congruence || done).
Qed.

(** Removing [q] of the quantity of an order: all of it, or a part. *)
Lemma remove_depth_ok bound o q s l :
  0 <= bound -> Forall (qty_ok bound) (o :: l) -> bound * Z.of_nat (length (o :: l)) < 2 ^ 32 ->
  1 <= q <= o_qty o -> depths_ok s (o :: l) ->
  exists m, remove_depth (o_side o) (o_price o) q s = with_depth (is_buy (o_side o)) m s /\
    depths_ok (with_depth (is_buy (o_side o)) m s)
      (if q =? o_qty o then l else set_qty (o_qty o - q) o :: l).
Proof.
  intros Hb Hl Hlen Hq Hd. pose proof Hl as [Ho Hl']%Forall_cons. unfold qty_ok in Ho.
  set (buy := is_buy (o_side o)) in *. set (p := o_price o) in *. unfold remove_depth. fold buy p.
  destruct (Hd buy) as [Hs Hf].
  pose proof (level_total_bounds bound buy p (o :: l) Hb Hl) as [Hb1 _].
  pose proof (level_total_bounds bound buy p l Hb Hl') as [Hb0 _].
  pose proof (level_total_same o l) as Ht. fold buy p in Ht.
  set (l' := if q =? o_qty o then l else set_qty (o_qty o - q) o :: l).
  assert (level_total buy p l' = level_total buy p (o :: l) - q) as Hsame.
  { unfold l'. destruct (Z.eqb_spec q (o_qty o)); [lia|].
    pose proof (level_total_same (set_qty (o_qty o - q) o) l) as E.
    cbn [o_side o_price o_qty set_qty] in E. fold buy p in E. lia. }
  assert (forall buy' p', (buy', p') <> (buy, p) -> level_total buy' p' l' = level_total buy' p' (o :: l)) as Hother.
  { intros buy' p' Hne. rewrite (level_total_other buy buy' p p' o l) by done. unfold l'.
    destruct (q =? o_qty o); [done|]. by apply (level_total_other buy buy' p p'). }
  assert (om_find std_less p (depth buy s) = Some (level_total buy p (o :: l))) as Hfind.
  { rewrite Hf. cbn zeta. by rewrite (proj2 (Z.eqb_neq _ 0)) by lia. }
  cbn zeta. rewrite Hfind.
  exists (if level_total buy p (o :: l) <=? q then om_erase std_less p (depth buy s)
     else om_assign std_less p (wrap 32 (level_total buy p (o :: l) - q)) (depth buy s)).
  split; [by destruct (_ <=? _)|]. intros buy'. destruct (decide (buy' = buy)) as [->|Hne].
  - rewrite depth_same. destruct (Z.leb_spec (level_total buy p (o :: l)) q) as [Hle|Hgt].
    + split; [by apply (om_sorted_erase std_less)|]. intros p'. rewrite (om_find_erase std_less) by done. cbn zeta.
      case_decide as Hp; [subst p'; by rewrite Hsame, (proj2 (Z.eqb_eq _ 0)) by lia|].
      by rewrite Hf, Hother by congruence.
    + split; [by apply (om_sorted_assign std_less)|]. intros p'. rewrite (om_find_assign std_less) by (try rewrite Hfind; done).
      cbn zeta. rewrite wrap_small by (unfold in_unsigned; lia).
      case_decide as Hp; [subst p'; by rewrite Hsame, (proj2 (Z.eqb_neq _ 0)) by lia|].
      by rewrite Hf, Hother by congruence.
  - rewrite depth_other by done. destruct (Hd buy') as [Hs' Hf']. split; [done|]. intros p'.
    rewrite Hf'. by rewrite Hother by congruence.
Qed.
