(* ===== verification/SimulatorProofs.v ===== *)
(** The simulator's symbol states represent lists of live orders, the same
    lists the order book's specification works on, and every message it
    generates is an operation that specification accepts and that leaves the
    orders uncrossed. *)
From stdpp Require Import sorting.
From S2P Require Import Prelude ByteOrder Protocol Serialization Parser OrderedMap.
From S2P Require Import OrderBook BookSpec BookRep BookQueries BookTheorems BookBuilder.
From S2P Require Import Simulator.
From S2P Require Import SimulatorDepth.

Local Open Scope Z_scope.

(** ** The list of live ids and its index *)

Definition index_ok (ids : list OrderId) (index : gmap Z nat) : Prop :=
  forall id slot, index !! id = Some slot <-> ids !! slot = Some id.

Lemma index_ok_fresh ids index id : index_ok ids index -> id ∉ ids -> index !! id = None.
Proof.
  intros Hi Hid. destruct (index !! id) as [slot|] eqn:E; [|done].
  apply Hi, list_elem_of_lookup_2 in E. done.
Qed.

Lemma push_back_index ids index id :
  index_ok ids index -> id ∉ ids -> index_ok (ids ++ [id]) (<[id := length ids]> index).
Proof.
  intros Hi Hid id' slot. rewrite lookup_insert_Some, (Hi id' slot : _ <-> _), lookup_snoc_Some. split.
  - intros [[-> <-]|[Hne Hs]]; [right; done|left]. split; [by apply lookup_lt_Some in Hs|done].
  - intros [[_ Hs]|[-> <-]]; [right|by left]. split; [|done]. intros ->.
    by apply list_elem_of_lookup_2 in Hs.
Qed.

(** Swap-remove: the last id takes the place of the removed one. *)
Lemma swap_remove ids index id slot lst :
  NoDup ids -> index_ok ids index -> ids !! slot = Some id -> last ids = Some lst ->
  let ids' := take (length ids - 1) (<[slot := lst]> ids) in
  ids ≡ₚ id :: ids' /\ index_ok ids' (delete id (<[lst := slot]> (<[id := slot]> index))).
Proof.
  cbn zeta. intros Hnd Hi Hslot [init ->]%last_Some.
  rewrite length_app. cbn [length]. rewrite Nat.add_sub.
  apply NoDup_app in Hnd as (Hnd & Hdis & _).
  assert (lst ∉ init) as Hlst by (intros H; by destruct (Hdis _ H); left).
  apply lookup_snoc_Some in Hslot as [[Hlt Hslot]|[-> <-]].
  - rewrite insert_app_l, take_app_length' by (rewrite ?length_insert; done).
    assert (id <> lst) as Hne by (intros ->; by apply list_elem_of_lookup_2 in Hslot).
    split.
    + apply list_elem_of_split_length in Hslot as (l1 & l2 & -> & ->).
      rewrite insert_app_r_alt, Nat.sub_diag by done. cbn. rewrite <- app_assoc. cbn.
      rewrite <- Permutation_middle. constructor. apply Permutation_app_head. by rewrite Permutation_app_comm.
    + intros id' slot'. rewrite lookup_delete_Some, !lookup_insert_Some, list_lookup_insert_Some.
      pose proof (Hi id' slot') as Hii. rewrite lookup_snoc_Some in Hii.
      assert (forall x, init !! x = Some id -> x = slot) as Hu.
      { intros x Hx. by eapply NoDup_lookup. }
      split.
      * intros [Hid [[<- <-]|[Hl [[<- _]|[_ Hin]]]]]; [by left|done|].
        right. apply Hii in Hin as [[Hx Hin]|[_ <-]]; [|done]. split; [|done].
        intros <-. rewrite Hslot in Hin. congruence.
      * intros [(-> & <- & _)|[Hs Hin]]; [split; [done|by left]|].
        assert (id' <> lst) by (intros ->; by apply list_elem_of_lookup_2 in Hin).
        assert (id' <> id) by (intros ->; by apply Hs; symmetry; apply Hu).
        split; [done|]. right. split; [done|]. right. split; [done|]. apply Hii. left.
        split; [by apply lookup_lt_Some in Hin|done].
  - rewrite take_insert, decide_False, take_app_length by lia. split; [symmetry; apply Permutation_cons_append|].
    intros id' slot'. rewrite lookup_delete_Some, !lookup_insert_Some.
    pose proof (Hi id' slot') as Hii. rewrite lookup_snoc_Some in Hii. split.
    + intros [Hid [[? _]|[_ [[? _]|[_ Hin]]]]]; [done|done|].
      apply Hii in Hin as [[_ Hin]|[_ ?]]; [done|congruence].
    + intros Hin. assert (lst <> id') by (intros ->; by apply list_elem_of_lookup_2 in Hin).
      split; [done|]. right. split; [done|]. right. split; [done|]. apply Hii. left.
      split; [by apply lookup_lt_Some in Hin|done].
Qed.

(** ** Configurations *)

(** Above every price after [n] messages: the highest reference price, and
    every message may move a side by at most the band. *)
Definition top_price (cfg : SimConfig) (n : Z) : Z :=
  start_price cfg + num_symbols cfg * symbol_price_step cfg + n * (band_levels cfg * tick cfg).

(** What the generator needs of its configuration. *)
Record config_ok (cfg : SimConfig) : Prop := mkConfigOk {
  co_symbols : 1 <= num_symbols cfg < 2 ^ 32;
  co_messages : 0 <= num_messages cfg < 2 ^ 64 - 1;
  co_tick : 1 <= tick cfg <= start_price cfg;
  co_step : 0 <= symbol_price_step cfg;
  co_band : 1 <= band_levels cfg < 2 ^ 32;
  co_qty : 1 <= min_qty cfg <= max_qty cfg;
  co_depth : max_qty cfg * (num_messages cfg + 1) < 2 ^ 32;
  co_price : top_price cfg (num_messages cfg + 1) < 2 ^ 63;
  co_mix2 : in_signed 32 (w_add cfg + w_cancel cfg);
  co_mix3 : in_signed 32 (w_add cfg + w_cancel cfg + w_modify cfg);
  co_start : in_unsigned 64 (ts_start cfg)
}.

Lemma s64_ok z : - 2 ^ 63 <= z < 2 ^ 63 -> s64 z = Ok z.
Proof.
  intros Hz. unfold s64. by rewrite (proj2 (in_signedb_spec 64 z)) by exact Hz.
Qed.
(** Discharges the range checks, innermost first. *)
Ltac run_s64 := repeat (rewrite ?bind_ok; rewrite s64_ok by lia); rewrite ?bind_ok.

Lemma s32_ok z : in_signed 32 z -> s32 z = Ok z.
Proof. intros Hz. unfold s32. by rewrite (proj2 (in_signedb_spec 32 z)) by exact Hz. Qed.

Section Simulator.
Context {Rng : Type} (draw : DistType -> Z -> Z -> Rng -> Z * Rng).
Hypothesis draw_range : forall t a b rng, a <= b -> a <= (draw t a b rng).1 <= b.
Context (cfg : SimConfig).
Hypothesis Hcfg : config_ok cfg.
Implicit Types (s : SymbolState) (rng : Rng) (l : list Order).

Notation tk := (tick cfg).
Notation band := (band_levels cfg * tick cfg).

Lemma uniform_ok t a b rng :
  a <= b -> exists v rng', uniform draw t a b rng = Ok (v, rng') /\ a <= v <= b.
Proof.
  intros Hab. unfold uniform. rewrite (proj2 (Z.leb_le a b)) by done. cbn [require]. rewrite bind_ok.
  exists (draw t a b rng).1, (draw t a b rng).2. split; [by destruct (draw t a b rng)|]. by apply draw_range.
Qed.

(** ** Symbol states *)

Definition live_of (o : Order) : LiveOrder := mkLiveOrder (o_side o) (o_price o) (o_qty o).

(** An order below the price bound [P]. *)
Record order_ok (P : Z) (o : Order) : Prop := mkOrderOk {
  oo_side : o_side o = Side_Buy \/ o_side o = Side_Sell;
  oo_id : in_unsigned 64 (o_id o);
  oo_qty : qty_ok (max_qty cfg) o;
  oo_price : tk <= o_price o <= P;
  oo_ask : is_buy (o_side o) = false -> 2 * tk <= o_price o
}.

(** The state of a symbol represents the live orders [l]. *)
Record sym_ok (P : Z) s l : Prop := mkSymOk {
  so_ids : NoDup (map o_id l);
  so_orders id : ss_orders s !! id = live_of <$> find_order id l;
  so_live : ss_live_ids s ≡ₚ map o_id l;
  so_index : index_ok (ss_live_ids s) (ss_index s);
  so_depths : depths_ok s l;
  so_order : Forall (order_ok P) l;
  so_spread : ~ crossed l;
  so_mid : tk <= ss_ref_mid s <= P
}.

Lemma crossed_perm l l' : l ≡ₚ l' -> crossed l -> crossed l'.
Proof. intros Hp (o1 & o2 & H1 & H2 & H). exists o1, o2. by rewrite <- Hp. Qed.

Lemma sym_ok_perm P s l l' : l ≡ₚ l' -> sym_ok P s l -> sym_ok P s l'.
Proof.
  intros Hp []. split; try done.
  - by rewrite <- Hp.
  - intros id. by rewrite <- (find_order_perm id l l').
  - by rewrite <- Hp.
  - intros buy. by eapply depth_ok_perm.
  - by rewrite <- Hp.
  - intros Hc. by eapply so_spread0, crossed_perm.
Qed.

Lemma order_ok_mono P P' o : P <= P' -> order_ok P o -> order_ok P' o.
Proof. intros HP []. split; try done. lia. Qed.

Lemma sym_ok_mono P P' s l : P <= P' -> sym_ok P s l -> sym_ok P' s l.
Proof.
  intros HP []. split; try done; [|lia]. eapply Forall_impl; [done|]. intros o. by apply order_ok_mono.
Qed.

Lemma orders_qty P l : Forall (order_ok P) l -> Forall (qty_ok (max_qty cfg)) l.
Proof. intros H. eapply Forall_impl; [exact H|]. by intros o []. Qed.

(** ** Prices *)

Lemma not_buy_sell P o : order_ok P o -> is_buy (o_side o) = false -> o_side o = Side_Sell.
Proof. intros [[->| ->]] H; done. Qed.

Lemma best_ask P s l :
  depths_ok s l -> Forall (order_ok P) l ->
  match head (ss_ask_qty s) with
  | None => forall o, o ∈ l -> is_buy (o_side o) = true
  | Some e => 2 * tk <= e.1 <= P /\ (forall o, o ∈ l -> is_buy (o_side o) = false -> e.1 <= o_price o) /\
              exists o, o ∈ l /\ is_buy (o_side o) = false /\ o_price o = e.1
  end.
Proof.
  intros Hd Hl. pose proof (co_qty _ Hcfg) as Hq. specialize (Hd false).
  assert (forall p, p ∈ om_keys (ss_ask_qty s) <-> exists o, o ∈ l /\ in_level false p o) as Hkey.
  { intros p. eapply depth_key; [|by eapply orders_qty|exact Hd]. lia. }
  pose proof (depth_head _ (proj1 Hd)) as Hh. cbn [depth] in Hh.
  destruct (head (ss_ask_qty s)) as [e|].
  - destruct Hh as [Hin Hmin]. apply Hkey in Hin as (o & Ho & Hside & Hprice).
    pose proof (proj1 (Forall_forall _ _) Hl o Ho) as Hok. split; [|split].
    + rewrite <- Hprice. destruct Hok. split; [auto|lia].
    + intros o' Ho' Hs'. apply Hmin, Hkey. by exists o'.
    + by exists o.
  - intros o Ho. destruct (is_buy (o_side o)) eqn:E; [done|].
    assert (o_price o ∈ om_keys (ss_ask_qty s)) as Hin by (apply Hkey; by exists o).
    rewrite Hh in Hin. by apply not_elem_of_nil in Hin.
Qed.

Lemma best_bid P s l :
  depths_ok s l -> Forall (order_ok P) l ->
  match last (ss_bid_qty s) with
  | None => forall o, o ∈ l -> is_buy (o_side o) = false
  | Some e => tk <= e.1 <= P /\ (forall o, o ∈ l -> is_buy (o_side o) = true -> o_price o <= e.1) /\
              exists o, o ∈ l /\ is_buy (o_side o) = true /\ o_price o = e.1
  end.
Proof.
  intros Hd Hl. pose proof (co_qty _ Hcfg) as Hq. specialize (Hd true).
  assert (forall p, p ∈ om_keys (ss_bid_qty s) <-> exists o, o ∈ l /\ in_level true p o) as Hkey.
  { intros p. eapply depth_key; [|by eapply orders_qty|exact Hd]. lia. }
  pose proof (depth_last _ (proj1 Hd)) as Hh. cbn [depth] in Hh.
  destruct (last (ss_bid_qty s)) as [e|].
  - destruct Hh as [Hin Hmax]. apply Hkey in Hin as (o & Ho & Hside & Hprice).
    pose proof (proj1 (Forall_forall _ _) Hl o Ho) as Hok. split; [|split].
    + rewrite <- Hprice. by destruct Hok.
    + intros o' Ho' Hs'. apply Hmax, Hkey. by exists o'.
    + by exists o.
  - intros o Ho. destruct (is_buy (o_side o)) eqn:E; [|done].
    assert (o_price o ∈ om_keys (ss_bid_qty s)) as Hin by (apply Hkey; by exists o).
    rewrite Hh in Hin. by apply not_elem_of_nil in Hin.
Qed.

Lemma draw_offset rng :
  exists v rng', uniform draw Dist_u32 0 (wrap 32 (band_levels cfg - 1)) rng = Ok (v, rng') /\
    0 <= v * tk <= band - tk.
Proof.
  pose proof (co_band _ Hcfg) as Hb. pose proof (co_tick _ Hcfg) as Ht.
  rewrite wrap_small by (unfold in_unsigned; lia).
  destruct (uniform_ok Dist_u32 0 (band_levels cfg - 1) rng) as (v & rng' & E & Hv); [lia|].
  exists v, rng'. split; [done|]. nia.
Qed.

(** The price chosen for a side: at most one band above the prices so far, and
    strictly inside the spread towards the other side. *)
Lemma choose_price_ok P s l side rng :
  depths_ok s l -> Forall (order_ok P) l -> ~ crossed l -> tk <= ss_ref_mid s <= P ->
  P + band < 2 ^ 63 ->
  exists p rng', choose_price draw cfg s side rng = Ok (p, rng') /\ tk <= p <= P + band /\
    (is_buy side = false -> 2 * tk <= p) /\
    (forall o, o ∈ l -> is_buy (o_side o) <> is_buy side ->
       if is_buy side then p < o_price o else o_price o < p).
Proof.
  intros Hd Hl Hx Hmid HP. pose proof (co_tick _ Hcfg) as Ht. pose proof (co_band _ Hcfg) as Hb.
  assert (1 * tk <= band) as Hband by nia.
  pose proof (best_ask P s l Hd Hl) as Ha. pose proof (best_bid P s l Hd Hl) as Hbid.
  destruct (draw_offset rng) as (v & rng' & Ev & Hv). unfold choose_price. cbn zeta.
  destruct (is_buy side).
  - destruct (head (ss_ask_qty s)) as [a|]; destruct (last (ss_bid_qty s)) as [b|];
      run_s64; rewrite Ev, bind_ok; cbn [fst snd]; run_s64;
      (eexists _, _; split; [reflexivity|]; split; [lia|]; split; [done|]); intros o Ho Hs;
      apply not_true_is_false in Hs.
    + destruct Ha as (Ha1 & Ha2 & _). specialize (Ha2 o Ho Hs). lia.
    + destruct Ha as (Ha1 & Ha2 & _). specialize (Ha2 o Ho Hs). lia.
    + by rewrite Ha in Hs.
    + by rewrite Ha in Hs.
  - destruct (head (ss_ask_qty s)) as [a|]; destruct (last (ss_bid_qty s)) as [b|];
      run_s64; rewrite Ev, bind_ok; cbn [fst snd]; run_s64;
      (eexists _, _; split; [reflexivity|]; split; [lia|]; split; [lia|]); intros o Ho Hs;
      apply not_false_is_true in Hs.
    + destruct Hbid as (_ & Hb2 & _). specialize (Hb2 o Ho Hs). lia.
    + by rewrite Hbid in Hs.
    + destruct Hbid as (_ & Hb2 & _). specialize (Hb2 o Ho Hs). lia.
    + by rewrite Hbid in Hs.
Qed.

(** ** Registering and unregistering *)

Lemma with_depth_fields buy m s :
  ss_orders (with_depth buy m s) = ss_orders s /\ ss_live_ids (with_depth buy m s) = ss_live_ids s /\
  ss_index (with_depth buy m s) = ss_index s /\ ss_ref_mid (with_depth buy m s) = ss_ref_mid s.
Proof. by destruct buy. Qed.

Lemma uncrossed_cons o l :
  ~ crossed l ->
  (forall o', o' ∈ l -> is_buy (o_side o') <> is_buy (o_side o) ->
     if is_buy (o_side o) then o_price o < o_price o' else o_price o' < o_price o) ->
  ~ crossed (o :: l).
Proof.
  intros Hl Ho (o1 & o2 & [->|H1]%elem_of_cons & [->|H2]%elem_of_cons & E1 & E2 & Hp); [congruence|..].
  - specialize (Ho o2 H2). rewrite E1, E2 in Ho. specialize (Ho ltac:(done)). cbn in Ho. lia.
  - specialize (Ho o1 H1). rewrite E1, E2 in Ho. specialize (Ho ltac:(done)). cbn in Ho. lia.
  - apply Hl. by exists o1, o2.
Qed.

Lemma uncrossed_incl l l' : (forall o, o ∈ l' -> o ∈ l) -> ~ crossed l -> ~ crossed l'.
Proof. intros Hi Hl (o1 & o2 & H1 & H2 & H). apply Hl. exists o1, o2. auto. Qed.

(** Room for [n] orders in a level total. *)
Definition room_for (n : nat) : Prop := max_qty cfg * Z.of_nat n < 2 ^ 32.

Lemma room_for_le n m : (n <= m)%nat -> room_for m -> room_for n.
Proof. unfold room_for. pose proof (co_qty _ Hcfg). nia. Qed.

Lemma register_ok P s l o :
  sym_ok P s l -> order_ok P o -> o_id o ∉ map o_id l -> ~ crossed (o :: l) ->
  room_for (S (length l)) ->
  exists s', register_order (o_id o) (o_side o) (o_price o) (o_qty o) s = Ok s' /\ sym_ok P s' (o :: l).
Proof.
  intros Hs Ho Hid Hx Hlen. pose proof Hs as []. pose proof (co_qty _ Hcfg) as Hq.
  assert (o_id o ∉ ss_live_ids s) as Hlive by by rewrite so_live0.
  unfold register_order, emplace. rewrite so_orders0, (proj2 (find_order_None _ _) Hid). cbn [fmap option_fmap option_map].
  cbn [ss_index ss_live_ids with_orders]. rewrite (index_ok_fresh _ _ _ so_index0 Hlive). cbn zeta.
  match goal with |- context [add_depth _ _ _ ?x] => set (s1 := x) end.
  assert (depths_ok s1 l) as Hd by exact so_depths0.
  destruct (add_depth_ok (max_qty cfg) o s1 l) as (m & E & Hd'); [lia| |exact Hlen|exact Hd|].
  { constructor; [by destruct Ho|by eapply orders_qty]. }
  rewrite E. eexists. split; [reflexivity|].
  destruct (with_depth_fields (is_buy (o_side o)) m s1) as (E1 & E2 & E3 & E4).
  split; try done; rewrite ?E1, ?E2, ?E3, ?E4; unfold s1; cbn [ss_orders ss_live_ids ss_index ss_ref_mid with_ids with_orders].
  - cbn. by constructor.
  - intros id. rewrite lookup_insert. cbn [find_order].
    destruct (Z.eqb_spec (o_id o) id) as [->|Hne]; [by rewrite decide_True|by rewrite decide_False].
  - rewrite so_live0. cbn. symmetry. apply Permutation_cons_append.
  - by apply push_back_index.
  - by constructor.
  - exact so_mid0.
Qed.

Lemma remove_order_subset id l o : o ∈ remove_order id l -> o ∈ l.
Proof. unfold remove_order. by intros [_ ?]%list_elem_of_filter. Qed.

Lemma find_order_ids id o l : NoDup (map o_id l) -> find_order id l = Some o -> o_id o = id.
Proof. intros Hnd H. by apply (find_order_Some id o l Hnd) in H as [_ ?]. Qed.

Lemma remove_ids id o l :
  NoDup (map o_id l) -> find_order id l = Some o ->
  map o_id l ≡ₚ id :: map o_id (remove_order id l) /\ NoDup (map o_id (remove_order id l)) /\
  id ∉ map o_id (remove_order id l).
Proof.
  intros Hnd Hf. pose proof (find_order_remove id o l Hnd Hf) as Hp.
  pose proof (find_order_ids _ _ _ Hnd Hf) as Hid.
  assert (map o_id l ≡ₚ id :: map o_id (remove_order id l)) as Hm.
  { rewrite Hp at 1. cbn. by rewrite Hid. }
  rewrite Hm in Hnd. apply NoDup_cons in Hnd as [? ?]. done.
Qed.

Lemma find_order_remove_other id id' l :
  id' <> id -> find_order id' (remove_order id l) = find_order id' l.
Proof.
  intros Hne. induction l as [|o l IH]; [done|]. rewrite remove_order_cons. cbn [find_order].
  destruct (Z.eqb_spec (o_id o) id) as [->|]; [|cbn [find_order]; by rewrite IH].
  by rewrite (proj2 (Z.eqb_neq id id')) by congruence.
Qed.

Lemma unregister_ok P s l id o :
  sym_ok P s l -> find_order id l = Some o -> room_for (length l) ->
  exists s', unregister_order id s = Ok s' /\ sym_ok P s' (remove_order id l).
Proof.
  intros Hs Hf Hlen. pose proof Hs as []. pose proof (co_qty _ Hcfg) as Hq.
  pose proof (find_order_remove id o l so_ids0 Hf) as Hp.
  destruct (remove_ids id o l so_ids0 Hf) as (Hids & Hnd & Hfresh).
  pose proof (proj1 (find_order_Some id o l so_ids0) Hf) as [Hin Hid].
  assert (Forall (order_ok P) (o :: remove_order id l)) as Hall by by rewrite <- Hp.
  pose proof Hall as [Hok Hrest]%Forall_cons.
  unfold unregister_order. rewrite so_orders0, Hf. cbn [fmap option_fmap option_map]. cbn [live_of lo_side lo_price lo_qty].
  destruct (remove_depth_ok (max_qty cfg) o (o_qty o) s (remove_order id l)) as (m & E & Hd');
    [lia|by eapply orders_qty| |by destruct Hok; unfold qty_ok in *; lia| |].
  { rewrite <- (Permutation_length Hp). exact Hlen. }
  { intros buy. by eapply depth_ok_perm. }
  rewrite Z.eqb_refl in Hd'. cbn zeta. rewrite E.
  destruct (with_depth_fields (is_buy (o_side o)) m s) as (E1 & E2 & E3 & E4). rewrite E2, E3.
  assert (id ∈ ss_live_ids s) as [slot Hslot]%list_elem_of_lookup by (rewrite so_live0, Hids; left).
  rewrite (proj2 (so_index0 id slot) Hslot). cbn [default].
  destruct (last (ss_live_ids s)) as [lst|] eqn:Elast.
  2:{ apply last_None in Elast. by rewrite Elast in Hslot. }
  cbn [of_option]. rewrite bind_ok, bool_decide_eq_true_2 by (by apply lookup_lt_Some in Hslot).
  cbn [require]. rewrite bind_ok. eexists. split; [reflexivity|]. rewrite length_insert.
  assert (NoDup (ss_live_ids s)) as Hnl by by rewrite so_live0.
  destruct (swap_remove _ _ id slot lst Hnl so_index0 Hslot Elast) as [Hperm Hindex].
  split; try done; cbn [ss_orders ss_live_ids ss_index ss_ref_mid with_ids with_orders]; rewrite ?E1, ?E4; try done.
  - intros id'. destruct (decide (id' = id)) as [->|Hne].
    + rewrite lookup_delete_eq, (proj2 (find_order_None _ _) Hfresh). done.
    + by rewrite lookup_delete_ne, find_order_remove_other, so_orders0 by done.
  - apply (Permutation_cons_inv (a := id)). by rewrite <- Hperm, so_live0, Hids.
  - eapply uncrossed_incl, so_spread0. intros o'. apply remove_order_subset.
Qed.

(** An order replaced by another one with its id. *)
Lemma replace_ok P P' s s' l id o o' :
  sym_ok P s l -> find_order id l = Some o -> P <= P' -> o_id o' = id -> order_ok P' o' ->
  ss_orders s' = <[id := live_of o']> (ss_orders s) -> ss_live_ids s' = ss_live_ids s ->
  ss_index s' = ss_index s -> ss_ref_mid s' = ss_ref_mid s ->
  depths_ok s' (o' :: remove_order id l) -> ~ crossed (o' :: remove_order id l) ->
  sym_ok P' s' (o' :: remove_order id l).
Proof.
  intros Hs Hf HP Hid Ho' E1 E2 E3 E4 Hd Hx. pose proof Hs as [].
  destruct (remove_ids id o l so_ids0 Hf) as (Hids & Hnd & Hfresh).
  assert (Forall (order_ok P) (remove_order id l)) as Hrest.
  { apply Forall_forall. intros x Hin%remove_order_subset. by apply (proj1 (Forall_forall _ _) so_order0). }
  split; try done; rewrite ?E1, ?E2, ?E3, ?E4; try done.
  - cbn. rewrite Hid. by constructor.
  - intros id'. rewrite lookup_insert. cbn [find_order]. rewrite Hid.
    destruct (Z.eqb_spec id id') as [->|Hne]; [by rewrite decide_True|].
    by rewrite decide_False, find_order_remove_other by done.
  - rewrite so_live0, Hids. cbn. by rewrite Hid.
  - constructor; [done|]. eapply Forall_impl; [exact Hrest|]. intros x. by apply order_ok_mono.
  - lia.
Qed.

(** ** Messages *)

(** [out] announces an operation on symbol [sym] that the specification
    accepts and that takes [l] to [l'], and [s'] represents [l']. *)
Record emits (sym : Z) (new : Z -> Prop) (P : Z) l (out0 out : GeneratedMessage) s' (l' : list Order) : Prop := mkEmits {
  em_seq : gm_seq out = gm_seq out0;
  em_ts : gm_ts out = gm_ts out0;
  em_op : exists op, event_op (packet_event (dispatch_message out)) = Some (sym, op) /\
                     spec_op op l = (true, l');
  em_wire : in_unsigned 32 (gm_seq out0) -> in_unsigned 64 (gm_ts out0) -> packet_ok (dispatch_message out);
  em_state : sym_ok P s' l';
  em_length : (length l' <= S (length l))%nat;
  em_ids id : id ∈ map o_id l' -> id ∈ map o_id l \/ new id
}.

(** What a message on symbol [sym] may rely on. *)
Record ready (sym next : Z) (P : Z) s l : Prop := mkReady {
  rd_sym : in_unsigned 32 sym;
  rd_next : in_unsigned 64 next;
  rd_fresh : next ∉ map o_id l;
  rd_room : room_for (S (length l));
  rd_price : P + band < 2 ^ 63;
  rd_state : sym_ok P s l
}.

Lemma max_qty_32 n : room_for (S n) -> in_unsigned 32 (max_qty cfg) .
Proof. unfold room_for, in_unsigned. pose proof (co_qty _ Hcfg). nia. Qed.

Lemma qty_32 n q : room_for (S n) -> 1 <= q <= max_qty cfg -> in_unsigned 32 q.
Proof. intros Hr Hq. pose proof (max_qty_32 n Hr). unfold in_unsigned in *. lia. Qed.

Lemma price_64 P p : P + band < 2 ^ 63 -> tk <= p <= P + band -> in_signed 64 p.
Proof. intros H Hp. pose proof (co_tick _ Hcfg). unfold in_signed. lia. Qed.

Lemma random_qty_ok rng :
  exists q rng', random_qty draw cfg rng = Ok (q, rng') /\ 1 <= q <= max_qty cfg.
Proof.
  pose proof (co_qty _ Hcfg) as Hq.
  destruct (uniform_ok Dist_u32 (min_qty cfg) (max_qty cfg) rng) as (q & rng' & E & Hr); [lia|].
  exists q, rng'. split; [exact E|lia].
Qed.

Lemma band_pos : 0 <= band.
Proof. pose proof (co_tick _ Hcfg). pose proof (co_band _ Hcfg). nia. Qed.

Lemma fill_add_ok sym next P out s l rng :
  ready sym next P s l ->
  exists out' s' rng' l', fill_add draw cfg sym out s rng next = Ok (out', s', rng', wrap 64 (next + 1)) /\
    emits sym (eq next) (P + band) l out out' s' l'.
Proof.
  intros [Hsym Hnext Hfresh Hroom HP Hs]. pose proof Hs as []. pose proof band_pos.
  destruct (uniform_ok Dist_int 0 1 rng) as (v & rng1 & E1 & Hv); [lia|]. unfold fill_add. rewrite E1, bind_ok.
  cbn [fst snd]. set (side := if v =? 0 then Side_Buy else Side_Sell).
  assert (side = Side_Buy \/ side = Side_Sell) as Hside by (unfold side; destruct (v =? 0); auto).
  destruct (choose_price_ok P s l side rng1) as (p & rng2 & E2 & Hp & Hask & Hin); [done..|].
  cbn zeta. rewrite E2, bind_ok. cbn [fst snd].
  destruct (random_qty_ok rng2) as (q & rng3 & E3 & Hq). rewrite E3, bind_ok. cbn [fst snd].
  set (o := mkOrder next side p q).
  destruct (register_ok (P + band) s l o) as (s' & E4 & Hs');
    [by apply (sym_ok_mono P); [lia|]|by split|done|by apply uncrossed_cons|done|].
  cbn [o o_id o_side o_price o_qty] in E4. rewrite E4, bind_ok.
  eexists _, s', rng3, (l ++ [o]). split; [reflexivity|]. split; try done.
  - eexists. split; [reflexivity|]. cbn [spec_op add_order_id add_side add_price add_quantity gm_add with_add]. unfold spec_add.
    rewrite (proj2 (Z.eqb_neq q 0)) by lia. by rewrite (proj2 (find_order_None _ _) Hfresh).
  - intros Hseq Hts. split; [exact Hseq|]. split; [exact Hts|]. cbn.
    split_and!; cbn [add_symbol add_order_id add_side add_price add_quantity]; try done.
    + destruct Hside as [-> | ->]; unfold in_unsigned, Side_Buy, Side_Sell; lia.
    + by eapply price_64.
    + by eapply qty_32.
  - eapply sym_ok_perm; [apply Permutation_cons_append|done].
  - rewrite length_app. cbn. lia.
  - intros id. rewrite map_app, elem_of_app. intros [?|Hid]; [by left|right].
    by apply list_elem_of_singleton in Hid.
Qed.

Lemma random_live_ok P s l rng :
  sym_ok P s l -> ss_live_ids s <> [] -> room_for (S (length l)) ->
  exists id rng' o, random_live draw s rng = Ok (id, rng') /\ find_order id l = Some o.
Proof.
  intros [] Hne Hroom. pose proof (co_qty _ Hcfg) as Hq.
  assert (length (ss_live_ids s) = length l) as Hlen by by rewrite so_live0, length_map.
  assert (0 < length l)%nat as Hpos by (rewrite <- Hlen; destruct (ss_live_ids s); [done|cbn; lia]).
  unfold random_live. rewrite Hlen, wrap_small by (unfold room_for, in_unsigned in *; nia).
  destruct (uniform_ok Dist_size 0 (Z.of_nat (length l) - 1) rng) as (v & rng' & E & Hv); [lia|].
  rewrite E, bind_ok. cbn [fst snd].
  destruct (lookup_lt_is_Some_2 (ss_live_ids s) (Z.to_nat v)) as [id Hid]; [lia|].
  rewrite Hid. cbn [of_option]. rewrite bind_ok. exists id, rng'.
  apply list_elem_of_lookup_2 in Hid. rewrite so_live0 in Hid.
  destruct (find_order id l) as [o|] eqn:Ef; [by exists o|]. by apply find_order_None in Ef.
Qed.

Lemma fill_cancel_ok sym next P out s l rng :
  ready sym next P s l ->
  fill_cancel draw sym out s rng = Ok None \/
  exists out' s' rng' l', fill_cancel draw sym out s rng = Ok (Some (out', s', rng')) /\
    emits sym (fun _ => False) P l out out' s' l'.
Proof.
  intros [Hsym Hnext Hfresh Hroom HP Hs]. unfold fill_cancel. case_bool_decide as Hne; [by left|right].
  destruct (random_live_ok P s l rng Hs Hne Hroom) as (id & rng' & o & E & Hf). rewrite E, bind_ok. cbn [fst snd].
  destruct (unregister_ok P s l id o Hs Hf) as (s' & E' & Hs'); [by apply (room_for_le _ (S (length l))); [lia|]|].
  rewrite E', bind_ok. eexists _, s', rng', (remove_order id l). split; [reflexivity|].
  pose proof (so_ids _ _ _ Hs) as Hnd. destruct (remove_ids id o l Hnd Hf) as (Hids & _).
  split; try done.
  - eexists. split; [reflexivity|]. cbn [spec_op cancel_order_id gm_cancel with_cancel]. unfold spec_cancel. by rewrite Hf.
  - intros Hseq Hts. split; [exact Hseq|]. split; [exact Hts|]. split; [done|]. cbn.
    apply (proj1 (find_order_Some id o l Hnd)) in Hf as [Hin <-].
    by destruct (proj1 (Forall_forall _ _) (so_order _ _ _ Hs) o Hin).
  - pose proof (Permutation_length Hids) as Hl. cbn in Hl. rewrite !length_map in Hl. lia.
  - intros x Hx. left. rewrite Hids. by right.
Qed.

(** A live order taken out of its level, wholly or in part. *)
Lemma take_depth P s l id o q :
  sym_ok P s l -> find_order id l = Some o -> room_for (S (length l)) -> 1 <= q <= o_qty o ->
  exists m, remove_depth (o_side o) (o_price o) q s = with_depth (is_buy (o_side o)) m s /\
    depths_ok (with_depth (is_buy (o_side o)) m s)
      (if q =? o_qty o then remove_order id l else set_qty (o_qty o - q) o :: remove_order id l).
Proof.
  intros Hs Hf Hroom Hq. pose proof Hs as []. pose proof (co_qty _ Hcfg).
  pose proof (find_order_remove id o l so_ids0 Hf) as Hp.
  apply (remove_depth_ok (max_qty cfg)); [lia| | |done|].
  - rewrite <- Hp. by eapply orders_qty.
  - rewrite <- (Permutation_length Hp). apply (room_for_le _ (S (length l))); [lia|done].
  - intros buy. by eapply depth_ok_perm.
Qed.

Lemma found_order P s l id o :
  sym_ok P s l -> find_order id l = Some o ->
  ss_orders s !! id = Some (live_of o) /\ order_ok P o /\ o_id o = id /\ o ∈ l /\
  Forall (order_ok P) (remove_order id l) /\ ~ crossed (remove_order id l) /\
  length l = S (length (remove_order id l)).
Proof.
  intros [] Hf. split; [by rewrite so_orders0, Hf|].
  apply (proj1 (find_order_Some id o l so_ids0)) in Hf as Hin. destruct Hin as [Hin Hid].
  split_and!; try done.
  - by apply (proj1 (Forall_forall _ _) so_order0).
  - apply Forall_forall. intros x Hx%remove_order_subset. by apply (proj1 (Forall_forall _ _) so_order0).
  - eapply uncrossed_incl, so_spread0. intros x. apply remove_order_subset.
  - by rewrite (Permutation_length (find_order_remove id o l so_ids0 Hf)).
Qed.

Lemma fill_modify_ok sym next P out s l rng :
  ready sym next P s l ->
  fill_modify draw cfg sym out s rng = Ok None \/
  exists out' s' rng' l', fill_modify draw cfg sym out s rng = Ok (Some (out', s', rng')) /\
    emits sym (fun _ => False) (P + band) l out out' s' l'.
Proof.
  intros [Hsym Hnext Hfresh Hroom HP Hs]. unfold fill_modify. case_bool_decide as Hne; [by left|right].
  pose proof band_pos as Hband. pose proof (co_qty _ Hcfg) as Hmq.
  destruct (random_live_ok P s l rng Hs Hne Hroom) as (id & rng1 & o & E & Hf). rewrite E, bind_ok. cbn [fst snd].
  destruct (found_order P s l id o Hs Hf) as (Ho & Hok & Hid & Hin & Hrest & Hx & Hlen).
  rewrite Ho. cbn [of_option]. rewrite bind_ok. cbn [live_of lo_side lo_price lo_qty].
  pose proof (oo_qty _ _ Hok) as Hqo. unfold qty_ok in Hqo.
  destruct (take_depth P s l id o (o_qty o) Hs Hf Hroom) as (m & Em & Hd); [lia|].
  rewrite Z.eqb_refl in Hd. rewrite Em. cbn zeta. set (s1 := with_depth (is_buy (o_side o)) m s) in *.
  destruct (with_depth_fields (is_buy (o_side o)) m s) as (E1 & E2 & E3 & E4). fold s1 in E1, E2, E3, E4.
  destruct (choose_price_ok P s1 (remove_order id l) (o_side o) rng1) as (p & rng2 & Ep & Hp & Hask & Hspread);
    [done|done|done|rewrite E4; by apply Hs|done|].
  rewrite Ep, bind_ok. cbn [fst snd].
  destruct (random_qty_ok rng2) as (q & rng3 & Eq & Hq). rewrite Eq, bind_ok. cbn [fst snd].
  set (o' := mkOrder id (o_side o) p q).
  set (s2 := with_orders (<[id := mkLiveOrder (o_side o) p q]> (ss_orders s1)) s1).
  assert (order_ok (P + band) o') as Hok' by (destruct Hok; split; cbn; [done|by rewrite <- Hid|done|done|done]).
  destruct (add_depth_ok (max_qty cfg) o' s2 (remove_order id l)) as (m2 & Ea & Hd2);
    [lia|constructor; [apply Hok'|by eapply orders_qty]| |exact Hd|].
  { cbn [length]. rewrite <- Hlen. apply (room_for_le _ (S (length l))); [lia|done]. }
  cbn [o' o_side o_price o_qty] in Ea. rewrite Ea, bind_ok.
  destruct (with_depth_fields (is_buy (o_side o)) m2 s2) as (F1 & F2 & F3 & F4).
  assert (~ crossed (o' :: remove_order id l)) as Hx' by by apply uncrossed_cons.
  assert (sym_ok (P + band) (with_depth (is_buy (o_side o)) m2 s2) (o' :: remove_order id l)) as Hs'.
  { apply (replace_ok P (P + band) s _ l id o o'); try done; [lia|..].
    - rewrite F1. cbn [s2 ss_orders with_orders]. by rewrite E1.
    - by rewrite F2.
    - by rewrite F3.
    - by rewrite F4. }
  pose proof (so_ids _ _ _ Hs) as Hnd.
  set (l' := if (p =? o_price o) && (q <=? o_qty o) then update_qty id q l
             else remove_order id l ++ [mkOrder id (o_side o) p q]).
  assert (o' :: remove_order id l ≡ₚ l') as Hperm.
  { unfold l'. destruct (_ && _) eqn:Ec; [|by rewrite Permutation_app_comm].
    apply andb_true_iff in Ec as [->%Z.eqb_eq _]. rewrite (update_qty_perm id o q l Hnd Hf).
    unfold set_qty. by rewrite Hid. }
  eexists _, _, rng3, l'. split; [reflexivity|]. split; try done.
  - eexists. split; [reflexivity|]. cbn [spec_op mod_order_id mod_new_price mod_new_quantity gm_modify with_modify].
    unfold spec_modify. rewrite (proj2 (Z.eqb_neq q 0)), Hf by lia. unfold l'. by destruct (_ && _).
  - intros Hseq Hts. split; [exact Hseq|]. split; [exact Hts|]. split_and!; cbn; try done.
    + rewrite <- Hid. apply Hok.
    + by eapply price_64.
    + by eapply qty_32.
  - by eapply sym_ok_perm.
  - rewrite <- (Permutation_length Hperm). cbn. lia.
  - intros x. rewrite <- Hperm. cbn. intros [->|Hx1]%elem_of_cons; left.
    + apply list_elem_of_fmap. by exists o.
    + apply list_elem_of_fmap in Hx1 as (y & -> & Hy%remove_order_subset). apply list_elem_of_fmap. by exists y.
Qed.

Lemma fill_trade_ok sym next P out s l rng :
  ready sym next P s l ->
  fill_trade draw sym out s rng = Ok None \/
  exists out' s' rng' l', fill_trade draw sym out s rng = Ok (Some (out', s', rng')) /\
    emits sym (fun _ => False) P l out out' s' l'.
Proof.
  intros [Hsym Hnext Hfresh Hroom HP Hs]. unfold fill_trade. case_bool_decide as Hne; [by left|right].
  pose proof (co_qty _ Hcfg) as Hmq. pose proof band_pos as Hband.
  destruct (random_live_ok P s l rng Hs Hne Hroom) as (id & rng1 & o & E & Hf). rewrite E, bind_ok. cbn [fst snd].
  destruct (found_order P s l id o Hs Hf) as (Ho & Hok & Hid & Hin & Hrest & Hx & Hlen).
  rewrite Ho. cbn [of_option]. rewrite bind_ok. cbn [live_of lo_side lo_price lo_qty].
  pose proof (oo_qty _ _ Hok) as Hqo. unfold qty_ok in Hqo. pose proof (so_ids _ _ _ Hs) as Hnd.
  destruct (uniform_ok Dist_u32 1 (o_qty o) rng1) as (f & rng2 & Ef & Hfill); [lia|]. rewrite Ef, bind_ok. cbn [fst snd]. cbn zeta.
  assert (forall s' l', spec_execute id f l = (true, l') -> sym_ok P s' l' ->
    (forall x, x ∈ map o_id l' -> x ∈ map o_id l) -> (length l' <= length l)%nat ->
    emits sym (fun _ => False) P l out
      (with_trade (mkTrade sym id (o_price o) f (opposite (o_side o))) out) s' l') as Hemit.
  { intros s' l' Hspec Hs' Hsub Hll. split; try done; [by eexists| |lia|auto].
    intros Hseq Hts. split; [exact Hseq|]. split; [exact Hts|]. split_and!; cbn; try done.
    - rewrite <- Hid. apply Hok.
    - eapply price_64; [exact HP|]. pose proof (oo_price _ _ Hok). lia.
    - eapply qty_32; [exact Hroom|lia].
    - unfold opposite. destruct (is_buy _); done. }
  destruct (Z.leb_spec (o_qty o) f) as [Hfull|Hpart].
  - destruct (unregister_ok P s l id o Hs Hf) as (s' & E' & Hs'); [by apply (room_for_le _ (S (length l))); [lia|]|].
    rewrite E', bind_ok. eexists _, s', rng2, (remove_order id l). split; [reflexivity|].
    apply Hemit; [|done| |lia].
    + unfold spec_execute. rewrite Hf. by rewrite (proj2 (Z.leb_le _ _) Hfull).
    + intros x (y & -> & Hy%remove_order_subset)%list_elem_of_fmap. apply list_elem_of_fmap. by exists y.
  - destruct (take_depth P s l id o f Hs Hf Hroom) as (m & Em & Hd); [lia|].
    rewrite (proj2 (Z.eqb_neq f (o_qty o))) in Hd by lia. rewrite Em.
    destruct (with_depth_fields (is_buy (o_side o)) m s) as (E1 & E2 & E3 & E4).
    set (o' := set_qty (o_qty o - f) o) in *.
    assert (in_unsigned 32 (o_qty o - f)) as Hq32 by (eapply qty_32; [exact Hroom|lia]).
    assert (update_qty id (o_qty o - f) l ≡ₚ o' :: remove_order id l) as Hperm by by apply update_qty_perm.
    assert (~ crossed (o' :: remove_order id l)) as Hx'.
    { apply uncrossed_cons; [done|]. intros x Hx1%remove_order_subset Hne'. cbn in *.
      pose proof (so_spread _ _ _ Hs) as Hsp. destruct (is_buy (o_side o)) eqn:Eb.
      - apply Z.nle_gt. intros Hle. apply Hsp. exists o, x. apply not_true_is_false in Hne'. done.
      - apply Z.nle_gt. intros Hle. apply Hsp. exists x, o. apply not_false_is_true in Hne'. done. }
    eexists _, _, rng2, (update_qty id (o_qty o - f) l). split; [reflexivity|]. apply Hemit.
    + unfold spec_execute. rewrite Hf. by rewrite (proj2 (Z.leb_gt _ _)) by lia.
    + eapply sym_ok_perm; [symmetry; exact Hperm|].
      apply (replace_ok P P s _ l id o o'); try done.
      * destruct Hok; split; try done. unfold qty_ok. cbn. lia.
      * cbn [ss_orders with_orders]. rewrite E1, wrap_small by done. done.
    + intros x. rewrite Hperm. cbn. intros [->|Hx1]%elem_of_cons.
      * apply list_elem_of_fmap. by exists o.
      * apply list_elem_of_fmap in Hx1 as (y & -> & Hy%remove_order_subset). apply list_elem_of_fmap. by exists y.
    + unfold update_qty. by rewrite length_map.
Qed.

Lemma fill_action_ok sym next P out s l rng :
  ready sym next P s l ->
  exists out' s' rng' next' l', fill_action draw cfg sym out s rng next = Ok (out', s', rng', next') /\
    (emits sym (fun _ => False) (P + band) l out out' s' l' /\ next' = next \/
     emits sym (eq next) (P + band) l out out' s' l' /\ next' = wrap 64 (next + 1)).
Proof.
  intros Hr. unfold fill_action. destruct (uniform_ok Dist_int 0 99 rng) as (v & rng1 & E & Hv); [lia|].
  rewrite E, bind_ok. cbn [fst snd]. cbn zeta.
  assert (exists out' s' rng' next' l', fill_add draw cfg sym out s rng1 next = Ok (out', s', rng', next') /\
    (emits sym (fun _ => False) (P + band) l out out' s' l' /\ next' = next \/
     emits sym (eq next) (P + band) l out out' s' l' /\ next' = wrap 64 (next + 1))) as Hadd.
  { destruct (fill_add_ok sym next P out s l rng1 Hr) as (out' & s' & rng' & l' & Ea & Hem).
    eexists out', s', rng', _, l'. split; [exact Ea|]. by right. }
  assert (forall d, d = Ok None \/ (exists out' s' rng' l', d = Ok (Some (out', s', rng')) /\
      emits sym (fun _ => False) (P + band) l out out' s' l') ->
    exists out' s' rng' next' l',
      (x ← d; match x with
              | Some (o, s, r) => Ok (o, s, r, next)
              | None => fill_add draw cfg sym out s rng1 next
              end) = Ok (out', s', rng', next') /\
    (emits sym (fun _ => False) (P + band) l out out' s' l' /\ next' = next \/
     emits sym (eq next) (P + band) l out out' s' l' /\ next' = wrap 64 (next + 1))) as Hfall.
  { intros d [->|(out' & s' & rng' & l' & -> & Hem)]; rewrite bind_ok; [exact Hadd|].
    eexists out', s', rng', _, l'. split; [reflexivity|]. by left. }
  assert (forall out' s' l', emits sym (fun _ => False) P l out out' s' l' ->
    emits sym (fun _ => False) (P + band) l out out' s' l') as Hmono.
  { intros out' s' l' []. split; try done. eapply sym_ok_mono; [|done]. pose proof band_pos. lia. }
  destruct (v <? w_add cfg); [exact Hadd|]. rewrite s32_ok, bind_ok by apply Hcfg.
  destruct (v <? _); [|rewrite s32_ok, bind_ok by apply Hcfg; destruct (v <? _)]; apply Hfall.
  - destruct (fill_cancel_ok sym next P out s l rng1 Hr) as [?|(out' & s' & rng' & l' & ? & ?)]; [by left|right].
    exists out', s', rng', l'. auto.
  - by apply (fill_modify_ok sym next).
  - destruct (fill_trade_ok sym next P out s l rng1 Hr) as [?|(out' & s' & rng' & l' & ? & ?)]; [by left|right].
    exists out', s', rng', l'. auto.
Qed.

(** ** Snapshots *)

Lemma depth_level buy P s l e :
  depths_ok s l -> Forall (order_ok P) l -> room_for (S (length l)) -> P + band < 2 ^ 63 ->
  e ∈ depth buy s -> SnapshotLevel_ok (mkSnapshotLevel e.1 e.2).
Proof.
  intros Hd Hl Hroom HP Hin. pose proof (co_qty _ Hcfg) as Hq. destruct (Hd buy) as [Hs Hf]. destruct e as [p q].
  assert (p ∈ om_keys (depth buy s)) as Hk by (apply list_elem_of_fmap; by exists (p, q)).
  apply (depth_key (max_qty cfg) buy _ l p) in Hk as (o & Ho & _ & <-);
    [|lia|by eapply orders_qty|by split].
  apply (om_find_elem std_less) in Hin; [|done]. rewrite Hf in Hin. cbn zeta in Hin.
  pose proof (level_total_bounds (max_qty cfg) buy (o_price o) l ltac:(lia) (orders_qty _ _ Hl)) as [Hb _].
  destruct (Z.eqb_spec (level_total buy (o_price o) l) 0); [done|]. injection Hin as <-.
  pose proof (proj1 (Forall_forall _ _) Hl o Ho) as []. pose proof band_pos.
  split; cbn [sl_price sl_quantity fst snd].
  - eapply price_64; [exact HP|lia].
  - unfold room_for, in_unsigned in *. nia.
Qed.

Lemma snapshot_levels_ok levels :
  (forall e, e ∈ levels -> SnapshotLevel_ok (mkSnapshotLevel e.1 e.2)) ->
  length (snapshot_levels levels) = kMaxSnapshotLevels /\ Forall SnapshotLevel_ok (snapshot_levels levels).
Proof.
  intros Hl. unfold snapshot_levels. cbn zeta. split.
  - rewrite length_app, length_map, length_replicate, length_take. lia.
  - apply Forall_app. split; [|apply Forall_replicate; split; vm_compute; by split].
    apply Forall_fmap, Forall_forall. intros e He. apply Hl. by eapply subseteq_take.
Qed.

Lemma make_snapshot_ok sym P s l :
  in_unsigned 32 sym -> sym_ok P s l -> room_for (S (length l)) -> P + band < 2 ^ 63 ->
  BookSnapshot_ok (make_snapshot sym s).
Proof.
  intros Hsym [] Hroom HP. unfold make_snapshot. cbn zeta.
  assert (forall buy e, e ∈ depth buy s -> SnapshotLevel_ok (mkSnapshotLevel e.1 e.2)) as Hlev.
  { intros buy e. by eapply depth_level. }
  destruct (snapshot_levels_ok (rev (ss_bid_qty s))) as [Hb1 Hb2].
  { intros e He. apply (Hlev true). cbn [depth]. by rewrite (Permutation_rev (ss_bid_qty s)). }
  destruct (snapshot_levels_ok (ss_ask_qty s)) as [Ha1 Ha2]; [intros e; apply (Hlev false)|].
  split_and!; try done; apply wrap_range; lia.
Qed.

(** *** Snapshots are those of the order book *)

Lemma om_sorted_rev (m : list (Price * Quantity)) :
  om_sorted std_less m -> om_sorted std_greater (rev m).
Proof.
  induction m as [|[p q] m IH]; intros Hs; [constructor|]. apply om_sorted_cons in Hs as [Hs Hlt].
  unfold om_sorted, om_keys in *. cbn [rev]. rewrite map_app, map_rev. cbn [map fst].
  apply StronglySorted_app. split; [|split; [by rewrite <- map_rev; apply IH|by repeat constructor]].
  intros a b Ha ->%list_elem_of_singleton. apply Hlt. by rewrite <- (Permutation_rev (map fst m)) in Ha.
Qed.

(** A side of the depth maps, best first, lists the levels of the side. *)
Definition best_first (buy : bool) (m : list (Price * Quantity)) : list (Price * Quantity) :=
  if buy then rev m else m.

Lemma best_first_sorted buy m : om_sorted std_less m -> om_sorted (side_order buy) (best_first buy m).
Proof. destruct buy; [apply om_sorted_rev|done]. Qed.

Lemma best_first_elem buy m e : e ∈ best_first buy m <-> e ∈ m.
Proof. destruct buy; [cbn; by rewrite <- Permutation_rev|done]. Qed.

Lemma depth_views buy bound m l :
  0 <= bound -> Forall (qty_ok bound) l -> bound * Z.of_nat (length l) < 2 ^ 32 -> depth_ok buy m l ->
  map (fun e => mkSnapshotLevel e.1 e.2) (best_first buy m) =
  map (fun p => to_snapshot_level (spec_view buy p l)) (spec_prices buy l).
Proof.
  intros Hb Hl Hlen Hd. pose proof Hd as [Hs Hf].
  assert (om_keys (best_first buy m) = spec_prices buy l) as Hkeys.
  { change (spec_prices buy l) with (om_keys (price_map buy l)). rewrite <- erase_values_keys. f_equal.
    apply (om_ext (side_order buy)); [|apply price_map_sorted|].
    - unfold om_sorted. rewrite erase_values_keys. by apply best_first_sorted.
    - intros p. rewrite erase_values_find.
      assert (is_Some (om_find (side_order buy) p (best_first buy m)) <->
              is_Some (om_find (side_order buy) p (price_map buy l))) as Hiff.
      { rewrite price_map_find, <- (depth_key bound buy m l p Hb Hl Hd), <- (om_keys_elem (side_order buy)) by by apply best_first_sorted.
        unfold om_keys. rewrite !list_elem_of_fmap. by setoid_rewrite best_first_elem. }
      destruct (om_find (side_order buy) p (best_first buy m)), (om_find (side_order buy) p (price_map buy l)) as [[]|];
        cbn; try done; [by destruct Hiff as [[] _]|by destruct Hiff as [_ []]]. }
  rewrite <- Hkeys. unfold om_keys. rewrite map_map. apply map_ext_in. intros [p q] Hin. cbn [fst snd].
  apply list_elem_of_In, best_first_elem, (om_find_elem std_less) in Hin; [|done]. rewrite Hf in Hin. cbn zeta in Hin.
  pose proof (level_total_bounds bound buy p l Hb Hl) as [Hbnd _].
  destruct (level_total buy p l =? 0); [done|]. injection Hin as <-.
  unfold spec_view, to_snapshot_level. cbn [lv_price lv_quantity]. f_equal. symmetry. apply wrap_small.
  unfold in_unsigned, level_total in *. lia.
Qed.

Lemma snapshot_levels_spec buy bound m l :
  0 <= bound -> Forall (qty_ok bound) l -> bound * Z.of_nat (length l) < 2 ^ 32 -> depth_ok buy m l ->
  snapshot_levels (best_first buy m) = pad_levels (spec_depth buy kMaxSnapshotLevels l) /\
  length (take kMaxSnapshotLevels (best_first buy m)) = length (spec_depth buy kMaxSnapshotLevels l).
Proof.
  intros Hb Hl Hlen Hd. pose proof (depth_views buy bound m l Hb Hl Hlen Hd) as Hv.
  assert (length (take kMaxSnapshotLevels (best_first buy m)) = length (spec_depth buy kMaxSnapshotLevels l)) as E.
  { apply (f_equal length) in Hv. unfold spec_depth. rewrite !length_map in Hv. by rewrite length_map, !length_take, Hv. }
  split; [|done]. unfold snapshot_levels, pad_levels. cbn zeta. rewrite E. f_equal.
  unfold spec_depth. rewrite map_map. by rewrite map_take, Hv, <- map_take.
Qed.

(** The snapshot message of a symbol state is the snapshot of the book that
    holds its live orders. *)
Lemma make_snapshot_spec sym P s l :
  sym_ok P s l -> room_for (S (length l)) -> make_snapshot sym s = spec_snapshot sym l.
Proof.
  intros [] Hroom. pose proof (co_qty _ Hcfg) as Hq. unfold make_snapshot. cbn zeta.
  assert (forall buy, snapshot_levels (best_first buy (depth buy s)) = pad_levels (spec_depth buy kMaxSnapshotLevels l) /\
    length (take kMaxSnapshotLevels (best_first buy (depth buy s))) = length (spec_depth buy kMaxSnapshotLevels l)) as H.
  { intros buy. apply (snapshot_levels_spec buy (max_qty cfg)); [lia|by eapply orders_qty| |apply so_depths0].
    unfold room_for in Hroom. nia. }
  destruct (H true) as [Hb Hbn], (H false) as [Ha Han]. cbn [best_first depth] in *.
  rewrite Hb, Ha, Hbn, Han. unfold spec_snapshot. cbn zeta.
  assert (forall buy, (length (spec_depth buy kMaxSnapshotLevels l) <= kMaxSnapshotLevels)%nat) as Hle.
  { intros buy. unfold spec_depth. rewrite length_map, length_take. lia. }
  pose proof (Hle true). pose proof (Hle false). unfold kMaxSnapshotLevels in *.
  rewrite !wrap_small by (unfold in_unsigned; lia). done.
Qed.
End Simulator.
