(* ===== verification/SimulatorTheorems.v ===== *)
(** What the simulator promises its consumers: every run produces exactly the
    configured number of encodable messages with gap-free sequence numbers,
    each an operation on a live order, and the books they describe are never
    crossed, so that the checked book builder never aborts on them. *)
From S2P Require Import Prelude ByteOrder Protocol Serialization Parser SequenceTracker.
From S2P Require Import FeedHandler.
From S2P Require Import OrderedMap OrderBook BookSpec BookRep BookQueries BookTheorems.
From S2P Require Import BookBuilder EndToEnd.
From S2P Require Import Simulator SimulatorDepth SimulatorProofs.

Local Open Scope Z_scope.

Section Run.
Context {Rng : Type} (draw : DistType -> Z -> Z -> Rng -> Z * Rng).
Hypothesis draw_range : forall t a b rng, a <= b -> a <= (draw t a b rng).1 <= b.
Context (cfg : SimConfig).
Hypothesis Hcfg : config_ok cfg.
Notation simulator := (@MarketSimulator Rng).
Implicit Types (sim : simulator) (S : gmap Z (list Order)).

(** The time stamp of the message after [n] others. *)
Definition stamp (n : Z) : TimestampNs := wrap 64 (ts_start cfg + n * ts_step_ns cfg).

Lemma stamp_succ n : wrap 64 (stamp n + ts_step_ns cfg) = stamp (n + 1).
Proof. unfold stamp. rewrite wrap_add_l. f_equal. lia. Qed.

Lemma stamp_range n : in_unsigned 64 (stamp n).
Proof. apply wrap_range. lia. Qed.

(** After [n] messages the symbol states represent the books [S]. *)
Record sim_ok sim (n : Z) S : Prop := mkSimOk {
  sm_produced : ms_produced sim = n;
  sm_count : 0 <= n <= num_messages cfg;
  sm_seq : ms_next_seq sim = wrap 32 (n + 1);
  sm_ts : ms_ts sim = stamp n;
  sm_next : 1 <= ms_next_order_id sim <= n + 1;
  sm_symbols : Z.of_nat (length (ms_symbols sim)) = num_symbols cfg;
  sm_states i s : ms_symbols sim !! i = Some s ->
    sym_ok cfg (top_price cfg n) s (orders_of (Z.of_nat i) S) /\
    Z.of_nat (length (orders_of (Z.of_nat i) S)) <= n /\
    forall id, id ∈ map o_id (orders_of (Z.of_nat i) S) -> id < ms_next_order_id sim
}.

Lemma top_price_succ n : top_price cfg (n + 1) = top_price cfg n + band_levels cfg * tick cfg.
Proof. unfold top_price. lia. Qed.

Lemma top_price_mono n m : n <= m -> top_price cfg n <= top_price cfg m.
Proof. intros H. unfold top_price. pose proof (band_pos _ Hcfg). nia. Qed.

(** ** The constructor *)

Lemma ref_mids_ok n i :
  0 <= i -> i + Z.of_nat n <= num_symbols cfg ->
  exists l, ref_mids cfg n i = Ok l /\ length l = n /\
    Forall (fun s => tick cfg <= ss_ref_mid s <= top_price cfg 0 /\
                     s = mkSymbolState (ss_ref_mid s) ∅ [] ∅ [] []) l.
Proof.
  pose proof (co_step _ Hcfg) as Hstep. pose proof (co_tick _ Hcfg) as Ht.
  pose proof (top_price_mono 0 (num_messages cfg + 1)) as Htop. pose proof (co_messages _ Hcfg) as Hm.
  pose proof (co_price _ Hcfg) as Hp. unfold top_price in *.
  revert i; induction n as [|n IH]; intros i Hi Hn; cbn [ref_mids]; [by exists []|].
  assert (0 <= i * symbol_price_step cfg <= num_symbols cfg * symbol_price_step cfg) as Hb by nia.
  rewrite s64_ok, bind_ok by lia. rewrite s64_ok, bind_ok by lia.
  destruct (IH (i + 1)) as (l & E & Hl & Hall); [lia|lia|]. rewrite E, bind_ok.
  eexists. split; [reflexivity|]. split; [by cbn; rewrite Hl|]. constructor; [|done]. cbn. split; [lia|done].
Qed.

Lemma new_simulator_ok rng :
  exists sim, new_simulator cfg rng = Ok sim /\ sim_ok sim 0 ∅.
Proof.
  pose proof (co_symbols _ Hcfg) as Hs. pose proof (co_messages _ Hcfg).
  destruct (ref_mids_ok (Z.to_nat (num_symbols cfg)) 0) as (l & E & Hl & Hall); [lia..|].
  unfold new_simulator. rewrite E, bind_ok. eexists. split; [reflexivity|].
  split; cbn [ms_produced ms_next_seq ms_ts ms_next_order_id ms_symbols]; try done; try lia;
    [unfold stamp; by rewrite Z.add_0_r, wrap_small by apply Hcfg|].
  intros i s Hi. unfold orders_of. rewrite lookup_empty. cbn [default].
  pose proof (proj1 (Forall_forall _ _) Hall s (list_elem_of_lookup_2 _ _ _ Hi)) as [Hmid ->].
  split; [|split; [cbn; lia|by intros id ?%not_elem_of_nil]].
  split; cbn [ss_orders ss_live_ids ss_index ss_ref_mid map]; try done.
  - constructor.
  - intros []; apply depth_ok_nil.
  - by intros (o1 & o2 & ?%not_elem_of_nil & _).
Qed.

(** ** One message *)

(** A snapshot message says what the book it is about looks like. *)
Definition true_snapshot (p : Packet) (S : gmap Z (list Order)) : Prop :=
  forall snap, pk_body p = BodySnapshot snap ->
    snap = spec_snapshot (snap_symbol snap) (orders_of (snap_symbol snap) S).

(** The message is encodable, numbered [n + 1], stamped, accepted, leaves its book
    uncrossed and tells the truth about it. *)
Record good_message (n : Z) (p : Packet) (s : gmap Z (list Order) * BookStats) : Prop := mkGood {
  gd_ok : packet_ok p;
  gd_seq : pk_seq p = wrap 32 (n + 1);
  gd_ts : pk_ts p = stamp n;
  gd_uncrossed : ~ crosses (packet_event p) s;
  gd_accepted : st_rejected (spec_event (packet_event p) s).2 = st_rejected s.2;
  gd_snapshot : true_snapshot p s.1
}.

Lemma count_event_rejected ev st : st_rejected (count_event ev st) = st_rejected st.
Proof. by destruct ev. Qed.

Lemma sym_ready sim n S i s :
  sim_ok sim n S -> n < num_messages cfg -> ms_symbols sim !! i = Some s ->
  ready cfg (Z.of_nat i) (ms_next_order_id sim) (top_price cfg n) s (orders_of (Z.of_nat i) S).
Proof.
  intros [] Hlt Hi. destruct (sm_states0 i s Hi) as (Hs & Hlen & Hids).
  pose proof (co_symbols _ Hcfg). pose proof (co_messages _ Hcfg). pose proof (co_depth _ Hcfg).
  pose proof (co_price _ Hcfg). pose proof (co_qty _ Hcfg).
  apply lookup_lt_Some in Hi. split; try done.
  - unfold in_unsigned. lia.
  - unfold in_unsigned. lia.
  - intros Hin%Hids. lia.
  - unfold room_for. nia.
  - rewrite <- top_price_succ. pose proof (top_price_mono (n + 1) (num_messages cfg + 1)). lia.
Qed.

(** The states after a message that changed at most the books of symbol [i]. *)
Lemma states_step sim n S i s s' l' next' :
  sim_ok sim n S -> n < num_messages cfg -> ms_symbols sim !! i = Some s ->
  sym_ok cfg (top_price cfg (n + 1)) s' l' -> Z.of_nat (length l') <= n + 1 ->
  ms_next_order_id sim <= next' -> (forall id, id ∈ map o_id l' -> id < next') ->
  forall j t, <[i := s']> (ms_symbols sim) !! j = Some t ->
    sym_ok cfg (top_price cfg (n + 1)) t (orders_of (Z.of_nat j) (<[Z.of_nat i := l']> S)) /\
    Z.of_nat (length (orders_of (Z.of_nat j) (<[Z.of_nat i := l']> S))) <= n + 1 /\
    forall id, id ∈ map o_id (orders_of (Z.of_nat j) (<[Z.of_nat i := l']> S)) -> id < next'.
Proof.
  intros [] Hlt Hi Hs' Hlen' Hnext Hids' j t Hj. unfold orders_of.
  apply list_lookup_insert_Some in Hj as [(-> & -> & _)|[Hne Hj]].
  - by rewrite lookup_insert_eq.
  - rewrite lookup_insert_ne by lia. destruct (sm_states0 j t Hj) as (Ht & Hl & Hid).
    split; [|split; [unfold orders_of in Hl; lia|intros id Hin; specialize (Hid id Hin); lia]].
    eapply sym_ok_mono; [|exact Ht]. apply top_price_mono. lia.
Qed.

Lemma states_same sim n S :
  sim_ok sim n S -> n < num_messages cfg ->
  forall j t, ms_symbols sim !! j = Some t ->
    sym_ok cfg (top_price cfg (n + 1)) t (orders_of (Z.of_nat j) S) /\
    Z.of_nat (length (orders_of (Z.of_nat j) S)) <= n + 1 /\
    forall id, id ∈ map o_id (orders_of (Z.of_nat j) S) -> id < ms_next_order_id sim.
Proof.
  intros [] Hlt j t Hj. destruct (sm_states0 j t Hj) as (Ht & Hl & Hid).
  split; [|split; [lia|done]]. eapply sym_ok_mono; [|exact Ht]. apply top_price_mono. lia.
Qed.

Lemma sim_next_ok sim n s :
  sim_ok sim n s.1 -> n < num_messages cfg ->
  exists m sim', sim_next draw cfg sim = Ok (Some m, sim') /\
    good_message n (dispatch_message m) s /\
    sim_ok sim' (n + 1) (spec_event (packet_event (dispatch_message m)) s).1.
Proof.
  intros Hsim Hlt. pose proof Hsim as []. pose proof (co_symbols _ Hcfg) as Hns. pose proof (co_messages _ Hcfg) as Hnm.
  unfold sim_next. rewrite sm_produced0, (proj2 (Z.leb_gt _ _)) by lia. cbn zeta.
  rewrite (wrap_small 32 (num_symbols cfg - 1)) by (unfold in_unsigned; lia).
  destruct (uniform_ok draw draw_range Dist_u32 0 (num_symbols cfg - 1) (ms_rng sim)) as (sym & rng & E & Hsym); [lia|].
  rewrite E, bind_ok. cbn [fst snd]. set (i := Z.to_nat sym).
  assert (Z.of_nat i = sym) as Hi by (unfold i; lia).
  destruct (lookup_lt_is_Some_2 (ms_symbols sim) i) as [st Hst]; [lia|]. rewrite Hst. cbn [of_option]. rewrite bind_ok.
  rewrite (wrap_small 64 (n + 1)) by (unfold in_unsigned; lia).
  pose proof (sym_ready sim n s.1 i st Hsim Hlt Hst) as Hready. rewrite Hi in Hready.
  set (out := blank_message (ms_next_seq sim) (ms_ts sim)).
  assert (in_unsigned 32 (ms_next_seq sim)) as Hseq by (rewrite sm_seq0; apply wrap_range; lia).
  assert (wrap 32 (ms_next_seq sim + 1) = wrap 32 (n + 1 + 1)) as Hseq' by by rewrite sm_seq0, wrap_add_l.
  assert (wrap 64 (ms_ts sim + ts_step_ns cfg) = stamp (n + 1)) as Hts' by by rewrite sm_ts0, stamp_succ.
  assert (in_unsigned 64 (ms_ts sim)) as Htr by (rewrite sm_ts0; apply stamp_range).
  assert (forall m, gm_seq m = ms_next_seq sim -> gm_ts m = ms_ts sim -> event_op (packet_event (dispatch_message m)) = None ->
    packet_ok (dispatch_message m) -> true_snapshot (dispatch_message m) s.1 ->
    good_message n (dispatch_message m) s /\
    sim_ok (mkMarketSimulator rng (ms_symbols sim) (n + 1) (wrap 32 (ms_next_seq sim + 1)) (ms_next_order_id sim)
              (wrap 64 (ms_ts sim + ts_step_ns cfg)))
      (n + 1) (spec_event (packet_event (dispatch_message m)) s).1) as Hquiet.
  { intros m Hm Hmt Hop Hok Htrue. unfold spec_event. rewrite Hop. cbn [fst]. split.
    - split; [done|cbn; by rewrite Hm|cbn; by rewrite Hmt| | |done]; unfold crosses, spec_event; rewrite Hop;
        [by intros []|apply count_event_rejected].
    - split; cbn [ms_produced ms_next_seq ms_ts ms_next_order_id ms_symbols]; try done; try lia.
      by apply states_same. }
  destruct (negb (heartbeat_interval cfg =? 0) && _).
  { eexists _, _. split; [reflexivity|]. apply Hquiet; [done|done|done| |done]. split; [exact Hseq|]. by split. }
  destruct (negb (snapshot_interval cfg =? 0) && _).
  { eexists _, _. split; [reflexivity|]. apply Hquiet; [done|done|done| |].
    - split; [exact Hseq|]. split; [done|]. destruct Hready. cbn. by eapply make_snapshot_ok.
    - intros snap [= <-]. destruct Hready. by eapply make_snapshot_spec. }
  destruct (fill_action_ok draw draw_range cfg Hcfg sym _ _ out st _ rng Hready)
    as (m & st' & rng' & next' & l' & Ef & Hem).
  rewrite Ef, bind_ok. eexists m, _. split; [reflexivity|]. rewrite <- top_price_succ in Hem.
  assert (exists new, emits cfg sym new (top_price cfg (n + 1)) (orders_of sym s.1) out m st' l' /\
    ms_next_order_id sim <= next' <= ms_next_order_id sim + 1 /\
    forall id, new id -> id < next') as (new & [Hes Het (op & Hop & Hspec) Hew Hestate Helen Heids] & Hnext & Hnew).
  { destruct Hem as [[Hem ->]|[Hem ->]]; eexists; (split; [exact Hem|]); [split; [lia|done]|].
    rewrite wrap_small by (unfold in_unsigned; lia). split; [lia|]. intros id <-. lia. }
  destruct (sm_states0 i st Hst) as (_ & Hlen & Hids). rewrite Hi in Hlen, Hids.
  unfold spec_event. rewrite Hop, Hspec. cbn [fst snd]. split.
  - split; [by apply Hew|cbn; by rewrite Hes|cbn; by rewrite Het| | |].
    + unfold crosses. rewrite Hop, Hspec. by destruct Hestate.
    + unfold spec_event. rewrite Hop, Hspec. cbn. apply count_event_rejected.
    + intros snap Hsnap. exfalso. revert Hop Hsnap. unfold packet_event. by destruct (pk_body (dispatch_message m)).
  - split; cbn [ms_produced ms_next_seq ms_ts ms_next_order_id ms_symbols]; try done; try lia.
    + by rewrite length_insert.
    + rewrite <- Hi. eapply states_step; try done; [lia|lia|].
      intros id Hid. destruct (Heids id Hid) as [Hold|Hn]; [apply Hids in Hold; lia|by apply Hnew].
Qed.

(** ** A whole run *)

Fixpoint true_snapshots (ps : list Packet) (s : gmap Z (list Order) * BookStats) : Prop :=
  match ps with
  | [] => True
  | p :: ps' => true_snapshot p s.1 /\ true_snapshots ps' (spec_event (packet_event p) s)
  end.

Lemma sim_loop_ok k sim n s :
  sim_ok sim n s.1 -> n + Z.of_nat k = num_messages cfg ->
  exists ps sim', sim_loop draw cfg (S k) sim = Ok (ps, sim') /\ length ps = k /\
    Forall packet_ok ps /\ consecutive (wrap 32 (n + 1)) (map pk_seq ps) /\
    map pk_ts ps = map stamp (seqZ n (Z.of_nat k)) /\
    never_crosses (map packet_event ps) s /\
    st_rejected (spec_events (map packet_event ps) s).2 = st_rejected s.2 /\ true_snapshots ps s /\
    sim_ok sim' (num_messages cfg) (spec_events (map packet_event ps) s).1.
Proof.
  revert sim n s; induction k as [|k IH]; intros sim n s Hsim Hk.
  - exists [], sim. cbn [sim_loop]. unfold sim_next. rewrite (sm_produced _ _ _ Hsim), (proj2 (Z.leb_le _ _)) by lia.
    rewrite bind_ok. cbn. replace (num_messages cfg) with n by lia. done.
  - destruct (sim_next_ok sim n s Hsim) as (m & sim1 & E & [Hok Hseq Hts Hx Hrej Htrue] & Hsim1); [lia|].
    destruct (IH sim1 (n + 1) _ Hsim1) as (ps & sim' & E' & Hlen & Hps & Hcons & Hstamps & Hnever & Hrej' & Htrue' & Hsim'); [lia|].
    exists (dispatch_message m :: ps), sim'.
    change (sim_loop draw cfg (S (S k)) sim) with
      (r ← sim_next draw cfg sim; match r.1 with
       | None => Ok ([], r.2)
       | Some m => rest ← sim_loop draw cfg (S k) r.2; Ok (dispatch_message m :: rest.1, rest.2)
       end).
    rewrite E, bind_ok. cbn [fst snd]. rewrite E', bind_ok. cbn [map spec_events never_crosses true_snapshots consecutive length].
    split_and!; try done; [by rewrite Hlen|by constructor|by rewrite wrap_add_l| |by rewrite Hrej'].
    rewrite seqZ_cons by lia. cbn [map]. rewrite Hts, Hstamps. do 4 f_equal; lia.
Qed.

Lemma sim_run_ok rng :
  exists sim0 ps sim,
    new_simulator cfg rng = Ok sim0 /\ sim_run draw cfg sim0 = Ok (ps, sim) /\
    Z.of_nat (length ps) = num_messages cfg /\ Forall packet_ok ps /\ consecutive 1 (map pk_seq ps) /\
    map pk_ts ps = map stamp (seqZ 0 (num_messages cfg)) /\
    never_crosses (map packet_event ps) (∅, no_stats) /\
    st_rejected (spec_events (map packet_event ps) (∅, no_stats)).2 = 0 /\
    true_snapshots ps (∅, no_stats) /\ sim_ok sim (num_messages cfg) (spec_events (map packet_event ps) (∅, no_stats)).1.
Proof.
  destruct (new_simulator_ok rng) as (sim0 & E0 & Hsim0). pose proof (co_messages _ Hcfg) as Hm.
  destruct (sim_loop_ok (Z.to_nat (num_messages cfg)) sim0 0 (∅, no_stats) Hsim0)
    as (ps & sim & E & Hlen & Hps & Hcons & Hts & Hnever & Hrej & Htrue & Hsim); [lia|].
  exists sim0, ps, sim. split; [exact E0|]. unfold sim_run. rewrite (sm_produced _ _ _ Hsim0), Z.sub_0_r.
  split_and!; try done; [lia|]. by rewrite Hts, Z2Nat.id by lia.
Qed.
End Run.

(** *** Prefixes of a run *)

Lemma true_snapshots_lookup ps i p s :
  true_snapshots ps s -> ps !! i = Some p ->
  true_snapshot p (spec_events (map packet_event (take i ps)) s).1.
Proof.
  revert i s; induction ps as [|q ps IH]; intros [|i] s; try done; cbn [true_snapshots].
  - by intros [Hq _] [= ->].
  - intros [_ Hps] Hp. by apply (IH i).
Qed.

Lemma never_crosses_take evs i s : never_crosses evs s -> never_crosses (take i evs) s.
Proof.
  revert i s; induction evs as [|ev evs IH]; intros [|i] s; try done. cbn [take never_crosses].
  intros [Hev Hevs]. auto.
Qed.

Lemma consecutive_take seqs i s : consecutive s seqs -> consecutive s (take i seqs).
Proof.
  revert i s; induction seqs as [|x seqs IH]; intros [|i] s; try done. cbn [take consecutive].
  intros [-> Hs]. auto.
Qed.

(** ** The theorems *)

(** A run of the simulator, whatever the random engine draws within its
    bounds.  It ends after exactly the configured number of messages without
    undefined behaviour (no order looked up that is not live, no empty
    distribution, no price overflow); every message is encodable; the sequence
    numbers count up from 1, with the wrap-around; every message is accepted
    by the book it is for, so cancels, modifies and trades name live orders;
    and no book is ever crossed. *)
Theorem simulator_feed_valid {Rng} (draw : DistType -> Z -> Z -> Rng -> Z * Rng) cfg rng :
  (forall t a b r, a <= b -> a <= (draw t a b r).1 <= b) -> config_ok cfg ->
  exists sim0 ps sim,
    new_simulator cfg rng = Ok sim0 /\ sim_run draw cfg sim0 = Ok (ps, sim) /\
    Z.of_nat (length ps) = num_messages cfg /\ Forall packet_ok ps /\ consecutive 1 (map pk_seq ps) /\
    st_rejected (spec_events (map packet_event ps) (∅, no_stats)).2 = 0 /\
    never_crosses (map packet_event ps) (∅, no_stats).
Proof.
  intros Hdraw Hcfg. destruct (sim_run_ok draw Hdraw cfg Hcfg rng) as (sim0 & ps & sim & H).
  exists sim0, ps, sim. tauto.
Qed.

(** A small linear congruential engine. *)
Definition demo_draw (t : DistType) (a b : Z) (r : Z) : Z * Z :=
  let r' := (r * 1103515245 + 12345) mod 2147483648 in
  (a + (r' / 65536) mod (b - a + 1), r').

Lemma demo_draw_range t a b r : a <= b -> a <= (demo_draw t a b r).1 <= b.
Proof.
  intros Hab. unfold demo_draw. cbn [fst].
  pose proof (Z.mod_pos_bound ((r * 1103515245 + 12345) mod 2147483648 / 65536) (b - a + 1)). lia.
Qed.

Definition demo_sim_config : SimConfig :=
  mkSimConfig 2 60 1000000 50000 100 10 1 500 1000000000 1000 50 22 18 10 7 20.

Lemma demo_sim_config_ok : config_ok demo_sim_config.
Proof. split; vm_compute; try done; split; congruence. Qed.

Lemma simulator_feed_valid_witness :
  exists sim0 ps sim,
    new_simulator demo_sim_config 42 = Ok sim0 /\ sim_run demo_draw demo_sim_config sim0 = Ok (ps, sim) /\
    Z.of_nat (length ps) = 60 /\ Forall packet_ok ps /\ consecutive 1 (map pk_seq ps) /\
    st_rejected (spec_events (map packet_event ps) (∅, no_stats)).2 = 0 /\
    never_crosses (map packet_event ps) (∅, no_stats).
Proof. exact (simulator_feed_valid demo_draw demo_sim_config 42 demo_draw_range demo_sim_config_ok). Defined.





(** The run of the witnesses has messages of every kind. *)
Definition demo_run_types : list MsgType :=
  match (sim ← new_simulator demo_sim_config 42; sim_run demo_draw demo_sim_config sim) with
  | Ok r => map (fun p => body_type (pk_body p)) r.1
  | _ => []
  end.
Example demo_run_covers :
  forallb (fun t => bool_decide (t ∈ demo_run_types))
    [MsgHeartbeat; MsgAddOrder; MsgCancelOrder; MsgModifyOrder; MsgTrade; MsgBookSnapshot] = true.
Proof. vm_compute. reflexivity. Qed.

(** The configuration of the source's defaults is covered. *)
Lemma default_sim_config_ok : config_ok default_sim_config.
Proof. split; vm_compute; try done; split; congruence. Qed.
