(* ===== verification/Kernel.v ===== *)
(** The operating system as the program sees it: the calls it makes and the
    lines it prints are the events of an interaction tree, and what the sockets
    interface documents about the answers is the relation [kernel] on the state
    of the process and its connections.  [must] is the total-correctness
    judgement the network and application theorems are stated in. *)
From ITree Require Import ITree.
From stdpp Require Import strings.
From Stdlib Require Import SpecFloat.
From S2P Require Import Prelude ByteOrder.

Local Open Scope Z_scope.

(** ** Events *)

(** What [printf] is given besides its format: an integer, a string, a double,
    or the text [std::to_string] gives of a double. *)
Inductive Arg :=
  | AInt (z : Z)
  | AStr (s : string)
  | ADouble (d : spec_float)
  | AToString (d : spec_float).

Inductive Channel := Stdout | Stderr.
Record Output := mkOutput { out_channel : Channel; out_format : string; out_args : list Arg }.

Inductive SockType := SOCK_STREAM | SOCK_DGRAM.
Inductive SockOpt := SO_REUSEADDR | TCP_NODELAY.

(** The answer of a transfer: what was moved, or -1, and then whether [errno]
    is [EINTR]. *)
Inductive IoResult (A : Type) :=
  | Moved (a : A)
  | Failed (eintr : bool).
Arguments Moved {A}.
Arguments Failed {A}.

Notation Files := (gmap string (list byte)) (only parsing).

Inductive SysE : Type -> Type :=
  | SysSocket (ty : SockType) : SysE Z
  | SysSetsockopt (fd : Z) (opt : SockOpt) : SysE Z
  | SysRcvtimeo (fd : Z) (tv_sec tv_usec : Z) : SysE Z
  | SysBind (fd addr port : Z) : SysE Z
  | SysListen (fd backlog : Z) : SysE Z
  | SysGetsockname (fd : Z) : SysE (option Z)
  | SysAccept (fd : Z) : SysE Z
  | SysConnect (fd addr port : Z) : SysE Z
  | SysClose (fd : Z) : SysE unit
  | SysSend (fd : Z) (bytes : list byte) : SysE (IoResult nat)
  | SysRecv (fd : Z) (size : nat) : SysE (IoResult (list byte))
  | SysSendto (fd : Z) (bytes : list byte) (addr port : Z) : SysE (IoResult nat)
  | SysRecvfrom (fd : Z) (size : nat) : SysE (IoResult (list byte))
  | SysPrint (o : Output) : SysE unit
  | FilesGet : SysE Files
  | FilesPut (d : Files) : SysE unit
  | SysCrash : SysE Empty_set.

Notation prog := (itree SysE) (only parsing).

#[export] Instance prog_ret : MRet (itree SysE) := fun A a => Ret a.
#[export] Instance prog_bind : MBind (itree SysE) := fun A B f t => ITree.bind t f.

Definition call {A} (e : SysE A) : prog A := ITree.trigger e.

(** A computation inside the process.  Undefined behaviour, an abort and an
    endless loop are an event without an answer. *)
Definition lift {A} (o : outcome A) : prog A :=
  match o with
  | Ok a => Ret a
  | _ => Vis SysCrash (fun x : Empty_set => match x with end)
  end.

Definition print (ch : Channel) (format : string) (args : list Arg) : prog unit :=
  call (SysPrint (mkOutput ch format args)).

(** An operation on the file system. *)
Definition files {A} (f : gmap string (list byte) -> outcome (A * gmap string (list byte))) : prog A :=
  d ← call FilesGet;
  r ← lift (f d);
  call (FilesPut r.2);;
  mret r.1.

(** ** The world outside the process *)

Record World := mkWorld {
  w_open : gset Z;                    (* open descriptors *)
  w_misuse : bool;                    (* a call named a descriptor that is not open *)
  w_patience : nat;                   (* signals that may still interrupt a call *)
  w_timeout : bool;                   (* a receive timeout is armed *)
  w_incoming : list byte;             (* stream bytes the peer sends before it closes *)
  w_in_datagrams : list (list byte);  (* datagrams that will arrive *)
  w_sent : list byte;                 (* stream bytes taken by the kernel *)
  w_sent_datagrams : list (list byte);
  w_files : gmap string (list byte);
  w_printed : list Output
}.

Definition set_open (s : gset Z) (w : World) : World :=
  mkWorld s (w_misuse w) (w_patience w) (w_timeout w) (w_incoming w) (w_in_datagrams w) (w_sent w)
    (w_sent_datagrams w) (w_files w) (w_printed w).
Definition set_misuse (b : bool) (w : World) : World :=
  mkWorld (w_open w) b (w_patience w) (w_timeout w) (w_incoming w) (w_in_datagrams w) (w_sent w)
    (w_sent_datagrams w) (w_files w) (w_printed w).
Definition set_patience (n : nat) (w : World) : World :=
  mkWorld (w_open w) (w_misuse w) n (w_timeout w) (w_incoming w) (w_in_datagrams w) (w_sent w)
    (w_sent_datagrams w) (w_files w) (w_printed w).
Definition set_timeout (b : bool) (w : World) : World :=
  mkWorld (w_open w) (w_misuse w) (w_patience w) b (w_incoming w) (w_in_datagrams w) (w_sent w)
    (w_sent_datagrams w) (w_files w) (w_printed w).
Definition set_incoming (l : list byte) (w : World) : World :=
  mkWorld (w_open w) (w_misuse w) (w_patience w) (w_timeout w) l (w_in_datagrams w) (w_sent w)
    (w_sent_datagrams w) (w_files w) (w_printed w).
Definition set_in_datagrams (l : list (list byte)) (w : World) : World :=
  mkWorld (w_open w) (w_misuse w) (w_patience w) (w_timeout w) (w_incoming w) l (w_sent w)
    (w_sent_datagrams w) (w_files w) (w_printed w).
Definition set_sent (l : list byte) (w : World) : World :=
  mkWorld (w_open w) (w_misuse w) (w_patience w) (w_timeout w) (w_incoming w) (w_in_datagrams w) l
    (w_sent_datagrams w) (w_files w) (w_printed w).
Definition set_sent_datagrams (l : list (list byte)) (w : World) : World :=
  mkWorld (w_open w) (w_misuse w) (w_patience w) (w_timeout w) (w_incoming w) (w_in_datagrams w)
    (w_sent w) l (w_files w) (w_printed w).
Definition set_files (d : gmap string (list byte)) (w : World) : World :=
  mkWorld (w_open w) (w_misuse w) (w_patience w) (w_timeout w) (w_incoming w) (w_in_datagrams w)
    (w_sent w) (w_sent_datagrams w) d (w_printed w).
Definition set_printed (l : list Output) (w : World) : World :=
  mkWorld (w_open w) (w_misuse w) (w_patience w) (w_timeout w) (w_incoming w) (w_in_datagrams w)
    (w_sent w) (w_sent_datagrams w) (w_files w) l.

Definition add_output (o : Output) (w : World) : World := set_printed (w_printed w ++ [o]) w.

(** ** What the kernel may answer

    The documented behaviour of the calls.  With [faulty] any call that
    allocates, transfers or connects may fail at any time; without it only a
    descriptor that is not open fails.  A signal may interrupt a transfer as
    long as [w_patience] lasts. *)

(** A call names [fd]. *)
Definition touch (fd : Z) (w : World) : World :=
  if decide (fd ∈ w_open w) then w else set_misuse true w.

Definition interrupted (w w' : World) : Prop :=
  exists n, w_patience w = S n /\ w' = set_patience n w.

Definition valid_timeval (tv_sec tv_usec : Z) : bool := (0 <=? tv_usec) && (tv_usec <? 1000000).
Definition arms_timeout (tv_sec tv_usec : Z) : bool :=
  (0 <=? tv_sec) && ((0 <? tv_sec) || (0 <? tv_usec)).

Section Kernel.
Context (faulty : bool).

(** A new descriptor, or -1. *)
Definition allocates (r : Z) (w w' : World) : Prop :=
  (0 <= r /\ r ∉ w_open w /\ w' = set_open ({[r]} ∪ w_open w) w) \/
  (faulty = true /\ r = -1 /\ w' = w).

(** 0 or -1, and no effect we depend on. *)
Definition reports (fd r : Z) (w w' : World) : Prop :=
  w' = touch fd w /\
  ((r = 0 /\ fd ∈ w_open w) \/ (r = -1 /\ (faulty = true \/ fd ∉ w_open w))).

Definition transfers {A} (fd : Z) (moves : A -> World -> World -> Prop) (r : IoResult A)
    (w w' : World) : Prop :=
  if decide (fd ∈ w_open w) then
    match r with
    | Moved a => moves a w w'
    | Failed true => interrupted w w'
    | Failed false => faulty = true /\ w' = w
    end
  else r = Failed false /\ w' = set_misuse true w.

Definition sends (bytes : list byte) (n : nat) (w w' : World) : Prop :=
  (n <= length bytes)%nat /\ (faulty = false -> bytes <> [] -> 0 < n)%nat /\
  w' = set_sent (w_sent w ++ take n bytes) w.

Definition receives (size : nat) (bs : list byte) (w w' : World) : Prop :=
  (length bs <= size)%nat /\ bs `prefix_of` w_incoming w /\
  (bs = [] -> size = 0%nat \/ w_incoming w = []) /\
  w' = set_incoming (drop (length bs) (w_incoming w)) w.

(** Without a datagram in reach the call waits: for ever, unless a timeout is
    armed. *)
Definition receives_datagram (fd : Z) (size : nat) (r : IoResult (list byte)) (w w' : World) : Prop :=
  match w_in_datagrams w with
  | [] =>
      if decide (fd ∈ w_open w) then w_timeout w = true /\ r = Failed false /\ w' = w
      else r = Failed false /\ w' = set_misuse true w
  | d :: ds => transfers fd (fun bs w w' => bs = take size d /\ w' = set_in_datagrams ds w) r w w'
  end.

Definition kernel {A} (e : SysE A) (w : World) : A -> World -> Prop :=
  match e in SysE A return A -> World -> Prop with
  | SysSocket _ => fun r w' => allocates r w w'
  | SysSetsockopt fd _ => fun r w' => reports fd r w w'
  | SysRcvtimeo fd sec usec => fun r w' =>
      if decide (fd ∈ w_open w) then
        if valid_timeval sec usec then r = 0 /\ w' = set_timeout (arms_timeout sec usec) w
        else r = -1 /\ w' = w
      else r = -1 /\ w' = set_misuse true w
  | SysBind fd _ _ => fun r w' => reports fd r w w'
  | SysListen fd _ => fun r w' => reports fd r w w'
  | SysGetsockname fd => fun r w' =>
      w' = touch fd w /\
      match r with
      | Some port => in_unsigned 16 port /\ fd ∈ w_open w
      | None => faulty = true \/ fd ∉ w_open w
      end
  | SysAccept fd => fun r w' =>
      if decide (fd ∈ w_open w) then allocates r w w' else r = -1 /\ w' = set_misuse true w
  | SysConnect fd _ _ => fun r w' => reports fd r w w'
  | SysClose fd => fun _ w' => w' = set_open (w_open w ∖ {[fd]}) (touch fd w)
  | SysSend fd bytes => fun r w' => transfers fd (sends bytes) r w w'
  | SysRecv fd size => fun r w' => transfers fd (receives size) r w w'
  | SysSendto fd bytes _ _ => fun r w' =>
      transfers fd (fun n w w' => n = length bytes /\
                      w' = set_sent_datagrams (w_sent_datagrams w ++ [bytes]) w) r w w'
  | SysRecvfrom fd size => fun r w' => receives_datagram fd size r w w'
  | SysPrint o => fun _ w' => w' = add_output o w
  | FilesGet => fun d w' => d = w_files w /\ w' = w
  | FilesPut d => fun _ w' => w' = set_files d w
  | SysCrash => fun _ _ => False
  end.

(** ** Total correctness

    [must Q t w]: started in [w], against every kernel, [t] ends after finitely
    many steps with a result and a world in [Q]; it is never stuck, so it
    neither crashes nor waits for ever. *)
Inductive must {R} (Q : R -> World -> Prop) : prog R -> World -> Prop :=
  | must_ret' t w r : observe t = RetF r -> Q r w -> must Q t w
  | must_tau' t w t' : observe t = TauF t' -> must Q t' w -> must Q t w
  | must_vis' t w A (e : SysE A) k :
      observe t = VisF e k -> (exists a w', kernel e w a w') ->
      (forall a w', kernel e w a w' -> must Q (k a) w') -> must Q t w.

Lemma must_ret {R} (Q : R -> World -> Prop) r w : Q r w -> must Q (Ret r) w.
Proof. by apply must_ret'. Qed.

Lemma must_mono {R} (Q Q' : R -> World -> Prop) t w :
  must Q t w -> (forall r w, Q r w -> Q' r w) -> must Q' t w.
Proof.
  intros Ht HQ. induction Ht as [t w r E Hr|t w t' E _ IH|t w A e k E Hex _ IH].
  - eapply must_ret'; eauto.
  - eapply must_tau'; eauto.
  - eapply must_vis'; eauto.
Qed.

Lemma observe_bind {R S} (t : prog R) (k : R -> prog S) :
  observe (t ≫= k) =
  match observe t with
  | RetF r => observe (k r)
  | TauF t' => TauF (t' ≫= k)
  | VisF e h => VisF e (fun a => h a ≫= k)
  end.
Proof.
  change (observe (t ≫= k)) with
    (observe match observe t with
             | RetF r => k r
             | TauF t' => Tau (t' ≫= k)
             | VisF e h => Vis e (fun a => h a ≫= k)
             end).
  by destruct (observe t).
Qed.

Lemma must_bind {R S} (Q : S -> World -> Prop) (t : prog R) (k : R -> prog S) w :
  must (fun r w => must Q (k r) w) t w -> must Q (t ≫= k) w.
Proof.
  intros Ht. induction Ht as [t w r E Hr|t w t' E _ IH|t w A e h E Hex _ IH].
  - assert (observe (t ≫= k) = observe (k r)) as Eo by (by rewrite observe_bind, E).
    destruct Hr as [u w s Eu Hs|u w u' Eu Hu|u w B e h Eu Hex Hh].
    + eapply must_ret'; [by rewrite Eo|done].
    + eapply must_tau'; [by rewrite Eo|done].
    + eapply must_vis'; [by rewrite Eo|done|done].
  - eapply (must_tau' _ _ _ (t' ≫= k)); [by rewrite observe_bind, E|done].
  - eapply (must_vis' _ _ _ _ e (fun a => h a ≫= k)); [by rewrite observe_bind, E|done|done].
Qed.

Lemma must_call {A} (Q : A -> World -> Prop) (e : SysE A) w :
  (exists a w', kernel e w a w') -> (forall a w', kernel e w a w' -> Q a w') -> must Q (call e) w.
Proof.
  intros Hex HQ. eapply must_vis'; [reflexivity|done|]. intros a w' Ha. by apply must_ret, HQ.
Qed.

Lemma must_lift {A} (Q : A -> World -> Prop) (o : outcome A) a w :
  o = Ok a -> Q a w -> must Q (lift o) w.
Proof. intros -> HQ. by apply must_ret. Qed.

(** One round of a loop. *)
Lemma must_iter_unfold {I R} (Q : R -> World -> Prop) (body : I -> prog (I + R)) i w :
  must (fun r w => match r with inl i' => must Q (ITree.iter body i') w | inr r => Q r w end) (body i) w ->
  must Q (ITree.iter body i) w.
Proof.
  intros Hbody.
  set (next := fun r : I + R => match r with inl i' => Tau (ITree.iter body i') | inr r => Ret r end).
  assert (must Q (body i ≫= next) w) as Hm.
  { apply must_bind. eapply must_mono; [exact Hbody|]. intros [i'|r] w' Hr; cbn.
    - by eapply must_tau'.
    - by apply must_ret. }
  inversion Hm as [? ? r E|? ? t' E|? ? A e k E]; subst.
  - by eapply must_ret'.
  - by eapply must_tau'.
  - by eapply must_vis'.
Qed.

(** Loops: an invariant and a measure that every further round decreases. *)
Lemma must_iter {I R} (Inv : I -> World -> Prop) (m : I -> World -> nat) (Q : R -> World -> Prop)
    (body : I -> prog (I + R)) i w :
  (forall i w, Inv i w ->
     must (fun r w' => match r with
                       | inl i' => Inv i' w' /\ (m i' w' < m i w)%nat
                       | inr r => Q r w'
                       end) (body i) w) ->
  Inv i w -> must Q (ITree.iter body i) w.
Proof.
  intros Hbody. remember (m i w) as n eqn:Hn. revert i w Hn.
  induction (lt_wf n) as [n _ IH]; intros i w -> Hi. apply must_iter_unfold.
  eapply must_mono; [by apply Hbody|]. intros [i'|r] w'; [|done]. intros [Hi' Hlt]. by eapply IH.
Qed.
End Kernel.

(** ** An executable kernel

    One kernel among those allowed: nothing fails, nothing is interrupted, and
    a stream is delivered in pieces of at most [mtu] bytes. *)
Definition next_fd (s : gset Z) : Z := 1 + foldr Z.max 2 (elements s).

Section Cooperative.
Context (mtu : nat).

Definition on_open {A} (fd : Z) (w : World) (bad : A) (good : A * World) : A * World :=
  if decide (fd ∈ w_open w) then good else (bad, set_misuse true w).

Definition cooperate {A} (e : SysE A) (w : World) : option (A * World) :=
  match e in SysE A return option (A * World) with
  | SysSocket _ => let fd := next_fd (w_open w) in Some (fd, set_open ({[fd]} ∪ w_open w) w)
  | SysSetsockopt fd _ => Some (on_open fd w (-1) (0, w))
  | SysRcvtimeo fd sec usec =>
      Some (on_open fd w (-1)
              (if valid_timeval sec usec then (0, set_timeout (arms_timeout sec usec) w) else (-1, w)))
  | SysBind fd _ _ => Some (on_open fd w (-1) (0, w))
  | SysListen fd _ => Some (on_open fd w (-1) (0, w))
  | SysGetsockname fd => Some (on_open fd w None (Some 40000, w))
  | SysAccept fd =>
      let r := next_fd (w_open w) in Some (on_open fd w (-1) (r, set_open ({[r]} ∪ w_open w) w))
  | SysConnect fd _ _ => Some (on_open fd w (-1) (0, w))
  | SysClose fd => Some (tt, set_open (w_open w ∖ {[fd]}) (touch fd w))
  | SysSend fd bytes =>
      let n := (length bytes `min` mtu)%nat in
      Some (on_open fd w (Failed false) (Moved n, set_sent (w_sent w ++ take n bytes) w))
  | SysRecv fd size =>
      let bs := take (size `min` mtu) (w_incoming w) in
      Some (on_open fd w (Failed false)
              (Moved bs, set_incoming (drop (length bs) (w_incoming w)) w))
  | SysSendto fd bytes _ _ =>
      Some (on_open fd w (Failed false)
              (Moved (length bytes), set_sent_datagrams (w_sent_datagrams w ++ [bytes]) w))
  | SysRecvfrom fd size =>
      match w_in_datagrams w with
      | [] =>
          if decide (fd ∈ w_open w) then if w_timeout w then Some (Failed false, w) else None
          else Some (Failed false, set_misuse true w)
      | d :: ds => Some (on_open fd w (Failed false) (Moved (take size d), set_in_datagrams ds w))
      end
  | SysPrint o => Some (tt, add_output o w)
  | FilesGet => Some (w_files w, w)
  | FilesPut d => Some (tt, set_files d w)
  | SysCrash => None
  end.

Fixpoint run {R} (fuel : nat) (t : prog R) (w : World) : option (R * World) :=
  match fuel with
  | O => None
  | S fuel =>
      match observe t with
      | RetF r => Some (r, w)
      | TauF t' => run fuel t' w
      | VisF e k =>
          match cooperate e w with
          | Some (a, w') => run fuel (k a) w'
          | None => None
          end
      end
  end.
End Cooperative.

Lemma next_fd_ge s : 3 <= next_fd s.
Proof. unfold next_fd. induction (elements s); cbn; lia. Qed.

Lemma next_fd_fresh s : next_fd s ∉ s.
Proof.
  rewrite <- elem_of_elements. unfold next_fd. intros Hin.
  assert (forall l x, x ∈ l -> x <= foldr Z.max 2 l) as Hmax.
  { induction l as [|y l IH]; intros x; [by intros ?%not_elem_of_nil|].
    rewrite elem_of_cons. cbn. intros [->|Hx]; [lia|]. specialize (IH x Hx). lia. }
  apply Hmax in Hin. lia.
Qed.

Section Answers.
Context (faulty : bool) (mtu : nat) (Hmtu : (0 < mtu)%nat).

Lemma cooperate_allowed {A} (e : SysE A) w a w' :
  cooperate mtu e w = Some (a, w') -> kernel faulty e w a w'.
Proof.
  pose proof (next_fd_ge (w_open w)) as Hge. pose proof (next_fd_fresh (w_open w)) as Hfresh.
  destruct e; unfold cooperate, on_open; cbn [kernel];
    unfold reports, touch, transfers, receives_datagram; try (by intros [= <- <-]).
  all: try (case_decide; intros [= <- <-]; (split; [done|auto]); fail).
  - intros [= <- <-]. left. split; [lia|done].
  - case_decide; [|by intros [= <- <-]]. destruct (valid_timeval _ _); by intros [= <- <-].
  - case_decide; intros [= <- <-]; (split; [done|]); [split; [done|done]|by right].
  - case_decide; intros [= <- <-]; [|done]. left. split; [lia|done].
  - case_decide; intros [= <- <-]; [|done]. split; [lia|]. split; [|done].
    intros _ Hne. destruct bytes; [done|]. cbn [length]. lia.
  - case_decide; intros [= <- <-]; [|done]. split; [rewrite length_take; lia|]. split; [apply prefix_take|].
    split; [|done]. intros E. destruct size; [by left|right]. destruct (w_incoming w); [done|].
    destruct mtu; [lia|]. done.
  - destruct (w_in_datagrams w); case_decide; [destruct (w_timeout w); [|done]| | |]; intros [= <- <-]; try done;
      unfold transfers; by case_decide.
Qed.

Lemma cooperate_complete {A} (e : SysE A) w a w' :
  kernel faulty e w a w' -> is_Some (cooperate mtu e w).
Proof.
  destruct e; cbn [kernel cooperate]; try (by intros []); try (intros _; by eexists).
  unfold receives_datagram. destruct (w_in_datagrams w); [|intros _; by eexists].
  case_decide; [|intros _; by eexists]. intros (-> & _). by eexists.
Qed.

(** A correct program run by the executable kernel ends in its postcondition. *)
Lemma must_run {R} (Q : R -> World -> Prop) (t : prog R) w :
  must faulty Q t w -> exists fuel r w', run mtu fuel t w = Some (r, w') /\ Q r w'.
Proof.
  induction 1 as [t w r E Hr|t w t' E _ (n & r & w' & IH & Hr)|t w A e k E (a & w1 & Ha) _ IH].
  - exists 1%nat, r, w. cbn. by rewrite E.
  - exists (S n), r, w'. cbn. by rewrite E.
  - destruct (cooperate_complete e w a w1 Ha) as [[b w2] Hb].
    destruct (IH b w2 (cooperate_allowed e w b w2 Hb)) as (n & r & w' & Hrun & Hr).
    exists (S n), r, w'. cbn [run]. by rewrite E, Hb.
Qed.
End Answers.

(** ** Rules for the calls *)

Section Rules.
Context {faulty : bool}.
Notation must := (must faulty).

Lemma touch_open fd w : fd ∈ w_open w -> touch fd w = w.
Proof. unfold touch. by case_decide. Qed.

Lemma set_open_same w : set_open (w_open w) w = w.
Proof. by destruct w. Qed.

(** An unnamed event answers as the executable kernel does. *)
Lemma must_answer {A} (Q : A -> World -> Prop) (e : SysE A) w :
  is_Some (cooperate 1 e w) -> (forall a w', kernel faulty e w a w' -> Q a w') -> must Q (call e) w.
Proof.
  intros [[a w'] Ha]. apply must_call. exists a, w'. eapply cooperate_allowed; [|exact Ha]. lia.
Qed.

Lemma must_allocate (Q : Z -> World -> Prop) (e : SysE Z) w :
  (forall r w', kernel faulty e w r w' -> allocates faulty r w w') -> is_Some (cooperate 1 e w) ->
  (forall fd, 0 <= fd -> fd ∉ w_open w -> Q fd (set_open ({[fd]} ∪ w_open w) w)) ->
  (faulty = true -> Q (-1) w) -> must Q (call e) w.
Proof.
  intros He Hans Hok Hbad. apply must_answer; [done|].
  intros r w' [(Hr & Hfresh & ->)|(Hf & -> & ->)]%He; auto.
Qed.

Lemma must_socket Q ty w :
  (forall fd, 0 <= fd -> fd ∉ w_open w -> Q fd (set_open ({[fd]} ∪ w_open w) w)) ->
  (faulty = true -> Q (-1) w) -> must Q (call (SysSocket ty)) w.
Proof. apply must_allocate; [done|by eexists]. Qed.

Lemma must_accept Q fd w :
  fd ∈ w_open w ->
  (forall fd', 0 <= fd' -> fd' ∉ w_open w -> Q fd' (set_open ({[fd']} ∪ w_open w) w)) ->
  (faulty = true -> Q (-1) w) -> must Q (call (SysAccept fd)) w.
Proof.
  intros Hfd. apply must_allocate; [|by eexists]. intros r w'. cbn [kernel]. by case_decide.
Qed.

(** The calls that only succeed or fail. *)
Lemma must_report (Q : Z -> World -> Prop) (e : SysE Z) fd w :
  (forall r w', kernel faulty e w r w' -> reports faulty fd r w w') -> is_Some (cooperate 1 e w) ->
  fd ∈ w_open w -> Q 0 w -> (faulty = true -> Q (-1) w) -> must Q (call e) w.
Proof.
  intros He Hans Hfd Hok Hbad. apply must_answer; [done|].
  intros r w' [-> [[-> _]|[-> [Hf|?]]]]%He; rewrite ?touch_open by done; by auto.
Qed.

Lemma must_setsockopt Q fd opt w :
  fd ∈ w_open w -> Q 0 w -> (faulty = true -> Q (-1) w) -> must Q (call (SysSetsockopt fd opt)) w.
Proof. apply must_report; [done|by eexists]. Qed.
Lemma must_bind_port Q fd addr port w :
  fd ∈ w_open w -> Q 0 w -> (faulty = true -> Q (-1) w) -> must Q (call (SysBind fd addr port)) w.
Proof. apply must_report; [done|by eexists]. Qed.
Lemma must_listen Q fd backlog w :
  fd ∈ w_open w -> Q 0 w -> (faulty = true -> Q (-1) w) -> must Q (call (SysListen fd backlog)) w.
Proof. apply must_report; [done|by eexists]. Qed.
Lemma must_connect Q fd addr port w :
  fd ∈ w_open w -> Q 0 w -> (faulty = true -> Q (-1) w) -> must Q (call (SysConnect fd addr port)) w.
Proof. apply must_report; [done|by eexists]. Qed.

Lemma must_rcvtimeo (Q : Z -> World -> Prop) fd sec usec w :
  fd ∈ w_open w ->
  (valid_timeval sec usec = true -> Q 0 (set_timeout (arms_timeout sec usec) w)) ->
  (valid_timeval sec usec = false -> Q (-1) w) -> must Q (call (SysRcvtimeo fd sec usec)) w.
Proof.
  intros Hfd Hok Hbad. apply must_answer; [by eexists|]. intros r w'. cbn [kernel].
  case_decide; [|done]. destruct (valid_timeval _ _); intros [-> ->]; auto.
Qed.

Lemma must_getsockname (Q : option Z -> World -> Prop) fd w :
  fd ∈ w_open w -> (forall p, in_unsigned 16 p -> Q (Some p) w) -> (faulty = true -> Q None w) ->
  must Q (call (SysGetsockname fd)) w.
Proof.
  intros Hfd Hok Hbad. apply must_answer; [by eexists|]. intros r w' [-> Hr].
  rewrite touch_open by done. destruct r as [p|]; [apply Hok, Hr|]. destruct Hr; [auto|done].
Qed.

Lemma must_close (Q : unit -> World -> Prop) fd w :
  fd ∈ w_open w -> Q tt (set_open (w_open w ∖ {[fd]}) w) -> must Q (call (SysClose fd)) w.
Proof.
  intros Hfd HQ. apply must_answer; [by eexists|]. intros [] w' ->. by rewrite touch_open.
Qed.

(** Closing the descriptor opened last. *)
Lemma must_close_fresh (Q : unit -> World -> Prop) fd s w :
  fd ∉ s -> Q tt (set_open s w) -> must Q (call (SysClose fd)) (set_open ({[fd]} ∪ s) w).
Proof.
  intros Hfd HQ. apply must_close; [cbn; set_solver|]. cbn [w_open set_open].
  replace (({[fd]} ∪ s) ∖ {[fd]}) with s by set_solver. exact HQ.
Qed.

Lemma must_send (Q : IoResult nat -> World -> Prop) fd bytes w :
  fd ∈ w_open w ->
  (forall n, (n <= length bytes)%nat -> (faulty = false -> bytes <> [] -> 0 < n)%nat ->
     Q (Moved n) (set_sent (w_sent w ++ take n bytes) w)) ->
  (forall n, w_patience w = S n -> Q (Failed true) (set_patience n w)) ->
  (faulty = true -> Q (Failed false) w) -> must Q (call (SysSend fd bytes)) w.
Proof.
  intros Hfd Hok Hint Hbad. apply must_answer; [by eexists|]. intros r w'. cbn [kernel].
  unfold transfers. case_decide; [|done]. destruct r as [n|[]].
  - intros (? & ? & ->). auto.
  - intros (n & ? & ->). auto.
  - intros [? ->]. auto.
Qed.

Lemma must_recv (Q : IoResult (list byte) -> World -> Prop) fd size w :
  fd ∈ w_open w ->
  (forall bs rest, w_incoming w = bs ++ rest -> (length bs <= size)%nat ->
     (bs = [] -> size = 0%nat \/ rest = []) -> Q (Moved bs) (set_incoming rest w)) ->
  (forall n, w_patience w = S n -> Q (Failed true) (set_patience n w)) ->
  (faulty = true -> Q (Failed false) w) -> must Q (call (SysRecv fd size)) w.
Proof.
  intros Hfd Hok Hint Hbad. apply must_answer; [by eexists|]. intros r w'. cbn [kernel].
  unfold transfers. case_decide; [|done]. destruct r as [bs|[]].
  - intros (Hlen & [rest Hin] & Hnil & ->). rewrite Hin, drop_app_length. apply Hok; [done|done|].
    intros ->. destruct (Hnil eq_refl) as [?|E]; [by left|right]. by rewrite Hin in E.
  - intros (n & ? & ->). auto.
  - intros [? ->]. auto.
Qed.

Lemma must_sendto (Q : IoResult nat -> World -> Prop) fd bytes addr port w :
  fd ∈ w_open w ->
  Q (Moved (length bytes)) (set_sent_datagrams (w_sent_datagrams w ++ [bytes]) w) ->
  (forall n, w_patience w = S n -> Q (Failed true) (set_patience n w)) ->
  (faulty = true -> Q (Failed false) w) -> must Q (call (SysSendto fd bytes addr port)) w.
Proof.
  intros Hfd Hok Hint Hbad. apply must_answer; [by eexists|]. intros r w'. cbn [kernel].
  unfold transfers. case_decide; [|done]. destruct r as [n|[]].
  - intros (-> & ->). auto.
  - intros (n & ? & ->). auto.
  - intros [? ->]. auto.
Qed.

Lemma must_recvfrom (Q : IoResult (list byte) -> World -> Prop) fd size w :
  fd ∈ w_open w -> w_timeout w = true ->
  (w_in_datagrams w = [] -> Q (Failed false) w) ->
  (forall d ds, w_in_datagrams w = d :: ds -> Q (Moved (take size d)) (set_in_datagrams ds w)) ->
  (forall n, w_patience w = S n -> Q (Failed true) (set_patience n w)) ->
  (faulty = true -> Q (Failed false) w) -> must Q (call (SysRecvfrom fd size)) w.
Proof.
  intros Hfd Htime Hnone Hok Hint Hbad. apply must_answer.
  { cbn [cooperate]. rewrite Htime. destruct (w_in_datagrams w); [case_decide|]; by eexists. }
  intros r w'. cbn [kernel]. unfold receives_datagram, transfers.
  destruct (w_in_datagrams w) as [|d ds]; (case_decide; [|done]).
  - intros (_ & -> & ->). auto.
  - destruct r as [bs|[]].
    + intros [-> ->]. auto.
    + intros (n & ? & ->). auto.
    + intros [? ->]. auto.
Qed.

Lemma must_print (Q : unit -> World -> Prop) ch format args w :
  Q tt (add_output (mkOutput ch format args) w) -> must Q (print ch format args) w.
Proof. intros HQ. apply must_answer; [by eexists|]. by intros [] w' ->. Qed.

Lemma must_files {A} (Q : A -> World -> Prop) (f : Files -> outcome (A * Files)) a d w :
  f (w_files w) = Ok (a, d) -> Q a (set_files d w) -> must Q (files f) w.
Proof.
  intros Hf HQ. unfold files. apply must_bind, must_answer; [by eexists|].
  intros d' w' [-> ->]. apply must_bind, (must_lift _ _ _ _ _ Hf).
  apply must_bind, must_answer; [by eexists|]. intros [] w' ->. by apply must_ret.
Qed.
End Rules.
