(* ===== verification/Net.v ===== *)
(** The network transport (include/mdfh/net/*.hpp, src/net/*.cpp): the owning
    [Socket], the stream helpers [send_all] and [recv_some], and the TCP and UDP
    endpoints, over the calls of Kernel.  Destructors are called where the scope
    of the code ends. *)
From ITree Require Import ITree.
From stdpp Require Import strings.
From S2P Require Import Prelude ByteOrder Protocol Serialization Parser Kernel.

Local Open Scope Z_scope.

(** ** Socket *)

Record Socket := mkSocket { sock_fd : Z }.
Definition no_socket : Socket := mkSocket (-1).
Definition sock_valid (s : Socket) : bool := 0 <=? sock_fd s.

Definition sock_close (s : Socket) : prog Socket :=
  if 0 <=? sock_fd s then call (SysClose (sock_fd s));; mret (mkSocket (-1)) else mret s.
(** [~Socket()]. *)
Definition sock_destroy (s : Socket) : prog unit := sock_close s;; mret tt.
(** [Socket(Socket&& o)]: the new socket, and what is left of [o]. *)
Definition sock_move (o : Socket) : Socket * Socket := (mkSocket (sock_fd o), mkSocket (-1)).
(** [s = std::move(o)] for two distinct sockets. *)
Definition sock_assign (s o : Socket) : prog (Socket * Socket) :=
  sock_close s;; mret (mkSocket (sock_fd o), mkSocket (-1)).
Definition sock_release (s : Socket) : Z * Socket := (sock_fd s, mkSocket (-1)).

(** ** The stream helpers *)

(** [p] and [remaining] as offsets into the span. *)
Definition send_all_step (fd : Z) (data : list byte) (st : nat * nat) : prog (nat * nat + bool) :=
  let '(p, remaining) := st in
  if bool_decide (0 < remaining)%nat then
    bytes ← lift (subspan data p remaining);
    r ← call (SysSend fd bytes);
    mret match r with
         | Failed true => inl (p, remaining)
         | Failed false => inr false
         | Moved O => inr false
         | Moved n => inl (p + n, remaining - n)%nat
         end
  else mret (inr true).
Definition send_all (fd : Z) (data : list byte) : prog bool :=
  ITree.iter (send_all_step fd data) (0%nat, length data).

(** The kernel writes what it delivers to the front of the buffer. *)
Definition fill (bs buf : list byte) : list byte := bs ++ drop (length bs) buf.

(** Returns the count, -1 for an error, and the buffer. *)
Definition recv_some_step (fd : Z) (buf : list byte) : prog (list byte + Z * list byte) :=
  r ← call (SysRecv fd (length buf));
  mret match r with
       | Failed true => inl buf
       | Failed false => inr (-1, buf)
       | Moved bs => inr (Z.of_nat (length bs), fill bs buf)
       end.
Definition recv_some (fd : Z) (buf : list byte) : prog (Z * list byte) :=
  ITree.iter (recv_some_step fd) buf.

(** Network byte order is big-endian, the host's little-endian. *)
Definition htons (port : Z) : Z := (port mod 256) * 256 + port / 256.
Definition ntohs (port : Z) : Z := htons port.
(** [htonl(INADDR_LOOPBACK)], 127.0.0.1. *)
Definition loopback : Z := 16777343.

Definition local_port (fd : Z) : prog Z :=
  r ← call (SysGetsockname fd);
  mret match r with Some port => ntohs port | None => 0 end.

(** ** TCP *)

Record TcpServer := mkTcpServer { srv_listen : Socket; srv_port : Z }.
Definition new_tcp_server : TcpServer := mkTcpServer no_socket 0.

Definition tcp_listen (port backlog : Z) (srv : TcpServer) : prog (bool * TcpServer) :=
  fd ← call (SysSocket SOCK_STREAM);
  if fd <? 0 then mret (false, srv) else
  let s := mkSocket fd in
  call (SysSetsockopt fd SO_REUSEADDR);;
  r ← call (SysBind fd loopback (htons port));
  if bool_decide (r <> 0) then sock_destroy s;; mret (false, srv) else
  r ← call (SysListen fd backlog);
  if bool_decide (r <> 0) then sock_destroy s;; mret (false, srv) else
  p ← local_port fd;
  m ← sock_assign (srv_listen srv) s;
  sock_destroy m.2;;
  mret (true, mkTcpServer m.1 p).

Definition tcp_accept (srv : TcpServer) : prog (option Socket) :=
  fd ← call (SysAccept (sock_fd (srv_listen srv)));
  if fd <? 0 then mret None else
  call (SysSetsockopt fd TCP_NODELAY);;
  mret (Some (mkSocket fd)).

Definition tcp_server_destroy (srv : TcpServer) : prog unit := sock_destroy (srv_listen srv).

(** A client is its socket. *)
Notation TcpClient := Socket (only parsing).

Section Hosts.
(** [inet_pton(AF_INET, host)]: the address, if [host] is one. *)
Context (inet_pton : string -> option Z).

Definition tcp_connect (host : string) (port : Z) (client : TcpClient) : prog (bool * TcpClient) :=
  fd ← call (SysSocket SOCK_STREAM);
  if fd <? 0 then mret (false, client) else
  let s := mkSocket fd in
  match inet_pton host with
  | None => sock_destroy s;; mret (false, client)
  | Some addr =>
      r ← call (SysConnect fd addr (htons port));
      if bool_decide (r <> 0) then sock_destroy s;; mret (false, client) else
      call (SysSetsockopt fd TCP_NODELAY);;
      m ← sock_assign client s;
      sock_destroy m.2;;
      mret (true, m.1)
  end.

(** ** UDP *)

Record UdpSender := mkUdpSender { tx_sock : Socket; tx_addr : Z; tx_port : Z }.
Definition new_udp_sender : UdpSender := mkUdpSender no_socket 0 0.

Definition udp_open (host : string) (port : Z) (tx : UdpSender) : prog (bool * UdpSender) :=
  fd ← call (SysSocket SOCK_DGRAM);
  if fd <? 0 then mret (false, tx) else
  let s := mkSocket fd in
  match inet_pton host with
  | None => sock_destroy s;; mret (false, tx)
  | Some addr =>
      m ← sock_assign (tx_sock tx) s;
      sock_destroy m.2;;
      mret (true, mkUdpSender m.1 addr (htons port))
  end.
End Hosts.

Definition udp_send (data : list byte) (tx : UdpSender) : prog bool :=
  r ← call (SysSendto (sock_fd (tx_sock tx)) data (tx_addr tx) (tx_port tx));
  mret match r with Moved n => bool_decide (n = length data) | Failed _ => false end.

Definition udp_sender_destroy (tx : UdpSender) : prog unit := sock_destroy (tx_sock tx).

Record UdpReceiver := mkUdpReceiver { rx_sock : Socket; rx_port : Z }.
Definition new_udp_receiver : UdpReceiver := mkUdpReceiver no_socket 0.

Definition udp_bind (port : Z) (rx : UdpReceiver) : prog (bool * UdpReceiver) :=
  fd ← call (SysSocket SOCK_DGRAM);
  if fd <? 0 then mret (false, rx) else
  let s := mkSocket fd in
  call (SysSetsockopt fd SO_REUSEADDR);;
  r ← call (SysBind fd loopback (htons port));
  if bool_decide (r <> 0) then sock_destroy s;; mret (false, rx) else
  p ← local_port fd;
  m ← sock_assign (rx_sock rx) s;
  sock_destroy m.2;;
  mret (true, mkUdpReceiver m.1 p).

Definition udp_recv (buf : list byte) (rx : UdpReceiver) : prog (Z * list byte) :=
  r ← call (SysRecvfrom (sock_fd (rx_sock rx)) (length buf));
  mret match r with
       | Moved bs => (Z.of_nat (length bs), fill bs buf)
       | Failed _ => (-1, buf)
       end.

(** C division truncates. *)
Definition set_recv_timeout_ms (ms : Z) (rx : UdpReceiver) : prog bool :=
  r ← call (SysRcvtimeo (sock_fd (rx_sock rx)) (Z.quot ms 1000) (Z.rem ms 1000 * 1000));
  mret (bool_decide (r = 0)).

Definition udp_receiver_destroy (rx : UdpReceiver) : prog unit := sock_destroy (rx_sock rx).

(** ** What the operations do *)

Lemma set_patience_same w : set_patience (w_patience w) w = w.
Proof. by destruct w. Qed.

(** At most some interrupts later. *)
Definition later (w w' : World) : Prop :=
  exists n, (n <= w_patience w)%nat /\ w' = set_patience n w.

Lemma later_refl w : later w w.
Proof. exists (w_patience w). split; [done|]. by rewrite set_patience_same. Qed.
Lemma later_interrupt w n : w_patience w = S n -> later w (set_patience n w).
Proof. intros E. exists n. split; [lia|done]. Qed.
Lemma later_trans w1 w2 w3 : later w1 w2 -> later w2 w3 -> later w1 w3.
Proof. intros (n & Hn & ->) (m & Hm & ->). exists m. split; [cbn in Hm; lia|done]. Qed.
#[export] Hint Resolve later_refl later_interrupt : mdfh.

Section NetSpecs.
Context {faulty : bool}.
Notation must := (must faulty).

(** Sending a whole buffer: the kernel has taken a prefix of it, all of it
    exactly when the answer is [true]. *)
Lemma must_send_all (Q : bool -> World -> Prop) fd data w :
  fd ∈ w_open w ->
  (forall ok k w', (k <= length data)%nat -> (ok = true <-> k = length data) ->
     (faulty = false -> ok = true) ->
     later (set_sent (w_sent w ++ take k data) w) w' -> Q ok w') ->
  must Q (send_all fd data) w.
Proof.
  intros Hfd HQ.
  apply (must_iter _ (fun st w' => st.1 + st.2 = length data /\
                        later (set_sent (w_sent w ++ take st.1 data) w) w')%nat
                     (fun st w' => st.2 + w_patience w')%nat).
  2:{ cbn [fst snd]. rewrite take_0, app_nil_r. split; [done|]. destruct w. apply later_refl. }
  clear -Hfd HQ. intros [p remaining] w1 [Hlen Hw1]. cbn [fst snd] in *. unfold send_all_step.
  case_bool_decide as Hrem.
  2:{ apply must_ret, (HQ true p); [lia|split; [lia|done]|done|done]. }
  destruct Hw1 as (m & Hm & ->). cbn [w_patience set_sent set_patience] in *.
  apply must_bind, (must_lift _ _ _ _ _ (subspan_ok data p remaining ltac:(lia))).
  apply must_bind, must_send; [done|..].
  - intros [|n] Hn Hpos; apply must_ret.
    + rewrite length_take, length_drop in *.
      apply (HQ false p); [lia|split; [done|lia]|..].
      * intros Hf. specialize (Hpos Hf). enough (0 < 0)%nat by lia. apply Hpos.
        intros E%(f_equal length). rewrite length_take, length_drop in E. cbn in E. lia.
      * exists m. split; [done|]. cbn. by rewrite app_nil_r.
    + rewrite length_take, length_drop in Hn. cbn [fst snd w_patience set_sent set_patience w_sent].
      split; [split; [lia|]|lia]. exists m. split; [done|].
      rewrite take_take, Nat.min_l, <- app_assoc by lia.
      by rewrite <- (take_take_drop data p (S n)).
  - intros n E. apply must_ret. cbn [fst snd w_patience set_patience] in *. subst m.
    split; [split; [done|]|lia]. exists n. split; [cbn; lia|done].
  - intros Hf. apply must_ret. apply (HQ false p); [lia|split; [done|lia]|by rewrite Hf|].
    exists m. done.
Qed.

(** One read: a non-empty piece of what is on its way, nothing at the end of
    the stream, or -1 for an error. *)
Lemma must_recv_some (Q : Z * list byte -> World -> Prop) fd buf w :
  fd ∈ w_open w -> buf <> [] ->
  (forall bs rest w', w_incoming w = bs ++ rest -> (length bs <= length buf)%nat ->
     (bs = [] -> rest = []) -> later (set_incoming rest w) w' ->
     Q (Z.of_nat (length bs), fill bs buf) w') ->
  (forall w', faulty = true -> later w w' -> Q (-1, buf) w') ->
  must Q (recv_some fd buf) w.
Proof.
  intros Hfd Hbuf Hok Hbad.
  apply (must_iter _ (fun b w' => b = buf /\ later w w') (fun _ w' => w_patience w'));
    [|split; [done|apply later_refl]].
  intros b w1 [-> (m & Hm & ->)]. unfold recv_some_step.
  apply must_bind, must_recv; [done|..].
  - intros bs rest Hin Hlen Hnil. apply must_ret. cbn [w_incoming set_patience] in Hin.
    apply (Hok bs rest); [done|done| |by exists m].
    intros Hbs. destruct (Hnil Hbs) as [E|?]; [|done]. by destruct buf.
  - intros n E. apply must_ret. cbn [w_patience set_patience] in *. subst m.
    split; [split; [done|]|lia]. exists n. split; [lia|done].
  - intros Hf. apply must_ret. apply Hbad; [done|]. by exists m.
Qed.

Lemma fill_subspan bs buf : (length bs <= length buf)%nat -> subspan (fill bs buf) 0 (length bs) = Ok bs.
Proof.
  intros Hlen. unfold fill. rewrite subspan_ok by (rewrite length_app; lia).
  by rewrite drop_0, take_app_length.
Qed.
Lemma fill_length bs buf : (length bs <= length buf)%nat -> length (fill bs buf) = length buf.
Proof. intros Hlen. unfold fill. rewrite length_app, length_drop. lia. Qed.

(** Destroying a socket, the one opened last, or one that owns nothing. *)
Lemma must_destroy (Q : unit -> World -> Prop) s w :
  0 <= sock_fd s -> sock_fd s ∈ w_open w -> Q tt (set_open (w_open w ∖ {[sock_fd s]}) w) ->
  must Q (sock_destroy s) w.
Proof.
  intros Hge Hfd HQ. unfold sock_destroy, sock_close. rewrite (proj2 (Z.leb_le 0 _)) by done.
  apply must_bind, must_bind, must_close; [done|]. by do 2 apply must_ret.
Qed.
Lemma must_destroy_fresh (Q : unit -> World -> Prop) fd s w :
  0 <= fd -> fd ∉ s -> Q tt (set_open s w) -> must Q (sock_destroy (mkSocket fd)) (set_open ({[fd]} ∪ s) w).
Proof.
  intros Hge Hfd HQ. apply must_destroy; [done|cbn; set_solver|]. cbn [w_open set_open sock_fd].
  replace (({[fd]} ∪ s) ∖ {[fd]}) with s by set_solver. exact HQ.
Qed.
Lemma must_destroy_none (Q : unit -> World -> Prop) w : Q tt w -> must Q (sock_destroy no_socket) w.
Proof. intros HQ. by apply must_bind, must_ret, must_ret. Qed.
Lemma must_assign_none (Q : Socket * Socket -> World -> Prop) fd w :
  Q (mkSocket fd, no_socket) w -> must Q (sock_assign no_socket (mkSocket fd)) w.
Proof. intros HQ. by apply must_bind, must_ret, must_ret. Qed.

Lemma must_local_port (Q : Z -> World -> Prop) fd w :
  fd ∈ w_open w -> (forall p, Q p w) -> must Q (local_port fd) w.
Proof.
  intros Hfd HQ. apply must_bind, must_getsockname; [done|..].
  - intros p _. by apply must_ret.
  - intros _. by apply must_ret.
Qed.

(** ** The endpoints

    Each operation on a new endpoint either succeeds and owns the one
    descriptor it opened, or fails and has opened nothing that it did not
    close: no branch leaks or closes twice. *)

Lemma fresh_in (fd : Z) w : fd ∈ w_open (set_open ({[fd]} ∪ w_open w) w).
Proof. cbn. set_solver. Qed.
#[local] Hint Resolve fresh_in : core.

Lemma ltb_0 fd : 0 <= fd -> (fd <? 0) = false.
Proof. lia. Qed.

(** The failure paths: close what was opened and report. *)
Lemma must_give_up {A} (Q : A -> World -> Prop) fd r w :
  0 <= fd -> fd ∉ w_open w -> Q r w ->
  must Q (sock_destroy (mkSocket fd);; mret r) (set_open ({[fd]} ∪ w_open w) w).
Proof.
  intros Hge Hfd HQ. apply must_bind, must_destroy_fresh; [done..|]. apply must_ret. by rewrite set_open_same.
Qed.
(** The success path: move the socket into the endpoint. *)
Lemma must_adopt {A} (Q : A -> World -> Prop) fd (k : Socket -> A) w :
  Q (k (mkSocket fd)) w ->
  must Q (m ← sock_assign no_socket (mkSocket fd); sock_destroy m.2;; mret (k m.1)) w.
Proof.
  intros HQ. apply must_bind, must_assign_none. apply must_bind, must_destroy_none. by apply must_ret.
Qed.

Lemma must_tcp_listen (Q : bool * TcpServer -> World -> Prop) port backlog w :
  (forall fd p, 0 <= fd -> fd ∉ w_open w ->
     Q (true, mkTcpServer (mkSocket fd) p) (set_open ({[fd]} ∪ w_open w) w)) ->
  (faulty = true -> Q (false, new_tcp_server) w) ->
  must Q (tcp_listen port backlog new_tcp_server) w.
Proof.
  intros Hok Hbad. apply must_bind, must_socket; [|by intros ?; apply must_ret; auto].
  intros fd Hge Hfd. rewrite ltb_0 by done. cbn zeta.
  assert (must Q (r ← call (SysBind fd loopback (htons port));
    if bool_decide (r <> 0) then sock_destroy (mkSocket fd);; mret (false, new_tcp_server) else
    r ← call (SysListen fd backlog);
    if bool_decide (r <> 0) then sock_destroy (mkSocket fd);; mret (false, new_tcp_server) else
    p ← local_port fd;
    m ← sock_assign no_socket (mkSocket fd);
    sock_destroy m.2;;
    mret (true, mkTcpServer m.1 p)) (set_open ({[fd]} ∪ w_open w) w)) as Hrest.
  { apply must_bind, must_bind_port; [done| |by intros; apply must_give_up; auto].
    apply must_bind, must_listen; [done| |by intros; apply must_give_up; auto].
    apply must_bind, must_local_port; [done|]. intros p.
    apply (must_adopt _ fd (fun s => (true, mkTcpServer s p))). by apply Hok. }
  apply must_bind, must_setsockopt; [done|done|by intros _].
Qed.

Lemma must_tcp_accept (Q : option Socket -> World -> Prop) srv w :
  sock_fd (srv_listen srv) ∈ w_open w ->
  (forall fd, 0 <= fd -> fd ∉ w_open w -> Q (Some (mkSocket fd)) (set_open ({[fd]} ∪ w_open w) w)) ->
  (faulty = true -> Q None w) -> must Q (tcp_accept srv) w.
Proof.
  intros Hsrv Hok Hbad. apply must_bind, must_accept; [done| |by intros ?; apply must_ret; auto].
  intros fd Hge Hfd. rewrite ltb_0 by done.
  apply must_bind, must_setsockopt; [done| |intros _]; apply must_ret; by apply Hok.
Qed.

Section Hosts.
Context (inet_pton : string -> option Z).

Lemma must_tcp_connect (Q : bool * Socket -> World -> Prop) host port w :
  (forall fd, 0 <= fd -> fd ∉ w_open w -> is_Some (inet_pton host) ->
     Q (true, mkSocket fd) (set_open ({[fd]} ∪ w_open w) w)) ->
  (faulty = true \/ inet_pton host = None -> Q (false, no_socket) w) ->
  must Q (tcp_connect inet_pton host port no_socket) w.
Proof.
  intros Hok Hbad. apply must_bind, must_socket; [|by intros ?; apply must_ret; auto].
  intros fd Hge Hfd. rewrite ltb_0 by done. cbn zeta.
  destruct (inet_pton host) as [addr|]; [|apply must_give_up; auto].
  assert (must Q (m ← sock_assign no_socket (mkSocket fd); sock_destroy m.2;; mret (true, m.1))
            (set_open ({[fd]} ∪ w_open w) w)) as Hadopt.
  { apply (must_adopt _ fd (fun s => (true, s))). apply Hok; [done|done|by eexists]. }
  apply must_bind, must_connect; [done| |by intros; apply must_give_up; auto].
  by apply must_bind, must_setsockopt.
Qed.

Lemma must_udp_open (Q : bool * UdpSender -> World -> Prop) host port w :
  (forall fd addr, 0 <= fd -> fd ∉ w_open w -> inet_pton host = Some addr ->
     Q (true, mkUdpSender (mkSocket fd) addr (htons port)) (set_open ({[fd]} ∪ w_open w) w)) ->
  (faulty = true \/ inet_pton host = None -> Q (false, new_udp_sender) w) ->
  must Q (udp_open inet_pton host port new_udp_sender) w.
Proof.
  intros Hok Hbad. apply must_bind, must_socket; [|by intros ?; apply must_ret; auto].
  intros fd Hge Hfd. rewrite ltb_0 by done. cbn zeta.
  destruct (inet_pton host) as [addr|]; [|apply must_give_up; auto].
  apply (must_adopt _ fd (fun s => (true, mkUdpSender s addr (htons port)))). by apply Hok.
Qed.
End Hosts.

Lemma must_udp_bind (Q : bool * UdpReceiver -> World -> Prop) port w :
  (forall fd p, 0 <= fd -> fd ∉ w_open w ->
     Q (true, mkUdpReceiver (mkSocket fd) p) (set_open ({[fd]} ∪ w_open w) w)) ->
  (faulty = true -> Q (false, new_udp_receiver) w) ->
  must Q (udp_bind port new_udp_receiver) w.
Proof.
  intros Hok Hbad. apply must_bind, must_socket; [|by intros ?; apply must_ret; auto].
  intros fd Hge Hfd. rewrite ltb_0 by done. cbn zeta.
  assert (must Q (r ← call (SysBind fd loopback (htons port));
    if bool_decide (r <> 0) then sock_destroy (mkSocket fd);; mret (false, new_udp_receiver) else
    p ← local_port fd;
    m ← sock_assign no_socket (mkSocket fd);
    sock_destroy m.2;;
    mret (true, mkUdpReceiver m.1 p)) (set_open ({[fd]} ∪ w_open w) w)) as Hrest.
  { apply must_bind, must_bind_port; [done| |by intros; apply must_give_up; auto].
    apply must_bind, must_local_port; [done|]. intros p.
    apply (must_adopt _ fd (fun s => (true, mkUdpReceiver s p))). by apply Hok. }
  apply must_bind, must_setsockopt; [done|done|by intros _].
Qed.

Lemma must_udp_send (Q : bool -> World -> Prop) data tx w :
  sock_fd (tx_sock tx) ∈ w_open w ->
  Q true (set_sent_datagrams (w_sent_datagrams w ++ [data]) w) ->
  (forall w', later w w' -> (faulty = true \/ (0 < w_patience w)%nat) -> Q false w') ->
  must Q (udp_send data tx) w.
Proof.
  intros Hfd Hok Hbad. apply must_bind, must_sendto; [done|..].
  - apply must_ret. by rewrite bool_decide_eq_true_2.
  - intros n E. apply must_ret, Hbad; [by apply later_interrupt|right; lia].
  - intros Hf. apply must_ret, Hbad; [by apply later_refl|by left].
Qed.

Lemma must_udp_recv (Q : Z * list byte -> World -> Prop) buf rx w :
  sock_fd (rx_sock rx) ∈ w_open w -> w_timeout w = true ->
  (forall d ds, w_in_datagrams w = d :: ds ->
     Q (Z.of_nat (length (take (length buf) d)), fill (take (length buf) d) buf) (set_in_datagrams ds w)) ->
  (forall w', later w w' -> (w_in_datagrams w = [] \/ faulty = true \/ (0 < w_patience w)%nat) ->
     Q (-1, buf) w') ->
  must Q (udp_recv buf rx) w.
Proof.
  intros Hfd Htime Hok Hbad. apply must_bind, must_recvfrom; [done|done|..].
  - intros E. apply must_ret, Hbad; [by apply later_refl|by left].
  - intros d ds E. apply must_ret. by apply (Hok d ds).
  - intros n E. apply must_ret, Hbad; [by apply later_interrupt|right; right; lia].
  - intros Hf. apply must_ret, Hbad; [by apply later_refl|by right; left].
Qed.

(** A timeout of at least a millisecond is armed. *)
Lemma must_set_timeout (Q : bool -> World -> Prop) ms rx w :
  sock_fd (rx_sock rx) ∈ w_open w -> 1 <= ms -> Q true (set_timeout true w) ->
  must Q (set_recv_timeout_ms ms rx) w.
Proof.
  intros Hfd Hms HQ. pose proof (Z.quot_rem' ms 1000). pose proof (Z.rem_bound_pos ms 1000 ltac:(lia) ltac:(lia)).
  pose proof (Z.quot_pos ms 1000 ltac:(lia) ltac:(lia)).
  assert (valid_timeval (Z.quot ms 1000) (Z.rem ms 1000 * 1000) = true) as Hv.
  { unfold valid_timeval. lia. }
  assert (arms_timeout (Z.quot ms 1000) (Z.rem ms 1000 * 1000) = true) as Ha.
  { unfold arms_timeout. lia. }
  apply must_bind, must_rcvtimeo; [done| |by rewrite Hv].
  intros _. apply must_ret. by rewrite Ha, bool_decide_eq_true_2.
Qed.
End NetSpecs.
