(* ===== verification/Args.v ===== *)
(** Command-line flags (apps/app_common.hpp): the [Args] map, its typed
    accessors, and [parse_host_port].  [std::from_chars] and [std::stoul] are
    modelled for base 10; [std::stod] is a parameter. *)
From stdpp Require Import strings pretty.
From Stdlib Require Import SpecFloat Ascii.
From S2P Require Import Prelude.

Local Open Scope Z_scope.

(** ** Args *)

(** [std::unordered_map<std::string, std::string>]. *)
Notation Args := (gmap string string) (only parsing).

(** [a.rfind("--", 0) == 0]. *)
Definition is_flag (a : string) : bool := String.prefix "--" a.

(** The constructor's loop, from [argv[i]] on. *)
Fixpoint parse_args_loop (argv : list string) (kv : Args) : Args :=
  match argv with
  | [] => kv
  | a :: rest =>
      if is_flag a then
        let key := String.substring 2 (String.length a - 2) a in
        match rest with
        | v :: rest' =>
            if negb (is_flag v) then parse_args_loop rest' (<[key := v]> kv)
            else parse_args_loop rest (<[key := ""%string]> kv)
        | [] => <[key := ""%string]> kv
        end
      else parse_args_loop rest kv
  end.
(** [argv[0]] is the program's name. *)
Definition parse_args (argv : list string) : Args := parse_args_loop (tail argv) ∅.

Definition arg_has (k : string) (args : Args) : bool := bool_decide (is_Some (args !! k)).
Definition arg_str (k def : string) (args : Args) : string := default def (args !! k).

(** ** Numbers *)

Definition digit (c : Ascii.ascii) : option Z :=
  let n := Z.of_N (Ascii.N_of_ascii c) in
  if (48 <=? n) && (n <=? 57) then Some (n - 48) else None.

(** The longest prefix of digits. *)
Fixpoint leading_digits (s : string) : list Z :=
  match s with
  | EmptyString => []
  | String c s' => match digit c with Some d => d :: leading_digits s' | None => [] end
  end.
Definition digits_value (acc : Z) (ds : list Z) : Z := foldl (fun v d => v * 10 + d) acc ds.

(** [std::from_chars] of an unsigned 64-bit integer: no sign, no leading
    space; [None] leaves the result as it was. *)
Definition from_chars (s : string) : option Z :=
  match leading_digits s with
  | [] => None
  | ds => let v := digits_value 0 ds in if v <? 2 ^ 64 then Some v else None
  end.

Definition arg_u64 (k : string) (def : Z) (args : Args) : Z :=
  match args !! k with
  | None => def
  | Some s => if bool_decide (s = ""%string) then def else default def (from_chars s)
  end.

(** [std::isspace] in the C locale. *)
Definition is_space (c : Ascii.ascii) : bool :=
  let n := Z.of_N (Ascii.N_of_ascii c) in (n =? 32) || ((9 <=? n) && (n <=? 13)).
Fixpoint skip_spaces (s : string) : string :=
  match s with
  | String c s' => if is_space c then skip_spaces s' else s
  | EmptyString => s
  end.

(** The optional sign: whether the number is negated, and the rest. *)
Definition take_sign (s : string) : bool * string :=
  match s with
  | String c s' =>
      if bool_decide (c = "-"%char) then (true, s')
      else if bool_decide (c = "+"%char) then (false, s') else (false, s)
  | EmptyString => (false, s)
  end.

(** [std::stoul]: an exception, caught by nobody, ends the process.  The range
    is that of the digits; a minus sign negates in unsigned arithmetic. *)
Definition stoul (s : string) : outcome Z :=
  let '(neg, t) := take_sign (skip_spaces s) in
  match leading_digits t with
  | [] => Abort
  | ds =>
      let v := digits_value 0 ds in
      if v <? 2 ^ 64 then Ok (if neg then wrap 64 (- v) else v) else Abort
  end.

Section Stod.
Context (stod : string -> option spec_float).

(** [stod] gives [None] where [std::stod] throws. *)
Definition arg_f64 (k : string) (def : spec_float) (args : Args) : spec_float :=
  match args !! k with
  | None => def
  | Some s => if bool_decide (s = ""%string) then def else default def (stod s)
  end.
End Stod.

(** ** parse_host_port *)

Fixpoint rfind (c : Ascii.ascii) (s : string) : option nat :=
  match s with
  | EmptyString => None
  | String a s' =>
      match rfind c s' with
      | Some i => Some (S i)
      | None => if bool_decide (a = c) then Some 0%nat else None
      end
  end.

(** Returns the result and the two out-parameters. *)
Definition parse_host_port (s host : string) (port : Z) : outcome (bool * string * Z) :=
  match rfind ":" s with
  | None => Ok (false, host, port)
  | Some colon =>
      let host := String.substring 0 colon s in
      v ← stoul (String.substring (colon + 1) (String.length s - (colon + 1)) s);
      Ok (true, host, wrap 16 v)
  end.

(** ** Decimal text *)

Lemma digits_value_app acc ds ds' :
  digits_value acc (ds ++ ds') = digits_value (digits_value acc ds) ds'.
Proof. apply foldl_app. Qed.

Lemma digit_pretty n : (n < 10)%N -> digit (pretty_N_char n) = Some (Z.of_N n).
Proof.
  intros Hn. destruct n as [|p]; [done|].
  do 4 (destruct p as [p|p|]; [| |done]); exfalso; destruct p; lia.
Qed.

Lemma string_app_cons x (a b : string) : (String x a +:+ b)%string = String x (a +:+ b)%string.
Proof. done. Qed.

Lemma string_app_assoc (a b c : string) : ((a +:+ b) +:+ c)%string = (a +:+ (b +:+ c))%string.
Proof. induction a as [|x a IH]; [done|]. by rewrite !string_app_cons, IH. Qed.

Lemma string_app_nil (a : string) : (a +:+ "")%string = a.
Proof. induction a as [|x a IH]; [done|]. by rewrite !string_app_cons, IH. Qed.

Lemma rfind_app c (a b : string) :
  rfind c (a +:+ b)%string =
  match rfind c b with Some i => Some (String.length a + i)%nat | None => rfind c a end.
Proof.
  induction a as [|x a IH]; [change ("" +:+ b)%string with b; by destruct (rfind c b)|].
  rewrite string_app_cons. cbn [rfind String.length]. rewrite IH. by destruct (rfind c b).
Qed.

Lemma rfind_digit_none ch s : is_Some (digit ch) -> rfind ":" s = None -> rfind ":" (String ch s) = None.
Proof.
  intros Hd Hs. cbn. rewrite Hs. case_bool_decide as E; [|done]. subst. by destruct Hd.
Qed.

(** The text [t] is a numeral of [v]. *)
Definition numeral (t : string) (v : Z) : Prop :=
  exists ds, ds <> [] /\ digits_value 0 ds = v /\ rfind ":" t = None /\
    forall s, leading_digits (t +:+ s)%string = ds ++ leading_digits s.

Lemma numeral_digit n : (n < 10)%N -> numeral (String (pretty_N_char n) "") (Z.of_N n).
Proof.
  intros Hn. exists [Z.of_N n]. split_and!; [done|by cbn; lia| |].
  - apply rfind_digit_none; [|done]. by rewrite digit_pretty.
  - intros s. rewrite string_app_cons. cbn [leading_digits]. by rewrite digit_pretty.
Qed.

Lemma numeral_snoc t v n :
  numeral t v -> (n < 10)%N -> numeral (t +:+ String (pretty_N_char n) "")%string (v * 10 + Z.of_N n).
Proof.
  intros (ds & Hne & Hv & Hc & Hl) Hn. destruct (numeral_digit n Hn) as (_ & _ & _ & Hc' & _).
  exists (ds ++ [Z.of_N n]). split_and!.
  - by destruct ds.
  - rewrite digits_value_app, Hv. done.
  - by rewrite rfind_app, Hc'.
  - intros s. rewrite string_app_assoc, Hl, <- app_assoc, string_app_cons. cbn [leading_digits]. by rewrite digit_pretty.
Qed.

Lemma pretty_go_numeral x s :
  (0 < x)%N -> exists t, pretty_N_go x s = (t +:+ s)%string /\ numeral t (Z.of_N x).
Proof.
  revert s; induction (N.lt_wf_0 x) as [x _ IH]; intros s Hx. rewrite pretty_N_go_step by done.
  assert (x mod 10 < 10)%N as Hm by (apply N.mod_lt; done).
  pose proof (N.div_mod x 10 ltac:(done)) as Hdm.
  destruct (decide (x / 10 = 0)%N) as [E|Hq].
  - rewrite E, pretty_N_go_0. exists (String (pretty_N_char (x mod 10)) ""). split; [done|].
    replace x with (x mod 10)%N at 2 by lia. by apply numeral_digit.
  - destruct (IH (x / 10)%N) with (String (pretty_N_char (x mod 10)) s) as (t & Et & Ht);
      [apply N.div_lt; lia|lia|].
    exists (t +:+ String (pretty_N_char (x mod 10)) "")%string. split; [by rewrite Et, string_app_assoc|].
    replace (Z.of_N x) with (Z.of_N (x / 10) * 10 + Z.of_N (x mod 10)) by lia. by apply numeral_snoc.
Qed.

Lemma pretty_numeral v : 0 <= v -> numeral (pretty v) v.
Proof.
  intros Hv. destruct v as [|x|x]; [by apply (numeral_digit 0)| |lia].
  change (pretty (Zpos x)) with (pretty_N_go (Npos x) ""). 
  destruct (pretty_go_numeral (Npos x) "") as (t & -> & Ht); [lia|].
  by rewrite string_app_nil.
Qed.

Lemma numeral_ne t v : numeral t v -> exists c t' d, t = String c t' /\ digit c = Some d.
Proof.
  intros (ds & Hne & _ & _ & Hl). specialize (Hl ""%string).
  destruct t as [|c t]; [by destruct ds|]. rewrite string_app_cons in Hl. cbn [leading_digits] in Hl.
  destruct (digit c) as [d|] eqn:E; [by exists c, t, d|by destruct ds].
Qed.

Lemma from_chars_then t v rest :
  numeral t v -> in_unsigned 64 v -> leading_digits rest = [] -> from_chars (t +:+ rest)%string = Some v.
Proof.
  intros (ds & Hne & Hv & _ & Hl) Hr Hrest. unfold from_chars. rewrite Hl, Hrest, app_nil_r.
  destruct ds; [done|]. cbn zeta. rewrite Hv. rewrite (proj2 (Z.ltb_lt _ _)); [done|]. by destruct Hr.
Qed.
Lemma from_chars_numeral t v : numeral t v -> in_unsigned 64 v -> from_chars t = Some v.
Proof. intros Ht Hv. rewrite <- (string_app_nil t). by apply from_chars_then. Qed.

Lemma digit_not_special c d :
  digit c = Some d -> is_space c = false /\ c <> "-"%char /\ c <> "+"%char.
Proof.
  intros Hd. split_and!; [|by intros ->..]. unfold digit, is_space in *. cbv zeta in *.
  destruct (_ && _) eqn:E in Hd; [|done]. lia.
Qed.

Lemma stoul_numeral t v : numeral t v -> in_unsigned 64 v -> stoul t = Ok v.
Proof.
  intros Ht Hr. destruct (numeral_ne t v Ht) as (c & t' & d & Et & Hd).
  destruct (digit_not_special c d Hd) as (Hs & Hm & Hp).
  assert (skip_spaces t = t) as Hskip by (rewrite Et; cbn; by rewrite Hs).
  assert (take_sign t = (false, t)) as Hsign.
  { rewrite Et. cbn. by rewrite !bool_decide_eq_false_2. }
  unfold stoul. rewrite Hskip, Hsign. destruct Ht as (ds & Hne & Hv & _ & Hl).
  specialize (Hl ""%string). rewrite string_app_nil in Hl. rewrite Hl, app_nil_r.
  destruct ds; [done|]. cbn zeta. rewrite Hv. rewrite (proj2 (Z.ltb_lt _ _)); [done|]. by destruct Hr.
Qed.

Lemma numeral_not_flag t v : numeral t v -> is_flag t = false.
Proof.
  intros (c & t' & d & -> & Hd)%numeral_ne. destruct (digit_not_special c d Hd) as (_ & Hm & _).
  unfold is_flag. cbn [String.prefix]. destruct (ascii_dec "-" c); congruence.
Qed.

(** ** Splitting at the last colon *)

Lemma length_string_app (a b : string) : String.length (a +:+ b) = (String.length a + String.length b)%nat.
Proof. induction a as [|x a IH]; [done|]. rewrite string_app_cons. cbn. by rewrite IH. Qed.

Lemma substring_0 s : String.substring 0 (String.length s) s = s.
Proof. induction s as [|c s IH]; [done|]. cbn. by rewrite IH. Qed.

Lemma substring_prefix (a b : string) : String.substring 0 (String.length a) (a +:+ b) = a.
Proof.
  induction a as [|x a IH]; [by destruct b|]. rewrite string_app_cons. cbn. by rewrite IH.
Qed.
Lemma substring_suffix (a b : string) n :
  n = String.length b -> String.substring (String.length a) n (a +:+ b) = b.
Proof.
  intros ->. induction a as [|x a IH]; [apply substring_0|]. rewrite string_app_cons. exact IH.
Qed.

(** The text [host:service] with the last colon shown. *)
Lemma parse_host_port_split host service h0 p0 :
  rfind ":" service = None ->
  parse_host_port (host +:+ ":" +:+ service) h0 p0 =
  (v ← stoul service; Ok (true, host, wrap 16 v)).
Proof.
  intros Hno. unfold parse_host_port. rewrite rfind_app, string_app_cons. cbn [rfind].
  change ("" +:+ service)%string with service. rewrite Hno, bool_decide_eq_true_2, Nat.add_0_r by done.
  cbn zeta. rewrite substring_prefix, length_string_app. cbn [String.length].
  replace (host +:+ String ":" service)%string with ((host +:+ ":") +:+ service)%string
    by by rewrite string_app_assoc.
  replace (String.length host + 1)%nat with (String.length (host +:+ ":"))
    by by rewrite length_string_app.
  rewrite substring_suffix; [done|]. rewrite length_string_app. cbn. lia.
Qed.

(** Every text either has no colon or splits at its last one. *)
Lemma rfind_split c s :
  match rfind c s with
  | None => True
  | Some _ => exists a b, s = (a +:+ String c b)%string /\ rfind c b = None
  end.
Proof.
  induction s as [|x s IH]; [done|]. cbn [rfind]. destruct (rfind c s) as [i|] eqn:E.
  - destruct IH as (a & b & -> & Hb). exists (String x a), b. by rewrite string_app_cons.
  - case_bool_decide as Hx; [subst x|done]. by exists ""%string, s.
Qed.

(** ** Command lines as lists of items *)

Inductive Item :=
  | Valued (key value : string)
  | Switch (key : string)
  | Stray (word : string).

Definition item_words (i : Item) : list string :=
  match i with
  | Valued k v => ["--" +:+ k; v]
  | Switch k => ["--" +:+ k]
  | Stray w => [w]
  end%string.
Definition item_ok (i : Item) : Prop :=
  match i with Valued _ v => is_flag v = false | Switch _ => True | Stray w => is_flag w = false end.
(** A word after a switch would be its value. *)
Definition may_follow (i : Item) (next : list Item) : Prop :=
  match i, next with Switch _, Stray _ :: _ => False | _, _ => True end.
Fixpoint items_ok (items : list Item) : Prop :=
  match items with
  | [] => True
  | i :: items' => item_ok i /\ may_follow i items' /\ items_ok items'
  end.
Definition item_sets (i : Item) (kv : Args) : Args :=
  match i with
  | Valued k v => <[k := v]> kv
  | Switch k => <[k := ""%string]> kv
  | Stray _ => kv
  end.

Lemma flag_is_flag k : is_flag ("--" +:+ k) = true.
Proof. by destruct k. Qed.
Lemma flag_key k : String.substring 2 (String.length ("--" +:+ k) - 2) ("--" +:+ k) = k.
Proof. apply (substring_suffix "--" k). rewrite length_string_app. cbn. lia. Qed.

Lemma parse_items_loop items kv :
  items_ok items ->
  parse_args_loop (concat (map item_words items)) kv = foldl (fun kv i => item_sets i kv) kv items.
Proof.
  revert kv; induction items as [|i items IH]; intros kv; [done|]. intros (Hi & Hnext & Hok).
  destruct i as [k v|k|w]; cbn [map concat item_words app foldl item_sets item_ok] in *; cbn [parse_args_loop].
  - rewrite flag_is_flag, flag_key, Hi. cbn [negb]. by apply IH.
  - rewrite flag_is_flag, flag_key. destruct items as [|j items']; [done|].
    destruct j as [k' v'|k'|w']; cbn [map concat item_words app] in *; [| |done];
      rewrite flag_is_flag; cbn [negb]; by apply IH.
  - rewrite Hi. by apply IH.
Qed.

(** ** The theorems *)

(** C16: the value of a numeric flag.  On any command line of flags with values,
    switches and stray words, the last setting of a flag counts, and the decimal
    text of a 64-bit number is read back as that number.  Whatever follows the
    number, from the first character on that is not a digit, is silently
    ignored; a text that does not start with a digit, and a number that is too
    large, silently leave the default. *)
Theorem numeric_flag_roundtrip prog before k v after def :
  in_unsigned 64 v -> items_ok (before ++ Valued k (pretty v) :: after) ->
  (forall i, i ∈ after -> forall kv, item_sets i kv !! k = kv !! k) ->
  let argv := prog :: concat (map item_words (before ++ Valued k (pretty v) :: after)) in
  arg_u64 k def (parse_args argv) = v /\ arg_has k (parse_args argv) = true /\
  (forall rest args, args !! k = Some (pretty v +:+ rest)%string -> leading_digits rest = [] ->
     arg_u64 k def args = v) /\
  forall junk args, args !! k = Some junk ->
    (leading_digits junk = [] \/ 2 ^ 64 <= digits_value 0 (leading_digits junk)) -> arg_u64 k def args = def.
Proof.
  intros Hv Hok Hafter. cbv zeta.
  assert (parse_args (prog :: concat (map item_words (before ++ Valued k (pretty v) :: after))) !! k =
    Some (pretty v)) as Hk.
  { unfold parse_args. cbn [tail]. rewrite parse_items_loop, foldl_app by done. cbn [foldl item_sets].
    generalize (foldl (fun kv i => item_sets i kv) ∅ before). clear -Hafter. intros kv0.
    assert (<[k := pretty v]> kv0 !! k = Some (pretty v)) as Hkv by by rewrite lookup_insert_eq.
    revert Hkv. generalize (<[k := pretty v]> kv0). clear kv0.
    induction after as [|i after IH]; intros kv Hkv; [done|]. apply IH.
    - intros j Hj. apply Hafter. by right.
    - rewrite Hafter by (by left). exact Hkv. }
  pose proof (pretty_numeral v (proj1 Hv)) as Hn. split_and!.
  - unfold arg_u64. rewrite Hk. destruct (numeral_ne _ _ Hn) as (c & t & d & E & _).
    rewrite bool_decide_eq_false_2 by (by rewrite E). by rewrite (from_chars_numeral _ v).
  - unfold arg_has. rewrite Hk. by apply bool_decide_eq_true_2.
  - intros rest args Hj Hrest. unfold arg_u64. rewrite Hj.
    destruct (numeral_ne _ _ Hn) as (c & t & d & E & _).
    rewrite bool_decide_eq_false_2 by (by rewrite E). by rewrite (from_chars_then _ v).
  - intros junk args Hj Hbad. unfold arg_u64. rewrite Hj. case_bool_decide; [done|].
    unfold from_chars. destruct (leading_digits junk) as [|d ds]; [done|]. cbv zeta.
    destruct Hbad as [?|Hbad]; [done|]. by rewrite (proj2 (Z.ltb_ge _ _)).
Qed.

Lemma numeric_flag_roundtrip_witness :
  arg_u64 "seed" 42 (parse_args ["mdfh_feedsim"; "--verbose"; "--seed"; "1"; "--seed"; "18446744073709551615";
                                 "--out"; "x"]%string) = 18446744073709551615.
Proof.
  apply (numeric_flag_roundtrip "mdfh_feedsim" [Switch "verbose"; Valued "seed" "1"]%string "seed"
    18446744073709551615 [Valued "out" "x"]%string 42).
  - by split.
  - cbn. by split_and!.
  - intros i Hi kv. apply elem_of_cons in Hi as [->|Hi]; [|by apply not_elem_of_nil in Hi].
    cbn. by rewrite lookup_insert_ne.
Defined.


