(* ===== verification/Apps.v ===== *)
(** The three programs (apps/feedsim.cpp, apps/feedhandler.cpp,
    apps/replay_app.cpp): each [main] from its arguments to its exit code, over
    the calls of Kernel.  Sockets and the capture writer are destroyed where
    their scope ends.  A line printed is its format with the values given to
    [printf]. *)
From ITree Require Import ITree.
From stdpp Require Import strings.
From Stdlib Require Import SpecFloat.
From S2P Require Import Prelude Doubles ByteOrder Protocol Prices Serialization Parser.
From S2P Require Import SequenceTracker.
From S2P Require Import FeedHandler OrderedMap OrderBook BookBuilder Replay WireTheorems.
From S2P Require Import Capture Simulator.
From S2P Require Import Kernel Net Args.

Local Open Scope string_scope.
Local Open Scope Z_scope.

(** ** mdfh_feedsim *)

Section FeedSim.
Context {Rng : Type} (draw : DistType -> Z -> Z -> Rng -> Z * Rng) (seed_rng : Z -> Rng).
Context (inet_pton : string -> option Z) (sys : Stdio).

(** [sim.run(sink)] for a sink with state: one message a round; the result
    counts them. *)
Definition sim_drive_step {S} (cfg : SimConfig) (sink : Packet -> S -> prog S)
    (st : @MarketSimulator Rng * S * Z) : prog (@MarketSimulator Rng * S * Z + S * Z) :=
  let '(sim, s, n) := st in
  r ← lift (sim_next draw cfg sim);
  match r.1 with
  | None => mret (inr (s, n))
  | Some m => s ← sink (dispatch_message m) s; mret (inl (r.2, s, incr64 n))
  end.
Definition sim_drive {S} (cfg : SimConfig) (sink : Packet -> S -> prog S) (sim : @MarketSimulator Rng)
    (s : S) : prog (S * Z) :=
  ITree.iter (sim_drive_step cfg sink) (sim, s, 0).

(** [std::array buf{}; len = encode_message(buf, ...); {buf.data(), len}]. *)
Definition encode_frame (p : Packet) : outcome (list byte) :=
  r ← encode_packet (replicate kMaxMessageSize Byte.x00) p;
  subspan r.2 0 r.1.

(** A default configuration with two fields set. *)
Definition sized_config (symbols messages : Z) : SimConfig :=
  let d := default_sim_config in
  mkSimConfig (wrap 32 symbols) messages
    (start_price d) (symbol_price_step d) (tick d) (band_levels d) (min_qty d) (max_qty d)
    (ts_start d) (ts_step_ns d) (w_add d) (w_cancel d) (w_modify d) (w_trade d)
    (snapshot_interval d) (heartbeat_interval d).
Definition sim_config_of (args : Args) : SimConfig :=
  sized_config (arg_u64 "symbols" 4 args) (arg_u64 "messages" 1000000 args).

(** The three sinks. *)
Definition capture_sink (p : Packet) (w : CaptureWriter) : prog CaptureWriter :=
  r ← files (cw_write sys p w);
  mret r.2.
(** [n] and [ok]. *)
Definition stream_sink (fd : Z) (p : Packet) (st : Z * bool) : prog (Z * bool) :=
  let '(n, ok) := st in
  if negb ok then mret (n, ok) else
  bytes ← lift (encode_frame p);
  ok ← send_all fd bytes;
  mret (incr64 n, ok).
Definition datagram_sink (tx : UdpSender) (p : Packet) (n : Z) : prog Z :=
  bytes ← lift (encode_frame p);
  udp_send bytes tx;;
  mret (incr64 n).

Definition feedsim_capture (cfg : SimConfig) (sim : MarketSimulator) (out : string) : prog Z :=
  r ← files (cw_open sys out new_writer);
  let '(opened, w) := (r : bool * CaptureWriter) in
  if negb opened then
    print Stderr "cannot open %s\n" [AStr out];;
    files (cw_close sys w);;
    mret 1
  else
    r ← sim_drive cfg capture_sink sim w;
    let '(w, n) := (r : CaptureWriter * Z) in
    w ← files (cw_close sys w);
    print Stdout "wrote %llu messages to %s\n" [AInt n; AStr out];;
    files (cw_close sys w);;
    mret 0.

Definition feedsim_tcp (cfg : SimConfig) (sim : MarketSimulator) (args : Args) : prog Z :=
  let port := wrap 16 (arg_u64 "tcp" 0 args) in
  r ← tcp_listen port 4 new_tcp_server;
  let '(listening, server) := (r : bool * TcpServer) in
  if negb listening then
    print Stderr "listen failed\n" [];;
    tcp_server_destroy server;;
    mret 1
  else
    print Stdout "TCP feed listening on 127.0.0.1:%u -- waiting for client...\n" [AInt (srv_port server)];;
    conn ← tcp_accept server;
    match conn with
    | None =>
        print Stderr "accept failed\n" [];;
        tcp_server_destroy server;;
        mret 1
    | Some conn =>
        print Stdout "client connected; streaming...\n" [];;
        r ← sim_drive cfg (stream_sink (sock_fd conn)) sim (0, true);
        let '(n, ok) := (r.1 : Z * bool) in
        print Stdout "streamed %llu messages (ok=%d)\n" [AInt n; AInt (if ok then 1 else 0)];;
        sock_destroy conn;;
        tcp_server_destroy server;;
        mret (if ok then 0 else 1)
    end.

Definition feedsim_udp (cfg : SimConfig) (sim : MarketSimulator) (args : Args) : prog Z :=
  r ← lift (parse_host_port (arg_str "udp" "" args) "" 0);
  let '(parsed, host, port) := (r : bool * string * Z) in
  if negb parsed then print Stderr "bad --udp HOST:PORT\n" [];; mret 2 else
  r ← udp_open inet_pton host port new_udp_sender;
  let '(opened, sender) := (r : bool * UdpSender) in
  if negb opened then
    print Stderr "udp open failed\n" [];;
    udp_sender_destroy sender;;
    mret 1
  else
    print Stdout "UDP feed -> %s:%u\n" [AStr host; AInt port];;
    r ← sim_drive cfg (datagram_sink sender) sim 0;
    print Stdout "sent %llu datagrams\n" [AInt r.1];;
    udp_sender_destroy sender;;
    mret 0.

Definition feedsim_main (argv : list string) : prog Z :=
  let args := parse_args argv in
  let cfg := sim_config_of args in
  let out := arg_str "out" "" args in
  let use_tcp := arg_has "tcp" args in
  let use_udp := arg_has "udp" args in
  if bool_decide (out = "") && negb use_tcp && negb use_udp then
    print Stderr "usage: mdfh_feedsim [--messages N] [--symbols S] [--seed X]\n                    (--out FILE | --tcp PORT | --udp HOST:PORT)\n" [];;
    mret 2
  else
    sim ← lift (new_simulator cfg (seed_rng (arg_u64 "seed" 42 args)));
    if negb (bool_decide (out = "")) then feedsim_capture cfg sim out
    else if use_tcp then feedsim_tcp cfg sim args
    else feedsim_udp cfg sim args.
End FeedSim.

(** ** mdfh_feedhandler *)

Definition kReceiveBufferSize : nat := Z.to_nat (64 * 1024).

Section FeedHandlerApp.
Context {ndebug : bool} (hash_order : gmap Z OrderBook -> list (Z * OrderBook)).
Context (inet_pton : string -> option Z).
Notation Feed := (FeedHandler (BookBuilder ndebug)).

(** The feed handler owns the builder it was constructed on. *)
Definition print_summary (feed : Feed) : prog unit :=
  let s := tr_stats (fh_seq feed) in
  let manager := bb_manager (fh_down feed) in
  print Stdout "=== feed handler summary ===\n" [];;
  print Stdout "forwarded/dropped/malformed : %llu / %llu / %llu\n"
    [AInt (fh_forwarded feed); AInt (fh_dropped feed); AInt (fh_malformed feed)];;
  print Stdout "seq in/dup/ooo/gap/missing  : %llu / %llu / %llu / %llu / %llu\n"
    [AInt (st_in_order s); AInt (st_duplicates s); AInt (st_out_of_order s); AInt (st_gap_events s);
     AInt (st_missing s)];;
  print Stdout "symbols                     : %zu\n" [AInt (Z.of_nat (symbol_count manager))];;
  ok ← lift (check_all_invariants hash_order manager);
  print Stdout "book invariants             : %s\n" [AStr (if ok : bool then "OK" else "VIOLATED")];;
  fp ← lift (book_fingerprint hash_order manager);
  print Stdout "book fingerprint            : %016llx\n" [AInt fp].

(** Read until the peer closes or an error. *)
Definition tcp_receive_step (fd : Z) (st : list byte * Feed) : prog (list byte * Feed + Feed) :=
  let '(buf, feed) := st in
  r ← recv_some fd buf;
  let '(n, buf) := (r : Z * list byte) in
  if n <=? 0 then mret (inr feed) else
  span ← lift (subspan buf 0 (Z.to_nat n));
  r ← lift (consume span feed);
  mret (inl (buf, r.1)).
Definition tcp_receive (fd : Z) (feed : Feed) : prog Feed :=
  ITree.iter (tcp_receive_step fd) (replicate kReceiveBufferSize Byte.x00, feed).

(** Read until a timeout or an error. *)
Definition udp_receive_step (rx : UdpReceiver) (st : list byte * Feed) : prog (list byte * Feed + Feed) :=
  let '(buf, feed) := st in
  r ← udp_recv buf rx;
  let '(n, buf) := (r : Z * list byte) in
  if n <=? 0 then mret (inr feed) else
  span ← lift (subspan buf 0 (Z.to_nat n));
  r ← lift (consume_datagram span feed);
  mret (inl (buf, r.1)).
Definition udp_receive (rx : UdpReceiver) (feed : Feed) : prog Feed :=
  ITree.iter (udp_receive_step rx) (replicate kReceiveBufferSize Byte.x00, feed).

Definition feedhandler_tcp (args : Args) (feed : Feed) : prog Z :=
  r ← lift (parse_host_port (arg_str "tcp" "" args) "" 0);
  let '(parsed, host, port) := (r : bool * string * Z) in
  if negb parsed then print Stderr "bad --tcp HOST:PORT\n" [];; mret 2 else
  r ← tcp_connect inet_pton host port no_socket;
  let '(connected, client) := (r : bool * Socket) in
  if negb connected then
    print Stderr "connect failed\n" [];;
    sock_destroy client;;
    mret 1
  else
    print Stdout "connected to %s:%u\n" [AStr host; AInt port];;
    feed ← tcp_receive (sock_fd client) feed;
    print_summary feed;;
    sock_destroy client;;
    mret 0.

Definition feedhandler_udp (args : Args) (feed : Feed) : prog Z :=
  let port := wrap 16 (arg_u64 "udp" 0 args) in
  let idle_ms := to_signed 32 (arg_u64 "idle-ms" 2000 args) in
  r ← udp_bind port new_udp_receiver;
  let '(bound, rx) := (r : bool * UdpReceiver) in
  if negb bound then
    print Stderr "bind failed\n" [];;
    udp_receiver_destroy rx;;
    mret 1
  else
    set_recv_timeout_ms idle_ms rx;;
    print Stdout "listening UDP on 127.0.0.1:%u (idle timeout %d ms)\n" [AInt (rx_port rx); AInt idle_ms];;
    feed ← udp_receive rx feed;
    print_summary feed;;
    udp_receiver_destroy rx;;
    mret 0.

Definition feedhandler_main (argv : list string) : prog Z :=
  let args := parse_args argv in
  let feed : Feed := new_feed (new_builder ndebug) in
  if arg_has "tcp" args then feedhandler_tcp args feed
  else if arg_has "udp" args then feedhandler_udp args feed
  else
    print Stderr "usage: mdfh_feedhandler (--tcp HOST:PORT | --udp PORT)\n" [];;
    mret 2.
End FeedHandlerApp.

(** ** mdfh_replay *)

Section ReplayApp.
Context {ndebug : bool} (hash_order : gmap Z OrderBook -> list (Z * OrderBook)).
Context (sys : Stdio) (stod : string -> option spec_float).

Definition replay_config (args : Args) : ReplayConfig :=
  let mode := arg_str "mode" "max" args in
  mkReplayConfig
    (if bool_decide (mode = "realtime") then Realtime
     else if bool_decide (mode = "accel") then Accelerated else MaxSpeed)
    (arg_f64 stod "speed" (double_of_Z 10) args).

(** [bb ? std::to_string(price_to_double(bb->price)).c_str() : "-"] and
    [bb ? bb->quantity : 0]. *)
Definition top_price_arg (o : option LevelView) : Arg :=
  match o with Some lv => AToString (price_to_double (lv_price lv)) | None => AStr "-" end.
Definition top_quantity_arg (o : option LevelView) : Arg :=
  AInt (match o with Some lv => lv_quantity lv | None => 0 end).

Definition print_top_of_book (sym : SymbolId) (bk : OrderBook) : prog unit :=
  print Stdout "  sym %u: bid %s x%u | ask %s x%u | levels %zu/%zu\n"
    [AInt sym; top_price_arg (best_bid bk); top_quantity_arg (best_bid bk);
     top_price_arg (best_ask bk); top_quantity_arg (best_ask bk);
     AInt (Z.of_nat (bid_levels bk)); AInt (Z.of_nat (ask_levels bk))].

(** [for_each] with the printing lambda. *)
Fixpoint print_books (l : list (SymbolId * OrderBook)) : prog unit :=
  match l with
  | [] => mret tt
  | (sym, bk) :: l' => print_top_of_book sym bk;; print_books l'
  end.

(** The clock readings of [replay]: the start of the timed path, and the
    elapsed seconds. *)
Definition replay_main (start_wall : Z) (wall : spec_float) (argv : list string) : prog Z :=
  let args := parse_args argv in
  let path := arg_str "in" "" args in
  if bool_decide (path = "") then print Stderr "usage: mdfh_replay --in FILE [--mode ...]\n" [];; mret 2 else
  d ← call FilesGet;
  r ← lift (cr_open sys path new_reader d);
  let '(opened, reader) := (r : bool * CaptureReader) in
  if negb opened then
    print Stderr "cannot read capture: %s\n" [AStr (cr_error reader)];;
    mret 1
  else
    r ← lift (replay (cr_bytes reader) (replay_config args) start_wall wall
                (new_driver (new_builder ndebug)));
    let '(driver, result) := (r : FeedHandler (BookBuilder ndebug) * ReplayResult) in
    let manager := bb_manager (fh_down driver) in
    let s := rr_seq result in
    print Stdout "=== replay complete ===\n" [];;
    print Stdout "messages parsed : %llu\n" [AInt (rr_messages_parsed result)];;
    print Stdout "malformed       : %llu\n" [AInt (rr_malformed result)];;
    print Stdout "forwarded/drop  : %llu / %llu\n" [AInt (rr_forwarded result); AInt (rr_dropped result)];;
    print Stdout "seq in/dup/ooo/gap : %llu / %llu / %llu / %llu (missing %llu)\n"
      [AInt (st_in_order s); AInt (st_duplicates s); AInt (st_out_of_order s); AInt (st_gap_events s);
       AInt (st_missing s)];;
    print Stdout "symbols         : %zu\n" [AInt (Z.of_nat (symbol_count manager))];;
    ok ← lift (check_all_invariants hash_order manager);
    print Stdout "book invariants : %s\n" [AStr (if ok : bool then "OK" else "VIOLATED")];;
    fp ← lift (book_fingerprint hash_order manager);
    print Stdout "book fingerprint: %016llx\n" [AInt fp];;
    print Stdout "wall seconds    : %.4f\n" [ADouble (rr_wall_seconds result)];;
    print_books (hash_order manager);;
    mret 0.
End ReplayApp.
