(* ===== verification/AppProofs.v ===== *)
(** The loops of the programs: what receiving and streaming do against every
    kernel Kernel allows, and the lines the summary prints. *)
From ITree Require Import ITree.
From stdpp Require Import strings.
From Stdlib Require Import SpecFloat.
From S2P Require Import Prelude Doubles ByteOrder Protocol Prices Serialization Parser.
From S2P Require Import SequenceTracker.
From S2P Require Import FeedHandler OrderedMap OrderBook BookSpec BookTheorems BookBuilder.
From S2P Require Import EndToEnd Replay.
From S2P Require Import WireTheorems Capture Simulator SimulatorProofs SimulatorTheorems.
From S2P Require Import Kernel Net Args Apps.

Local Open Scope Z_scope.

(** ** Segments one at a time *)

Section Segments.
Context {Down : Type} `{HandlerLike Down}.
Implicit Types (fh : FeedHandler Down).

Lemma consume_all_snoc chunks c fh fh' n m r :
  consume_all chunks fh = Ok (fh', (n, m)) -> consume c fh' = Ok r ->
  consume_all (chunks ++ [c]) fh = Ok (r.1, (n + pr_messages r.2, m + pr_malformed r.2)%nat).
Proof.
  revert fh n m; induction chunks as [|b chunks IH]; intros fh n m.
  - cbn [consume_all app]. intros [= -> <- <-] E. rewrite E, bind_ok. destruct r. by rewrite bind_ok, !Nat.add_0_r.
  - cbn [consume_all app]. intros ([f p] & Eb & Hrest)%bind_Ok_inv E.
    apply bind_Ok_inv in Hrest as ([g [x y]] & Er & [= <- <- <-]).
    rewrite Eb, bind_ok, (IH f x y Er E), bind_ok. cbn [fst snd]. by rewrite !Nat.add_assoc.
Qed.

Lemma consume_all_front chunks c fh r :
  consume_all (chunks ++ [c]) fh = Ok r ->
  exists fh' counts r', consume_all chunks fh = Ok (fh', counts) /\ consume c fh' = Ok r'.
Proof.
  revert fh r; induction chunks as [|b chunks IH]; intros fh r; cbn [consume_all app].
  - intros (r' & Er & _)%bind_Ok_inv. by exists fh, (0, 0)%nat, r'.
  - intros ([f p] & Eb & Hrest)%bind_Ok_inv. apply bind_Ok_inv in Hrest as (s & Es & _).
    destruct (IH f s Es) as (fh' & counts & r' & E & E'). rewrite Eb, bind_ok, E, bind_ok. by eexists _, _, _.
Qed.

(** A handler that survives every way of cutting [bytes]. *)
Definition survives (bytes : list byte) fh : Prop :=
  forall chunks, concat chunks = bytes -> exists r, consume_all chunks fh = Ok r.

Lemma survives_prefix bytes fh chunks c rest :
  survives bytes fh -> bytes = concat chunks ++ c ++ rest ->
  exists fh' counts r, consume_all chunks fh = Ok (fh', counts) /\ consume c fh' = Ok r.
Proof.
  intros Hs E. destruct (Hs ((chunks ++ [c]) ++ [rest])) as [r Hr].
  { rewrite !concat_app. cbn. by rewrite !app_nil_r, <- app_assoc. }
  apply consume_all_front in Hr as (f & counts & r' & Hr & _). by eapply consume_all_front.
Qed.

(** The datagrams received, one after the other. *)
Fixpoint consume_datagrams (ds : list (list byte)) fh : outcome (FeedHandler Down) :=
  match ds with
  | [] => Ok fh
  | d :: ds => r ← consume_datagram d fh; consume_datagrams ds r.1
  end.

Lemma consume_datagrams_app ds ds' fh :
  consume_datagrams (ds ++ ds') fh = (fh' ← consume_datagrams ds fh; consume_datagrams ds' fh').
Proof.
  revert fh; induction ds as [|d ds IH]; intros fh; [done|]. cbn [consume_datagrams app].
  rewrite bind_assoc. apply bind_ext; intros r. apply IH.
Qed.
End Segments.

(** ** Receiving *)

Section Receiving.
Context {faulty ndebug : bool}.
Notation must := (must faulty).
Notation Feed := (FeedHandler (BookBuilder ndebug)).

Lemma receive_buffer_size : Z.of_nat kReceiveBufferSize = 65536.
Proof. by apply Z2Nat.id. Qed.
Lemma receive_buffer_ne : replicate kReceiveBufferSize Byte.x00 <> [].
Proof. intros E%(f_equal length). rewrite length_replicate in E. pose proof receive_buffer_size. cbn [length] in E. lia. Qed.
Lemma receive_take_nil (d : list byte) : take kReceiveBufferSize d = [] -> d = [].
Proof.
  destruct d; [done|]. intros E%(f_equal length). rewrite length_take in E.
  pose proof receive_buffer_size. cbn [length] in E. lia.
Qed.
#[local] Opaque kReceiveBufferSize.

(** The TCP loop ends, at the end of the stream or at an error, having fed the
    handler the stream in order and without a gap. *)
Lemma must_tcp_receive (Q : Feed -> World -> Prop) fd feed w :
  fd ∈ w_open w -> survives (w_incoming w) feed ->
  (forall chunks rest feed' counts w', w_incoming w = concat chunks ++ rest ->
     (faulty = false -> rest = []) -> consume_all chunks feed = Ok (feed', counts) ->
     later (set_incoming rest w) w' -> Q feed' w') ->
  must Q (tcp_receive fd feed) w.
Proof.
  intros Hfd Hsafe HQ. unfold tcp_receive.
  apply (must_iter _ (fun st w1 => st.1 <> [] /\ exists chunks rest counts,
    w_incoming w = concat chunks ++ rest /\ consume_all chunks feed = Ok (st.2, counts) /\
    later (set_incoming rest w) w1) (fun _ w1 => length (w_incoming w1))).
  2:{ split; [exact receive_buffer_ne|]. exists [], (w_incoming w), (0, 0)%nat.
      split_and!; [done|done|]. destruct w. apply later_refl. }
  intros [buf f] w1 [Hbuf (chunks & rest & counts & Hin & Hc & Hw1)]. cbn [fst snd] in *.
  assert (fd ∈ w_open w1 /\ w_incoming w1 = rest) as [Hfd1 Hin1] by (by destruct Hw1 as (? & _ & ->)).
  unfold tcp_receive_step. apply must_bind, must_recv_some; [done|done|..].
  - intros bs rest' w2 Hbs Hlen Hnil Hw2. rewrite Hin1 in Hbs.
    assert (later (set_incoming rest' w) w2) as Hlater.
    { destruct Hw1 as (m & Hm & ->), Hw2 as (k & Hk & ->). exists k. split; [cbn in *; lia|done]. }
    destruct bs as [|b bs].
    { cbn [length]. rewrite (proj2 (Z.leb_le _ _)) by lia. apply must_ret.
      apply (HQ chunks rest f counts); [done|intros _; by rewrite Hbs, Hnil|done|].
      rewrite Hbs. exact Hlater. }
    rewrite (proj2 (Z.leb_gt _ _)) by (cbn [length]; lia). rewrite Nat2Z.id.
    apply must_bind. apply (must_lift _ _ _ _ _ (fill_subspan (b :: bs) buf Hlen)).
    destruct (survives_prefix _ feed chunks (b :: bs) rest' Hsafe ltac:(by rewrite Hin, Hbs))
      as (f' & counts' & r & Hc' & Hr). rewrite Hc in Hc'. injection Hc' as <- <-.
    apply must_bind, (must_lift _ _ _ _ _ Hr). apply must_ret. cbn [fst snd]. split; [split|].
    + intros E%(f_equal length). rewrite fill_length in E by done. by destruct buf.
    + destruct counts as [n m]. exists (chunks ++ [b :: bs]), rest', (n + pr_messages r.2, m + pr_malformed r.2)%nat.
      split_and!; [|exact (consume_all_snoc _ _ _ _ _ _ _ Hc Hr)|done].
      rewrite Hin, Hbs, concat_app. cbn. by rewrite app_nil_r, <- app_assoc.
    + destruct Hw2 as (k & _ & ->). cbn [w_incoming set_patience set_incoming]. rewrite Hin1, Hbs, length_app.
      cbn [length]. lia.
  - intros w2 Hf Hw2. rewrite (proj2 (Z.leb_le _ _)) by lia. apply must_ret.
    apply (HQ chunks rest f counts); [done|by rewrite Hf|done|]. by eapply later_trans.
Qed.

(** The UDP loop: every datagram up to the first failure, or the first empty
    one, is handed over whole (or cut to the buffer). *)
Lemma must_udp_receive (Q : Feed -> World -> Prop) rx feed w :
  sock_fd (rx_sock rx) ∈ w_open w -> w_timeout w = true ->
  (forall ds, ds `prefix_of` map (take kReceiveBufferSize) (w_in_datagrams w) ->
     exists feed', consume_datagrams ds feed = Ok feed') ->
  (forall ds more feed' w', w_in_datagrams w = ds ++ more ->
     (faulty = true \/ (0 < w_patience w)%nat \/ more = [] \/ exists more', more = [] :: more') ->
     consume_datagrams (map (take kReceiveBufferSize) ds) feed = Ok feed' ->
     (exists more', later (set_in_datagrams more' w) w') -> Q feed' w') ->
  must Q (udp_receive rx feed) w.
Proof.
  intros Hfd Htime Hsafe HQ. unfold udp_receive.
  apply (must_iter _ (fun st w1 => length st.1 = kReceiveBufferSize /\ exists ds more,
    w_in_datagrams w = ds ++ more /\
    consume_datagrams (map (take kReceiveBufferSize) ds) feed = Ok st.2 /\
    later (set_in_datagrams more w) w1) (fun _ w1 => length (w_in_datagrams w1))).
  2:{ split; [apply length_replicate|]. exists [], (w_in_datagrams w).
      split_and!; [done|done|]. destruct w. apply later_refl. }
  intros [buf f] w1 [Hbuf (ds & more & Hin & Hc & Hw1)]. cbn [fst snd] in *.
  assert (sock_fd (rx_sock rx) ∈ w_open w1 /\ w_in_datagrams w1 = more /\ w_timeout w1 = true /\
    (w_patience w1 <= w_patience w)%nat) as (Hfd1 & Hin1 & Ht1 & Hp1) by (by destruct Hw1 as (? & ? & ->)).
  unfold udp_receive_step. apply must_bind, must_udp_recv; [done|done|..].
  - intros d more' Hd. rewrite Hin1 in Hd. rewrite Hd in Hin, Hin1, Hw1. rewrite Hbuf.
    assert (length (take kReceiveBufferSize d) <= length buf)%nat as Hlen by (rewrite length_take, Hbuf; lia).
    assert (later (set_in_datagrams more' w) (set_in_datagrams more' w1)) as Hlater.
    { destruct Hw1 as (m & Hm & ->). by exists m. }
    destruct (take kReceiveBufferSize d) as [|b bs] eqn:Ed.
    { cbn [length]. rewrite (proj2 (Z.leb_le _ _)) by lia. apply must_ret.
      apply (HQ ds (d :: more') f); [done| |done|by exists more'].
      right; right; right. exists more'. by rewrite (receive_take_nil d Ed). }
    rewrite (proj2 (Z.leb_gt _ _)) by (cbn [length]; lia). rewrite Nat2Z.id.
    apply must_bind, (must_lift _ _ _ _ _ (fill_subspan (b :: bs) buf Hlen)).
    destruct (Hsafe (map (take kReceiveBufferSize) (ds ++ [d]))) as [f' Hf'].
    { rewrite Hin. exists (map (take kReceiveBufferSize) more'). by rewrite !map_app, <- app_assoc. }
    rewrite map_app, consume_datagrams_app, Hc, bind_ok in Hf'. cbn [map consume_datagrams] in Hf'.
    rewrite Ed in Hf'. apply bind_Ok_inv in Hf' as (r & Hr & [= Hf']).
    apply must_bind, (must_lift _ _ _ _ _ Hr). apply must_ret. cbn [fst snd]. split; [split|].
    + by rewrite fill_length.
    + exists (ds ++ [d]), more'. split_and!; [by rewrite <- app_assoc| |done].
      rewrite map_app, consume_datagrams_app, Hc, bind_ok. cbn [map consume_datagrams].
      by rewrite Ed, Hr.
    + cbn [w_in_datagrams set_in_datagrams]. rewrite Hin1. cbn [length]. lia.
  - intros w2 Hw2 Hwhy. rewrite (proj2 (Z.leb_le _ _)) by lia. apply must_ret.
    apply (HQ ds more f); [done| |done|exists more; by eapply later_trans].
    rewrite Hin1 in Hwhy. destruct Hwhy as [?|[?|?]]; [tauto|tauto|right; left; lia].
Qed.
End Receiving.

(** ** Driving a sink with the simulator's messages *)

Lemma encode_frame_ok p : packet_ok p -> encode_frame p = Ok (packet_bytes p).
Proof.
  intros Hp. pose proof (packet_size_bounds p). unfold encode_frame.
  rewrite encode_packet_fits, bind_ok by (done || (rewrite length_replicate; lia)). cbn [fst snd].
  rewrite subspan_ok by (rewrite length_app, length_packet_bytes by done; lia).
  by rewrite drop_0, take_app_length' by (by rewrite length_packet_bytes).
Qed.

Lemma stream_bytes_app ps qs : stream_bytes (ps ++ qs) = stream_bytes ps ++ stream_bytes qs.
Proof. unfold stream_bytes. by rewrite map_app, concat_app. Qed.
Lemma stream_bytes_one p : stream_bytes [p] = packet_bytes p.
Proof. unfold stream_bytes. cbn. by rewrite app_nil_r. Qed.

Section Driving.
Context {faulty : bool} {Rng : Type} (draw : DistType -> Z -> Z -> Rng -> Z * Rng) (cfg : SimConfig).
Notation must := (must faulty).

(** A run of the generator that produces [ps] drives the sink with [ps]. *)
Lemma must_sim_drive {S} (Inv : list Packet -> S -> World -> Prop) (Q : S * Z -> World -> Prop)
    sink sim s w ps sim' fuel :
  sim_loop draw cfg fuel sim = Ok (ps, sim') -> Inv [] s w ->
  (forall past p rest s w, ps = past ++ p :: rest -> Inv past s w ->
     must (fun s' w' => Inv (past ++ [p]) s' w') (sink p s) w) ->
  (forall s' w', Inv ps s' w' -> Q (s', wrap 64 (Z.of_nat (length ps))) w') ->
  must Q (sim_drive draw cfg sink sim s) w.
Proof.
  intros Hrun Hinit Hstep HQ. unfold sim_drive.
  assert (forall fuel past rest sim s w, ps = past ++ rest -> sim_loop draw cfg fuel sim = Ok (rest, sim') ->
    Inv past s w ->
    must Q (ITree.iter (sim_drive_step draw cfg sink) (sim, s, wrap 64 (Z.of_nat (length past)))) w) as Hloop.
  2:{ by apply (Hloop fuel [] ps). }
  clear -Hstep HQ. intros fuel. induction fuel as [|fuel IH]; intros past rest sim s w Hps Hrun Hinv; [done|].
  cbn [sim_loop] in Hrun. apply bind_Ok_inv in Hrun as ([[m|] sim1] & E & Hrun); cbn [fst snd] in Hrun;
    apply must_iter_unfold; cbn [sim_drive_step]; apply must_bind, (must_lift _ _ _ _ _ E); cbn [fst snd].
  - apply bind_Ok_inv in Hrun as ([rest' sim2] & Hrest & [= <- ->]). cbn [fst snd] in *.
    apply must_bind. eapply must_mono; [by apply (Hstep past _ rest')|].
    intros s' w' Hinv'. apply must_ret. cbn beta iota.
    replace (incr64 (wrap 64 (Z.of_nat (length past)))) with
      (wrap 64 (Z.of_nat (length (past ++ [dispatch_message m])))).
    + apply (IH _ rest'); [by rewrite <- app_assoc|done|done].
    + unfold incr64. rewrite wrap_add_l, length_app. f_equal. cbn. lia.
  - injection Hrun as <- <-. apply must_ret. rewrite app_nil_r in Hps. subst past. by apply HQ.
Qed.

(** Streaming to a connected client: the kernel gets a prefix of the stream,
    the whole of it exactly when [ok] stays true. *)
Lemma must_stream (Q : Z * bool * Z -> World -> Prop) fd sim w ps sim' fuel :
  sim_loop draw cfg fuel sim = Ok (ps, sim') -> Forall packet_ok ps -> fd ∈ w_open w ->
  (forall n ok sent w', later (set_sent (w_sent w ++ sent) w) w' -> (faulty = false -> ok = true) ->
     sent `prefix_of` stream_bytes ps -> (ok = true <-> sent = stream_bytes ps) ->
     (ok = true -> n = wrap 64 (Z.of_nat (length ps))) ->
     Q (n, ok, wrap 64 (Z.of_nat (length ps))) w') ->
  must Q (sim_drive draw cfg (stream_sink fd) sim (0, true)) w.
Proof.
  intros Hrun Hps Hfd HQ.
  apply (must_sim_drive (fun past st w1 => exists sent, later (set_sent (w_sent w ++ sent) w) w1 /\
    (faulty = false -> st.2 = true) /\ sent `prefix_of` stream_bytes past /\
    (st.2 = true <-> sent = stream_bytes past) /\
    (st.2 = true -> st.1 = wrap 64 (Z.of_nat (length past)))) _ _ _ _ _ _ _ _ Hrun).
  - exists []. rewrite app_nil_r. split_and!; try done. destruct w. apply later_refl.
  - intros past p rest [n ok] w1 Ep (sent & Hw1 & Hf & Hpre & Hiff & Hn). cbn [fst snd] in *.
    rewrite Ep in Hps. apply Forall_app in Hps as [_ [Hp _]%Forall_cons].
    pose proof (packet_size_bounds p) as Hsize. rewrite <- (length_packet_bytes p Hp) in Hsize.
    unfold stream_sink. destruct ok; cbn [negb].
    2:{ apply must_ret. exists sent. cbn [fst snd]. rewrite stream_bytes_app.
        split_and!; [done|done|by apply prefix_app_r| |done]. split; [done|].
        intros ->. destruct Hpre as [k Hk]. rewrite stream_bytes_one, <- app_assoc in Hk.
        apply (f_equal length) in Hk. rewrite !length_app in Hk. lia. }
    rewrite (proj1 Hiff eq_refl) in Hw1.
    apply must_bind, (must_lift _ _ _ _ _ (encode_frame_ok p Hp)).
    apply must_bind, must_send_all; [by destruct Hw1 as (? & _ & ->)|].
    intros ok k w2 Hk Hok Hf2 Hw2. apply must_ret. exists (stream_bytes past ++ take k (packet_bytes p)).
    cbn [fst snd]. rewrite stream_bytes_app, stream_bytes_one, length_app. split_and!; [|done| | |].
    + destruct Hw1 as (m & Hm & ->), Hw2 as (m' & Hm' & ->). exists m'. cbn in *.
      split; [lia|]. by rewrite app_assoc.
    + apply prefix_app, prefix_take.
    + rewrite Hok. split; [intros ->; by rewrite take_ge|]. intros E%app_inv_head.
      apply (f_equal length) in E. rewrite length_take in E. lia.
    + intros Hok'. rewrite (Hn eq_refl). unfold incr64. rewrite wrap_add_l. f_equal. cbn. lia.
  - intros [n ok] w' (sent & Hw' & Hf & Hpre & Hiff & Hn). by apply (HQ n ok sent).
Qed.

(** Datagrams: each message is one, in order; without failures none is
    missing. *)
Lemma must_send_datagrams (Q : Z * Z -> World -> Prop) tx sim w ps sim' fuel :
  sim_loop draw cfg fuel sim = Ok (ps, sim') -> Forall packet_ok ps -> sock_fd (tx_sock tx) ∈ w_open w ->
  (forall n sent w', later (set_sent_datagrams (w_sent_datagrams w ++ sent) w) w' ->
     sent `sublist_of` map packet_bytes ps ->
     (faulty = false -> w_patience w = 0%nat -> sent = map packet_bytes ps) ->
     Q (wrap 64 (Z.of_nat (length ps)), n) w') ->
  must Q (sim_drive draw cfg (datagram_sink tx) sim 0) w.
Proof.
  intros Hrun Hps Hfd HQ.
  apply (must_sim_drive (fun past n w1 => exists sent,
    later (set_sent_datagrams (w_sent_datagrams w ++ sent) w) w1 /\
    sent `sublist_of` map packet_bytes past /\
    (faulty = false -> w_patience w = 0%nat -> sent = map packet_bytes past) /\
    n = wrap 64 (Z.of_nat (length past))) _ _ _ _ _ _ _ _ Hrun).
  - exists []. rewrite app_nil_r. split_and!; try done. destruct w. apply later_refl.
  - intros past p rest n w1 Ep (sent & Hw1 & Hsub & Hall & ->).
    rewrite Ep in Hps. apply Forall_app in Hps as [_ [Hp _]%Forall_cons]. unfold datagram_sink.
    assert (incr64 (wrap 64 (Z.of_nat (length past))) = wrap 64 (Z.of_nat (length (past ++ [p])))) as Hcount.
    { unfold incr64. rewrite wrap_add_l, length_app. f_equal. cbn. lia. }
    apply must_bind, (must_lift _ _ _ _ _ (encode_frame_ok p Hp)).
    rewrite map_app. destruct Hw1 as (m & Hm & ->). cbn in Hm.
    apply must_bind, must_udp_send; [done| |].
    + apply must_ret. exists (sent ++ [packet_bytes p]). split_and!; [|by apply sublist_app| |done].
      * exists m. cbn. split; [done|]. by rewrite app_assoc.
      * intros Hf Hpat. by rewrite Hall.
    + intros w2 (m' & Hm' & ->) Hwhy. apply must_ret. cbn in Hm', Hwhy. exists sent. split_and!; [| | |done].
      * exists m'. cbn. split; [lia|done].
      * by apply sublist_inserts_r.
      * intros Hf Hpat. destruct Hwhy as [Hf'|?]; [by rewrite Hf in Hf'|lia].
  - intros n w' (sent & Hw' & Hsub & Hall & ->). by apply (HQ _ sent).
Qed.
End Driving.

(** ** Writing a capture *)

Lemma cw_write_all_app sys ps qs w d :
  cw_write_all sys (ps ++ qs) w d =
  (r ← cw_write_all sys ps w d; r' ← cw_write_all sys qs r.1.2 r.2;
   Ok (r.1.1 ++ r'.1.1, r'.1.2, r'.2)).
Proof.
  revert w d; induction ps as [|p ps IH]; intros w d; cbn [app cw_write_all].
  - rewrite bind_ok. cbn [fst snd app]. destruct (cw_write_all sys qs w d) as [[[? ?] ?]| | |]; done.
  - rewrite bind_assoc. apply bind_ext; intros [[b w1] d1]. cbn [fst snd]. rewrite IH, !bind_assoc.
    apply bind_ext; intros [[bs w2] d2]. cbn [fst snd]. rewrite !bind_assoc, bind_ok. cbn [fst snd].
    apply bind_ext; intros [[bs' w3] d3]. by rewrite bind_ok.
Qed.

Lemma set_files_same w : set_files (w_files w) w = w.
Proof. by destruct w. Qed.

Section Capturing.
Context {faulty : bool} {Rng : Type} (draw : DistType -> Z -> Z -> Rng -> Z * Rng) (cfg : SimConfig).
Context (sys : Stdio).
Notation must := (must faulty).

(** Writing a run to an open capture is [cw_write_all]. *)
Lemma must_capture (Q : CaptureWriter * Z -> World -> Prop) sim wr w ps sim' fuel bs wr' d' :
  sim_loop draw cfg fuel sim = Ok (ps, sim') -> cw_write_all sys ps wr (w_files w) = Ok (bs, wr', d') ->
  Q (wr', wrap 64 (Z.of_nat (length ps))) (set_files d' w) ->
  must Q (sim_drive draw cfg (capture_sink sys) sim wr) w.
Proof.
  intros Hrun Hall HQ.
  apply (must_sim_drive draw cfg (fun past wr1 w1 => exists bs1 d1,
    cw_write_all sys past wr (w_files w) = Ok (bs1, wr1, d1) /\ w1 = set_files d1 w)
    _ _ _ _ _ _ _ _ Hrun).
  - exists [], (w_files w). by rewrite set_files_same.
  - intros past p rest wr1 w1 Ep (bs1 & d1 & E & ->).
    assert (exists b wr2 d2, cw_write sys p wr1 d1 = Ok (b, wr2, d2)) as (b & wr2 & d2 & Ew).
    { rewrite Ep, cw_write_all_app, E, bind_ok in Hall. cbn [fst snd cw_write_all] in Hall.
      apply bind_Ok_inv in Hall as (r & Hr & _). apply bind_Ok_inv in Hr as ([[b wr2] d2] & Ew & _).
      by exists b, wr2, d2. }
    unfold capture_sink. apply must_bind, (must_files _ _ _ _ (set_files d1 w) Ew). apply must_ret.
    exists (bs1 ++ [b]), d2. split; [|done].
    rewrite cw_write_all_app, E, bind_ok. cbn [fst snd cw_write_all]. by rewrite Ew, !bind_ok.
  - intros wr2 w2 (bs2 & d2 & E & ->). rewrite E in Hall. by injection Hall as -> -> ->.
Qed.
End Capturing.

(** ** What is printed *)

Definition summary_lines {ndebug} (feed : FeedHandler (BookBuilder ndebug)) (ok : bool) (fp : Z) : list Output :=
  let s := tr_stats (fh_seq feed) in
  [mkOutput Stdout "=== feed handler summary ===\n" [];
   mkOutput Stdout "forwarded/dropped/malformed : %llu / %llu / %llu\n"
     [AInt (fh_forwarded feed); AInt (fh_dropped feed); AInt (fh_malformed feed)];
   mkOutput Stdout "seq in/dup/ooo/gap/missing  : %llu / %llu / %llu / %llu / %llu\n"
     [AInt (st_in_order s); AInt (st_duplicates s); AInt (st_out_of_order s); AInt (st_gap_events s);
      AInt (st_missing s)];
   mkOutput Stdout "symbols                     : %zu\n"
     [AInt (Z.of_nat (symbol_count (bb_manager (fh_down feed))))];
   mkOutput Stdout "book invariants             : %s\n" [AStr (if ok then "OK" else "VIOLATED")];
   mkOutput Stdout "book fingerprint            : %016llx\n" [AInt fp]]%string.

Definition prints (l : list Output) (w : World) : World := set_printed (w_printed w ++ l) w.

Lemma prints_one o w : add_output o w = prints [o] w.
Proof. done. Qed.
Lemma prints_prints l1 l2 w : prints l2 (prints l1 w) = prints (l1 ++ l2) w.
Proof. unfold prints. cbn. by rewrite app_assoc. Qed.
Lemma prints_nil w : prints [] w = w.
Proof. unfold prints. rewrite app_nil_r. by destruct w. Qed.

Section Printing.
Context {faulty ndebug : bool} (hash_order : gmap Z OrderBook -> list (Z * OrderBook)).
Hypothesis Hperm : forall m, hash_order m ≡ₚ map_to_list m.
Notation must := (must faulty).
Notation Feed := (FeedHandler (BookBuilder ndebug)).

Lemma must_print_summary (Q : unit -> World -> Prop) (feed : Feed) ok fp w :
  check_all_invariants hash_order (bb_manager (fh_down feed)) = Ok ok ->
  book_fingerprint hash_order (bb_manager (fh_down feed)) = Ok fp ->
  Q tt (prints (summary_lines feed ok fp) w) -> must Q (print_summary hash_order feed) w.
Proof.
  intros Hok Hfp HQ. unfold print_summary. cbv zeta.
  do 4 apply must_bind, must_print. apply must_bind, (must_lift _ _ _ _ _ Hok).
  apply must_bind, must_print. apply must_bind, (must_lift _ _ _ _ _ Hfp). apply must_print.
  by rewrite !prints_one, !prints_prints.
Qed.

(** Books that represent a specified state can be summarised. *)
Lemma summary_defined m S :
  manager_state m S ->
  exists ok, check_all_invariants hash_order m = Ok ok /\
    (ok = true <-> forall symbol l, S !! symbol = Some l -> ~ crossed l) /\
    book_fingerprint hash_order m = Ok (spec_fingerprint S).
Proof.
  intros Hm. destruct (check_all_invariants_decides hash_order m S (Hperm m) Hm) as (ok & E & Hok).
  exists ok. split; [done|]. split; [done|]. by apply book_fingerprint_spec.
Qed.

Lemma must_print_books (Q : unit -> World -> Prop) l w :
  (forall lines, length lines = length l -> Q tt (prints lines w)) -> must Q (print_books l) w.
Proof.
  revert w; induction l as [|[sym bk] l IH]; intros w HQ; cbn [print_books].
  - apply must_ret. rewrite <- (prints_nil w). by apply HQ.
  - apply must_bind, must_print, IH. intros lines Hlen. rewrite prints_one, prints_prints.
    apply HQ. cbn. by rewrite Hlen.
Qed.
End Printing.

(** ** What the books become *)

(** A feed that never crosses a book leaves none crossed. *)
Lemma never_crosses_books evs s :
  never_crosses evs s -> (forall symbol l, s.1 !! symbol = Some l -> ~ crossed l) ->
  forall symbol l, (spec_events evs s).1 !! symbol = Some l -> ~ crossed l.
Proof.
  revert s; induction evs as [|ev evs IH]; intros s; [done|]. cbn [never_crosses spec_events].
  intros [Hx Hn] Hs. apply IH; [done|]. intros symbol l. unfold spec_event, crosses in *.
  destruct (event_op ev) as [[sym op]|]; [|apply Hs]. cbn [fst].
  intros [[<- <-]|[_ Hl]]%lookup_insert_Some; [done|by eapply Hs].
Qed.

Section Datagrams.
Context {ndebug : bool}.
Implicit Types (fh : FeedHandler (BookBuilder ndebug)).

(** The events of datagrams, each scanned on its own. *)
Definition datagram_events (ds : list (list byte)) : list Event := concat (map (fun d => sc_events (scan_at 0 d)) ds).

Lemma datagram_events_ok ds : Forall event_ok (datagram_events ds).
Proof.
  induction ds as [|d ds IH]; [constructor|]. unfold datagram_events in *. cbn [map concat].
  apply Forall_app. split; [apply scan_events_ok|exact IH].
Qed.

Lemma consume_datagrams_spec ds fh :
  in_unsigned 64 (fh_malformed fh) ->
  consume_datagrams ds fh =
  (fh' ← deliver_all (datagram_events ds) fh;
   Ok (set_pending (fh_residual fh) (add64 (fh_malformed fh) (Z.of_nat (bad_count (datagram_events ds)))) fh')).
Proof.
  revert fh; induction ds as [|d ds IH]; intros fh Hm.
  { cbn. rewrite add64_0 by done. by destruct fh. }
  unfold datagram_events in *. cbn [consume_datagrams map concat].
  rewrite consume_datagram_spec, deliver_all_app, !bind_assoc.
  destruct (deliver_all (sc_events (scan_at 0 d)) fh) as [fh1| | |] eqn:E; [|done..].
  apply deliver_all_keeps in E. rewrite !bind_ok. cbn [fst].
  change (accumulate ?r fh1) with (set_pending (fh_residual fh1) (add64 (fh_malformed fh1) (Z.of_nat (pr_malformed r))) fh1).
  rewrite IH by apply add64_range. rewrite deliver_all_pending, bind_assoc. apply bind_ext; intros fh2. rewrite bind_ok.
  cbn [fh_residual fh_malformed set_pending]. rewrite add64_add, <- Nat2Z.inj_add, E. cbn [fh_residual fh_malformed set_pending].
  unfold bad_count. by rewrite filter_length_app.
Qed.

Lemma scan_packet p : packet_ok p -> scan_at 0 (packet_bytes p) = mkScanned [packet_event p] (packet_size p) StopShort.
Proof.
  intros Hp. rewrite <- stream_bytes_one, (scan_stream_all [p] 0) by by constructor.
  by rewrite stream_bytes_one, length_packet_bytes.
Qed.

(** Datagrams of one message each deliver their messages. *)
Lemma consume_packets qs fh :
  Forall packet_ok qs -> in_unsigned 64 (fh_malformed fh) ->
  consume_datagrams (map packet_bytes qs) fh = deliver_all (map packet_event qs) fh.
Proof.
  intros Hqs. revert fh; induction Hqs as [|p qs Hp _ IH]; intros fh Hm; [done|].
  cbn [map consume_datagrams deliver_all]. rewrite consume_datagram_spec, scan_packet, bind_assoc by done.
  change (deliver_all (sc_events (mkScanned [packet_event p] (packet_size p) StopShort)) fh)
    with (fh1 ← deliver (packet_event p) fh; Ok fh1).
  rewrite bind_assoc. destruct (deliver (packet_event p) fh) as [fh1| | |] eqn:E; try done.
  rewrite !bind_ok. cbn [fst].
  assert (fh_malformed fh1 = fh_malformed fh) as Hm1.
  { assert (deliver_all [packet_event p] fh = Ok fh1) as Eall by (cbn; by rewrite E).
    apply deliver_all_keeps in Eall. by rewrite Eall. }
  assert (accumulate (scan_result (mkScanned [packet_event p] (packet_size p) StopShort)) fh1 = fh1) as ->.
  { change [packet_event p] with (map packet_event [p]). rewrite packet_scan_result by by constructor.
    unfold accumulate. cbn [pr_malformed]. rewrite add64_0 by by rewrite Hm1. by destruct fh1. }
  apply IH. by rewrite Hm1.
Qed.

(** Datagrams of any bytes, on either build. *)
Lemma datagrams_received ds :
  let fwd := forwarded_events (datagram_events ds) new_tracker in
  ((ndebug = true \/ never_crosses fwd (∅, no_stats)) /\
   exists fh, consume_datagrams ds (new_feed (new_builder ndebug)) = Ok fh /\ received (datagram_events ds) fh) \/
  (ndebug = false /\ ~ never_crosses fwd (∅, no_stats) /\
   consume_datagrams ds (new_feed (new_builder ndebug)) = Abort).
Proof.
  cbn zeta. rewrite consume_datagrams_spec by (split; cbn; lia). cbn [fh_residual fh_malformed new_feed].
  destruct (events_received (ndebug := ndebug) (datagram_events ds) (datagram_events_ok _))
    as [[Hwhy (fh & E & Hfh)]|(-> & Hx & E)]; [left|right; by rewrite E].
  split; [done|]. rewrite E, bind_ok. by eexists.
Qed.

Lemma consume_datagram_books d fh s :
  counters_ok fh -> builder_state (fh_down fh) s -> checked (fh_down fh) = false ->
  exists fh' r s', consume_datagram d fh = Ok (fh', r) /\ counters_ok fh' /\
    builder_state (fh_down fh') s' /\ checked (fh_down fh') = false.
Proof.
  intros Hc Hbb Hch. rewrite consume_datagram_spec, deliver_all_feed by done.
  destruct (deliver_all_unchecked (forwarded_events (sc_events (scan_at 0 d)) (fh_seq fh)) _ s
    (forwarded_events_ok _ _ (scan_events_ok 0 _)) Hbb Hch) as (bb & E & Hbb' & Hch').
  rewrite E, !bind_ok. eexists _, _, _. split; [reflexivity|]. split; [|by split].
  split_and!; apply add64_range || apply Hc.
Qed.
End Datagrams.

Lemma length_observe_all seqs t : length (observe_all seqs t).1 = length seqs.
Proof. revert t; induction seqs as [|x seqs IH]; intros t; [done|]. cbn. by rewrite IH. Qed.

Lemma count_accepted_rejected sts : (count_accepted sts + count_rejected sts)%nat = length sts.
Proof.
  unfold count_accepted, count_rejected. induction sts as [|st sts IH]; [done|].
  rewrite !filter_cons. cbn [length]. destruct (accepted st) eqn:E; repeat case_decide; cbn [length]; try congruence; lia.
Qed.

(** Received messages, with repetitions, losses and reordering: a new feed
    forwards the accepted ones and counts the others. *)
Lemma packets_received qs :
  Forall packet_ok qs ->
  exists fh, consume_datagrams (map packet_bytes qs) (new_feed (new_builder true)) = Ok fh /\
    builder_state (fh_down fh) (spec_events (forwarded_events (map packet_event qs) new_tracker) (∅, no_stats)) /\
    (exists f d, fh_forwarded fh = wrap 64 (Z.of_nat f) /\ fh_dropped fh = wrap 64 (Z.of_nat d) /\
       (f + d)%nat = length qs /\ f = length (accepted_seqs (map pk_seq qs) new_tracker)) /\
    fh_malformed fh = 0.
Proof.
  intros Hqs. rewrite consume_packets; [|done|by split].
  rewrite deliver_all_feed by apply counters_new. cbn [fh_seq fh_down new_feed].
  destruct (deliver_all_unchecked (forwarded_events (map packet_event qs) new_tracker) (new_builder true)
    (∅, no_stats)) as (bb & E & Hbb & _);
    [apply forwarded_events_ok, packet_events_ok; done|apply builder_state_new|done|].
  rewrite E, bind_ok. eexists. split; [reflexivity|]. split; [exact Hbb|]. split; [|done].
  cbn [fh_forwarded fh_dropped after_events new_feed fh_seq]. rewrite packet_event_seqs by done.
  eexists _, _. split; [reflexivity|]. split; [reflexivity|]. split.
  - by rewrite count_accepted_rejected, length_observe_all, length_map.
  - clear. generalize new_tracker. induction (map pk_seq qs) as [|x l IH]; intros t; [done|].
    cbn [observe_all fst accepted_seqs]. unfold count_accepted in *. rewrite filter_cons.
    destruct (accepted (observe x t).1) eqn:Ea; case_decide; try congruence; cbn [app length]; by rewrite IH.
Qed.


(** *** Lines of a run without losses *)

(** What is printed after [n] messages, none lost, that build the books [S]. *)
Definition gap_free_lines (n : Z) (S : gmap Z (list Order)) : list Output :=
  [mkOutput Stdout "=== feed handler summary ===\n" [];
   mkOutput Stdout "forwarded/dropped/malformed : %llu / %llu / %llu\n" [AInt n; AInt 0; AInt 0];
   mkOutput Stdout "seq in/dup/ooo/gap/missing  : %llu / %llu / %llu / %llu / %llu\n"
     [AInt n; AInt 0; AInt 0; AInt 0; AInt 0];
   mkOutput Stdout "symbols                     : %zu\n" [AInt (Z.of_nat (size S))];
   mkOutput Stdout "book invariants             : %s\n" [AStr "OK"];
   mkOutput Stdout "book fingerprint            : %016llx\n" [AInt (spec_fingerprint S)]]%string.

Definition replay_lines (n : Z) (S : gmap Z (list Order)) (wall : spec_float) : list Output :=
  [mkOutput Stdout "=== replay complete ===\n" [];
   mkOutput Stdout "messages parsed : %llu\n" [AInt n];
   mkOutput Stdout "malformed       : %llu\n" [AInt 0];
   mkOutput Stdout "forwarded/drop  : %llu / %llu\n" [AInt n; AInt 0];
   mkOutput Stdout "seq in/dup/ooo/gap : %llu / %llu / %llu / %llu (missing %llu)\n"
     [AInt n; AInt 0; AInt 0; AInt 0; AInt 0];
   mkOutput Stdout "symbols         : %zu\n" [AInt (Z.of_nat (size S))];
   mkOutput Stdout "book invariants : %s\n" [AStr "OK"];
   mkOutput Stdout "book fingerprint: %016llx\n" [AInt (spec_fingerprint S)];
   mkOutput Stdout "wall seconds    : %.4f\n" [ADouble wall]]%string.

(** A stream that never crosses a book, consumed by either build in any
    segments, has the summary one expects. *)
Lemma stream_summary {ndebug} (hash_order : gmap Z OrderBook -> list (Z * OrderBook)) chunks ps seq :
  (forall m, hash_order m ≡ₚ map_to_list m) ->
  Forall packet_ok ps -> consecutive seq (map pk_seq ps) -> Z.of_nat (length ps) < 2 ^ 64 ->
  never_crosses (map packet_event ps) (∅, no_stats) -> concat chunks = stream_bytes ps ->
  let S := (spec_events (map packet_event ps) (∅, no_stats)).1 in
  exists fh : FeedHandler (BookBuilder ndebug),
    consume_all chunks (new_feed (new_builder ndebug)) = Ok (fh, (length ps, 0%nat)) /\
    check_all_invariants hash_order (bb_manager (fh_down fh)) = Ok true /\
    book_fingerprint hash_order (bb_manager (fh_down fh)) = Ok (spec_fingerprint S) /\
    symbol_count (bb_manager (fh_down fh)) = size S /\
    (fh_forwarded fh = Z.of_nat (length ps) /\ fh_dropped fh = 0 /\ fh_malformed fh = 0) /\
    tr_stats (fh_seq fh) = mkSeqStats (Z.of_nat (length ps)) (Z.of_nat (length ps)) 0 0 0 0 /\
    fh_residual fh = [].
Proof.
  intros Hperm Hps Hseq Hlen Hn Hbytes S.
  destruct (stream_consumed (ndebug := ndebug) chunks ps seq) as (fh & E & [Hm _] & Hf & Hd & Hmal & Hp & Hst);
    [done|done|by right|done|].
  apply length_zero_iff_nil in Hp. rewrite wrap_small in Hf, Hst by (split; lia).
  exists fh. destruct (summary_defined hash_order Hperm _ S Hm) as (ok & Eok & Hok & Efp).
  assert (ok = true) as ->.
  { apply Hok. apply (never_crosses_books _ (∅, no_stats)); [done|]. cbn [fst]. by intros sym l ?%lookup_empty_Some. }
  split_and!; try done. by apply manager_size.
Qed.
