(* ===== verification/AppTheorems.v ===== *)
(** What the three programs do, from their command line to their exit code:
    against every kernel Kernel allows no descriptor is leaked, closed twice or
    used after it was closed, no run crashes or hangs, and the programs together
    carry a simulated feed faithfully over TCP, over UDP and through a file. *)
From ITree Require Import ITree.
From stdpp Require Import strings pretty sorting.
From Stdlib Require Import SpecFloat.
From S2P Require Import Prelude Doubles ByteOrder Protocol Prices Serialization Parser.
From S2P Require Import SequenceTracker.
From S2P Require Import FeedHandler OrderedMap OrderBook BookSpec BookTheorems BookBuilder.
From S2P Require Import EndToEnd Replay.
From S2P Require Import WireTheorems Capture Simulator SimulatorProofs SimulatorTheorems.
From S2P Require Import Kernel Net Args Apps AppProofs.

Local Open Scope Z_scope.

(** ** Configurations from the command line *)

Lemma digits_value_nonneg acc ds : 0 <= acc -> Forall (fun d => 0 <= d) ds -> 0 <= digits_value acc ds.
Proof.
  intros Hacc Hds. revert acc Hacc; induction Hds as [|d ds Hd _ IH]; intros acc Hacc; [done|].
  cbn in Hd. apply (IH (acc * 10 + d)). lia.
Qed.
Lemma leading_digits_nonneg s : Forall (fun d => 0 <= d) (leading_digits s).
Proof.
  induction s as [|c s IH]; [constructor|]. cbn [leading_digits]. destruct (digit c) as [d|] eqn:E; [|constructor].
  constructor; [|done]. unfold digit in E. cbv zeta in E. destruct (_ && _) eqn:Hd in E; [|done].
  injection E as <-. lia.
Qed.

Lemma from_chars_range s v : from_chars s = Some v -> in_unsigned 64 v.
Proof.
  unfold from_chars. pose proof (digits_value_nonneg 0 _ ltac:(lia) (leading_digits_nonneg s)).
  destruct (leading_digits s); [done|]. cbv zeta. destruct (Z.ltb_spec (digits_value 0 (z :: l)) (2 ^ 64)); [|done].
  intros [= <-]. by split.
Qed.

Lemma arg_u64_range k def args : in_unsigned 64 def -> in_unsigned 64 (arg_u64 k def args).
Proof.
  intros Hdef. unfold arg_u64. destruct (args !! k) as [s|]; [|done]. case_bool_decide; [done|].
  destruct (from_chars s) as [v|] eqn:E; [|done]. by eapply from_chars_range.
Qed.

(** The runs the generator is sound for: at most 8,589,933 messages, at least
    one symbol. *)
Definition sim_args_ok (args : Args) : Prop :=
  arg_u64 "messages" 1000000 args <= 8589933 /\ 1 <= wrap 32 (arg_u64 "symbols" 4 args).

Lemma sized_config_ok symbols messages :
  0 <= messages <= 8589933 -> 1 <= wrap 32 symbols -> config_ok (sized_config symbols messages).
Proof.
  intros Hm Hs. pose proof (wrap_range 32 symbols ltac:(lia)) as Hr. unfold in_unsigned in Hr.
  unfold sized_config, default_sim_config. cbv zeta.
  split; cbn [num_symbols num_messages start_price symbol_price_step tick band_levels min_qty max_qty
    ts_start w_add w_cancel w_modify]; unfold top_price, kPriceScale, in_signed, in_unsigned;
    cbn [num_symbols num_messages start_price symbol_price_step tick band_levels];
    change (10000 / 100) with 100; lia.
Qed.

Lemma sim_config_of_ok args : sim_args_ok args -> config_ok (sim_config_of args).
Proof.
  intros [Hm Hs]. apply sized_config_ok; [|done].
  pose proof (arg_u64_range "messages" 1000000 args) as Hu. unfold in_unsigned in Hu. lia.
Qed.

(** ** The same descriptors as before *)

(** Nothing was leaked, closed twice or used when closed. *)
Definition same_fds (w w' : World) : Prop := w_open w' = w_open w /\ w_misuse w' = w_misuse w.

Lemma union_undone (fd : Z) (s : gset Z) : fd ∉ s -> ({[fd]} ∪ s) ∖ {[fd]} = s.
Proof. set_solver. Qed.

Section Programs.
Context {faulty : bool}.
Notation must := (must faulty).

Section FeedHandlerRuns.
Context {ndebug : bool} (hash_order : gmap Z OrderBook -> list (Z * OrderBook)).
Context (inet_pton : string -> option Z).
Notation Feed := (FeedHandler (BookBuilder ndebug)).

(** The summary of [feed] is defined. *)
Definition summarises (feed : Feed) (ok : bool) (fp : Z) : Prop :=
  check_all_invariants hash_order (bb_manager (fh_down feed)) = Ok ok /\
  book_fingerprint hash_order (bb_manager (fh_down feed)) = Ok fp.

Lemma must_feedhandler_tcp (Q : Z -> World -> Prop) args host port (feed : Feed) w :
  parse_host_port (arg_str "tcp" "" args) "" 0 = Ok (true, host, port) ->
  survives (w_incoming w) feed ->
  (forall chunks rest feed' counts, w_incoming w = concat chunks ++ rest ->
     (faulty = false -> rest = []) -> consume_all chunks feed = Ok (feed', counts) ->
     exists ok fp, summarises feed' ok fp) ->
  (forall w', faulty = true \/ inet_pton host = None -> same_fds w w' -> Q 1 w') ->
  (forall chunks rest feed' counts ok fp w', w_incoming w = concat chunks ++ rest ->
     (faulty = false -> rest = []) -> consume_all chunks feed = Ok (feed', counts) ->
     summarises feed' ok fp -> same_fds w w' ->
     w_printed w' = w_printed w ++ mkOutput Stdout "connected to %s:%u\n" [AStr host; AInt port]
                      :: summary_lines feed' ok fp -> Q 0 w') ->
  must Q (feedhandler_tcp hash_order inet_pton args feed) w.
Proof.
  intros Hparse Hsafe Hsum Hbad Hok. unfold feedhandler_tcp. rewrite Hparse.
  apply must_bind, must_ret. cbn [negb].
  apply must_bind, must_tcp_connect.
  - intros fd Hge Hfd _. cbn [negb]. apply must_bind, must_print.
    apply must_bind, must_tcp_receive; [cbn; set_solver|done|].
    intros chunks rest feed' counts w1 Hin Hrest Hc (n & _ & ->). cbn in Hin.
    destruct (Hsum chunks rest feed' counts Hin Hrest Hc) as (ok & fp & Hs).
    apply must_bind, (must_print_summary hash_order _ feed' ok fp); [apply Hs..|].
    apply must_bind, must_destroy; [done|cbn; set_solver|]. apply must_ret.
    apply (Hok chunks rest feed' counts ok fp); [done..| |].
    + split; cbn; [by apply union_undone|done].
    + cbn. by rewrite <- app_assoc.
  - intros Hwhy. cbn [negb]. apply must_bind, must_print. apply must_bind, must_destroy_none.
    apply must_ret. by apply Hbad.
Qed.

Lemma must_feedhandler_udp (Q : Z -> World -> Prop) args (feed : Feed) w :
  1 <= to_signed 32 (arg_u64 "idle-ms" 2000 args) ->
  (forall ds, ds `prefix_of` map (take kReceiveBufferSize) (w_in_datagrams w) ->
     exists feed', consume_datagrams ds feed = Ok feed' /\ exists ok fp, summarises feed' ok fp) ->
  (forall w', faulty = true -> same_fds w w' -> Q 1 w') ->
  (forall ds more feed' ok fp port w', w_in_datagrams w = ds ++ more ->
     (faulty = true \/ (0 < w_patience w)%nat \/ more = [] \/ exists more', more = [] :: more') ->
     consume_datagrams (map (take kReceiveBufferSize) ds) feed = Ok feed' ->
     summarises feed' ok fp -> same_fds w w' ->
     w_printed w' = w_printed w ++
       mkOutput Stdout "listening UDP on 127.0.0.1:%u (idle timeout %d ms)\n"
         [AInt port; AInt (to_signed 32 (arg_u64 "idle-ms" 2000 args))]
       :: summary_lines feed' ok fp -> Q 0 w') ->
  must Q (feedhandler_udp hash_order args feed) w.
Proof.
  intros Hidle Hsafe Hbad Hok. unfold feedhandler_udp. cbv zeta.
  apply must_bind, must_udp_bind.
  - intros fd p Hge Hfd. cbn [negb]. apply must_bind, must_set_timeout; [cbn; set_solver|done|].
    apply must_bind, must_print. apply must_bind, must_udp_receive; [cbn; set_solver|done|..].
    { intros ds Hds. destruct (Hsafe ds Hds) as (feed' & E & _). by exists feed'. }
    intros ds more feed' w1 Hin Hwhy Hc (more' & n & _ & ->). cbn in Hin, Hwhy.
    destruct (Hsafe (map (take kReceiveBufferSize) ds)) as (f & E & ok & fp & Hs).
    { rewrite Hin, map_app. by apply prefix_app_r. }
    rewrite Hc in E. injection E as <-.
    apply must_bind, (must_print_summary hash_order _ feed' ok fp); [apply Hs..|].
    apply must_bind, must_destroy; [done|cbn; set_solver|]. apply must_ret.
    apply (Hok ds more feed' ok fp p); [done..| |].
    + split; cbn; [by apply union_undone|done].
    + cbn. by rewrite <- app_assoc.
  - intros Hf. cbn [negb]. apply must_bind, must_print. apply must_bind, must_destroy_none.
    apply must_ret. by apply Hbad.
Qed.
End FeedHandlerRuns.

Section FeedSimRuns.
Context {Rng : Type} (draw : DistType -> Z -> Z -> Rng -> Z * Rng) (cfg : SimConfig).
Context (inet_pton : string -> option Z) (sim sim' : @MarketSimulator Rng) (ps : list Packet).
Hypothesis Hrun : sim_run draw cfg sim = Ok (ps, sim').
Hypothesis Hps : Forall packet_ok ps.

Definition count_of (ps : list Packet) : Z := wrap 64 (Z.of_nat (length ps)).

Lemma must_feedsim_tcp (Q : Z -> World -> Prop) args w :
  (forall code sent w', same_fds w w' -> w_sent w' = w_sent w ++ sent ->
     sent `prefix_of` stream_bytes ps -> (faulty = false -> code = 0) ->
     (code = 0 /\ sent = stream_bytes ps) \/ code = 1 -> Q code w') ->
  must Q (feedsim_tcp draw cfg sim args) w.
Proof.
  intros HQ. unfold feedsim_tcp. cbv zeta.
  assert (forall w', faulty = true -> same_fds w w' -> w_sent w' = w_sent w -> Q 1 w') as Hbad.
  { intros w' Hf Hfds E. apply (HQ 1 []); [done| |apply prefix_nil|by rewrite Hf|by right].
    by rewrite app_nil_r. }
  apply must_bind, must_tcp_listen.
  2:{ intros Hf. cbn [negb]. apply must_bind, must_print. apply must_bind, must_destroy_none.
      apply must_ret. by apply Hbad. }
  intros lfd p Hge Hlfd. cbn [negb]. apply must_bind, must_print.
  apply must_bind, must_tcp_accept; [cbn; set_solver| |].
  2:{ intros Hf. apply must_bind, must_print. apply must_bind, must_destroy; [done|cbn; set_solver|].
      apply must_ret. apply Hbad; [done| |done]. split; [|done]. cbn. by apply union_undone. }
  intros fd Hgefd Hfd. cbn in Hfd. apply must_bind, must_print.
  apply must_bind, (must_stream draw cfg _ _ _ _ ps _ _ Hrun Hps); [cbn; set_solver|].
  intros n ok sent w1 (k & _ & ->) Hf Hpre Hiff Hn. cbn [fst snd].
  apply must_bind, must_print.
  apply must_bind, must_destroy; [done|cbn; set_solver|].
  apply must_bind, must_destroy; [done|cbn; set_solver|]. apply must_ret.
  apply (HQ _ sent); [| |done| |].
  - split; [|done]. cbn. clear -Hfd Hlfd. apply leibniz_equiv. set_solver.
  - done.
  - intros Hff. by rewrite Hf.
  - destruct ok; [left; split; [done|by apply Hiff]|by right].
Qed.

Lemma must_feedsim_udp (Q : Z -> World -> Prop) args host port w :
  parse_host_port (arg_str "udp" "" args) "" 0 = Ok (true, host, port) ->
  (forall w', faulty = true \/ inet_pton host = None -> same_fds w w' -> Q 1 w') ->
  (forall sent w', same_fds w w' -> w_sent_datagrams w' = w_sent_datagrams w ++ sent ->
     sent `sublist_of` map packet_bytes ps ->
     (faulty = false -> w_patience w = 0%nat -> sent = map packet_bytes ps) -> Q 0 w') ->
  must Q (feedsim_udp draw inet_pton cfg sim args) w.
Proof.
  intros Hparse Hbad Hok. unfold feedsim_udp. rewrite Hparse.
  apply must_bind, must_ret. cbn [negb]. apply must_bind, must_udp_open.
  - intros fd addr Hge Hfd _. cbn [negb]. apply must_bind, must_print.
    apply must_bind, (must_send_datagrams draw cfg _ _ _ _ ps _ _ Hrun Hps); [cbn; set_solver|].
    intros n sent w1 (k & _ & ->) Hsub Hall. apply must_bind, must_print.
    apply must_bind, must_destroy; [done|cbn; set_solver|]. apply must_ret.
    apply (Hok sent); [|done|done|done]. split; [|done]. cbn. by apply union_undone.
  - intros Hwhy. cbn [negb]. apply must_bind, must_print. apply must_bind, must_destroy_none.
    apply must_ret. by apply Hbad.
Qed.

Context (sys : Stdio).

Lemma must_feedsim_capture (Q : Z -> World -> Prop) out w :
  (st_can_create sys out = false \/ (st_room sys < kCaptureHeaderSize)%nat -> forall w', same_fds w w' -> Q 1 w') ->
  (st_can_create sys out = true ->
   forall d' oks, let free := (st_room sys - kCaptureHeaderSize)%nat in
     let count := wrap 64 (Z.of_nat (reported oks)) in
     ((kCaptureHeaderSize <= st_room sys)%nat ->
        take (fits free ps) oks = replicate (fits free ps) true /\
        d' !! out = Some (header_bytes
          (if patches_header sys out (kCaptureHeaderSize + length (stream_bytes ps)) then count else 0) ++
          take free (stream_bytes ps))) -> length oks = length ps ->
     Q 0 (prints [mkOutput Stdout "wrote %llu messages to %s\n" [AInt (count_of ps); AStr out]]
            (set_files d' w))) ->
  must Q (feedsim_capture draw sys cfg sim out) w.
Proof.
  intros Hbad Hok. unfold feedsim_capture.
  destruct (session_runs sys out ps (w_files w) Hps) as (opened & w1 & d1 & E1 & H).
  apply must_bind, (must_files _ _ _ _ w E1). destruct opened; cbn [negb].
  - destruct H as (Hcan & oks & w2 & d2 & w3 & d3 & E2 & Hlen & E3 & Hw3 & Hfile).
    apply must_bind, (must_capture draw cfg sys _ _ _ (set_files d1 w) ps _ _ _ _ _ Hrun E2).
    apply must_bind, (must_files _ _ _ _ (set_files d2 (set_files d1 w)) E3).
    apply must_bind, must_print.
    assert (cw_close sys w3 d3 = Ok (w3, d3)) as E4 by (unfold cw_close; by rewrite Hw3).
    apply must_bind, (must_files _ _ _ _ (add_output _ (set_files d3 _)) E4). apply must_ret.
    apply (Hok Hcan d3 oks); [|done]. intros [Hoks ->]%Hfile. split; [done|]. by rewrite lookup_insert_eq.
  - destruct (cw_close_total sys w1 d1) as (w2 & d2 & E2 & _). apply must_bind, must_print.
    apply must_bind, (must_files _ _ _ _ (add_output _ (set_files d1 w)) E2). apply must_ret.
    by apply Hbad.
Qed.
End FeedSimRuns.
End Programs.

(** ** Sending *)

(** C14: [send_all] against every kernel: whatever it takes of each call, however
    often signals interrupt, the loop ends; the kernel has then taken a prefix
    of the buffer, each byte once and in order, and the whole of it exactly when
    the answer is [true]; without failures the answer is [true]. *)
Theorem send_all_delivers faulty fd data w :
  fd ∈ w_open w ->
  must faulty (fun ok w' => same_fds w w' /\ exists k, (k <= length data)%nat /\
      w_sent w' = w_sent w ++ take k data /\ (ok = true <-> k = length data) /\
      (faulty = false -> ok = true)) (send_all fd data) w.
Proof.
  intros Hfd. apply must_send_all; [done|]. intros ok k w' Hk Hok Hf (n & _ & ->).
  split; [done|]. by exists k.
Qed.

(** A process with one open descriptor and signals pending. *)
Definition demo_world (open : gset Z) : World := mkWorld open false 2 false [] [] [] [] ∅ [].

Lemma send_all_delivers_witness :
  let data := [Byte.x01; Byte.x02; Byte.x03; Byte.x04; Byte.x05] in
  exists fuel ok w', run 2 fuel (send_all 3 data) (demo_world {[3]}) = Some (ok, w') /\
    ok = true /\ w_sent w' = data.
Proof.
  intros data.
  destruct (must_run false 2 ltac:(lia) _ _ _ (send_all_delivers false 3 data (demo_world {[3]}) ltac:(set_solver)))
    as (fuel & ok & w' & Hrun & _ & k & _ & Hsent & Hiff & Hok).
  exists fuel, ok, w'. split; [exact Hrun|]. specialize (Hok eq_refl). split; [exact Hok|].
  rewrite Hsent, (proj1 Hiff Hok). reflexivity.
Defined.

(** ** No leaks, no crashes *)

Definition exit_code (code : Z) : Prop := code = 0 \/ code = 1 \/ code = 2.

Lemma parse_host_port_returns s h p :
  parse_host_port s h p = Abort \/ exists b host port, parse_host_port s h p = Ok (b, host, port).
Proof.
  unfold parse_host_port. destruct (rfind _ s); [|right; by eexists _, _, _]. cbv zeta.
  unfold stoul. destruct (take_sign _) as [neg t]. destruct (leading_digits t); [by left|].
  cbv zeta. destruct (_ <? _); [right; by eexists _, _, _|by left].
Qed.

Section FeedSimTheorems.
Context {Rng : Type} (draw : DistType -> Z -> Z -> Rng -> Z * Rng) (seed_rng : Z -> Rng).
Context (inet_pton : string -> option Z) (sys : Stdio).
Hypothesis draw_range : forall t a b r, a <= b -> a <= (draw t a b r).1 <= b.

(** The run a command line asks for. *)
Definition run_of (args : Args) (ps : list Packet) : Prop :=
  exists sim0 sim, new_simulator (sim_config_of args) (seed_rng (arg_u64 "seed" 42 args)) = Ok sim0 /\
    sim_run draw (sim_config_of args) sim0 = Ok (ps, sim).

Lemma run_exists args :
  sim_args_ok args ->
  exists sim0 ps sim, new_simulator (sim_config_of args) (seed_rng (arg_u64 "seed" 42 args)) = Ok sim0 /\
    sim_run draw (sim_config_of args) sim0 = Ok (ps, sim) /\
    Z.of_nat (length ps) = arg_u64 "messages" 1000000 args /\ Forall packet_ok ps /\
    consecutive 1 (map pk_seq ps) /\ never_crosses (map packet_event ps) (∅, no_stats).
Proof.
  intros Hargs. pose proof (sim_config_of_ok args Hargs) as Hcfg.
  destruct (sim_run_ok draw draw_range _ Hcfg (seed_rng (arg_u64 "seed" 42 args)))
    as (sim0 & ps & sim & E0 & E & Hlen & Hps & Hseq & _ & Hn & _).
  by exists sim0, ps, sim.
Qed.

(** C11: [mdfh_feedsim] against every kernel, with any of its flags and any
    outcome of the calls it makes: the process ends with an exit code of 0, 1 or
    2, it never crashes, waits for ever or runs for ever, and every descriptor
    it opened has been closed exactly once and never used afterwards.  Assumed
    are a configuration the generator is sound for, and a UDP destination whose
    port is a number if that mode is chosen. *)
Theorem feedsim_safe faulty argv w :
  let args := parse_args argv in
  sim_args_ok args ->
  (arg_str "out" "" args = ""%string -> arg_has "tcp" args = false ->
   parse_host_port (arg_str "udp" "" args) "" 0 <> Abort) ->
  must faulty (fun code w' => exit_code code /\ same_fds w w')
    (feedsim_main draw seed_rng inet_pton sys argv) w.
Proof.
  cbv zeta. intros Hargs Hudp. unfold feedsim_main. cbv zeta. set (args := parse_args argv) in *.
  destruct (bool_decide _ && _ && _) eqn:Husage.
  { apply must_bind, must_print, must_ret. split; [by right; right|done]. }
  destruct (run_exists args Hargs) as (sim0 & ps & sim & E0 & Erun & _ & Hps & _ & _).
  apply must_bind, (must_lift _ _ _ _ _ E0).
  destruct (bool_decide (arg_str "out" "" args = ""%string)) eqn:Hout; cbn [negb].
  2:{ eapply (must_feedsim_capture draw _ sim0 sim ps Erun Hps sys).
      - intros _ w' Hw. split; [by right; left|done].
      - intros _ d' oks free count _ _. split; [by left|done]. }
  apply bool_decide_eq_true in Hout.
  destruct (arg_has "tcp" args) eqn:Htcp.
  { eapply (must_feedsim_tcp draw _ sim0 sim ps Erun Hps). intros code sent w' Hw _ _ _ Hcode.
    split; [|done]. destruct Hcode as [[? _]|?]; [by left|by right; left]. }
  destruct (parse_host_port_returns (arg_str "udp" "" args) "" 0) as [E|(b & host & port & E)].
  { by destruct (Hudp Hout eq_refl). }
  destruct b.
  - eapply (must_feedsim_udp draw _ inet_pton sim0 sim ps Erun Hps); [exact E|..].
    + intros w' _ Hw. split; [by right; left|done].
    + intros sent w' Hw _ _ _. split; [by left|done].
  - unfold feedsim_udp. rewrite E. apply must_bind, must_ret. cbn [negb].
    apply must_bind, must_print, must_ret. split; [by right; right|done].
Qed.
End FeedSimTheorems.

Definition demo_hosts (host : string) : option Z :=
  if bool_decide (host = "127.0.0.1"%string) then Some 16777343 else None.
Definition demo_feedsim_args (rest : list string) : list string :=
  ["mdfh_feedsim"; "--messages"; "60"; "--symbols"; "2"]%string ++ rest.

Lemma feedsim_safe_witness :
  exists fuel code w', run 7 fuel
    (feedsim_main demo_draw (fun seed => seed) demo_hosts (buffered 512 4096)
       (demo_feedsim_args ["--tcp"; "9001"]%string)) (demo_world ∅) = Some (code, w') /\
    exit_code code /\ same_fds (demo_world ∅) w'.
Proof.
  destruct (must_run true 7 ltac:(lia) _ _ _
    (feedsim_safe demo_draw (fun seed => seed) demo_hosts (buffered 512 4096) demo_draw_range true
       (demo_feedsim_args ["--tcp"; "9001"]%string) (demo_world ∅)
       ltac:(split; vm_compute; congruence) ltac:(vm_compute; congruence)))
    as (fuel & code & w' & Hrun & Hcode & Hfds).
  by exists fuel, code, w'.
Defined.

(** The event sequences a receiver may read from [w]: over TCP a part of the
    stream, in any segments; over UDP some of the datagrams, cut to the buffer. *)
Definition arrives (tcp : bool) (w : World) (evs : list Event) : Prop :=
  if tcp then exists chunks rest, w_incoming w = concat chunks ++ rest /\ evs = stream_events [] chunks
  else exists ds, ds `prefix_of` map (take kReceiveBufferSize) (w_in_datagrams w) /\ evs = datagram_events ds.

(** Nothing that may arrive stops a debug build. *)
Definition passes_checks (ndebug tcp : bool) (w : World) : Prop :=
  ndebug = true \/
  forall evs, arrives tcp w evs -> never_crosses (forwarded_events evs new_tracker) (∅, no_stats).

(** The summary of a handler that has received [evs]. *)
Definition reports {ndebug} (w w' : World) (evs : list Event) : Prop :=
  exists (feed : FeedHandler (BookBuilder ndebug)) first ok,
    received evs feed /\
    (let S := (spec_events (forwarded_events evs new_tracker) (∅, no_stats)).1 in
     (ok = true <-> forall symbol l, S !! symbol = Some l -> ~ crossed l) /\
     w_printed w' = w_printed w ++ first :: summary_lines feed ok (spec_fingerprint S)).

Lemma received_summary {ndebug} hash_order evs (feed : FeedHandler (BookBuilder ndebug)) :
  (forall m, hash_order m ≡ₚ map_to_list m) -> received evs feed ->
  exists ok fp, summarises hash_order feed ok fp.
Proof.
  intros Hperm [[Hm _] _ _ _ _]. destruct (summary_defined hash_order Hperm _ _ Hm) as (ok & ? & _ & ?). by eexists _, _.
Qed.

Lemma received_reports {ndebug} hash_order evs (feed : FeedHandler (BookBuilder ndebug)) ok fp first w w' :
  (forall m, hash_order m ≡ₚ map_to_list m) -> received evs feed -> summarises hash_order feed ok fp ->
  w_printed w' = w_printed w ++ first :: summary_lines feed ok fp -> reports (ndebug := ndebug) w w' evs.
Proof.
  intros Hperm Hrec [Eok Efp] Hprinted. exists feed, first, ok. split; [done|]. destruct Hrec as [[Hm _] _ _ _ _].
  destruct (summary_defined hash_order Hperm _ _ Hm) as (ok' & Eok' & Hok & Efp').
  rewrite Eok in Eok'. injection Eok' as <-. rewrite Efp in Efp'. injection Efp' as ->. by split.
Qed.

(** C10: [mdfh_feedhandler] against every kernel and whatever bytes arrive over
    TCP or UDP, in either build: it ends with an exit code of 0, 1 or 2, never
    by a crash or by waiting for ever, and every descriptor it opened has been
    closed exactly once and never used afterwards.  With exit code 0 it reports
    the counters, the checks and the fingerprint of the books that the accepted
    messages describe, of those that arrived before the connection or the feed
    ended.  Assumed are a TCP destination whose port is a number, or an idle
    timeout of at least a millisecond, for the mode chosen, and for a debug
    build that no message that may arrive crosses a book. *)
Theorem feedhandler_safe ndebug faulty hash_order inet_pton argv w :
  let args := parse_args argv in
  (forall m, hash_order m ≡ₚ map_to_list m) ->
  (arg_has "tcp" args = true -> parse_host_port (arg_str "tcp" "" args) "" 0 <> Abort) ->
  (arg_has "tcp" args = false -> 1 <= to_signed 32 (arg_u64 "idle-ms" 2000 args)) ->
  passes_checks ndebug (arg_has "tcp" args) w ->
  must faulty (fun code w' => exit_code code /\ same_fds w w' /\
      (code = 0 -> exists evs, arrives (arg_has "tcp" args) w evs /\ reports (ndebug := ndebug) w w' evs))
    (feedhandler_main (ndebug := ndebug) hash_order inet_pton argv) w.
Proof.
  cbv zeta. intros Hperm Htcp Hudp Hpass. unfold feedhandler_main. cbv zeta. set (args := parse_args argv) in *.
  destruct (arg_has "tcp" args).
  - destruct (parse_host_port_returns (arg_str "tcp" "" args) "" 0) as [E|(b & host & port & E)].
    { by destruct (Htcp eq_refl). }
    destruct b.
    2:{ unfold feedhandler_tcp. rewrite E. apply must_bind, must_ret. cbn [negb].
        apply must_bind, must_print, must_ret. split; [by right; right|]. by split. }
    assert (forall chunks rest, w_incoming w = concat chunks ++ rest -> exists feed,
      consume_all chunks (new_feed (new_builder ndebug)) =
        Ok (feed, (good_count (stream_events [] chunks), bad_count (stream_events [] chunks))) /\
      received (stream_events [] chunks) feed) as Hsafe.
    { intros chunks rest Hin. destruct (segments_received (ndebug := ndebug) chunks)
        as [[_ (feed & Ec & Hr & _)]|(-> & Hx & _)]; [by exists feed|].
      destruct Hpass as [?|Hpass]; [done|]. destruct Hx. apply Hpass. by exists chunks, rest. }
    eapply (must_feedhandler_tcp hash_order inet_pton); [exact E|..].
    + intros chunks Hin. destruct (Hsafe chunks []) as (feed & Ec & _); [by rewrite app_nil_r|]. by eexists.
    + intros chunks rest feed counts Hin _ Ec. destruct (Hsafe chunks rest Hin) as (feed' & Ec' & Hr).
      rewrite Ec in Ec'. injection Ec' as <- _. by eapply received_summary.
    + intros w' _ Hw. split; [by right; left|]. by split.
    + intros chunks rest feed counts ok fp w' Hin _ Ec Hs Hw Hp. destruct (Hsafe chunks rest Hin) as (feed' & Ec' & Hr).
      rewrite Ec in Ec'. injection Ec' as <- _. split; [by left|]. split; [done|]. intros _.
      exists (stream_events [] chunks). split; [by exists chunks, rest|]. by eapply received_reports.
  - destruct (arg_has "udp" args).
    2:{ apply must_bind, must_print, must_ret. split; [by right; right|]. by split. }
    assert (forall ds, ds `prefix_of` map (take kReceiveBufferSize) (w_in_datagrams w) -> exists feed,
      consume_datagrams ds (new_feed (new_builder ndebug)) = Ok feed /\ received (datagram_events ds) feed) as Hsafe.
    { intros ds Hds. destruct (datagrams_received (ndebug := ndebug) ds)
        as [[_ (feed & Ec & Hr)]|(-> & Hx & _)]; [by exists feed|].
      destruct Hpass as [?|Hpass]; [done|]. destruct Hx. apply Hpass. by exists ds. }
    apply (must_feedhandler_udp hash_order); [by apply Hudp|..].
    + intros ds Hds. destruct (Hsafe ds Hds) as (feed & Ec & Hr). exists feed. split; [done|].
      by eapply received_summary.
    + intros w' _ Hw. split; [by right; left|]. by split.
    + intros ds more feed ok fp port w' Hin _ Ec Hs Hw Hp.
      assert (map (take kReceiveBufferSize) ds `prefix_of` map (take kReceiveBufferSize) (w_in_datagrams w)) as Hds
        by (rewrite Hin, map_app; by apply prefix_app_r).
      destruct (Hsafe _ Hds) as (feed' & Ec' & Hr). rewrite Ec in Ec'. injection Ec' as <-.
      split; [by left|]. split; [done|]. intros _. eexists. split; [by eexists|]. by eapply received_reports.
Qed.

Lemma feedhandler_safe_witness :
  exists fuel code w', run 7 fuel
    (feedhandler_main (ndebug := true) map_to_list demo_hosts
       ["mdfh_feedhandler"; "--tcp"; "127.0.0.1:9001"]%string)
    (set_incoming (replicate 40 Byte.xff) (demo_world ∅)) = Some (code, w') /\
    exit_code code /\ same_fds (demo_world ∅) w'.
Proof.
  destruct (must_run true 7 ltac:(lia) _ _ _
    (feedhandler_safe true true map_to_list demo_hosts ["mdfh_feedhandler"; "--tcp"; "127.0.0.1:9001"]%string
       (set_incoming (replicate 40 Byte.xff) (demo_world ∅)) ltac:(done)
       ltac:(vm_compute; congruence) ltac:(vm_compute; congruence) (or_introl eq_refl)))
    as (fuel & code & w' & Hrun & Hcode & Hfds & _).
  by exists fuel, code, w'.
Defined.

(** ** Sessions *)

Section Sessions.
Context {Rng : Type} (draw : DistType -> Z -> Z -> Rng -> Z * Rng) (seed_rng : Z -> Rng).
Context (hash_order : gmap Z OrderBook -> list (Z * OrderBook)) (inet_pton : string -> option Z).
Hypothesis draw_range : forall t a b r, a <= b -> a <= (draw t a b r).1 <= b.
Hypothesis Hperm : forall m, hash_order m ≡ₚ map_to_list m.

Lemma run_length_bound args : arg_u64 "messages" 1000000 args < 2 ^ 64.
Proof. apply (arg_u64_range "messages" 1000000 args). by split. Qed.

(** A feed handler connected to a peer that sends a whole run. *)
Lemma feedhandler_prints_run ndebug argv host port args ps w :
  sim_args_ok args -> run_of draw seed_rng args ps ->
  arg_has "tcp" (parse_args argv) = true ->
  parse_host_port (arg_str "tcp" "" (parse_args argv)) "" 0 = Ok (true, host, port) ->
  is_Some (inet_pton host) -> w_incoming w = stream_bytes ps ->
  must false (fun code w' => code = 0 /\ same_fds w w' /\
      w_printed w' = w_printed w ++ mkOutput Stdout "connected to %s:%u\n" [AStr host; AInt port]
        :: gap_free_lines (Z.of_nat (length ps)) (spec_events (map packet_event ps) (∅, no_stats)).1)
    (feedhandler_main (ndebug := ndebug) hash_order inet_pton argv) w.
Proof.
  intros Hargs (sim0 & sim & E0 & Erun) Htcp Hparse [addr Hhost] Hin.
  destruct (run_exists draw seed_rng draw_range args Hargs)
    as (sim0' & ps' & sim' & E0' & Erun' & Hlen & Hps & Hseq & Hn).
  rewrite E0 in E0'. injection E0' as <-. rewrite Erun in Erun'. injection Erun' as <- <-.
  pose proof (run_length_bound args).
  unfold feedhandler_main. cbv zeta. rewrite Htcp.
  assert (forall chunks, concat chunks = stream_bytes ps -> exists feed : FeedHandler (BookBuilder ndebug),
    consume_all chunks (new_feed (new_builder ndebug)) = Ok (feed, (length ps, 0%nat)) /\
    summarises hash_order feed true (spec_fingerprint (spec_events (map packet_event ps) (∅, no_stats)).1) /\
    summary_lines feed true (spec_fingerprint (spec_events (map packet_event ps) (∅, no_stats)).1) =
      gap_free_lines (Z.of_nat (length ps)) (spec_events (map packet_event ps) (∅, no_stats)).1) as Hsum.
  { intros chunks Hc. destruct (stream_summary (ndebug := ndebug) hash_order chunks ps 1)
      as (feed & Ec & Ei & Ef & Esz & (Efw & Ed & Em) & Est & _); [done..|by rewrite Hlen|done|done|].
    exists feed. split; [done|]. split; [done|]. unfold summary_lines. by rewrite Efw, Ed, Em, Est, Esz. }
  eapply (must_feedhandler_tcp hash_order inet_pton); [exact Hparse|..].
  - intros chunks Hc. destruct (Hsum chunks) as (feed & Ec & _); [by rewrite <- Hin|]. by eexists.
  - intros chunks rest feed counts Hc Hrest Ec. rewrite Hin, Hrest, app_nil_r in Hc by done.
    destruct (Hsum chunks (eq_sym Hc)) as (feed' & Ec' & Hs & _). rewrite Ec in Ec'. injection Ec' as -> _.
    by eexists _, _.
  - intros w' [?|Hno]; [done|]. by rewrite Hno in Hhost.
  - intros chunks rest feed counts ok fp w' Hc Hrest Ec [Hi Hf] Hw Hp. rewrite Hin, Hrest, app_nil_r in Hc by done.
    destruct (Hsum chunks (eq_sym Hc)) as (feed' & Ec' & [Hi' Hf'] & Hlines).
    rewrite Ec in Ec'. injection Ec' as -> ->. rewrite Hi in Hi'. injection Hi' as ->.
    rewrite Hf in Hf'. injection Hf' as ->. rewrite Hlines in Hp. done.
Qed.


Lemma stream_bytes_bound ps : Forall packet_ok ps -> (length (stream_bytes ps) <= kMaxMessageSize * length ps)%nat.
Proof.
  induction 1 as [|p ps Hp _ IH]; [done|]. change (p :: ps) with ([p] ++ ps).
  rewrite stream_bytes_app, stream_bytes_one, !length_app, length_packet_bytes by done.
  pose proof (packet_size_bounds p). cbn [length]. lia.
Qed.

(** The stamps of a run. *)
Lemma run_stamps args ps :
  sim_args_ok args -> run_of draw seed_rng args ps ->
  map pk_ts ps = map (fun i => 1000000000 + 1000 * i) (seqZ 0 (arg_u64 "messages" 1000000 args)).
Proof.
  intros Hargs (sim0 & sim & E0 & Erun).
  destruct (sim_run_ok draw draw_range _ (sim_config_of_ok args Hargs) (seed_rng (arg_u64 "seed" 42 args)))
    as (sim0' & ps' & sim' & E0' & Erun' & _ & _ & _ & Hts & _).
  rewrite E0 in E0'. injection E0' as <-. rewrite Erun in Erun'. injection Erun' as <- <-.
  rewrite Hts. apply map_ext_in. intros i Hi%list_elem_of_In%elem_of_seqZ. destruct Hargs as [Hm _].
  unfold stamp, sim_config_of, sized_config in *. cbn [ts_start ts_step_ns num_messages default_sim_config] in *.
  rewrite wrap_small by (unfold in_unsigned; lia). lia.
Qed.

(** When the timed modes are defined on a run: a wall clock within 73 years of
    its epoch, and a speed that does not stretch the run beyond as long. *)
Definition speed_ok (cfg : ReplayConfig) (start_wall messages : Z) : Prop :=
  (cfg_mode cfg <> MaxSpeed -> wall_ok start_wall) /\
  (cfg_mode cfg = Accelerated -> within_2_61 (1000 * messages) (replay_scale cfg)).

Lemma run_paced cfg start_wall args ps :
  sim_args_ok args -> run_of draw seed_rng args ps ->
  speed_ok cfg start_wall (arg_u64 "messages" 1000000 args) -> paced cfg start_wall (stream_bytes ps).
Proof.
  intros Hargs Hrun [Hstart Hspeed].
  destruct (run_exists draw seed_rng draw_range args Hargs) as (sim0' & ps' & sim' & E0' & Erun' & _ & Hps & _).
  pose proof Hrun as (sim0 & sim & E0 & Erun).
  rewrite E0 in E0'. injection E0' as <-. rewrite Erun in Erun'. injection Erun' as <- <-.
  set (n := arg_u64 "messages" 1000000 args) in *. destruct Hargs as [Hm Hsym]. fold n in Hm.
  assert (cfg_mode cfg <> MaxSpeed -> within_2_61 (1000 * n) (replay_scale cfg)) as Hw.
  { intros Hmode. destruct (cfg_mode cfg) eqn:Ec; [done| |by apply Hspeed].
    unfold replay_scale. rewrite Ec. apply within_2_61_one. lia. }
  destruct (cfg_mode cfg) eqn:Ec; [by left|right..].
  all: split; [by apply Hstart|]; rewrite frames_stream by done; rewrite (run_stamps args ps) by done; fold n.
  all: destruct (Z.lt_ge_cases 0 n); [|by rewrite seqZ_nil by lia].
  all: rewrite (seqZ_cons 0 n) by lia; cbn [map timely]; apply Forall_forall.
  all: intros ts Hts; change (_ :: map ?f ?l) with (map f (0 :: l)) in Hts.
  all: apply list_elem_of_In, in_map_iff in Hts as (i & <- & Hi%list_elem_of_In).
  all: rewrite <- seqZ_cons in Hi by lia; apply elem_of_seqZ in Hi.
  all: split; [lia|]; eapply within_2_61_mono; [|by apply Hw]; lia.
Qed.

(** Replaying a file that holds a run, at any pace. *)
Lemma replay_prints_run sys ndebug stod start_wall wall argv args path ps w :
  sim_args_ok args -> run_of draw seed_rng args ps ->
  arg_str "in" "" (parse_args argv) = path -> path <> ""%string ->
  speed_ok (replay_config stod (parse_args argv)) start_wall (arg_u64 "messages" 1000000 args) ->
  w_files w !! path = Some (header_bytes (Z.of_nat (length ps)) ++ stream_bytes ps) ->
  intact sys path (header_bytes (Z.of_nat (length ps)) ++ stream_bytes ps) ->
  let S := (spec_events (map packet_event ps) (∅, no_stats)).1 in
  must false (fun code w' => code = 0 /\ same_fds w w' /\ w_files w' = w_files w /\
      exists top, length top = size S /\
        w_printed w' = w_printed w ++ replay_lines (Z.of_nat (length ps)) S wall ++ top)
    (replay_main (ndebug := ndebug) hash_order sys stod start_wall wall argv) w.
Proof.
  intros Hargs Hrun Hpath Hne Hspeed Hfile Hintact S. pose proof Hrun as (sim0 & sim & E0 & Erun).
  destruct (run_exists draw seed_rng draw_range args Hargs)
    as (sim0' & ps' & sim' & E0' & Erun' & Hlen & Hps & Hseq & Hn).
  rewrite E0 in E0'. injection E0' as <-. rewrite Erun in Erun'. injection Erun' as <- <-.
  pose proof (run_length_bound args).
  destruct (stream_summary (ndebug := ndebug) hash_order [stream_bytes ps] ps 1)
    as (feed & Ec & Ei & Ef & Esz & (Efw & Ed & Em) & Est & Eres); [done..|by rewrite Hlen|done|cbn; by rewrite app_nil_r|].
  cbn [consume_all] in Ec. apply bind_Ok_inv in Ec as ([feed1 r] & Ec & Er). rewrite bind_ok in Er.
  cbn [fst snd] in Er. injection Er as -> Hmsg Hmal. rewrite Nat.add_0_r in Hmsg, Hmal.
  unfold replay_main. cbv zeta. rewrite Hpath, bool_decide_eq_false_2 by done.
  apply must_bind, must_answer; [by eexists|]. intros d w0 [-> ->].
  destruct (cr_open_spec sys path new_reader (w_files w)) as (r' & Eopen & Hopened).
  rewrite Hfile, open_intact in Eopen, Hopened;
    [|done|rewrite length_app, length_header_bytes; lia|done|done|rewrite length_app, length_header_bytes; lia|done].
  destruct Hopened as (bytes & Hbytes' & ->). rewrite bool_decide_eq_true_2 in Eopen by done.
  assert (header_bytes (Z.of_nat (length ps)) ++ stream_bytes ps = bytes) as <- by congruence.
  apply must_bind, (must_lift _ _ _ _ _ Eopen). cbn [negb].
  assert (cr_bytes (opened (header_bytes (Z.of_nat (length ps)) ++ stream_bytes ps)) = stream_bytes ps) as ->.
  { cbn [opened cr_bytes]. by rewrite drop_app_length' by (by rewrite length_header_bytes). }
  assert (replay (stream_bytes ps) (replay_config stod (parse_args argv)) start_wall wall
    (new_driver (new_builder ndebug)) =
    Ok (feed, mkReplayResult (Z.of_nat (length ps)) 0 (Z.of_nat (length ps)) 0
          (mkSeqStats (Z.of_nat (length ps)) (Z.of_nat (length ps)) 0 0 0 0) wall)) as Ereplay.
  { pose proof (stream_bytes_bound ps Hps) as Hbytes. pose proof (proj1 Hargs). unfold kMaxMessageSize in Hbytes.
    rewrite (replay_as_consume _ _ _ _ (new_builder ndebug) feed r); [by rewrite Hmsg, Hmal, Efw, Ed, Est| |..].
    - by apply (run_paced _ _ args).
    - unfold_sizes. lia.
    - exact Ec.
    - unfold well_framed. by rewrite scan_stream_all.
    - exact Eres. }
  apply must_bind, (must_lift _ _ _ _ _ Ereplay). cbv zeta beta iota.
  cbn [rr_seq rr_messages_parsed rr_malformed rr_forwarded rr_dropped rr_wall_seconds
    st_in_order st_duplicates st_out_of_order st_gap_events st_missing].
  do 6 apply must_bind, must_print. apply must_bind, (must_lift _ _ _ _ _ Ei).
  apply must_bind, must_print. apply must_bind, (must_lift _ _ _ _ _ Ef).
  do 2 apply must_bind, must_print. apply must_bind, must_print_books. intros top Htop.
  apply must_ret. split; [done|]. split; [done|]. split; [done|]. exists top. split.
  - rewrite Htop, (Permutation_length (Hperm _)), length_map_to_list. exact Esz.
  - rewrite !prints_one, !prints_prints. by rewrite Esz.
Qed.

(** The numbers of a run stay clear of the wrap, so what is accepted of them, in
    whatever order they arrive, increases. *)
Lemma consecutive_range s seqs x :
  0 <= s -> s + Z.of_nat (length seqs) < 2 ^ 32 - 1 -> consecutive s seqs -> x ∈ seqs -> no_wrap x.
Proof.
  revert s; induction seqs as [|y seqs IH]; intros s Hs Hlen; [by intros _ ?%not_elem_of_nil|].
  cbn [length] in Hlen. intros [-> Hc] [->|Hx]%elem_of_cons; [unfold no_wrap; lia|].
  rewrite wrap_small in Hc by (unfold in_unsigned; lia). apply (IH (s + 1)); [lia|lia|done|done].
Qed.

Lemma run_accepted_sorted ps qs :
  consecutive 1 (map pk_seq ps) -> Z.of_nat (length ps) <= 8589933 -> (forall q, q ∈ qs -> q ∈ ps) ->
  StronglySorted Z.lt (accepted_seqs (map pk_seq qs) new_tracker).
Proof.
  intros Hseq Hlen Hqs.
  assert (Forall no_wrap (map pk_seq qs)) as Hw.
  { apply Forall_fmap, Forall_forall. intros q Hq%Hqs. apply (consecutive_range 1 (map pk_seq ps)); [lia| |done|].
    - rewrite length_map. lia.
    - by apply list_elem_of_fmap_2. }
  destruct (map pk_seq qs) as [|x seqs]; [constructor|]. apply Forall_cons in Hw as [Hx Hw].
  by destruct (accepted_seqs_bounds x seqs Hx Hw).
Qed.

(** All calls reported success. *)
Lemma reported_all n : reported (replicate n true) = n.
Proof. unfold reported. induction n as [|n IH]; [done|]. cbn. by rewrite IH. Qed.

(** C12: a session through a file.  [mdfh_feedsim --out] on a device with room
    for the run, however its files are buffered, exits with 0 and says how many
    messages it wrote, or with 1 exactly when the file cannot be created.
    [mdfh_replay --in] on the file it wrote, at full speed, in real time or at a
    speed and for a run within the bounds of [speed_ok], on either build, exits
    with 0 and reports every message parsed and forwarded, none malformed,
    dropped or missing, sound books, the fingerprint of the books the run
    describes and one line per symbol. *)
Theorem capture_session (sys : Stdio) ndebug stod start_wall wall argv argv' w :
  let args := parse_args argv in
  let args' := parse_args argv' in
  let path := arg_str "out" "" args in
  sim_args_ok args -> path <> ""%string -> regular sys path ->
  Z.of_nat kCaptureHeaderSize + Z.of_nat kMaxMessageSize * arg_u64 "messages" 1000000 args <= Z.of_nat (st_room sys) ->
  arg_str "in" "" args' = path ->
  speed_ok (replay_config stod args') start_wall (arg_u64 "messages" 1000000 args) ->
  must false (fun (code : Z) w1 => same_fds w w1 /\
      code = (if st_can_create sys path then 0 else 1) /\
      (code = 0 -> exists ps, run_of draw seed_rng args ps /\
         w_printed w1 = w_printed w ++ [mkOutput Stdout "wrote %llu messages to %s\n"
           [AInt (Z.of_nat (length ps)); AStr path]] /\
         let S := (spec_events (map packet_event ps) (∅, no_stats)).1 in
         forall w2, w_files w2 = w_files w1 ->
         must false (fun code w3 => code = 0 /\ same_fds w2 w3 /\ exists top, length top = size S /\
             w_printed w3 = w_printed w2 ++ replay_lines (Z.of_nat (length ps)) S wall ++ top)
           (replay_main (ndebug := ndebug) hash_order sys stod start_wall wall argv') w2))
    (feedsim_main draw seed_rng inet_pton sys argv) w.
Proof.
  cbv zeta. intros Hargs Hout Hreg Hroom Hin Hmode.
  destruct (run_exists draw seed_rng draw_range _ Hargs) as (sim0 & ps & sim & E0 & Erun & Hlen & Hps & _ & _).
  pose proof (run_length_bound (parse_args argv)).
  pose proof (stream_bytes_bound ps Hps) as Hbytes.
  assert (kCaptureHeaderSize <= st_room sys)%nat as Hhdr by (unfold kCaptureHeaderSize in *; lia).
  assert (length (stream_bytes ps) <= st_room sys - kCaptureHeaderSize)%nat as Hfree
    by (unfold kCaptureHeaderSize in *; lia).
  unfold feedsim_main. cbv zeta. rewrite bool_decide_eq_false_2 by done. cbn [negb andb].
  apply must_bind, (must_lift _ _ _ _ _ E0).
  apply (must_feedsim_capture draw _ sim0 sim ps Erun Hps sys).
  - intros Hno w' Hw. split; [done|]. destruct Hno as [->|?]; [by split|lia].
  - intros Hcan d' oks free count Hsession Hoklen. destruct (Hsession Hhdr) as [Hoks Hfile].
    split; [done|]. rewrite Hcan. split; [done|]. intros _.
    subst free count. rewrite fits_all in Hoks by done. rewrite take_ge in Hoks by (rewrite Hoklen; lia). subst oks.
    unfold patches_header in Hfile. rewrite (proj1 (proj2 Hreg 0%nat ltac:(lia))) in Hfile.
    rewrite (bool_decide_eq_true_2 (_ <= _)%nat), orb_true_r in Hfile by (unfold kCaptureHeaderSize in *; lia).
    cbn [andb] in Hfile. rewrite reported_all, wrap_small, take_ge in Hfile by (done || (unfold in_unsigned; lia)).
    exists ps. split; [by exists sim0, sim|]. split.
    { unfold count_of. rewrite wrap_small by (unfold in_unsigned; lia). done. }
    intros w2 Hw2. eapply must_mono.
    + eapply (replay_prints_run sys ndebug stod start_wall wall argv' (parse_args argv) _ ps);
        [done|by exists sim0, sim|exact Hin|done|done|rewrite Hw2; exact Hfile|].
      apply regular_intact; [done|]. rewrite length_app, length_header_bytes. unfold kCaptureHeaderSize in *. lia.
    + cbv zeta. intros code w3 (? & ? & _ & ?). done.
Qed.

End Sessions.

(** *** The sessions on a concrete network *)

Definition demo_client : list string := ["mdfh_feedhandler"; "--tcp"; "127.0.0.1:9001"]%string.


Definition demo_replay : list string := ["mdfh_replay"; "--in"; "feed.cap"; "--mode"; "accel"]%string.

Lemma capture_session_witness :
  exists fuel w1, run 7 fuel
    (feedsim_main demo_draw (fun seed => seed) demo_hosts (buffered 512 20000)
       (demo_feedsim_args ["--out"; "feed.cap"]%string)) (demo_world ∅) = Some (0, w1) /\
    exists fuel' w3, run 7 fuel'
      (replay_main (ndebug := false) map_to_list (buffered 512 20000) (fun _ => None) 0 (double_of_Z 1) demo_replay) w1 =
        Some (0, w3) /\
    exists S top, w_printed w3 = w_printed w1 ++ replay_lines 60 S (double_of_Z 1) ++ top.
Proof.
  destruct (must_run false 7 ltac:(lia) _ _ _
    (capture_session demo_draw (fun seed => seed) map_to_list demo_hosts demo_draw_range ltac:(done)
       (buffered 512 20000) false (fun _ => None) 0 (double_of_Z 1)
       (demo_feedsim_args ["--out"; "feed.cap"]%string) demo_replay (demo_world ∅)
       ltac:(split; vm_compute; congruence) ltac:(vm_compute; congruence) (buffered_regular _ _ _) ltac:(vm_compute; congruence)
       ltac:(vm_compute; reflexivity) ltac:(split; intros _; vm_compute; [split; congruence|congruence])))
    as (fuel & code & w1 & Hrun & _ & -> & Hok).
  destruct (Hok eq_refl) as (ps & Hps & _ & Hreplay). exists fuel, w1. split; [exact Hrun|].
  destruct (must_run false 7 ltac:(lia) _ _ _ (Hreplay w1 eq_refl))
    as (fuel' & code' & w3 & Hrun' & -> & _ & top & _ & Hp).
  exists fuel', w3. split; [exact Hrun'|]. eexists _, top. rewrite Hp.
  destruct (run_exists demo_draw (fun seed => seed) demo_draw_range _
    (ltac:(split; vm_compute; congruence) :
       sim_args_ok (parse_args (demo_feedsim_args ["--out"; "feed.cap"]%string))))
    as (sim0 & ps' & sim & E0 & E & Hlen & _).
  destruct Hps as (sim0' & sim' & E0' & E'). rewrite E0 in E0'. injection E0' as <-.
  rewrite E in E'. injection E' as <- _. rewrite Hlen. reflexivity.
Defined.

Definition demo_receiver : list string := ["mdfh_feedhandler"; "--udp"; "9002"]%string.


(** C15: [mdfh_replay] on a file of any bytes, however it can be read and sought
    in: it exits with 2 without a file name, with 1 when the file cannot be read
    as a capture, having said why, and with 0 otherwise, having printed the
    fingerprint of the books that the accepted messages of the file describe; it
    never leads to undefined behaviour and changes no file.  Assumed for a file
    that is read are, in the timed modes, a clock reading within 73 years of its
    epoch and timestamps that never precede the first and stay within 73 scaled
    years of it, and in a debug build that its messages cross no book. *)
Theorem replay_safe sys ndebug faulty hash_order stod start_wall wall argv w :
  let args := parse_args argv in
  let path := arg_str "in" "" args in
  let file := w_files w !! path in
  (forall m, hash_order m ≡ₚ map_to_list m) ->
  (forall bytes, file = Some bytes -> open_error sys path file = None ->
     paced (replay_config stod args) start_wall (drop kCaptureHeaderSize bytes) /\
     (ndebug = true \/ never_crosses (forwarded_frames (drop kCaptureHeaderSize bytes)) (∅, no_stats))) ->
  must faulty (fun code w' => same_fds w w' /\ w_files w' = w_files w /\
      if bool_decide (path = ""%string) then code = 2
      else match open_error sys path file with
           | Some e => code = 1 /\
               w_printed w' = w_printed w ++ [mkOutput Stderr "cannot read capture: %s\n" [AStr e]]
           | None => code = 0 /\ exists bytes, file = Some bytes /\
               mkOutput Stdout "book fingerprint: %016llx\n"
                 [AInt (spec_fingerprint
                    (spec_events (forwarded_frames (drop kCaptureHeaderSize bytes)) (∅, no_stats)).1)]
               ∈ w_printed w'
           end)
    (replay_main (ndebug := ndebug) hash_order sys stod start_wall wall argv) w.
Proof.
  cbv zeta. intros Hperm Hfile. unfold replay_main. cbv zeta. set (args := parse_args argv) in *.
  set (path := arg_str "in" "" args) in *.
  destruct (bool_decide (path = ""%string)).
  { by apply must_bind, must_print, must_ret. }
  apply must_bind, must_answer; [by eexists|]. intros d w0 [-> ->].
  destruct (cr_open_spec sys path new_reader (w_files w)) as (r' & Eopen & Hopened).
  apply must_bind, (must_lift _ _ _ _ _ Eopen).
  destruct (open_error sys path (w_files w !! path)) as [e|].
  { rewrite bool_decide_eq_false_2 by done. destruct Hopened as [_ <-]. by apply must_bind, must_print, must_ret. }
  destruct Hopened as (bytes & Hbytes & ->). rewrite bool_decide_eq_true_2 by done. cbn [negb opened cr_bytes].
  destruct (Hfile bytes Hbytes eq_refl) as [Hpaced Hcross].
  destruct (replay_outcome ndebug (drop kCaptureHeaderSize bytes) (replay_config stod args) start_wall wall Hpaced)
    as [[_ (driver & r & Er & Hm)]|(-> & Hx & _)]; [|by destruct Hcross].
  destruct (summary_defined hash_order Hperm _ _ Hm) as (ok & Ei & _ & Ef).
  eapply must_bind, must_lift; [exact Er|].
  cbv zeta beta iota. do 6 apply must_bind, must_print. apply must_bind.
  refine (must_lift _ _ _ _ _ Ei _). apply must_bind, must_print. apply must_bind.
  refine (must_lift _ _ _ _ _ Ef _).
  do 2 apply must_bind, must_print. apply must_bind, must_print_books. intros top _. apply must_ret.
  split; [done|]. split; [done|]. split; [done|]. exists bytes. split; [done|].
  rewrite !prints_one, !prints_prints. cbn [w_printed prints]. set_solver.
Qed.

(** A capture that ends in the middle of a message, replayed ten times as fast
    as it was sent. *)
Definition demo_capture : list byte :=
  header_bytes 4 ++ stream_bytes demo_packets ++ take 10 (packet_bytes (mkPacket 2 4 (BodyHeartbeat mkHeartbeat))).
Definition demo_capture_world : World := set_files {["feed.cap"%string := demo_capture]} (demo_world ∅).

Definition demo_stdio : Stdio := buffered 512 20000.

Lemma demo_capture_fits bytes :
  w_files demo_capture_world !! arg_str "in" "" (parse_args demo_replay) = Some bytes ->
  open_error demo_stdio (arg_str "in" "" (parse_args demo_replay))
    (w_files demo_capture_world !! arg_str "in" "" (parse_args demo_replay)) = None ->
  paced (replay_config (fun _ => None) (parse_args demo_replay)) 5000 (drop kCaptureHeaderSize bytes) /\
  (false = true \/ never_crosses (forwarded_frames (drop kCaptureHeaderSize bytes)) (∅, no_stats)).
Proof.
  assert (w_files demo_capture_world !! arg_str "in" "" (parse_args demo_replay) = Some demo_capture) as ->
    by (vm_compute; reflexivity).
  intros [= <-] _. split.
  - right. split; [split; lia|].
    assert ((frames (drop kCaptureHeaderSize demo_capture)).*1 = [1; 2; 3]) as -> by (vm_compute; reflexivity).
    repeat constructor; vm_compute; discriminate.
  - destruct (deliver_frames (ndebug := false) (drop kCaptureHeaderSize demo_capture)) as [[Hwhy _]|(_ & _ & E)];
      [exact Hwhy|]. exfalso. revert E. vm_compute. discriminate.
Qed.

Lemma replay_safe_witness :
  exists fuel w', run 7 fuel
    (replay_main (ndebug := false) map_to_list demo_stdio (fun _ => None) 5000 (double_of_Z 1) demo_replay)
    demo_capture_world = Some (0, w').
Proof.
  destruct (must_run true 7 ltac:(lia) _ _ _
    (replay_safe demo_stdio false true map_to_list (fun _ => None) 5000 (double_of_Z 1) demo_replay demo_capture_world
       ltac:(done) demo_capture_fits))
    as (fuel & code & w' & Hrun & _ & _ & Hcode).
  exists fuel, w'. rewrite Hrun. assert (code = 0) as ->; [|reflexivity].
  revert Hcode. change (bool_decide (arg_str "in" "" (parse_args demo_replay) = ""%string)) with false.
  assert (open_error demo_stdio (arg_str "in" "" (parse_args demo_replay))
    (w_files demo_capture_world !! arg_str "in" "" (parse_args demo_replay)) = None) as -> by (vm_compute; reflexivity).
  by intros [-> _].
Defined.

(** The two programs run by the executable kernel: a message at most 13 bytes
    at a time into the socket and 11 out of it. *)
Definition demo_tcp_run : option (Z * Z * list Z * option Output) :=
  sent ← run 13 20000 (feedsim_main demo_draw (fun seed => seed) demo_hosts (buffered 512 0)
    (demo_feedsim_args ["--tcp"; "9001"]%string)) (demo_world ∅);
  received ← run 11 20000 (feedhandler_main (ndebug := false) map_to_list demo_hosts demo_client)
    (set_incoming (w_sent sent.2) (demo_world ∅));
  Some (sent.1, received.1, elements (w_open received.2), last (w_printed received.2)).
Example demo_tcp_run_ends :
  demo_tcp_run =
  Some (0, 0, [], Some (mkOutput Stdout "book fingerprint            : %016llx\n"
                          [AInt 17885749886779385048])).
Proof. vm_compute. reflexivity. Qed.
