(* ===== verification/Stats.v ===== *)
(** Latency statistics (include/mdfh/stats.hpp): the histogram of samples and
    its summary, whose percentile positions are computed in doubles.
    [std::nth_element] leaves the order of the other elements open and is a
    parameter with its documented postcondition. *)
From stdpp Require Import sorting.
From Stdlib Require Import SpecFloat.
From S2P Require Import Prelude Doubles ByteOrder Protocol Serialization Parser SequenceTracker.
From S2P Require Import FeedHandler OrderedMap OrderBook BookBuilder Replay.

Local Open Scope Z_scope.

(** ** The code *)

Record LatencySummary := mkLatencySummary {
  ls_count : Z;              (* u64 *)
  ls_mean_ns : spec_float;
  ls_min_ns : Z;             (* u64 *)
  ls_p50_ns : Z;             (* u64 *)
  ls_p95_ns : Z;             (* u64 *)
  ls_p99_ns : Z;             (* u64 *)
  ls_max_ns : Z              (* u64 *)
}.
Definition empty_summary : LatencySummary := mkLatencySummary 0 (S754_zero false) 0 0 0 0 0.

Record LatencyHistogram := mkLatencyHistogram {
  lh_samples : list Z;       (* u64 *)
  lh_sum : Z                 (* u64 *)
}.
Definition new_histogram : LatencyHistogram := mkLatencyHistogram [] 0.

(** [add(ns)] and [count()]. *)
Definition add_sample (ns : Z) (h : LatencyHistogram) : LatencyHistogram :=
  mkLatencyHistogram (lh_samples h ++ [ns]) (add64 (lh_sum h) ns).
Definition sample_count (h : LatencyHistogram) : nat := length (lh_samples h).

(** [*std::min_element(begin, end)] and [*std::max_element(begin, end)]. *)
Definition min_element (l : list Z) : outcome Z :=
  match l with [] => Undef | x :: l => Ok (foldl Z.min x l) end.
Definition max_element (l : list Z) : outcome Z :=
  match l with [] => Undef | x :: l => Ok (foldl Z.max x l) end.

Section Histogram.
Context (nth_element : nat -> list Z -> list Z).

Definition percentile (q : spec_float) (h : LatencyHistogram) : outcome (Z * LatencyHistogram) :=
  if bool_decide (lh_samples h = []) then Ok (0, h) else
  idx ← size_of_double (double_mul q (double_of_Z (Z.of_nat (sample_count h) - 1)));
  require (bool_decide (idx <= sample_count h)%nat);;
  let h := mkLatencyHistogram (nth_element idx (lh_samples h)) (lh_sum h) in
  v ← of_option (lh_samples h !! idx);
  Ok (v, h).

(** The literals 0.50, 0.95 and 0.99: the quotients, correctly rounded. *)
Definition q50 : spec_float := double_div (double_of_Z 50) (double_of_Z 100).
Definition q95 : spec_float := double_div (double_of_Z 95) (double_of_Z 100).
Definition q99 : spec_float := double_div (double_of_Z 99) (double_of_Z 100).

Definition summarize (h : LatencyHistogram) : outcome (LatencySummary * LatencyHistogram) :=
  if bool_decide (lh_samples h = []) then Ok (empty_summary, h) else
  let count := Z.of_nat (sample_count h) in
  let mean := double_div (double_of_Z (lh_sum h)) (double_of_Z count) in
  mn ← min_element (lh_samples h);
  mx ← max_element (lh_samples h);
  r50 ← percentile q50 h;
  r95 ← percentile q95 r50.2;
  r99 ← percentile q99 r95.2;
  Ok (mkLatencySummary count mean mn r50.1 r95.1 r99.1 mx, r99.2).
End Histogram.

(** ** Positions of the percentiles *)

(** The position [q * m] truncated, off by the rounding of the product. *)
Lemma scaled_index q m :
  2 ^ 52 <= Zpos q < 2 ^ 53 -> 0 <= m < 2 ^ 52 ->
  exists i, size_of_double (double_mul (S754_finite false q (-53)) (double_of_Z m)) = Ok i /\
    Zpos q * m / 2 ^ 53 <= Z.of_nat i /\ Z.of_nat i * 2 ^ 53 <= Zpos q * m + 2 ^ 52.
Proof.
  intros Hq Hm. destruct (decide (m = 0)) as [->|Hm0]; [exists 0%nat; split; [done|]; rewrite Z.mul_0_r, Z.div_0_l by done; cbn; lia|].
  destruct (double_of_small false m) as (p & e & Em & He & Hp & Ep); [lia|]. cbn [cond_Zopp] in Em. rewrite Em. cbn [double_mul SFmul xorb].
  set (M := Zpos (q * p)). set (k := if M <? 2 ^ 105 then 52 else 53).
  assert (M = Zpos q * Zpos p) as EM by done.
  assert (52 <= k <= 53 /\ 2 ^ 52 <= M / 2 ^ k < 2 ^ 53) as [Hk HM].
  { subst k. destruct (Z.ltb_spec M (2 ^ 105)); (split; [lia|]).
    - split; [apply Z.div_le_lower_bound|apply Z.div_lt_upper_bound]; nia.
    - split; [apply Z.div_le_lower_bound|apply Z.div_lt_upper_bound]; nia. }
  destruct (round_longer false M (-53 + e) k loc_Exact) as (r & e' & -> & He' & _ & Hr); [lia|done|lia|lia|].
  set (t := - (-53 + e + k)). replace (e' - (-53 + e + k)) with (e' + t) in Hr by lia.
  destruct (div_two_steps (Zpos q * m) (2 ^ (- e)) (2 ^ k) (2 ^ t) (Zpos r * 2 ^ (e' + t))) as [Lo Hi].
  1-3: by apply Z.pow_pos_nonneg; lia.
  - rewrite <- !Z.pow_add_r by lia. f_equal. lia.
  - by apply (Z.pow_le_mono_r 2 1); lia.
  - lia.
  - by rewrite <- Z.mul_assoc, <- Ep, <- EM.
  - assert (0 <= Zpos q * m / 2 ^ 53) by (apply Z.div_pos; lia).
    rewrite (size_of_scaled r e' t) by nia. eexists. split; [done|]. rewrite Z2Nat.id by lia. done.
Qed.

(** The position [percentile] computes for [m + 1] samples. *)
Definition sample_index (q : spec_float) (m : Z) : outcome nat :=
  size_of_double (double_mul q (double_of_Z m)).

(** A literal [q] for [pct] percent, as it is stored. *)
Definition literal_of (pct : Z) (q : spec_float) : Prop :=
  exists m, q = S754_finite false m (-53) /\ 2 ^ 52 <= Zpos m < 2 ^ 53 /\ Z.abs (100 * Zpos m - pct * 2 ^ 53) <= 50.

Lemma q50_literal : literal_of 50 q50.
Proof. exists 4503599627370496%positive. by vm_compute. Qed.
Lemma q95_literal : literal_of 95 q95.
Proof. exists 8556839292003942%positive. by vm_compute. Qed.
Lemma q99_literal : literal_of 99 q99.
Proof. exists 8917127262193582%positive. by vm_compute. Qed.

Lemma sample_index_near pct q m :
  literal_of pct q -> 0 <= pct < 100 -> 0 <= m < 2 ^ 52 ->
  exists i, sample_index q m = Ok i /\ Z.of_nat i <= m /\ Z.abs (Z.of_nat i - pct * m / 100) <= 1 /\
    (pct * m - 125 <= 100 * Z.of_nat i <= pct * m + 75).
Proof.
  intros (n & -> & Hn & Hp) Hpct Hm. destruct (scaled_index n m Hn Hm) as (i & E & Lo & Hi).
  exists i. split; [done|].
  assert (Z.abs (100 * (Zpos n * m) - pct * m * 2 ^ 53) <= 50 * m) as Hx.
  { replace (100 * (Zpos n * m) - pct * m * 2 ^ 53) with ((100 * Zpos n - pct * 2 ^ 53) * m) by lia.
    rewrite Z.abs_mul, (Z.abs_eq m) by lia. apply Z.mul_le_mono_nonneg_r; lia. }
  assert (0 <= pct * m <= 99 * m) by nia.
  generalize dependent (Zpos n * m). generalize dependent (pct * m). intros x ? y Lo Hi ?.
  assert (y < (Z.of_nat i + 1) * 2 ^ 53).
  { pose proof (Z.mul_succ_div_gt y (2 ^ 53) ltac:(lia)). lia. }
  assert (x - 125 <= 100 * Z.of_nat i <= x + 75) by lia.
  pose proof (Z.mul_div_le x 100). pose proof (Z.mul_succ_div_gt x 100). lia.
Qed.

(** Up to 64 samples by evaluation, beyond by the distance of the percents. *)
Lemma sample_index_mono m i j k :
  0 <= m < 2 ^ 52 -> sample_index q50 m = Ok i -> sample_index q95 m = Ok j -> sample_index q99 m = Ok k ->
  (i <= j <= k)%nat.
Proof.
  intros Hm Hi Hj Hk. destruct (decide (m < 64)) as [Hs|Hl].
  - assert (forallb (fun m => match sample_index q50 m, sample_index q95 m, sample_index q99 m with
      | Ok i, Ok j, Ok k => (i <=? j)%nat && (j <=? k)%nat | _, _, _ => false end) (seqZ 0 64) = true) as H
      by (by vm_compute).
    rewrite forallb_forall in H. specialize (H m). rewrite <- list_elem_of_In, elem_of_seqZ, Hi, Hj, Hk in H.
    specialize (H ltac:(lia)). apply andb_prop in H as [H1%Nat.leb_le H2%Nat.leb_le]. done.
  - destruct (sample_index_near _ _ m q50_literal) as (? & E & _ & _ & ?); [lia..|]. rewrite Hi in E. injection E as <-.
    destruct (sample_index_near _ _ m q95_literal) as (? & E' & _ & _ & ?); [lia..|]. rewrite Hj in E'. injection E' as <-.
    destruct (sample_index_near _ _ m q99_literal) as (? & E'' & _ & _ & ?); [lia..|]. rewrite Hk in E''. injection E'' as <-. lia.
Qed.

(** ** Order statistics *)

Notation sorted l := (merge_sort Z.le l).

#[local] Instance Zle_total : Total Z.le.
Proof. intros x y. lia. Qed.
#[local] Instance Zle_antisymm : AntiSymm (=) Z.le.
Proof. intros x y. lia. Qed.

#[local] Instance Zge_preorder : PreOrder Z.ge.
Proof. split; intros ?*; lia. Qed.

Lemma sorted_lookup_le l i j x y :
  (i <= j)%nat -> sorted l !! i = Some x -> sorted l !! j = Some y -> x <= y.
Proof.
  pose proof (StronglySorted_merge_sort Z.le l) as Hs. revert i j. induction Hs as [|a s _ IH Ha]; [done|].
  intros [|i] [|j] Hij Hx Hy; [by simplify_eq| |lia|by eapply (IH i j); [lia|..]].
  injection Hx as ->. rewrite Forall_forall in Ha. eapply Ha, list_elem_of_lookup_2, Hy.
Qed.

Lemma sorted_length l : length (sorted l) = length l.
Proof. by rewrite (merge_sort_Permutation Z.le l). Qed.

Lemma sorted_perm l l' : l ≡ₚ l' -> sorted l = sorted l'.
Proof.
  intros Hp. apply (StronglySorted_unique Z.le); [apply (StronglySorted_merge_sort _)..|].
  by rewrite !merge_sort_Permutation.
Qed.

(** A fold that keeps one of its two arguments finds an extremal element. *)
Lemma fold_extremum (R : relation Z) `{!PreOrder R} (f : Z -> Z -> Z) x l :
  (forall a b, (f a b = a \/ f a b = b) /\ R (f a b) a /\ R (f a b) b) ->
  foldl f x l ∈ x :: l /\ (forall y, y ∈ x :: l -> R (foldl f x l) y).
Proof.
  intros Hf. revert x. induction l as [|z l IH]; intros x; cbn [foldl].
  - split; [set_solver|]. intros y ->%list_elem_of_singleton. done.
  - destruct (IH (f x z)) as [Hin Hle], (Hf x z) as (Hc & Hx & Hz). split.
    + rewrite !elem_of_cons. rewrite elem_of_cons in Hin. destruct Hin as [->|Hin]; tauto.
    + pose proof (Hle (f x z) ltac:(by left)). intros y. rewrite !elem_of_cons.
      intros [->|[->|Hy]]; [by etrans|by etrans|by apply Hle; right].
Qed.

Lemma min_element_spec l :
  l <> [] -> exists v, min_element l = Ok v /\ sorted l !! 0%nat = Some v.
Proof.
  destruct l as [|x l]; [done|intros _]. destruct (fold_extremum Z.le Z.min x l) as [Hin Hle]; [intros a b; lia|].
  destruct (sorted (x :: l)) as [|v s] eqn:E; [by pose proof (sorted_length (x :: l)); rewrite E in *|].
  eexists. split; [done|]. cbn. f_equal. assert (v ∈ x :: l) as Hv%Hle.
  { rewrite <- (merge_sort_Permutation Z.le (x :: l)), E. by left. }
  rewrite <- (merge_sort_Permutation Z.le (x :: l)) in Hin. apply list_elem_of_lookup in Hin as [j Hj].
  pose proof (sorted_lookup_le (x :: l) 0 j v _ ltac:(lia) ltac:(by rewrite E) Hj). lia.
Qed.

Lemma max_element_spec l :
  l <> [] -> exists v, max_element l = Ok v /\ sorted l !! (length l - 1)%nat = Some v.
Proof.
  destruct l as [|x l]; [done|intros _]. destruct (fold_extremum Z.ge Z.max x l) as [Hin Hle].
  { intros a b. lia. }
  eexists. split; [done|]. rewrite <- (merge_sort_Permutation Z.le (x :: l)) in Hin.
  apply list_elem_of_lookup in Hin as [j Hj]. pose proof (lookup_lt_Some _ _ _ Hj) as Hlt. rewrite sorted_length in Hlt.
  destruct (lookup_lt_is_Some_2 (sorted (x :: l)) (length (x :: l) - 1)) as [v Hv]; [rewrite sorted_length; cbn; lia|].
  assert (v ∈ x :: l) as Hv'%Hle.
  { rewrite <- (merge_sort_Permutation Z.le (x :: l)). by eapply list_elem_of_lookup_2. }
  pose proof (sorted_lookup_le (x :: l) j (length (x :: l) - 1) _ _ ltac:(lia) Hj Hv). rewrite Hv. f_equal. lia.
Qed.

(** ** The summary *)

(** [std::nth_element(begin, begin + n, end)] for [n] inside the range: a
    permutation with the element of the sorted range at [n]. *)
Definition nth_element_spec (nth_element : nat -> list Z -> list Z) : Prop :=
  forall n l, (n < length l)%nat -> nth_element n l ≡ₚ l /\ nth_element n l !! n = sorted l !! n.

Section Theorems.
Context (nth_element : nat -> list Z -> list Z) (Hnth : nth_element_spec nth_element).

(** The percentile of a histogram is the order statistic at its position,
    and the samples are only permuted. *)
Lemma percentile_spec q pct h :
  literal_of pct q -> 0 <= pct < 100 -> 0 < Z.of_nat (sample_count h) < 2 ^ 52 ->
  exists i v h', percentile nth_element q h = Ok (v, h') /\ sample_index q (Z.of_nat (sample_count h) - 1) = Ok i /\
    sorted (lh_samples h) !! i = Some v /\ lh_samples h' ≡ₚ lh_samples h.
Proof.
  intros Hq Hpct Hn. unfold percentile. rewrite bool_decide_eq_false_2 by (intros E; unfold sample_count in Hn; rewrite E in Hn; cbn in Hn; lia).
  destruct (sample_index_near pct q (Z.of_nat (sample_count h) - 1)) as (i & E & Hi & _); [done|lia..|].
  unfold sample_index in E. rewrite E. cbn [mbind outcome_bind].
  rewrite bool_decide_eq_true_2 by lia. cbn [require mbind outcome_bind].
  destruct (Hnth i (lh_samples h)) as [Hp Hl]; [unfold sample_count in *; lia|].
  destruct (lookup_lt_is_Some_2 (sorted (lh_samples h)) i) as [v Hv]; [rewrite sorted_length; unfold sample_count in *; lia|].
  cbn [lh_samples]. rewrite Hl, Hv. eexists i, v, _. split; [reflexivity|]. auto.
Qed.

(** Summing the samples: the total wraps at 64 bits. *)
Definition record_samples (l : list Z) : LatencyHistogram := foldl (fun h ns => add_sample ns h) new_histogram l.

Lemma record_samples_eq l :
  record_samples l = mkLatencyHistogram l (foldl add64 0 l).
Proof.
  induction l as [|x l IH] using rev_ind; [done|]. unfold record_samples in *. by rewrite !foldl_snoc, IH.
Qed.

Lemma sum_wraps l : foldl add64 0 l = wrap 64 (foldr Z.add 0 l).
Proof.
  cut (forall a, foldl add64 (wrap 64 a) l = wrap 64 (a + foldr Z.add 0 l)); [intros H; apply (H 0)|].
  induction l as [|x l IH]; intros a; cbn [foldl foldr]; [f_equal; lia|].
  unfold add64 at 2. rewrite wrap_add_l, IH. f_equal. lia.
Qed.

(** [v] stands at [pct] percent of the way through the sorted samples, up to
    one position. *)
Definition is_percentile (l : list Z) (pct v : Z) : Prop :=
  exists i, sorted l !! i = Some v /\ Z.abs (Z.of_nat i - pct * (Z.of_nat (length l) - 1) / 100) <= 1.

(** What a summary says of the samples it was made from. *)
Definition is_summary (l : list Z) (s : LatencySummary) : Prop :=
  ls_count s = Z.of_nat (length l) /\
  ls_mean_ns s = double_div (double_of_Z (wrap 64 (foldr Z.add 0 l))) (double_of_Z (Z.of_nat (length l))) /\
  sorted l !! 0%nat = Some (ls_min_ns s) /\ sorted l !! (length l - 1)%nat = Some (ls_max_ns s) /\
  is_percentile l 50 (ls_p50_ns s) /\ is_percentile l 95 (ls_p95_ns s) /\ is_percentile l 99 (ls_p99_ns s) /\
  ls_min_ns s <= ls_p50_ns s <= ls_p95_ns s /\ ls_p95_ns s <= ls_p99_ns s <= ls_max_ns s.

Lemma summarize_ok l :
  0 < Z.of_nat (length l) < 2 ^ 52 ->
  exists s h, summarize nth_element (record_samples l) = Ok (s, h) /\ lh_samples h ≡ₚ l /\ is_summary l s.
Proof.
  intros Hn. rewrite record_samples_eq, sum_wraps. set (sum := wrap 64 _). unfold summarize. cbn [lh_samples lh_sum].
  assert (l <> []) as Hl by (intros ->; cbn in Hn; lia). rewrite bool_decide_eq_false_2 by done.
  destruct (min_element_spec l Hl) as (mn & -> & Hmn), (max_element_spec l Hl) as (mx & -> & Hmx). cbn [mbind outcome_bind].
  destruct (percentile_spec q50 50 (mkLatencyHistogram l sum) q50_literal) as (i & v50 & h1 & -> & Hi & S1 & P1); [lia|done|].
  destruct (percentile_spec q95 95 h1 q95_literal) as (j & v95 & h2 & E2 & Hj & S2 & P2); [lia|unfold sample_count; by rewrite P1|].
  cbn [fst snd mbind outcome_bind]. rewrite E2.
  destruct (percentile_spec q99 99 h2 q99_literal) as (k & v99 & h3 & E3 & Hk & S3 & P3);
    [lia|unfold sample_count; by rewrite P2, P1|].
  cbn [fst snd mbind outcome_bind]. rewrite E3. cbn [fst snd mbind outcome_bind].
  unfold sample_count in Hi, Hj, Hk. rewrite (sorted_perm _ _ P2), (sorted_perm _ _ P1) in S3. rewrite (sorted_perm _ _ P1) in S2.
  rewrite P2, P1 in Hk. rewrite P1 in Hj. cbn [lh_samples] in *.
  pose proof (sample_index_mono (Z.of_nat (length l) - 1) i j k ltac:(lia) Hi Hj Hk) as [Hij Hjk].
  assert (forall q pct n v, literal_of pct q -> 0 <= pct < 100 -> sample_index q (Z.of_nat (length l) - 1) = Ok n ->
    sorted l !! n = Some v -> is_percentile l pct v) as Hpct.
  { intros q pct n v Hq Hp Hidx Hv. exists n. split; [done|].
    destruct (sample_index_near pct q (Z.of_nat (length l) - 1)) as (n' & E & _ & Hnear & _); [done|lia..|].
    rewrite Hidx in E. by injection E as <-. }
  pose proof (lookup_lt_Some _ _ _ S3) as Hk'. rewrite sorted_length in Hk'.
  eexists _, _. split; [done|]. split; [by rewrite P3, P2, P1|]. repeat (split; [first [assumption|reflexivity]|]).
  split; [apply (Hpct q50 50 i v50 q50_literal); [lia|assumption..]|].
  split; [apply (Hpct q95 95 j v95 q95_literal); assumption || lia|].
  split; [apply (Hpct q99 99 k v99 q99_literal); assumption || lia|]. cbn [ls_min_ns ls_p50_ns ls_p95_ns ls_p99_ns ls_max_ns].
  split; split; [apply (sorted_lookup_le l 0 i)|apply (sorted_lookup_le l i j)|apply (sorted_lookup_le l j k)
    |apply (sorted_lookup_le l k (length l - 1))]; assumption || lia.
Qed.
(** C19: the latency report is right: for up to 2^52 recorded samples the summary
    never reads out of range, only permutes the samples, counts them, divides
    their 64-bit sum by their number, and reports the least and the greatest
    sample and three percentiles, each an actual sample within one position
    of 50, 95 and 99 percent of the sorted list although the position is
    computed in rounded doubles; and the five order statistics are in order. *)
Theorem summary_order_statistics l :
  0 < Z.of_nat (length l) < 2 ^ 52 ->
  exists s h, summarize nth_element (record_samples l) = Ok (s, h) /\ lh_samples h ≡ₚ l /\
    ls_count s = Z.of_nat (length l) /\
    ls_mean_ns s = double_div (double_of_Z (wrap 64 (foldr Z.add 0 l))) (double_of_Z (Z.of_nat (length l))) /\
    sorted l !! 0%nat = Some (ls_min_ns s) /\ sorted l !! (length l - 1)%nat = Some (ls_max_ns s) /\
    is_percentile l 50 (ls_p50_ns s) /\ is_percentile l 95 (ls_p95_ns s) /\ is_percentile l 99 (ls_p99_ns s) /\
    ls_min_ns s <= ls_p50_ns s <= ls_p95_ns s /\ ls_p95_ns s <= ls_p99_ns s <= ls_max_ns s.
Proof. apply summarize_ok. Qed.
End Theorems.

Lemma sort_is_nth_element : nth_element_spec (fun _ l => sorted l).
Proof. intros n l _. split; [apply merge_sort_Permutation|done]. Qed.

Lemma summary_order_statistics_witness :
  (exists h, summarize (fun _ l => sorted l) (record_samples [40; 10; 30; 20; 70]) =
    Ok (mkLatencySummary 5 (double_of_Z 34) 10 30 40 40 70, h)) /\
  exists s h, summarize (fun _ l => sorted l) (record_samples [40; 10; 30; 20; 70]) = Ok (s, h) /\
    sorted [40; 10; 30; 20; 70] !! 4%nat = Some (ls_max_ns s).
Proof.
  split; [by eexists; vm_compute|].
  destruct (summary_order_statistics _ sort_is_nth_element [40; 10; 30; 20; 70])
    as (s & h & E & _ & _ & _ & _ & Hmax & _); [by vm_compute|].
  exists s, h. by split.
Defined.
