(* ===== verification/Bench.v ===== *)
(** The benchmark program (benchmarks/bench_feed.cpp): it generates a feed,
    times one thread over it, then message by message, then the concurrent
    pipeline (PipelineThreads.v), and prints what it measured and whether the
    two paths agree.  How the pipeline's threads interleave is a parameter.
    Readings of the steady clock are the values of a function of their number;
    how [fprintf] renders the report file is a parameter. *)
From ITree Require Import ITree.
From stdpp Require Import strings sorting.
From Stdlib Require Import SpecFloat.
From S2P Require Import Prelude Doubles ByteOrder Protocol Serialization Parser SequenceTracker.
From S2P Require Import FeedHandler OrderedMap OrderBook BookSpec BookProofs BookTheorems.
From S2P Require Import BookBuilder.
From S2P Require Import EndToEnd Replay WireTheorems Queue Pipeline PipelineProofs.
From S2P Require Import PipelineProgress PipelineTheorems.
From S2P Require Import PipelineThreads ThreadsProgress ThreadsRun ThreadsTheorems.
From S2P Require Import Capture Simulator SimulatorProofs SimulatorTheorems.
From S2P Require Import Kernel Net Args Apps AppProofs AppTheorems Stats.

Local Open Scope Z_scope.

(** ** The code *)

(** What the sink of [build_feed] holds: [buf], [frames] and [tmp]. *)
Record FeedBuffer := mkFeedBuffer {
  fb_buf : list byte;
  fb_frames : list (nat * nat);    (* offset and length *)
  fb_tmp : list byte
}.

Definition place_frame (p : Packet) (st : FeedBuffer) : outcome FeedBuffer :=
  r ← encode_packet (fb_tmp st) p;
  let '(len, tmp) := (r : nat * list byte) in
  bytes ← subspan tmp 0 len;
  Ok (mkFeedBuffer (fb_buf st ++ bytes) (fb_frames st ++ [(length (fb_buf st), len)]) tmp).

Fixpoint place_frames (ps : list Packet) (st : FeedBuffer) : outcome FeedBuffer :=
  match ps with
  | [] => Ok st
  | p :: ps' => st ← place_frame p st; place_frames ps' st
  end.

Section Benchmark.
Context {ndebug : bool} {Rng : Type} (draw : DistType -> Z -> Z -> Rng -> Z * Rng) (seed_rng : Z -> Rng).
Context (hash_order : gmap Z OrderBook -> list (Z * OrderBook)).
Context (nth_element : nat -> list Z -> list Z).
Context (sys : Stdio) (render : string -> list Arg -> list byte).
Context (now : nat -> Z) (interleave : Threads ndebug -> outcome (Threads ndebug)).
Notation Feed := (FeedHandler (BookBuilder ndebug)).

Definition build_feed (cfg : SimConfig) (seed : Z) : outcome (list byte * list (nat * nat)) :=
  sim ← new_simulator cfg (seed_rng seed);
  r ← sim_run draw cfg sim;
  st ← place_frames r.1 (mkFeedBuffer [] [] (replicate kMaxMessageSize Byte.x00));
  Ok (fb_buf st, fb_frames st).

(** A handler on a builder that does not verify. *)
Definition bench_handler : Feed := new_feed (set_verify false (new_builder ndebug)).

Record SingleRun := mkSingleRun { sr_msgs : Z; sr_malformed : Z; sr_seconds : spec_float; sr_fingerprint : Z }.

(** The timed bulk pass. *)
Definition bench_single (feed : list byte) : outcome SingleRun :=
  r ← consume feed bench_handler;
  let '(feedh, pr) := (r : Feed * ParseResult) in
  seconds ← seconds_between (now 0) (now 1);
  fp ← book_fingerprint hash_order (bb_manager (fh_down feedh));
  Ok (mkSingleRun (Z.of_nat (pr_messages pr)) (Z.of_nat (pr_malformed pr)) seconds fp).

(** The message by message pass; [k] readings have been taken. *)
Fixpoint latency_pass (feed : list byte) (frames : list (nat * nat)) (k : nat) (feedh : Feed)
    (hist : LatencyHistogram) : outcome LatencyHistogram :=
  match frames with
  | [] => Ok hist
  | (off, len) :: frames' =>
      frame ← subspan feed off len;
      r ← consume_datagram frame feedh;
      ns ← elapsed (now k) (now (S k));
      latency_pass feed frames' (S (S k)) r.1 (add_sample (wrap 64 ns) hist)
  end.

(** A key of the report file, in quotes. *)
Definition quote : string := String (Ascii.ascii_of_nat 34) EmptyString.
Definition key (s : string) : string := (quote +:+ s +:+ quote +:+ ": ")%string.
Definition json_format : string := ("{\n  " +:+ key "messages" +:+ "%llu,\n  " +:+ key "symbols" +:+ "%u,\n  " +:+
  key "seed" +:+ "%llu,\n  " +:+ key "malformed" +:+ "%llu,\n  " +:+ key "single_threaded" +:+ "{\n    " +:+
  key "wall_seconds" +:+ "%.6f,\n    " +:+ key "throughput_msg_per_s" +:+ "%.3f,\n    " +:+
  key "avg_latency_ns" +:+ "%.3f,\n    " +:+ key "p50_ns" +:+ "%llu, " +:+ key "p95_ns" +:+ "%llu, " +:+
  key "p99_ns" +:+ "%llu,\n    " +:+ key "min_ns" +:+ "%llu, " +:+ key "max_ns" +:+ "%llu\n  },\n  " +:+
  key "concurrent" +:+ "{\n    " +:+ key "wall_seconds" +:+ "%.6f,\n    " +:+
  key "throughput_msg_per_s" +:+ "%.3f,\n    " +:+ key "analytics_events" +:+ "%llu,\n    " +:+
  key "deterministic" +:+ "%s\n  }\n}\n")%string.

(** The report file: created, written by one call of [fprintf], closed. *)
Definition write_report (path : string) (bytes : list byte) (d : gmap string (list byte)) :
    outcome (bool * gmap string (list byte)) :=
  match fopen_wb sys path d with
  | None => Ok (false, d)
  | Some (f, d) => let '(_, f, d) := fwrite sys bytes f d in Ok (true, fclose sys f d)
  end.

Definition bench_config (args : Args) : SimConfig :=
  sized_config (arg_u64 "symbols" 16 args) (arg_u64 "messages" 2000000 args).

Definition bench_main (argv : list string) : prog Z :=
  let args := parse_args argv in
  let cfg := bench_config args in
  let seed := arg_u64 "seed" 1 args in
  let json_path := arg_str "json" "" args in
  print Stdout "generating %llu messages across %u symbols (seed %llu)...\n"
    [AInt (num_messages cfg); AInt (num_symbols cfg); AInt seed];;
  fs ← lift (build_feed cfg seed);
  let '(feed, frames) := (fs : list byte * list (nat * nat)) in
  print Stdout "feed size: %.1f MB, %zu frames\n"
    [ADouble (double_div (double_of_Z (Z.of_nat (length feed))) (double_of_Z (1024 * 1024)));
     AInt (Z.of_nat (length frames))];;
  st ← lift (bench_single feed);
  let st_mps := double_div (double_of_Z (sr_msgs st)) (sr_seconds st) in
  hist ← lift (latency_pass feed frames 2 bench_handler new_histogram);
  s ← lift (summarize nth_element hist);
  let lat := s.1 in
  let k := (2 + 2 * length frames)%nat in
  run ← lift (run_threads default_pipeline_config interleave (now k) (now (S k)));
  let '(mt, pipeline) := (run : PipelineResult * Threads ndebug) in
  let mt_mps := double_div (double_of_Z (plr_messages_parsed mt)) (plr_wall_seconds mt) in
  let deterministic := pipeline_fingerprint pipeline =? sr_fingerprint st in
  print Stdout "\n================ RESULTS ================\n" [];;
  print Stdout "messages processed     : %llu\n" [AInt (sr_msgs st)];;
  print Stdout "malformed / dropped    : %llu / 0\n" [AInt (sr_malformed st)];;
  print Stdout "\n-- single-threaded --\n" [];;
  print Stdout "wall time              : %.4f s\n" [ADouble (sr_seconds st)];;
  print Stdout "throughput             : %.3f M msg/s\n" [ADouble (double_div st_mps (double_of_Z 1000000))];;
  print Stdout "avg latency            : %.1f ns\n" [ADouble (ls_mean_ns lat)];;
  print Stdout "p50 / p95 / p99        : %llu / %llu / %llu ns\n"
    [AInt (ls_p50_ns lat); AInt (ls_p95_ns lat); AInt (ls_p99_ns lat)];;
  print Stdout "min / max              : %llu / %llu ns\n" [AInt (ls_min_ns lat); AInt (ls_max_ns lat)];;
  print Stdout "\n-- concurrent pipeline (3 threads) --\n" [];;
  print Stdout "wall time              : %.4f s\n" [ADouble (plr_wall_seconds mt)];;
  print Stdout "throughput             : %.3f M msg/s\n" [ADouble (double_div mt_mps (double_of_Z 1000000))];;
  print Stdout "analytics events       : %llu\n" [AInt (plr_analytics_events mt)];;
  print Stdout "deterministic vs ST    : %s\n" [AStr (if deterministic then "YES" else "NO")];;
  print Stdout "=========================================\n" [];;
  if bool_decide (json_path = ""%string) then mret 0 else
  written ← files (write_report json_path (render json_format
    [AInt (sr_msgs st); AInt (num_symbols cfg); AInt seed; AInt (sr_malformed st);
     ADouble (sr_seconds st); ADouble st_mps; ADouble (ls_mean_ns lat);
     AInt (ls_p50_ns lat); AInt (ls_p95_ns lat); AInt (ls_p99_ns lat); AInt (ls_min_ns lat); AInt (ls_max_ns lat);
     ADouble (plr_wall_seconds mt); ADouble mt_mps; AInt (plr_analytics_events mt);
     AStr (if deterministic then "true" else "false")]));
  if written : bool then print Stdout "wrote %s\n" [AStr json_path];; mret 0 else mret 0.
End Benchmark.

(** ** The passes *)

(** The frames of a run that starts at [off]. *)
Fixpoint frame_table (off : nat) (ps : list Packet) : list (nat * nat) :=
  match ps with [] => [] | p :: ps' => (off, packet_size p) :: frame_table (off + packet_size p) ps' end.

Lemma length_frame_table off ps : length (frame_table off ps) = length ps.
Proof. revert off; induction ps as [|p ps IH]; intros off; [done|]. cbn. by rewrite IH. Qed.

Lemma frame_table_inside off ps :
  Forall packet_ok ps ->
  Forall (fun fr => fr.1 + fr.2 <= off + length (stream_bytes ps))%nat (frame_table off ps).
Proof.
  intros Hps. revert off; induction Hps as [|p ps Hp _ IH]; intros off; [constructor|].
  assert (length (stream_bytes (p :: ps)) = (packet_size p + length (stream_bytes ps))%nat) as ->.
  { unfold stream_bytes. cbn. by rewrite length_app, length_packet_bytes. }
  constructor; [cbn; lia|]. eapply Forall_impl; [apply IH|]. cbn. lia.
Qed.

Lemma place_frames_ok ps st :
  Forall packet_ok ps -> length (fb_tmp st) = kMaxMessageSize ->
  exists st', place_frames ps st = Ok st' /\ fb_buf st' = fb_buf st ++ stream_bytes ps /\
    fb_frames st' = fb_frames st ++ frame_table (length (fb_buf st)) ps.
Proof.
  intros Hps. revert st; induction Hps as [|p ps Hp _ IH]; intros st Htmp.
  { exists st. unfold stream_bytes. by rewrite !app_nil_r. }
  pose proof (packet_size_bounds p). cbn [place_frames]. unfold place_frame.
  rewrite encode_packet_fits, bind_ok by (done || lia).
  rewrite subspan_ok, !bind_ok by (rewrite length_app, length_packet_bytes by done; lia).
  rewrite drop_0, take_app_length' by by rewrite length_packet_bytes.
  edestruct IH as (st' & -> & Hbuf & Hfr); [|exists st'; split; [done|]].
  { cbn [fb_tmp]. rewrite length_app, length_drop, length_packet_bytes by done. lia. }
  cbn [fb_buf fb_frames] in *. rewrite Hbuf, Hfr, length_app, length_packet_bytes, <- !app_assoc by done. done.
Qed.

Section Passes.
Context {ndebug : bool} (hash_order : gmap Z OrderBook -> list (Z * OrderBook)).
Hypothesis Hperm : forall m, hash_order m ≡ₚ map_to_list m.
Context (now : nat -> Z).
Hypothesis Hclock : forall i, 0 <= now i < 2 ^ 63.
Notation Feed := (FeedHandler (BookBuilder ndebug)).

(** [n] intervals of two readings each, the first numbered [k]. *)
Fixpoint latencies (k n : nat) : list Z :=
  match n with 0%nat => [] | S n => wrap 64 (now (S k) - now k) :: latencies (S (S k)) n end.
Lemma length_latencies k n : length (latencies k n) = n.
Proof. revert k; induction n as [|n IH]; intros k; [done|]. cbn. by rewrite IH. Qed.

Definition seconds (i : nat) : spec_float :=
  double_div (double_of_Z (now (S i) - now i)) (double_of_Z 1000000000).

Lemma elapsed_ok i j : elapsed (now i) (now j) = Ok (now j - now i).
Proof.
  unfold elapsed. pose proof (Hclock i). pose proof (Hclock j).
  by rewrite (proj2 (in_signedb_spec 64 (now j - now i))) by (unfold in_signed; lia).
Qed.
Lemma seconds_ok i : seconds_between (now i) (now (S i)) = Ok (seconds i).
Proof. unfold seconds_between. by rewrite elapsed_ok, bind_ok. Qed.

Lemma latency_pass_ok feed frames k (feedh : Feed) hist s :
  Forall (fun fr => fr.1 + fr.2 <= length feed)%nat frames ->
  counters_ok feedh -> builder_state (fh_down feedh) s -> checked (fh_down feedh) = false ->
  latency_pass now feed frames k feedh hist =
    Ok (foldl (fun h ns => add_sample ns h) hist (latencies k (length frames))).
Proof.
  intros Hfr. revert k feedh hist s. induction Hfr as [|[off len] frames Hf _ IH]; intros k feedh hist s Hc Hbb Hch; [done|].
  cbn [latency_pass]. rewrite subspan_ok, bind_ok by done.
  destruct (consume_datagram_books (take len (drop off feed)) feedh s Hc Hbb Hch)
    as (feedh' & r & s' & -> & Hc' & Hbb' & Hch').
  rewrite bind_ok, elapsed_ok, bind_ok. by apply (IH _ feedh' _ s').
Qed.

(** The bulk pass over a run of packets. *)
Lemma bench_single_ok ps seq :
  Forall packet_ok ps -> consecutive seq (map pk_seq ps) ->
  bench_single (ndebug := ndebug) hash_order now (stream_bytes ps) =
    Ok (mkSingleRun (Z.of_nat (length ps)) 0 (seconds 0)
          (spec_fingerprint (spec_events (map packet_event ps) (∅, no_stats)).1)).
Proof.
  intros Hps Hseq. unfold bench_single.
  destruct (consume_books (stream_bytes ps) (bench_handler (ndebug := ndebug)) (∅, no_stats))
    as (bb & E & [Hm _] & _); [apply counters_new|apply builder0_state|done|].
  change (fh_residual bench_handler ++ stream_bytes ps) with (stream_bytes ps) in *.
  rewrite E, bind_ok, seconds_ok, bind_ok. rewrite (scan_stream_all ps 0 Hps) in *. cbn [sc_events] in *.
  rewrite (forwarded_consecutive _ seq) in Hm by (done || by rewrite packet_event_seqs).
  cbn [fh_down accumulate set_residual after_events].
  rewrite (book_fingerprint_spec _ _ _ (Hperm _) Hm), bind_ok, packet_scan_result by done. done.
Qed.

(** The pipeline's threads run on the same messages until they have returned. *)
Definition joins (ps : list Packet) (interleave : Threads ndebug -> outcome (Threads ndebug)) : Prop :=
  exists p0 p : Threads ndebug, start_threads default_pipeline_config = Ok p0 /\ interleave p0 = Ok p /\
    threads_run hash_order default_pipeline_config (stream_bytes ps) p0 (Ok p) /\ finished p = true.

Lemma bench_pipeline_ok ps seq interleave i :
  Forall packet_ok ps -> consecutive seq (map pk_seq ps) -> Z.of_nat (length ps) < 2 ^ 64 ->
  joins ps interleave ->
  exists mt p, run_threads default_pipeline_config interleave (now i) (now (S i)) = Ok (mt, p) /\
    plr_messages_parsed mt = Z.of_nat (length ps) /\ plr_wall_seconds mt = seconds i /\
    pipeline_fingerprint p = spec_fingerprint (spec_events (map packet_event ps) (∅, no_stats)).1.
Proof.
  intros Hps Hseq Hlen (p0 & p & E0 & E & Hrun & Hfin). pose proof (bench_single_ok ps seq Hps Hseq) as Hsingle.
  destruct (threads_outcome ndebug hash_order default_pipeline_config (stream_bytes ps))
    as (q0 & fh & r & F0 & Fc & Hend); [done|done|done|done|].
  rewrite E0 in F0. injection F0 as <-. destruct (Hend _ Hrun) as (q & S & [= <-] & _ & Hdone).
  destruct (Hdone Hfin) as [_ Hparsed _ (fp & st & Hfp & Hfinal & _) _].
  unfold bench_single in Hsingle. change (@bench_handler ndebug) with (new_feed (set_verify false (new_builder ndebug))) in Hsingle.
  rewrite Fc, bind_ok, seconds_ok, bind_ok, Hfp, bind_ok in Hsingle. injection Hsingle as Hmsgs _ <-.
  unfold run_threads. rewrite E0, bind_ok, E, bind_ok, Hfin. cbn [negb]. rewrite seconds_ok, bind_ok.
  eexists _, _. split; [reflexivity|]. cbn [plr_messages_parsed plr_wall_seconds].
  split; [|split; [done|]].
  - rewrite Hparsed, Hmsgs. apply wrap_small. unfold in_unsigned. lia.
  - unfold pipeline_fingerprint. by rewrite Hfinal.
Qed.

(** Every fair run gets there. *)
Lemma fair_run_joins ps e w :
  start_threads default_pipeline_config = Ok (e 0%nat) ->
  fair_run hash_order default_pipeline_config (stream_bytes ps) e w ->
  exists N, forall n, (N <= n)%nat -> joins ps (fun _ => Ok (e n)).
Proof.
  intros E0 Hrun.
  destruct (fair_run_ends hash_order default_pipeline_config (stream_bytes ps) e w) as (N & Hfin & Hstay); [done..|].
  exists N. intros n Hn. exists (e 0%nat), (e n). split_and!; [done..|by eapply fair_run_prefix|by rewrite Hstay].
Qed.
End Passes.

(** ** The report *)

Section Report.
Context {ndebug : bool} {Rng : Type} (draw : DistType -> Z -> Z -> Rng -> Z * Rng) (seed_rng : Z -> Rng).
Hypothesis draw_range : forall t a b rng, a <= b -> a <= (draw t a b rng).1 <= b.
Context (hash_order : gmap Z OrderBook -> list (Z * OrderBook)).
Hypothesis Hperm : forall m, hash_order m ≡ₚ map_to_list m.
Context (nth_element : nat -> list Z -> list Z).
Hypothesis Hnth : nth_element_spec nth_element.
Context (sys : Stdio) (render : string -> list Arg -> list byte).
Context (now : nat -> Z).
Hypothesis Hclock : forall i, 0 <= now i < 2 ^ 63.

(** The messages the benchmark generates. *)
Definition bench_run (args : Args) (ps : list Packet) : Prop :=
  exists sim0 sim, new_simulator (bench_config args) (seed_rng (arg_u64 "seed" 1 args)) = Ok sim0 /\
    sim_run draw (bench_config args) sim0 = Ok (ps, sim).

(** The latency report of the samples. *)
Definition latency_report (samples : list Z) (s : LatencySummary) : Prop :=
  match samples with [] => s = empty_summary | _ => is_summary samples s end.

(** What is printed, for a run of [ps] with the summary [s] and [events] seen
    by the analytics thread. *)
Definition bench_lines (args : Args) (ps : list Packet) (s : LatencySummary) (events : Z) : list Output :=
  let n := Z.of_nat (length ps) in
  let mps secs := double_div (double_div (double_of_Z n) secs) (double_of_Z 1000000) in
  let wall := seconds now (2 + 2 * length ps) in
  [mkOutput Stdout "generating %llu messages across %u symbols (seed %llu)...\n"
     [AInt n; AInt (wrap 32 (arg_u64 "symbols" 16 args)); AInt (arg_u64 "seed" 1 args)];
   mkOutput Stdout "feed size: %.1f MB, %zu frames\n"
     [ADouble (double_div (double_of_Z (Z.of_nat (length (stream_bytes ps)))) (double_of_Z (1024 * 1024))); AInt n];
   mkOutput Stdout "\n================ RESULTS ================\n" [];
   mkOutput Stdout "messages processed     : %llu\n" [AInt n];
   mkOutput Stdout "malformed / dropped    : %llu / 0\n" [AInt 0];
   mkOutput Stdout "\n-- single-threaded --\n" [];
   mkOutput Stdout "wall time              : %.4f s\n" [ADouble (seconds now 0)];
   mkOutput Stdout "throughput             : %.3f M msg/s\n" [ADouble (mps (seconds now 0))];
   mkOutput Stdout "avg latency            : %.1f ns\n" [ADouble (ls_mean_ns s)];
   mkOutput Stdout "p50 / p95 / p99        : %llu / %llu / %llu ns\n"
     [AInt (ls_p50_ns s); AInt (ls_p95_ns s); AInt (ls_p99_ns s)];
   mkOutput Stdout "min / max              : %llu / %llu ns\n" [AInt (ls_min_ns s); AInt (ls_max_ns s)];
   mkOutput Stdout "\n-- concurrent pipeline (3 threads) --\n" [];
   mkOutput Stdout "wall time              : %.4f s\n" [ADouble wall];
   mkOutput Stdout "throughput             : %.3f M msg/s\n" [ADouble (mps wall)];
   mkOutput Stdout "analytics events       : %llu\n" [AInt events];
   mkOutput Stdout "deterministic vs ST    : %s\n" [AStr "YES"];
   mkOutput Stdout "=========================================\n" []].

Lemma bench_run_exists args :
  arg_u64 "messages" 2000000 args <= 8589933 -> 1 <= wrap 32 (arg_u64 "symbols" 16 args) ->
  exists ps, bench_run args ps /\ Z.of_nat (length ps) = arg_u64 "messages" 2000000 args /\
    Forall packet_ok ps /\ consecutive 1 (map pk_seq ps).
Proof.
  intros Hm Hs. pose proof (arg_u64_range "messages" 2000000 args) as Hu. unfold in_unsigned in Hu.
  assert (config_ok (bench_config args)) as Hcfg by (apply sized_config_ok; [lia|done]).
  destruct (sim_run_ok draw draw_range (bench_config args) Hcfg (seed_rng (arg_u64 "seed" 1 args))) as (sim0 & ps & sim & E0 & E & Hlen & Hps & Hseq & _).
  exists ps. split; [by exists sim0, sim|]. by split.
Qed.

Lemma build_feed_ok args ps :
  bench_run args ps -> Forall packet_ok ps ->
  build_feed draw seed_rng (bench_config args) (arg_u64 "seed" 1 args) = Ok (stream_bytes ps, frame_table 0 ps).
Proof.
  intros (sim0 & sim & E0 & E) Hps. unfold build_feed. rewrite E0, bind_ok, E, bind_ok. cbn [fst].
  destruct (place_frames_ok ps (mkFeedBuffer [] [] (replicate kMaxMessageSize Byte.x00)) Hps)
    as (st & -> & Hbuf & Hfr); [exact (length_replicate _ _)|].
  rewrite bind_ok. cbn [fb_buf fb_frames app length] in *. by rewrite Hbuf, Hfr.
Qed.

Lemma latency_summary_ok samples :
  Z.of_nat (length samples) < 2 ^ 52 ->
  exists s h, summarize nth_element (record_samples samples) = Ok (s, h) /\ latency_report samples s.
Proof.
  intros Hlen. destruct samples as [|x l]; [by eexists _, _|].
  destruct (summarize_ok nth_element Hnth (x :: l)) as (s & h & E & _ & Hs); [cbn [length] in *; lia|].
  by exists s, h.
Qed.

(** The report file, with what its format is given. *)
Definition report_args (args : Args) (ps : list Packet) (s : LatencySummary) (events : Z) : list Arg :=
  let n := Z.of_nat (length ps) in
  let wall := seconds now (2 + 2 * length ps) in
  [AInt n; AInt (wrap 32 (arg_u64 "symbols" 16 args)); AInt (arg_u64 "seed" 1 args); AInt 0;
   ADouble (seconds now 0); ADouble (double_div (double_of_Z n) (seconds now 0)); ADouble (ls_mean_ns s);
   AInt (ls_p50_ns s); AInt (ls_p95_ns s); AInt (ls_p99_ns s); AInt (ls_min_ns s); AInt (ls_max_ns s);
   ADouble wall; ADouble (double_div (double_of_Z n) wall); AInt events; AStr "true"].

(** Whether there is a report file, and the files with it. *)
Definition writes_report (args : Args) : bool :=
  negb (bool_decide (arg_str "json" "" args = ""%string)) && st_can_create sys (arg_str "json" "" args).
Definition report_files (args : Args) (bytes : list byte) (d : gmap string (list byte)) : gmap string (list byte) :=
  if writes_report args then <[arg_str "json" "" args := take (st_room sys) bytes]> d else d.
Definition report_lines (args : Args) : list Output :=
  if writes_report args then [mkOutput Stdout "wrote %s\n" [AStr (arg_str "json" "" args)]] else [].

Lemma must_write_report {faulty} (Q : bool -> World -> Prop) path bytes w :
  (if st_can_create sys path then Q true (set_files (<[path := take (st_room sys) bytes]> (w_files w)) w) else Q false w) ->
  must faulty Q (files (write_report sys path bytes)) w.
Proof.
  intros HQ. assert (write_report sys path bytes (w_files w) =
    Ok (st_can_create sys path, if st_can_create sys path then <[path := take (st_room sys) bytes]> (w_files w) else w_files w)) as E.
  { unfold write_report, fopen_wb. destruct (st_can_create sys path); [|done].
    destruct (fwrite_appended sys path (w_files w) [] bytes _ _ (appended_new sys path _)) as (n & f & d & -> & Ha & _).
    by rewrite (fclose_appended _ _ _ _ _ _ Ha). }
  apply (must_files _ _ _ _ _ E). destruct (st_can_create sys path); [exact HQ|].
  by rewrite set_files_same.
Qed.

(** C18: the benchmark's verdict is right.  For every command line within the
    generator's bounds, every clock and every run of the pipeline's threads,
    action by action under the memory model, that ends, as every fair one does,
    the program exits with 0, without undefined behaviour, having reported all
    messages as processed, none malformed, the latencies of all messages with
    their order statistics, and the pipeline's books identical to the single
    thread's. *)
Theorem benchmark_report faulty argv w :
  let args := parse_args argv in
  arg_u64 "messages" 2000000 args <= 8589933 -> 1 <= wrap 32 (arg_u64 "symbols" 16 args) ->
  exists ps, bench_run args ps /\ Z.of_nat (length ps) = arg_u64 "messages" 2000000 args /\
    (forall (e : nat -> Threads ndebug) who, start_threads default_pipeline_config = Ok (e 0%nat) ->
       fair_run hash_order default_pipeline_config (stream_bytes ps) e who ->
       exists N, forall n, (N <= n)%nat -> joins hash_order ps (fun _ => Ok (e n))) /\
    forall interleave : Threads ndebug -> outcome (Threads ndebug), joins hash_order ps interleave ->
    must faulty (fun code w' => code = 0 /\ same_fds w w' /\
        exists s events, latency_report (latencies now 2 (length ps)) s /\
          w_printed w' = w_printed w ++ bench_lines args ps s events ++ report_lines args /\
          w_files w' = report_files args (render json_format (report_args args ps s events)) (w_files w))
      (bench_main (ndebug := ndebug) draw seed_rng hash_order nth_element sys render now interleave argv) w.
Proof.
  cbv zeta. set (args := parse_args argv). intros Hm Hs.
  destruct (bench_run_exists args Hm Hs) as (ps & Hrun & Hlen & Hps & Hseq).
  exists ps. split; [done|]. split; [done|]. split; [intros e who; apply fair_run_joins|].
  intros interleave Hjoins. unfold bench_main. cbv zeta. fold args.
  apply must_bind, must_print. apply must_bind, (must_lift _ _ _ _ _ (build_feed_ok args ps Hrun Hps)).
  apply must_bind, must_print. apply must_bind, (must_lift _ _ _ _ _ (bench_single_ok hash_order Hperm now Hclock ps 1 Hps Hseq)).
  apply must_bind, (must_lift _ _ _ _ _ (latency_pass_ok now Hclock _ _ 2 bench_handler new_histogram (∅, no_stats)
    (frame_table_inside 0 ps Hps) (counters_new _) builder0_state eq_refl)).
  rewrite length_frame_table.
  destruct (latency_summary_ok (latencies now 2 (length ps))) as (s & h & Hsum & Hrep).
  { rewrite length_latencies. lia. }
  apply must_bind, (must_lift _ _ _ _ _ Hsum).
  destruct (bench_pipeline_ok hash_order Hperm now Hclock ps 1 interleave (2 + 2 * length ps))
    as (mt & p' & Epipe & Hparsed & Hwall & Hfp); [done..|lia|done|].
  apply must_bind, (must_lift _ _ _ _ _ Epipe).
  rewrite Hfp, Hparsed, Hwall. cbn [sr_msgs sr_malformed sr_seconds sr_fingerprint fst]. rewrite Z.eqb_refl.
  do 15 apply must_bind, must_print. rewrite !prints_one, !prints_prints. cbn [app].
  change (num_messages (bench_config args)) with (arg_u64 "messages" 2000000 args). rewrite <- Hlen.
  unfold report_lines, report_files, writes_report. case_bool_decide as Hjson; cbn [negb andb].
  - apply must_ret. split; [reflexivity|]. split; [by split|].
    exists s, (plr_analytics_events mt). split; [exact Hrep|]. rewrite app_nil_r. by split.
  - apply must_bind, must_write_report. destruct (st_can_create sys (arg_str "json" "" args)).
    + apply must_bind, must_print, must_ret. split; [reflexivity|]. split; [by split|].
      exists s, (plr_analytics_events mt). split; [exact Hrep|]. split; [|reflexivity]. cbn. by rewrite <- app_assoc.
    + apply must_ret. split; [reflexivity|]. split; [by split|].
      exists s, (plr_analytics_events mt). split; [exact Hrep|]. rewrite app_nil_r. by split.
Qed.
End Report.

(** ** A benchmark of six messages *)

Definition demo_bench_args : list string :=
  ["mdfh_benchmark"; "--messages"; "6"; "--symbols"; "2"; "--json"; "bench.json"]%string.
Definition demo_clock (i : nat) : Z := Z.min (1000 + 40 * Z.of_nat i + Z.of_nat i * Z.of_nat i) (2 ^ 62).
Definition demo_bench (interleave : Threads true -> outcome (Threads true)) : itree SysE Z :=
  bench_main (ndebug := true) demo_draw (fun seed => seed) map_to_list (fun _ l => merge_sort Z.le l)
    (buffered 1024 4096) (fun format _ => [Byte.x7b; Byte.x7d]) demo_clock interleave demo_bench_args.

(** The threads taking turns on the benchmark's feed. *)
Definition demo_turns (n : nat) (p : Threads true) : outcome (Threads true) :=
  fs ← build_feed demo_draw (fun seed => seed) (bench_config (parse_args demo_bench_args)) 1;
  Ok (turns map_to_list default_pipeline_config fs.1 n p).

Lemma demo_clock_ok i : 0 <= demo_clock i < 2 ^ 63.
Proof. unfold demo_clock. lia. Qed.

Example demo_bench_runs :
  option_map (fun r => (r.1, nth 15 (w_printed r.2) (mkOutput Stdout "" [])))
    (run 7 60 (demo_bench (demo_turns 400)) (demo_world ∅)) =
  Some (0, mkOutput Stdout "deterministic vs ST    : %s\n" [AStr "YES"]).
Proof. vm_compute. reflexivity. Qed.

Lemma benchmark_report_witness :
  exists interleave fuel w1, run 7 fuel (demo_bench interleave) (demo_world ∅) = Some (0, w1) /\
    In (mkOutput Stdout "deterministic vs ST    : %s\n" [AStr "YES"]) (w_printed w1) /\
    w_files w1 !! "bench.json"%string = Some [Byte.x7b; Byte.x7d].
Proof.
  destruct (benchmark_report (ndebug := true) demo_draw (fun seed => seed) demo_draw_range map_to_list ltac:(done)
    (fun _ l => merge_sort Z.le l) sort_is_nth_element (buffered 1024 4096) (fun format _ => [Byte.x7b; Byte.x7d])
    demo_clock demo_clock_ok true demo_bench_args (demo_world ∅)
    ltac:(vm_compute; congruence) ltac:(vm_compute; congruence)) as (ps & _ & _ & Hends & Hok).
  destruct (start_good (ndebug := true) map_to_list default_pipeline_config (stream_bytes ps)) as (p0 & E0 & Hg);
    [vm_compute; congruence..|].
  destruct (Hends (fun n => turns map_to_list default_pipeline_config (stream_bytes ps) n p0) _ E0
    (turns_fair map_to_list default_pipeline_config (stream_bytes ps) ltac:(discriminate) p0 Hg)) as [N HN].
  destruct (must_run true 7 ltac:(lia) _ _ _ (Hok _ (HN N ltac:(lia)))) as (fuel & code & w1 & Hrun & -> & _ & s & events & _ & Hp & Hf).
  eexists _, fuel, w1. split; [exact Hrun|]. split; [|rewrite Hf; vm_compute; reflexivity].
  rewrite Hp. apply in_or_app. right. apply in_or_app. left. unfold bench_lines. cbv zeta.
  do 15 right. left. reflexivity.
Defined.
